(* ===== verification/_CoqProject ===== *)
-Q . S2P
Prelude.v
RustStr.v
Net.v
Libs.v
LibsRef.v
IpFilter.v
Cache.v
Crypto.v
VaultClient.v
DnsCache.v
Http.v
Config.v
Deadlines.v
RateLimit.v
Replay.v
DbConn.v
Db.v
Migrations.v
App.v
Logic.v
Demo.v
Auth.v
ApiKeys.v
ApiEndpoints.v
Extract.v
Feed.v
FeedProps.v
SyncProps.v
Isolation.v
Router.v
System.v
Frame.v
Writes.v
Stored.v
Revoke.v
ApiProps.v
ApiExact.v
Boot.v
Serve.v
Lockout.v
Tests.v
TestsVault.v
