(* ===== verification/Prelude.v ===== *)
(** * simply_ip_exporter: a verification library

    The program under [src/src] is a service that stands between
    simply_ip_vault, which holds lists of addresses, and firewalls that import
    them.  It copies the records of the Vault groups an endpoint names into
    memory, and publishes them as text under a secret token; API keys (one
    Master, any number of Daughters) administer endpoints through a signed API.
    SQLite holds the configuration; address data never reaches the disk.

    ** Parts, and where they are modelled

    The files below are in dependency order; a Module carries the name of the
    part it models, and a definition the name of the Rust function, with a
    helper's name where a piece of a body needed one of its own.

    - [RustStr] ([Module Str]), [Net] ([Module IpParser]): the part of the
      standard library the program uses: UTF-8 strings as byte strings,
      [trim], [split], integer parsing at their widths, [IpAddr] with its parser
      and [Display].
    - [Libs], [LibsRef]: the crates.  ipnet, hex, sha2, hmac,
      chacha20poly1305, chrono and uuid are not part of the repository: each is
      a class of operations and a class of laws stating documented behaviour
      ([IpNetLaws], [CryptoLaws], [ChronoLaws]).  [LibsRef] has instances that
      satisfy the laws, on which every witness is evaluated.
    - [IpFilter] ([ipfilter.rs]): the withheld ranges, [filter_and_aggregate].
    - [Cache] ([cache.rs]): [IpCache], full and differential synchronisation,
      snapshots with a retention window.
    - [Crypto] ([crypto.rs]): CANONICAL_V1 request signing and [SecretCipher].
    - [VaultClient] ([Module Vault], [vault_client.rs]): the signed client and
      its three paging protocols.
    - [DnsCache] ([Module Dns], [dns_cache.rs] and [bound_ips.rs]): hostname
      resolution with positive and negative expiry, network bindings.
    - [Http]: header values as the handlers read them.
    - [Config] ([config.rs]): [TrustedProxies], the client address of a request,
      the settings of the environment.
    - [Deadlines]: the abstract table of deadlines that [RateLimit]
      ([ratelimit.rs]) and [Replay] ([replay.rs]) refine.
    - [DbConn] ([db.rs]): opening the pool, the pragmas, the catalogue query.
    - [Db] ([entities/], [migration/]): the four tables, their constraints, and
      the effect of each statement the program issues.
    - [Migrations] ([migration/]): the statements of the four migrations in both
      directions, the catalogue they build, and what it demands of the rows.
    - [App] ([error.rs], [state.rs]): [AppError] with its rendering, the shared
      state [World], and the programs handlers are written in (below).
    - [Logic]: a rely-guarantee logic for those programs.
    - [Auth] ([master.rs], [middleware.rs], [api/guards.rs], [api/support.rs]):
      Modules [Master], [Guards], [Support], [Middleware].
    - [ApiKeys] ([Module Keys], [api/keys.rs]); [ApiEndpoints] (Modules [Groups],
      [Endpoints], [ReadOnly]: [api/groups.rs], [api/endpoints.rs],
      [api/audit.rs], [api/auth.rs], [api/health.rs]).
    - [Extract] ([extract.rs]): the extractors and the payload structs they fill;
      axum and serde_json are the class [AxumLib] with its laws [AxumLaws].
    - [Feed] (Modules [Feed] and [Sync]: [feed.rs], [sync.rs], [groups.rs]);
      [FeedProps], [SyncProps] and [Isolation] have the theorems about them.
    - [Router] ([lib.rs]): the route table and the answer to any request.
    - [System]: requests, the workers and the priming of the proxies, and every
      interleaving of them.
    - [Frame]: what a step of any task does to the replay guard, the rate limiter
      and the pin, and what follows for every history of the service.
    - [Writes]: which statements ever change the database, and the audit log;
      [Revoke]: what a key that was rotated or deleted is still good for.
    - [Stored]: what the validations promise of every stored row, from the bytes
      of a request to the readers of the row.
    - [ApiProps], [ApiExact]: theorems about the handlers.
    - [Boot] ([main.rs]): startup; [Serve]: the rest of [main], up to the open
      listener; [Lockout]: a startup that shuts everyone out.
    - [Demo]: a small service the witnesses run.
    - [Tests], [TestsVault]: the unit tests of the repository, evaluated on the
      definitions.

    ** How a handler is modelled

    A handler is a [prog]: a tree of atomic steps on the [World].  A step is one
    SQL statement, one transaction, or one operation under a lock, the places
    where the Rust code awaits or releases a lock.  Two are coarser: a fetch from
    Vault is one step, which shares only the client's timestamp counter with the
    other tasks, and so is the resolution of the names of one list, which shares
    only the DNS cache.  A step meets a [Tick]:
    the clocks it reads, the identifiers and random bytes it draws, whether the
    database fails, what the name server and Vault answer.  Ticks are arbitrary,
    so a theorem over all ticks covers every failure.  [let!] is Rust's [?] and
    [let*] plain sequencing.

    Readings of a program:  [run] executes it alone ([outcome],
    [after], [trace]).  [exec p tr a] says that [tr] is the list of steps of one
    execution of [p] that returned [a]; the world may change arbitrarily between
    two of its steps, so [exec] covers every interleaving with other tasks.
    [sched] interleaves a growing set of tasks step by step; [keeps G p] is the
    rely-guarantee condition that makes a property of single steps an invariant
    of every interleaving ([sched_keeps]).  [history] is the list of the steps of
    an interleaving, for properties that relate two moments of it.  [spec W R p Q]
    ([Logic]) specifies a program whose steps meet worlds in [W]: its steps follow
    [R] and its result is in [Q]; [history_invariant] lifts the specifications of
    all tasks to every history.  [obeys T R p] bounds the steps of a program met by
    the ticks in [T], and [respects R p Q] is relational: two executions that meet
    related worlds give related results.

    ** What is shown

    - The service as a whole ([Router], [System], [ApiProps]): no request changes
      anything before it is authenticated, and a body with an undeclared field
      changes nothing at all; the database constraints hold in every reachable
      state; the master cannot be changed, replaced, demoted or joined by
      another; a Daughter changes no key, grant or pin, no
      endpoint but its own, names no group it was not granted, and is shown
      nothing but its own rows ([ApiExact]); an update patches the fields it names
      and nothing else; mutations that succeed are audited and the log they are in
      is append-only ([Writes]); a key that was rotated or deleted opens nothing
      from the next step on ([Revoke]); key deletion is all or nothing; credentials that
      were returned are the ones that work.  Under every interleaving a signature
      is accepted once per window and a client is sent one body per window
      ([Frame]).
    - Stored values ([Stored]): the validations of the handlers are a type
      invariant of the database in every history, whatever bytes requests carry,
      and therefore no request is answered 500 because of a stored binding or
      secret.  The bootstrap skips the validation of BOOTSTRAP_SUBNET, and what
      follows from that is [bad_subnet_locks_out].
    - Authentication ([Auth], [Crypto], [Replay], [Config]): a handler runs only
      for a fresh, unused signature of exactly that request under a stored key,
      from an address the key admits; payloads are injective; the client address
      cannot be forged behind trusted proxies; 403 is answered only to a holder
      of the secret.  The timestamp check is characterised to the last [i64], the
      value it wrongly accepts included, and single use does not outlast one
      window: a signature stamped in the future can be used twice
      ([future_signature_replayable]).
    - The feed ([FeedProps], [Isolation], [IpFilter], [RateLimit]): an answer
      depends on nothing but its own endpoint and the client; the published blocks cover
      exactly the recent cached addresses outside the withheld ranges, their
      text is independent of hash-map order, only bodies are charged to the rate
      limiter, which refines an unbounded table in bounded memory.
    - Synchronisation ([Cache], [VaultClient], [FeedProps], [SyncProps]): Vault
      holds memberships, an address within one group, and lists them in any order,
      so an address can come several times ([Cache.VaultState], [Cache.lists]).
      Of each address the cache holds what the last item that named it says
      ([cache_is_last_word]); after a full pass that is the time of one of its live
      memberships, and the startup pass leaves every feed so; a differential pass
      carries over what Vault lists for its cursor and nothing else
      ([differential_sync_exact]).  Two things are lost until the next full pass: a
      change stamped before the cursor that was not seen yet, and an address
      deleted in one group while it is live in another.  A snapshot is exact or
      panics, and when; the paging walk is complete, terminates, panics only for an
      absurd number of announced pages, and signs every request; a failed fetch
      changes nothing; no feed goes a day without a full pass while Vault answers;
      the cleanup removes only grants Vault no longer backs.
    - The schema ([Db], [Migrations]): the constraints the migrations declare are
      exactly the integrity invariant the statements keep, deletion follows the
      declared actions, each migration is undone by its [down], and the relations
      the entities declare are the foreign keys of the schema.
    - Startup ([Boot], [DbConn]): success leaves one pinned master whose secret, if
      it has one, opens, and it stays the pinned, only master in every state the service
      reaches from there; a fresh database starts; a wrong encryption key does
      not; the caches are full before the listener opens ([Serve]).

    ** Bounds and fuel

    The paging loop of [vault_client.rs] is bounded by MAX_PAGES; its model takes
    fuel and [fetch_ips] supplies one more than that, and [fetch_ips_terminates]
    shows that the fuel is never exhausted, whatever Vault answers.  A fetch that
    panics or aborts is [None] ([Vault.Fetched]); it ends the task it happens in,
    and how much memory can be had is a field of [VaultEnv].  The worker
    loops run for ever: [sync_worker n] is their first [n] passes, for every [n];
    [cut n] is a program stopped after [n] steps, which is what a timeout does to
    [run_boot_sync].  Clocks and durations are nanosecond counts in [Z]; i64
    arithmetic that the source leaves unchecked is [wrap_i64], and operations of
    chrono that panic return [None].

    ** Not modelled

    Logging; the socket, the HTTP protocol and static files; signals and the
    graceful shutdown, which are the doing of axum and tokio; the migration runner, of which startup sees success or
    failure; the length of sleeps; the tests under [tests/] and the scripts.
    JSON and HTTP encoding are done by crates: the decoding of Vault's answers is
    the class [JsonLib], the reading of requests [AxumLib]. *)

From stdpp Require Export base tactics list numbers strings gmap sorting pretty.

(** ** Results: Rust's [Result<A, E>] *)

Inductive result (A E : Type) : Type :=
| Ok (a : A)
| Err (e : E).
Arguments Ok {A E} a.
Arguments Err {A E} e.

Declare Scope rust_scope.
Delimit Scope rust_scope with rust.

(** [e?] followed by the rest of the body: an [Err] is returned at once. *)
Notation "'let?' x := e 'in' k" :=
  (match e with Ok x => k | Err err => Err err end)
  (at level 10, x binder, e at level 100, k at level 200) : rust_scope.

#[global] Instance result_eq_dec {A E} `{EqDecision A, EqDecision E} :
  EqDecision (result A E).
Proof. solve_decision. Defined.

(** [Result::is_ok]. *)
Definition is_ok {A E} (r : result A E) : bool :=
  match r with Ok _ => true | Err _ => false end.

(** [Option::ok_or]. *)
Definition ok_or {A E} (o : option A) (e : E) : result A E :=
  match o with Some a => Ok a | None => Err e end.

(** [Result::map_err]. *)
Definition map_err {A E F} (f : E -> F) (r : result A E) : result A F :=
  match r with Ok a => Ok a | Err e => Err (f e) end.

(** ** Lists *)

(** [Iterator::filter] with a boolean predicate. *)
Lemma elem_of_filter_bool {A} (p : A -> bool) (l : list A) x :
  x ∈ List.filter p l <-> p x = true /\ x ∈ l.
Proof. rewrite !list_elem_of_In, filter_In. tauto. Qed.

(** A non-empty filter result. *)
Lemma head_filter_bool {A} (p : A -> bool) (l : list A) x :
  head (List.filter p l) = Some x -> p x = true /\ x ∈ l.
Proof.
  intros Hh. apply elem_of_filter_bool. destruct (List.filter p l); [done|]. simplify_eq/=. by left.
Qed.

(** An element by its place. *)
Lemma default_lookup {A} (x : A) (l : list A) (n : nat) :
  bool_decide (is_Some (l !! n)) = true -> l !! n = Some (default x (l !! n)).
Proof. intros [y Hy]%bool_decide_eq_true. by rewrite Hy. Qed.

(** ** Machine integers and durations

    Times and durations are nanosecond counts in [Z]; 64-bit signed arithmetic
    that may overflow is written with [wrap_i64] (a release build wraps). *)

Definition i64_min : Z := - 2 ^ 63.
Definition i64_max : Z := 2 ^ 63 - 1.

Definition wrap_i64 (z : Z) : Z := (z + 2 ^ 63) `mod` 2 ^ 64 - 2 ^ 63.

Definition nanos_per_sec : Z := 1000000000.

(** [Duration::from_secs]. *)
Definition from_secs (s : Z) : Z := s * nanos_per_sec.

(** ** Identifiers and byte strings *)

(** A 128-bit [Uuid]. *)
Abbreviation Uuid := N (only parsing).

(** [Vec<u8>] and [String] are both byte sequences. *)
Abbreviation Bytes := string (only parsing).
