(* ===== verification/RustStr.v ===== *)
(** * The part of Rust's [str], [char] and integer parsing the program uses

    A Rust string is its UTF-8 byte sequence, a Rocq [string] of 8-bit [ascii].
    [str::len], [bytes], [==] and [Ord] are byte-wise, so they are length,
    equality and [String.le] here; [str::trim] removes the Unicode White_Space
    characters, written out as their UTF-8 encodings. *)

From S2P Require Import Prelude.
From Stdlib Require Import Ascii.
#[local] Open Scope Z_scope.

Module Str.

(** ** Characters *)

Definition code (c : ascii) : Z := Z.of_N (N_of_ascii c).

Definition in_range (lo hi : Z) (c : ascii) : bool := (lo <=? code c) && (code c <=? hi).

Definition is_ascii_digit : ascii -> bool := in_range 48 57.

Definition is_ascii_alphanumeric (c : ascii) : bool :=
  in_range 48 57 c || in_range 65 90 c || in_range 97 122 c.

Definition is_ascii_hexdigit (c : ascii) : bool :=
  in_range 48 57 c || in_range 65 70 c || in_range 97 102 c.

(** [char::to_digit] in radix 10 or 16. *)
Definition to_digit (radix : Z) (c : ascii) : option Z :=
  let d :=
    if in_range 48 57 c then code c - 48
    else if in_range 97 122 c then code c - 87
    else if in_range 65 90 c then code c - 55
    else 99 in
  if d <? radix then Some d else None.

(** ** Strings *)

Fixpoint all_chars (f : ascii -> bool) (s : string) : bool :=
  match s with
  | EmptyString => true
  | String c s' => f c && all_chars f s'
  end.

(** [str::contains(char)]. *)
Definition contains (c : ascii) (s : string) : bool :=
  negb (all_chars (fun c' => negb (Ascii.eqb c c')) s).

Definition is_empty (s : string) : bool :=
  match s with EmptyString => true | _ => false end.

(** First and last byte. *)
Definition first_byte (s : string) : option ascii :=
  match s with EmptyString => None | String c _ => Some c end.

Fixpoint last_byte (s : string) : option ascii :=
  match s with
  | EmptyString => None
  | String c EmptyString => Some c
  | String _ s' => last_byte s'
  end.

(** [str::split(char)]: never the empty list. *)
Fixpoint split (sep : ascii) (s : string) : list string :=
  match s with
  | EmptyString => [""]
  | String c s' =>
      if Ascii.eqb c sep then "" :: split sep s'
      else match split sep s' with
           | [] => [String c ""]
           | p :: ps => String c p :: ps
           end
  end.

(** [str::split_once(char)]. *)
Fixpoint split_once (sep : ascii) (s : string) : option (string * string) :=
  match s with
  | EmptyString => None
  | String c s' =>
      if Ascii.eqb c sep then Some ("", s')
      else match split_once sep s' with
           | Some (a, b) => Some (String c a, b)
           | None => None
           end
  end.

(** [[String]::join]. *)
Fixpoint join (sep : string) (l : list string) : string :=
  match l with
  | [] => ""
  | [s] => s
  | s :: l' => s +:+ sep +:+ join sep l'
  end.

(** [str::strip_prefix(&str)]. *)
Fixpoint strip_prefix (p s : string) : option string :=
  match p, s with
  | EmptyString, _ => Some s
  | String c p', String c' s' => if Ascii.eqb c c' then strip_prefix p' s' else None
  | String _ _, EmptyString => None
  end.

(** [chars().take(n).collect()] on an ASCII string. *)
Fixpoint take (n : nat) (s : string) : string :=
  match n, s with
  | S n', String c s' => String c (take n' s')
  | _, _ => ""
  end.

(** [str::trim_end_matches(char)]. *)
Fixpoint trim_start_char (c : ascii) (s : string) : string :=
  match s with
  | String c' s' => if Ascii.eqb c c' then trim_start_char c s' else s
  | EmptyString => EmptyString
  end.

Definition trim_end_char (c : ascii) (s : string) : string :=
  String.rev (trim_start_char c (String.rev s)).

(** *** [str::trim]

    White_Space in UTF-8: one byte 09-0D, 20; two bytes C2 85, C2 A0; three
    bytes E1 9A 80, E2 80 80-8A, E2 80 A8, E2 80 A9, E2 80 AF, E2 81 9F,
    E3 80 80. *)

Definition ws1 (c : ascii) : bool := in_range 9 13 c || (code c =? 32).

Definition ws2 (c1 c2 : ascii) : bool :=
  (code c1 =? 194) && ((code c2 =? 133) || (code c2 =? 160)).

Definition ws3 (c1 c2 c3 : ascii) : bool :=
  ((code c1 =? 225) && (code c2 =? 154) && (code c3 =? 128))
  || ((code c1 =? 226) && (code c2 =? 128)
      && (in_range 128 138 c3 || (code c3 =? 168) || (code c3 =? 169) || (code c3 =? 175)))
  || ((code c1 =? 226) && (code c2 =? 129) && (code c3 =? 159))
  || ((code c1 =? 227) && (code c2 =? 128) && (code c3 =? 128)).

(** Drop leading white space, the bytes of a character read in the order
    [fwd] says (backwards for [trim_end], which runs on the reversed string). *)
Fixpoint drop_ws (fwd : bool) (s : string) : string :=
  match s with
  | EmptyString => EmptyString
  | String c1 s1 =>
      if ws1 c1 then drop_ws fwd s1 else
      match s1 with
      | EmptyString => s
      | String c2 s2 =>
          if (if fwd then ws2 c1 c2 else ws2 c2 c1) then drop_ws fwd s2 else
          match s2 with
          | EmptyString => s
          | String c3 s3 =>
              if (if fwd then ws3 c1 c2 c3 else ws3 c3 c2 c1) then drop_ws fwd s3 else s
          end
      end
  end.

Definition trim_start : string -> string := drop_ws true.

Definition trim_end (s : string) : string := String.rev (drop_ws false (String.rev s)).

Definition trim (s : string) : string := trim_end (trim_start s).

(** [split(',').map(str::trim).filter(|s| !s.is_empty())]: the list syntax of
    [bound_ips], [TRUSTED_PROXIES], [vault_groups] and [X-Forwarded-For]. *)
Definition comma_entries (raw : string) : list string :=
  filter (fun s => is_empty s = false) (trim <$> split "," raw).

(** ** Numbers *)

Fixpoint digits_value (acc : Z) (s : string) : option Z :=
  match s with
  | EmptyString => Some acc
  | String c s' =>
      match to_digit 10 c with
      | Some d => digits_value (10 * acc + d) s'
      | None => None
      end
  end.

(** The unsigned digits of a number: at least one. *)
Definition parse_digits (s : string) : option Z :=
  if is_empty s then None else digits_value 0 s.

Definition bounded (lo hi : Z) (o : option Z) : option Z :=
  match o with
  | Some z => if (lo <=? z) && (z <=? hi) then Some z else None
  | None => None
  end.

(** [str::parse::<i64>]: an optional sign, then digits, in range. *)
Definition parse_i64 (s : string) : option Z :=
  bounded i64_min i64_max
    match s with
    | String "+" s' => parse_digits s'
    | String "-" s' => Z.opp <$> parse_digits s'
    | _ => parse_digits s
    end.

(** [str::parse] at an unsigned type of maximum [hi]: only [+] is a sign. *)
Definition parse_unsigned (hi : Z) (s : string) : option Z :=
  bounded 0 hi
    match s with
    | String "+" s' => parse_digits s'
    | _ => parse_digits s
    end.

Definition parse_u16 : string -> option Z := parse_unsigned (2 ^ 16 - 1).
Definition parse_usize : string -> option Z := parse_unsigned (2 ^ 64 - 1).
Definition parse_u64 : string -> option Z := parse_unsigned (2 ^ 64 - 1).

(** ** UTF-8 validity ([String::from_utf8]) *)

Definition cont (c : ascii) : bool := in_range 128 191 c.

Fixpoint is_utf8 (s : string) : bool :=
  match s with
  | EmptyString => true
  | String c1 s1 =>
      if code c1 <? 128 then is_utf8 s1 else
      match s1 with
      | EmptyString => false
      | String c2 s2 =>
          if in_range 194 223 c1 then cont c2 && is_utf8 s2 else
          match s2 with
          | EmptyString => false
          | String c3 s3 =>
              if in_range 224 239 c1 then
                cont c2 && cont c3
                && implb (code c1 =? 224) (160 <=? code c2)
                && implb (code c1 =? 237) (code c2 <=? 159)
                && is_utf8 s3
              else
              match s3 with
              | EmptyString => false
              | String c4 s4 =>
                  in_range 240 244 c1 && cont c2 && cont c3 && cont c4
                  && implb (code c1 =? 240) (144 <=? code c2)
                  && implb (code c1 =? 244) (code c2 <=? 143)
                  && is_utf8 s4
              end
          end
      end
  end.

(** ** Lemmas *)

Lemma code_bound c : 0 <= code c < 256.
Proof.
  unfold code. destruct c as [[] [] [] [] [] [] [] []]; by vm_compute.
Qed.

Lemma code_inj c c' : code c = code c' -> c = c'.
Proof.
  unfold code. intros H. apply N2Z.inj in H.
  by rewrite <- (ascii_N_embedding c), <- (ascii_N_embedding c'), H.
Qed.

Lemma split_nonempty sep s : split sep s <> [].
Proof. induction s as [|c s IH]; simpl; [done|]. by repeat case_match. Qed.

(** A piece of a split never contains the separator. *)
Lemma split_no_sep sep s p : p ∈ split sep s -> contains sep p = false.
Proof.
  revert p. induction s as [|c s IH]; intros p Hp; simpl in Hp.
  { apply list_elem_of_singleton in Hp as ->. done. }
  destruct (Ascii.eqb_spec c sep) as [->|Hne].
  - apply elem_of_cons in Hp as [->|Hp]; [done|by apply IH].
  - destruct (split sep s) as [|q qs] eqn:Hs; [by apply split_nonempty in Hs|].
    apply elem_of_cons in Hp as [->|Hp].
    + specialize (IH q ltac:(set_solver)). unfold contains in *. simpl.
      destruct (Ascii.eqb_spec sep c); [by subst|]. done.
    + apply IH. set_solver.
Qed.

(** Splitting and joining again gives the string back. *)
Lemma join_split sep s : join (String sep "") (split sep s) = s.
Proof.
  induction s as [|c s IH]; [done|]. cbn [split].
  pose proof (split_nonempty sep s) as Hn.
  destruct (Ascii.eqb_spec c sep) as [->|_].
  - destruct (split sep s) as [|p ps]; [done|]. rewrite <- IH. done.
  - destruct (split sep s) as [|p ps]; [done|]. rewrite <- IH. by destruct ps.
Qed.

Lemma all_chars_app f s t : all_chars f (s +:+ t) = all_chars f s && all_chars f t.
Proof. induction s as [|c s IH]; simpl; [done|]. by rewrite IH, andb_assoc. Qed.

Lemma all_chars_impl (f g : ascii -> bool) s :
  (forall c, f c = true -> g c = true) -> all_chars f s = true -> all_chars g s = true.
Proof.
  intros Hfg. induction s as [|c s IH]; simpl; [done|].
  rewrite !andb_true_iff. intros [??]. auto.
Qed.

Lemma contains_app c s t : contains c (s +:+ t) = contains c s || contains c t.
Proof. unfold contains. by rewrite all_chars_app, negb_andb. Qed.

Lemma strip_prefix_app p s : strip_prefix p (p +:+ s) = Some s.
Proof. induction p as [|c p IH]; simpl; [done|]. by rewrite Ascii.eqb_refl. Qed.

Lemma strip_prefix_Some p s t : strip_prefix p s = Some t -> s = p +:+ t.
Proof.
  revert s. induction p as [|c p IH]; intros s Hs; simpl in *; [by simplify_eq|].
  destruct s as [|c' s]; [done|]. destruct (Ascii.eqb_spec c c') as [->|]; [|done].
  by rewrite (IH _ Hs).
Qed.

Lemma split_once_app sep a b :
  contains sep a = false -> split_once sep (a +:+ String sep b) = Some (a, b).
Proof.
  unfold contains. induction a as [|c a IH]; simpl; intros Hc.
  - by rewrite Ascii.eqb_refl.
  - rewrite Ascii.eqb_sym. destruct (Ascii.eqb sep c); [done|]. simpl in Hc. by rewrite IH.
Qed.

Lemma split_once_Some sep s a b :
  split_once sep s = Some (a, b) -> s = a +:+ String sep b /\ contains sep a = false.
Proof.
  revert a b. induction s as [|c s IH]; intros a b Hs; simpl in *; [done|].
  destruct (Ascii.eqb_spec c sep) as [->|Hne]; [by simplify_eq|].
  destruct (split_once sep s) as [[a' b']|] eqn:Hs'; [|done]. simplify_eq.
  destruct (IH _ _ eq_refl) as [-> Hc]. split; [done|].
  unfold contains in *. simpl. destruct (Ascii.eqb_spec sep c); [by subst|done].
Qed.

(** A string with no white-space or multi-byte character is its own trim. *)
Definition plain (c : ascii) : bool := in_range 33 126 c.

Lemma plain_not_ws c : plain c = true -> ws1 c = false /\ code c < 128.
Proof.
  unfold plain, ws1, in_range. rewrite andb_true_iff, !Z.leb_le. intros [H1 H2].
  split; [|lia]. rewrite orb_false_iff, andb_false_iff, Z.leb_gt, Z.leb_gt, Z.eqb_neq. lia.
Qed.

Lemma ws23_multibyte c1 c2 c3 :
  (ws2 c1 c2 = true -> 128 <= code c1 /\ 128 <= code c2) /\
  (ws3 c1 c2 c3 = true -> 128 <= code c1 /\ 128 <= code c3).
Proof.
  unfold ws2, ws3, in_range. split; rewrite ?orb_true_iff, ?andb_true_iff, ?orb_true_iff,
    ?andb_true_iff, ?Z.eqb_eq, ?Z.leb_le; lia.
Qed.

Lemma drop_ws_plain fwd c s : plain c = true -> drop_ws fwd (String c s) = String c s.
Proof.
  intros Hp. destruct (plain_not_ws c Hp) as [Hw Hc]. simpl. rewrite Hw.
  destruct s as [|c2 s2]; [done|].
  destruct (if fwd then ws2 c c2 else ws2 c2 c) eqn:H2.
  { destruct fwd; [pose proof (ws23_multibyte c c2 c)|pose proof (ws23_multibyte c2 c c)];
      naive_solver lia. }
  destruct s2 as [|c3 s3]; [done|].
  destruct (if fwd then ws3 c c2 c3 else ws3 c3 c2 c) eqn:H3; [|done].
  destruct fwd; [pose proof (ws23_multibyte c c2 c3)|pose proof (ws23_multibyte c3 c2 c)];
    naive_solver lia.
Qed.

Lemma rev_app_spec s : forall t u,
  String.rev_app (String.rev_app s t) u = String.rev_app t (s +:+ u).
Proof. induction s as [|c s IH]; intros t u; simpl; [done|]. by rewrite IH. Qed.

Lemma app_cons c s t : String c s +:+ t = String c (s +:+ t).
Proof. done. Qed.

Lemma app_empty_r s : s +:+ "" = s.
Proof. induction s as [|c s IH]; [done|]. by rewrite app_cons, IH. Qed.

Lemma app_assoc_str s t u : s +:+ t +:+ u = (s +:+ t) +:+ u.
Proof. induction s as [|c s IH]; [done|]. by rewrite !app_cons, IH. Qed.

Lemma app_inv_head s t u : s +:+ t = s +:+ u -> t = u.
Proof. induction s as [|c s IH]; [done|]. rewrite !app_cons. intros [= H]. by apply IH. Qed.

Lemma rev_rev s : String.rev (String.rev s) = s.
Proof. unfold String.rev. rewrite rev_app_spec. apply app_empty_r. Qed.

Lemma all_chars_rev_app f s : forall t,
  all_chars f (String.rev_app s t) = all_chars f s && all_chars f t.
Proof.
  induction s as [|c s IH]; intros t; simpl; [done|]. rewrite IH. simpl.
  destruct (f c), (all_chars f s); done.
Qed.

Lemma drop_ws_all_plain fwd s : all_chars plain s = true -> drop_ws fwd s = s.
Proof.
  destruct s as [|c s]; [done|]. cbn [all_chars]. intros [Hc _]%andb_true_iff.
  by apply drop_ws_plain.
Qed.

Lemma trim_plain s : all_chars plain s = true -> trim s = s.
Proof.
  intros Hs. unfold trim, trim_end, trim_start.
  rewrite (drop_ws_all_plain true) by done. rewrite drop_ws_all_plain; [apply rev_rev|].
  unfold String.rev. by rewrite all_chars_rev_app, Hs.
Qed.

End Str.
