(* ===== verification/Net.v ===== *)
(** * Internet addresses: [std::net::IpAddr]

    Addresses, the parser behind [str::parse::<IpAddr>] (core's recursive-descent
    [Parser], read one byte at a time with backtracking), [Display], and the
    address arithmetic the networks of [Libs] are specified with. *)

From S2P Require Import Prelude.
From S2P Require Import RustStr.
From Stdlib Require Import Ascii.
#[local] Open Scope Z_scope.

(** [IpAddr]: the address bits as an unsigned integer ([u32] or [u128]). *)
Inductive IpAddr : Type :=
| V4 (addr : Z)
| V6 (addr : Z).

#[global] Instance IpAddr_eq_dec : EqDecision IpAddr.
Proof. solve_decision. Defined.

#[global] Instance IpAddr_countable : Countable IpAddr.
Proof.
  refine (inj_countable'
    (fun a => match a with V4 b => inl b | V6 b => inr b end)
    (fun s => match s with inl b => V4 b | inr b => V6 b end) _).
  by intros [].
Defined.

(** Width in bits of an address of this family. *)
Definition width (a : IpAddr) : Z := match a with V4 _ => 32 | V6 _ => 128 end.

Definition bits (a : IpAddr) : Z := match a with V4 b | V6 b => b end.

Definition with_bits (a : IpAddr) (b : Z) : IpAddr :=
  match a with V4 _ => V4 b | V6 _ => V6 b end.

Definition same_family (a b : IpAddr) : bool :=
  match a, b with V4 _, V4 _ | V6 _, V6 _ => true | _, _ => false end.

(** A value of the type: the bits fit the family's width. *)
Definition ip_wf (a : IpAddr) : Prop := 0 <= bits a < 2 ^ width a.

(** The address with its host part (all but the first [p] bits) cleared. *)
Definition mask (p : Z) (a : IpAddr) : IpAddr :=
  with_bits a (Z.shiftl (Z.shiftr (bits a) (width a - p)) (width a - p)).

(** [IpAddr::V6(v6)] to its IPv4 form when it is [::ffff:a.b.c.d]. *)
Definition to_ipv4_mapped (v6 : Z) : option Z :=
  if Z.shiftr v6 32 =? 65535 then Some (Z.land v6 (Z.ones 32)) else None.

(** ** Parsing *)

Module IpParser.

(** The digits of a number, at most [max] of them. *)
Fixpoint read_digits (radix max acc count : Z) (s : string) : option (Z * Z * string) :=
  match s with
  | EmptyString => Some (acc, count, s)
  | String c s' =>
      match Str.to_digit radix c with
      | Some d =>
          if max <? count + 1 then None
          else read_digits radix max (acc * radix + d) (count + 1) s'
      | None => Some (acc, count, s)
      end
  end.

(** [Parser::read_number] with a digit limit; [limit] is the target type's maximum. *)
Definition read_number (radix max limit : Z) (allow_zero_prefix : bool) (s : string)
  : option (Z * string) :=
  match read_digits radix max 0 0 s with
  | Some (v, count, rest) =>
      let leading_zero := match s with String "0" _ => true | _ => false end in
      if count =? 0 then None
      else if negb allow_zero_prefix && leading_zero && (1 <? count) then None
      else if v <=? limit then Some (v, rest) else None
  | None => None
  end.

(** [read_separator]: the separator is expected unless this is the first group. *)
Definition read_sep (sep : ascii) (first : bool) (s : string) : option string :=
  if first then Some s else Str.strip_prefix (String sep "") s.

Definition read_octet (first : bool) (s : string) : option (Z * string) :=
  match read_sep "." first s with
  | Some s' => read_number 10 3 255 false s'
  | None => None
  end.

(** [read_ipv4_addr]. *)
Definition read_ipv4 (s : string) : option (Z * string) :=
  match read_octet true s with
  | Some (a, s) =>
    match read_octet false s with
    | Some (b, s) =>
      match read_octet false s with
      | Some (c, s) =>
        match read_octet false s with
        | Some (d, s) => Some (((a * 256 + b) * 256 + c) * 256 + d, s)
        | None => None
        end
      | None => None
      end
    | None => None
    end
  | None => None
  end.

(** [read_groups] into a slice of [limit] groups: the groups read, whether they
    end in an embedded IPv4 address, and the rest of the input.  An IPv4 address
    is tried first wherever at least two groups are left. *)
Fixpoint read_groups (limit : nat) (first : bool) (s : string) : list Z * bool * string :=
  match limit with
  | O => ([], false, s)
  | S limit' =>
      let v4 :=
        match limit' with
        | O => None
        | S _ => match read_sep ":" first s with Some s' => read_ipv4 s' | None => None end
        end in
      match v4 with
      | Some (a, rest) => ([a / 65536; a mod 65536], true, rest)
      | None =>
          match read_sep ":" first s with
          | Some s' =>
              match read_number 16 4 65535 true s' with
              | Some (g, rest) =>
                  let '(gs, is_v4, rest') := read_groups limit' false rest in
                  (g :: gs, is_v4, rest')
              | None => ([], false, s)
              end
          | None => ([], false, s)
          end
      end
  end.

Definition segments_value (gs : list Z) : Z := foldl (fun acc g => acc * 65536 + g) 0 gs.

(** [read_ipv6_addr]. *)
Definition read_ipv6 (s : string) : option (Z * string) :=
  let '(head, head_v4, rest) := read_groups 8 true s in
  if (length head =? 8)%nat then Some (segments_value head, rest)
  else if head_v4 then None
  else match Str.strip_prefix "::" rest with
       | Some rest' =>
           let '(tail, _, rest'') := read_groups (7 - length head) true rest' in
           Some (segments_value
                   (head ++ replicate (8 - length head - length tail) 0 ++ tail), rest'')
       | None => None
       end.

End IpParser.

(** [str::parse::<IpAddr>]: an IPv4 address, else an IPv6 one, and nothing left. *)
Definition ip_parse (s : string) : option IpAddr :=
  match IpParser.read_ipv4 s with
  | Some (a, rest) => if Str.is_empty rest then Some (V4 a) else None
  | None =>
      match IpParser.read_ipv6 s with
      | Some (a, rest) => if Str.is_empty rest then Some (V6 a) else None
      | None => None
      end
  end.

(** ** Display *)

Definition hex_char (d : Z) : ascii := ascii_of_N (Z.to_N (if d <? 10 then 48 + d else 87 + d)).

(** [{:x}] of a 16-bit group. *)
Definition show_hex16 (g : Z) : string :=
  let digit k := String (hex_char (Z.land (Z.shiftr g (4 * k)) 15)) "" in
  (if g <? 4096 then "" else digit 3) +:+ (if g <? 256 then "" else digit 2)
  +:+ (if g <? 16 then "" else digit 1) +:+ digit 0.

Definition show_v4 (a : Z) : string :=
  let octet k := pretty (Z.land (Z.shiftr a (8 * k)) 255) in
  octet 3 +:+ "." +:+ octet 2 +:+ "." +:+ octet 1 +:+ "." +:+ octet 0.

Definition segments (a : Z) : list Z :=
  (fun k => Z.land (Z.shiftr a (16 * k)) 65535) <$> [7; 6; 5; 4; 3; 2; 1; 0].

(** The first longest run of zero segments, as (start, length). *)
Fixpoint longest_zero_run (gs : list Z) (i cur_start cur_len best_start best_len : nat)
  : nat * nat :=
  match gs with
  | [] => (best_start, best_len)
  | g :: gs' =>
      if g =? 0 then
        let cs := if (cur_len =? 0)%nat then i else cur_start in
        let cl := S cur_len in
        if (best_len <? cl)%nat then longest_zero_run gs' (S i) cs cl cs cl
        else longest_zero_run gs' (S i) cs cl best_start best_len
      else longest_zero_run gs' (S i) 0 0 best_start best_len
  end.

Definition show_v6 (a : Z) : string :=
  match to_ipv4_mapped a with
  | Some v4 => "::ffff:" +:+ show_v4 v4
  | None =>
      let gs := segments a in
      let '(start, len) := longest_zero_run gs 0 0 0 0 0 in
      let show l := Str.join ":" (show_hex16 <$> l) in
      if (1 <? len)%nat then show (take start gs) +:+ "::" +:+ show (drop (start + len) gs)
      else show gs
  end.

(** [IpAddr::to_string]. *)
Definition ip_show (a : IpAddr) : string :=
  match a with V4 b => show_v4 b | V6 b => show_v6 b end.

(** ** Lemmas *)

Example parse_samples :
  ip_parse "192.168.1.50" = Some (V4 3232235826) /\
  ip_parse "10.0.0.256" = None /\ ip_parse "1.2.3.04" = None /\ ip_parse "1.2.3" = None /\
  ip_parse "::1" = Some (V6 1) /\ ip_parse "::" = Some (V6 0) /\
  ip_parse "2001:db8::1" = Some (V6 42540766411282592856903984951653826561) /\
  ip_parse "::ffff:1.2.3.4" = Some (V6 281470698652420) /\
  ip_parse "1:2:3:4:5:6:7:8:9" = None /\ ip_parse "1::2::3" = None /\ ip_parse "" = None.
Proof. by vm_compute. Qed.

Example show_samples :
  ip_show (V4 3232235826) = "192.168.1.50" /\ ip_show (V6 1) = "::1" /\ ip_show (V6 0) = "::" /\
  ip_show (V6 42540766411282592856903984951653826561) = "2001:db8::1" /\
  ip_show (V6 281470698652420) = "::ffff:1.2.3.4".
Proof. by vm_compute. Qed.

Lemma bits_with_bits a b : bits (with_bits a b) = b.
Proof. by destruct a. Qed.

Lemma width_with_bits a b : width (with_bits a b) = width a.
Proof. by destruct a. Qed.

Lemma width_cases a : width a = 32 \/ width a = 128.
Proof. destruct a; auto. Qed.

Lemma same_family_width a b : same_family a b = true -> width a = width b.
Proof. by destruct a, b. Qed.

Lemma same_family_bits a b : same_family a b = true -> bits a = bits b -> a = b.
Proof. destruct a, b; simpl; congruence. Qed.

Lemma same_family_sym a b : same_family a b = same_family b a.
Proof. by destruct a, b. Qed.

Lemma same_family_trans a b c :
  same_family a b = true -> same_family b c = true -> same_family a c = true.
Proof. by destruct a, b, c. Qed.

Lemma same_family_with_bits a b x : same_family (with_bits a x) b = same_family a b.
Proof. by destruct a, b. Qed.

(** *** Parsed addresses are well formed *)

Lemma to_digit_nonneg radix c d : Str.to_digit radix c = Some d -> 0 <= d < radix.
Proof.
  unfold Str.to_digit, Str.in_range. pose proof (Str.code_bound c).
  repeat case_match; intros; simplify_eq; lia.
Qed.

Lemma read_digits_nonneg radix max s : forall acc count v n r,
  0 <= acc -> IpParser.read_digits radix max acc count s = Some (v, n, r) -> 0 <= v.
Proof.
  induction s as [|c s IH]; intros acc count v n r Ha H; simpl in H; [by simplify_eq|].
  destruct (Str.to_digit radix c) as [d|] eqn:Hd; [|by simplify_eq].
  case_match; [done|]. apply to_digit_nonneg in Hd. apply IH in H; [done|nia].
Qed.

Lemma read_number_bound radix max limit z s v r :
  IpParser.read_number radix max limit z s = Some (v, r) -> 0 <= v <= limit.
Proof.
  unfold IpParser.read_number. destruct (IpParser.read_digits _ _ _ _ _) as [[[v' n] r']|] eqn:Hd;
    [|done]. apply read_digits_nonneg in Hd; [|lia].
  repeat case_match; intros; simplify_eq; lia.
Qed.

Lemma read_octet_bound first s v r :
  IpParser.read_octet first s = Some (v, r) -> 0 <= v <= 255.
Proof. unfold IpParser.read_octet. case_match; [|done]. apply read_number_bound. Qed.

Lemma read_ipv4_bound s v r : IpParser.read_ipv4 s = Some (v, r) -> 0 <= v < 2 ^ 32.
Proof.
  unfold IpParser.read_ipv4. intros H.
  repeat (case_match; simplify_eq/=);
    repeat match goal with H : IpParser.read_octet _ _ = Some _ |- _ =>
      apply read_octet_bound in H end; lia.
Qed.

Definition group_wf (g : Z) : Prop := 0 <= g < 65536.

Lemma read_groups_bound limit : forall first s gs v4 r,
  IpParser.read_groups limit first s = (gs, v4, r) ->
  (length gs <= limit)%nat /\ Forall group_wf gs.
Proof.
  induction limit as [|limit IH]; intros first s gs v4 r H; simpl in H; [by simplify_eq|].
  case_match eqn:Hv4.
  { destruct p as [a rest]. simplify_eq/=. destruct limit; [done|]. repeat case_match; simplify_eq.
    apply read_ipv4_bound in Hv4. split; [simpl; lia|].
    unfold group_wf. repeat constructor; try (apply Z.mod_pos_bound; lia).
    - apply Z.div_pos; lia.
    - apply Z.div_lt_upper_bound; lia. }
  clear Hv4. destruct (IpParser.read_sep _ _ _); [|simplify_eq/=; split; [lia|done]].
  destruct (IpParser.read_number _ _ _ _ _) as [[g rest]|] eqn:Hn; [|simplify_eq/=; split; [lia|done]].
  destruct (IpParser.read_groups limit false rest) as [[gs' v4'] r'] eqn:Hg. simplify_eq.
  apply IH in Hg as [? ?]. apply read_number_bound in Hn. split; [simpl; lia|].
  constructor; [unfold group_wf; lia|done].
Qed.

Lemma segments_value_bound gs :
  Forall group_wf gs -> 0 <= IpParser.segments_value gs < 2 ^ (16 * Z.of_nat (length gs)).
Proof.
  unfold IpParser.segments_value. induction gs as [|g gs IH] using rev_ind; [done|].
  rewrite Forall_app, Forall_singleton. intros [Hgs Hg]. specialize (IH Hgs).
  rewrite foldl_app, length_app. simpl. unfold group_wf in Hg.
  replace (16 * Z.of_nat (length gs + 1)) with (16 * Z.of_nat (length gs) + 16) by lia.
  rewrite Z.pow_add_r by lia. lia.
Qed.

Lemma read_ipv6_bound s v r : IpParser.read_ipv6 s = Some (v, r) -> 0 <= v < 2 ^ 128.
Proof.
  unfold IpParser.read_ipv6. destruct (IpParser.read_groups 8 true s) as [[gs v4] r'] eqn:Hg.
  apply read_groups_bound in Hg as [Hl Hgs]. destruct (Nat.eqb_spec (length gs) 8) as [H8|H8].
  { intros [= <- <-]. pose proof (segments_value_bound gs Hgs) as Hb. by rewrite H8 in Hb. }
  destruct v4; [done|]. case_match; [|done].
  destruct (IpParser.read_groups (7 - length gs) true s0) as [[gs' v4'] r''] eqn:Hg'.
  apply read_groups_bound in Hg' as [Hl' Hgs']. intros [= <- <-].
  match goal with |- 0 <= IpParser.segments_value ?l < _ =>
    pose proof (segments_value_bound l) as Hb;
    assert (length l = 8%nat) as Hlen by (rewrite !length_app, length_replicate; lia) end.
  rewrite Hlen in Hb. apply Hb. rewrite !Forall_app. split_and!; [done| |done].
  apply Forall_replicate. unfold group_wf. lia.
Qed.

Lemma ip_parse_wf s a : ip_parse s = Some a -> ip_wf a.
Proof.
  unfold ip_parse, ip_wf. intros H. repeat case_match; simplify_eq/=;
    [by eapply read_ipv4_bound|by eapply read_ipv6_bound].
Qed.
