(* ===== verification/Libs.v ===== *)
(** * Interfaces of the crates the program calls

    The code of [ipnet], [hex], [sha2], [hmac], [chacha20poly1305], [chrono] and
    [uuid] is not part of the repository: each is a class of operations, and a
    class of laws that states the documented behaviour the program relies on.
    Every theorem of the development that needs a crate is proved against these
    classes; [LibsRef] instantiates them with concrete functions. *)

From S2P Require Import Prelude.
From S2P Require Import RustStr.
From S2P Require Import Net.
#[local] Open Scope Z_scope.

(** ** [ipnet::IpNet] *)

Class IpNetLib := {
  IpNet : Type;
  #[global] IpNet_eq_dec :: EqDecision IpNet;
  net_addr : IpNet -> IpAddr;
  prefix_len : IpNet -> Z;
  (** [str::parse::<IpNet>] *)
  net_parse : string -> option IpNet;
  (** [IpNet::to_string] *)
  net_show : IpNet -> string;
  (** [IpNet::from(IpAddr)]: a single-host network *)
  net_from : IpAddr -> IpNet;
  (** [IpNet::network] *)
  network : IpNet -> IpAddr;
  (** [IpNet::contains(&IpAddr)] *)
  net_contains : IpNet -> IpAddr -> bool;
  (** [IpNet::aggregate] *)
  aggregate : list IpNet -> list IpNet;
}.

(** Some network of the list contains the address. *)
Definition covered `{IpNetLib} (ns : list IpNet) (a : IpAddr) : bool :=
  existsb (fun n => net_contains n a) ns.

Class IpNetLaws (L : IpNetLib) : Prop := {
  net_addr_wf n : ip_wf (net_addr n);
  prefix_len_bound n : 0 <= prefix_len n <= width (net_addr n);
  (** the network address is the address with the host part cleared *)
  network_spec n : network n = mask (prefix_len n) (net_addr n);
  (** containment compares the prefix, within one family *)
  contains_spec n a : ip_wf a ->
    net_contains n a =
    same_family (net_addr n) a &&
    bool_decide (mask (prefix_len n) a = mask (prefix_len n) (net_addr n));
  net_from_spec a : ip_wf a ->
    net_addr (net_from a) = a /\ prefix_len (net_from a) = width a;
  (** CIDR notation: an address, a slash and a prefix length in range *)
  net_parse_cidr s a p : ip_parse s = Some a -> 0 <= p <= width a ->
    exists n, net_parse (s +:+ "/" +:+ pretty p) = Some n /\
      net_addr n = a /\ prefix_len n = p;
  (** aggregation covers exactly the addresses of its input *)
  aggregate_covers ns a : ip_wf a -> covered (aggregate ns) a = covered ns a;
  (** and does not depend on the order of its input *)
  aggregate_perm ns ns' : ns ≡ₚ ns' -> aggregate ns ≡ₚ aggregate ns';
}.

(** ** Digests, MACs, encryption and hexadecimal *)

Class CryptoLib := {
  (** [Sha256::digest] *)
  sha256 : Bytes -> Bytes;
  (** [Hmac::<Sha256>] over a key and a message; [None] when [new_from_slice]
      refuses the key *)
  hmac_sha256 : Bytes -> Bytes -> option Bytes;
  (** [XChaCha20Poly1305] under a key and a nonce *)
  aead_encrypt : Bytes -> Bytes -> Bytes -> option Bytes;
  aead_decrypt : Bytes -> Bytes -> Bytes -> option Bytes;
  (** the [hex] crate *)
  hex_encode : Bytes -> string;
  hex_decode : string -> option Bytes;
}.

Class CryptoLaws (C : CryptoLib) : Prop := {
  hex_roundtrip b : hex_decode (hex_encode b) = Some b;
  hex_digits b : Str.all_chars Str.is_ascii_hexdigit (hex_encode b) = true;
  (** authenticated encryption decrypts what it encrypted *)
  aead_roundtrip k n p c : aead_encrypt k n p = Some c -> aead_decrypt k n c = Some p;
}.

(** ** [chrono]: naive date-times are nanoseconds since the epoch

    [TimeDelta::seconds] and the subtraction of a duration from a
    [NaiveDateTime] panic when the result is not representable: [None]. *)

Class ChronoLib := {
  delta_seconds : Z -> option Z;
  datetime_sub : Z -> Z -> option Z;
}.

(** The documented bounds: [TimeDelta::seconds] panics beyond [i64::MAX / 1000]
    seconds, [NaiveDateTime] spans the years -262143 to 262142. *)
Definition delta_max_secs : Z := i64_max `div` 1000.
Definition datetime_min : Z := from_secs (-8334601228800).
Definition datetime_max : Z := from_secs 8210266876800.

Class ChronoLaws (C : ChronoLib) : Prop := {
  delta_seconds_spec s :
    delta_seconds s =
    if (- delta_max_secs <=? s) && (s <=? delta_max_secs) then Some (from_secs s) else None;
  datetime_sub_spec t d :
    datetime_sub t d =
    if (datetime_min <=? t - d) && (t - d <? datetime_max) then Some (t - d) else None;
}.

(** ** [uuid]: [Uuid::to_string] *)

Class UuidLib := { uuid_show : Uuid -> string }.

(** ** The geometry of CIDR blocks *)

Lemma mask_bits p a :
  0 <= p <= width a -> bits (mask p a) = bits a - bits a `mod` 2 ^ (width a - p).
Proof.
  intros Hp. unfold mask. rewrite bits_with_bits.
  rewrite Z.shiftl_mul_pow2, Z.shiftr_div_pow2 by lia.
  pose proof (Z.div_mod (bits a) (2 ^ (width a - p))) as Hd.
  assert (0 < 2 ^ (width a - p)) by (apply Z.pow_pos_nonneg; lia). lia.
Qed.

Lemma mask_wf p a : 0 <= p <= width a -> ip_wf a -> ip_wf (mask p a).
Proof.
  intros Hp [H0 H1]. unfold ip_wf. rewrite mask_bits by done.
  assert (0 < 2 ^ (width a - p)) as Hpos by (apply Z.pow_pos_nonneg; lia).
  pose proof (Z.mod_pos_bound (bits a) _ Hpos).
  pose proof (Z.mod_le (bits a) (2 ^ (width a - p)) H0 Hpos).
  unfold mask. rewrite width_with_bits. lia.
Qed.

Lemma mask_mask p q a : 0 <= p <= q -> q <= width a -> mask p (mask q a) = mask p a.
Proof.
  intros Hp Hq. destruct a; unfold mask; cbn [width bits with_bits] in *; f_equal; f_equal;
    rewrite Z.shiftr_shiftl_r, Z.shiftr_shiftr by lia; f_equal; lia.
Qed.

Lemma mask_width a : mask (width a) a = a.
Proof.
  unfold mask. rewrite Z.sub_diag, Z.shiftr_0_r, Z.shiftl_0_r. by destruct a.
Qed.

Lemma same_family_mask p a b : same_family (mask p a) b = same_family a b.
Proof. apply same_family_with_bits. Qed.

Lemma mask_eq_trans p q a b :
  0 <= p <= q -> q <= width a -> same_family a b = true ->
  mask q a = mask q b -> mask p a = mask p b.
Proof.
  intros Hp Hq Hf Heq. rewrite <- (mask_mask p q a), <- (mask_mask p q b) by
    (rewrite <- ?(same_family_width a b); lia || done). by rewrite Heq.
Qed.

Section geometry.
Context {L : IpNetLib} {LL : IpNetLaws L}.

Lemma contains_iff n a : ip_wf a ->
  net_contains n a = true <->
  same_family (net_addr n) a = true /\
  mask (prefix_len n) a = mask (prefix_len n) (net_addr n).
Proof. intros Hw. rewrite contains_spec, andb_true_iff, bool_decide_eq_true by done. done. Qed.

Lemma network_wf n : ip_wf (network n).
Proof. rewrite network_spec. apply mask_wf; [apply prefix_len_bound|apply net_addr_wf]. Qed.

(** A block contains its own network address. *)
Lemma contains_network n : net_contains n (network n) = true.
Proof.
  apply contains_iff; [apply network_wf|]. rewrite network_spec.
  rewrite same_family_sym, same_family_mask. split; [by destruct (net_addr n)|].
  pose proof (prefix_len_bound n). apply mask_mask; lia.
Qed.

(** Two blocks share an address exactly when one contains the other's network
    address: blocks are nested or disjoint. *)
Lemma overlap_iff c e :
  net_contains e (network c) || net_contains c (network e) = true <->
  exists a, ip_wf a /\ net_contains c a = true /\ net_contains e a = true.
Proof.
  split.
  - rewrite orb_true_iff. intros [H|H]; [exists (network c)|exists (network e)];
      eauto using network_wf, contains_network.
  - intros (a & Hw & Hc & He). apply contains_iff in Hc as [Fc Hc], He as [Fe He]; try done.
    pose proof (prefix_len_bound c) as Bc. pose proof (prefix_len_bound e) as Be.
    pose proof (same_family_width _ _ Fc) as Wc. pose proof (same_family_width _ _ Fe) as We.
    assert (same_family (net_addr e) (net_addr c) = true) as F.
    { eapply same_family_trans; [exact Fe|]. by rewrite same_family_sym. }
    apply orb_true_iff.
    destruct (Z.le_ge_cases (prefix_len e) (prefix_len c)); [left|right];
      (apply contains_iff; [apply network_wf|]); rewrite network_spec;
      rewrite same_family_sym, same_family_mask; rewrite same_family_sym.
    + split; [done|]. rewrite mask_mask by lia. rewrite <- He.
      symmetry. apply (mask_eq_trans _ (prefix_len c)); [lia|lia| |done].
      by rewrite same_family_sym.
    + rewrite same_family_sym. split; [done|]. rewrite mask_mask by lia. rewrite <- Hc.
      symmetry. apply (mask_eq_trans _ (prefix_len e)); [lia|lia| |done].
      by rewrite same_family_sym.
Qed.

(** A single-host network contains its address and nothing else. *)
Lemma contains_net_from a b :
  ip_wf a -> ip_wf b -> net_contains (net_from a) b = true <-> a = b.
Proof.
  intros Ha Hb. destruct (net_from_spec a Ha) as [Hn Hp].
  rewrite contains_iff, Hn, Hp by done. split.
  - intros [Hf Hm]. rewrite mask_width in Hm.
    rewrite (same_family_width _ _ Hf), mask_width in Hm. done.
  - intros ->. by destruct b.
Qed.

Lemma covered_true ns a :
  covered ns a = true <-> exists n, n ∈ ns /\ net_contains n a = true.
Proof.
  unfold covered. rewrite existsb_exists. setoid_rewrite list_elem_of_In. done.
Qed.

End geometry.
