(* ===== verification/LibsRef.v ===== *)
(** * Concrete instances of the crate interfaces

    Functions that satisfy the laws of [Libs], so that every theorem proved
    against the interfaces can be evaluated on concrete input: CIDR blocks with
    a proof that their bits fit, lower-case hexadecimal, and transparent
    stand-ins for the digests and the cipher. *)

From S2P Require Import Prelude.
From S2P Require Import RustStr.
From S2P Require Import Net.
From S2P Require Import Libs.
From Stdlib Require Import Ascii Eqdep_dec.
#[local] Open Scope Z_scope.

Module Ref.

(** ** Blocks *)

Definition cidr_wfb (a : IpAddr) (p : Z) : bool :=
  (0 <=? bits a) && (bits a <? 2 ^ width a) && (0 <=? p) && (p <=? width a).

Record cidr := mkCidr {
  c_addr : IpAddr;
  c_len : Z;
  c_wf : cidr_wfb c_addr c_len = true;
}.

Definition cidr_of (a : IpAddr) (p : Z) : option cidr :=
  match bool_dec (cidr_wfb a p) true with
  | left H => Some (mkCidr a p H)
  | right _ => None
  end.

Definition zero_host : cidr := mkCidr (V4 0) 32 eq_refl.

#[global] Instance cidr_eq_dec : EqDecision cidr.
Proof.
  intros [a p Hw] [b q Hw']. destruct (decide (a = b /\ p = q)) as [[-> ->]|Hne].
  - left. f_equal. apply UIP_dec, bool_dec.
  - right. intros [= -> ->]. by apply Hne.
Defined.

(** The part before and after the last separator. *)
Definition rsplit_once (sep : ascii) (s : string) : option (string * string) :=
  match Str.split_once sep (String.rev s) with
  | Some (b, a) => Some (String.rev a, String.rev b)
  | None => None
  end.

Definition cidr_parse (s : string) : option cidr :=
  match rsplit_once "/" s with
  | Some (addr, len) =>
      match ip_parse addr, Str.parse_digits len with
      | Some a, Some p => cidr_of a p
      | _, _ => None
      end
  | None => None
  end.

Definition cidr_contains (n : cidr) (a : IpAddr) : bool :=
  same_family (c_addr n) a && bool_decide (mask (c_len n) a = mask (c_len n) (c_addr n)).

#[global] Instance ref_ipnet : IpNetLib := {|
  IpNet := cidr;
  net_addr := c_addr;
  prefix_len := c_len;
  net_parse := cidr_parse;
  net_show n := ip_show (c_addr n) +:+ "/" +:+ pretty (c_len n);
  net_from a := default zero_host (cidr_of a (width a));
  network n := mask (c_len n) (c_addr n);
  net_contains := cidr_contains;
  aggregate := remove_dups;
|}.

(** ** Hexadecimal, digests and the cipher *)

Fixpoint hex_enc (s : string) : string :=
  match s with
  | EmptyString => EmptyString
  | String c s' =>
      String (hex_char (Str.code c / 16)) (String (hex_char (Str.code c mod 16)) (hex_enc s'))
  end.

Fixpoint hex_dec (s : string) : option string :=
  match s with
  | EmptyString => Some EmptyString
  | String _ EmptyString => None
  | String h (String l s') =>
      match Str.to_digit 16 h, Str.to_digit 16 l, hex_dec s' with
      | Some h, Some l, Some b => Some (String (ascii_of_N (Z.to_N (16 * h + l))) b)
      | _, _, _ => None
      end
  end.

#[global] Instance ref_crypto : CryptoLib := {|
  sha256 b := b;
  hmac_sha256 k m := Some (k +:+ "|" +:+ m);
  aead_encrypt k n p := Some (k +:+ p);
  aead_decrypt k n c := Str.strip_prefix k c;
  hex_encode := hex_enc;
  hex_decode := hex_dec;
|}.

#[global] Instance ref_chrono : ChronoLib := {|
  delta_seconds s :=
    if (- delta_max_secs <=? s) && (s <=? delta_max_secs) then Some (from_secs s) else None;
  datetime_sub t d :=
    if (datetime_min <=? t - d) && (t - d <? datetime_max) then Some (t - d) else None;
|}.

#[global] Instance ref_uuid : UuidLib := {| uuid_show u := pretty u |}.

(** ** The laws hold *)

Lemma cidr_wf_iff a p : cidr_wfb a p = true <-> ip_wf a /\ 0 <= p <= width a.
Proof.
  unfold cidr_wfb, ip_wf. rewrite !andb_true_iff, !Z.leb_le, Z.ltb_lt. lia.
Qed.

Lemma cidr_of_Some a p :
  ip_wf a -> 0 <= p <= width a ->
  exists n, cidr_of a p = Some n /\ c_addr n = a /\ c_len n = p.
Proof.
  intros Ha Hp. unfold cidr_of. destruct (bool_dec _ _) as [H|H]; [eauto|].
  exfalso. apply H. by apply cidr_wf_iff.
Qed.

Lemma rev_append s t : String.rev (s +:+ t) = String.rev t +:+ String.rev s.
Proof.
  enough (forall u, String.rev_app (s +:+ t) u = String.rev_app t "" +:+ String.rev_app s u)
    as H by apply H.
  assert (forall s u v, String.rev_app s (u +:+ v) = String.rev_app s u +:+ v) as Hra.
  { clear. induction s as [|c s IH]; intros u v; [done|]. simpl. by rewrite <- IH. }
  induction s as [|c s IH]; intros u.
  - simpl. by rewrite <- Hra.
  - rewrite Str.app_cons. simpl. apply IH.
Qed.

(** Prefix lengths print as digits and read back. *)
Definition len_text_ok (p : Z) : bool :=
  negb (Str.contains "/" (String.rev (pretty p)))
  && bool_decide (Str.parse_digits (pretty p) = Some p).

Lemma len_text p :
  0 <= p <= 128 ->
  Str.contains "/" (String.rev (pretty p)) = false /\ Str.parse_digits (pretty p) = Some p.
Proof.
  intros Hp. assert (len_text_ok p = true) as Hok.
  { assert (forallb len_text_ok (seqZ 0 129) = true) as Hall by by vm_compute.
    rewrite forallb_forall in Hall. apply Hall, list_elem_of_In, elem_of_seqZ. lia. }
  unfold len_text_ok in Hok. by rewrite andb_true_iff, negb_true_iff, bool_decide_eq_true in Hok.
Qed.

#[global] Instance ref_ipnet_laws : IpNetLaws ref_ipnet.
Proof.
  split.
  - intros [a p Hw]. exact (proj1 (proj1 (cidr_wf_iff a p) Hw)).
  - intros [a p Hw]. exact (proj2 (proj1 (cidr_wf_iff a p) Hw)).
  - done.
  - done.
  - intros a Ha. simpl. destruct (cidr_of_Some a (width a) Ha) as (n & -> & Hn & Hp); [|done].
    pose proof (width_cases a). lia.
  - intros s a p Hs Hp. simpl. unfold cidr_parse, rsplit_once.
    assert (0 <= p <= 128) as [Hd Hparse]%len_text by (pose proof (width_cases a); lia).
    rewrite !rev_append, <- Str.app_assoc_str.
    rewrite (Str.split_once_app "/" _ (String.rev s)) by done. rewrite !Str.rev_rev, Hs, Hparse.
    by apply cidr_of_Some; [eapply ip_parse_wf|].
  - intros ns a _. apply eq_iff_eq_true. rewrite !covered_true. simpl.
    by setoid_rewrite elem_of_remove_dups.
  - intros ns ns' Hp. apply NoDup_Permutation; [apply NoDup_remove_dups..|].
    intros n. simpl. by rewrite !elem_of_remove_dups, Hp.
Qed.

Definition byte_hex_ok (c : ascii) : bool :=
  let h := hex_char (Str.code c / 16) in
  let l := hex_char (Str.code c mod 16) in
  bool_decide (hex_dec (String h (String l "")) = Some (String c ""))
  && Str.is_ascii_hexdigit h && Str.is_ascii_hexdigit l.

Lemma byte_hex c : byte_hex_ok c = true.
Proof. destruct c as [[] [] [] [] [] [] [] []]; by vm_compute. Qed.

#[global] Instance ref_crypto_laws : CryptoLaws ref_crypto.
Proof.
  split; simpl.
  - intros b. induction b as [|c b IH]; [done|]. pose proof (byte_hex c) as Hc.
    unfold byte_hex_ok in Hc. rewrite !andb_true_iff, bool_decide_eq_true in Hc.
    destruct Hc as [[Hc _] _]. cbn [hex_enc hex_dec] in *. rewrite IH.
    repeat case_match; simplify_eq. by simplify_eq/=.
  - intros b. induction b as [|c b IH]; [done|]. pose proof (byte_hex c) as Hc.
    unfold byte_hex_ok in Hc. rewrite !andb_true_iff in Hc. destruct Hc as [[_ Hh] Hl].
    cbn [hex_enc Str.all_chars]. by rewrite Hh, Hl, IH.
  - intros k n p c [= <-]. apply Str.strip_prefix_app.
Qed.

#[global] Instance ref_chrono_laws : ChronoLaws ref_chrono.
Proof. by split. Qed.

End Ref.
