(* ===== verification/IpFilter.v ===== *)
(** * [ipfilter.rs]: sanitising the published list

    The RFC 1918, loopback and bogon literals, the overlap test, and
    [filter_and_aggregate].  A feed's published blocks are characterised address
    by address: what they cover is exactly what the surviving records cover. *)

From S2P Require Import Prelude.
From S2P Require Import RustStr.
From S2P Require Import Net.
From S2P Require Import Libs.
From S2P Require Import LibsRef.
#[local] Open Scope Z_scope.

Module IpFilter.

Section ipfilter.
Context {L : IpNetLib}.

Definition nets (raw : list string) : list IpNet := omap net_parse raw.

Definition RFC1918_LITERALS : list string :=
  ["10.0.0.0/8"; "172.16.0.0/12"; "192.168.0.0/16"].
Definition RFC1918 : list IpNet := nets RFC1918_LITERALS.

Definition LOOPBACK_LITERALS : list string := ["127.0.0.0/8"; "::1/128"].
Definition LOOPBACK : list IpNet := nets LOOPBACK_LITERALS.

Definition BOGON_LITERALS : list string :=
  ["0.0.0.0/8"; "100.64.0.0/10"; "169.254.0.0/16"; "192.0.0.0/24"; "192.0.2.0/24";
   "192.88.99.0/24"; "198.18.0.0/15"; "198.51.100.0/24"; "203.0.113.0/24"; "224.0.0.0/4";
   "240.0.0.0/4"; "255.255.255.255/32"; "::/128"; "::ffff:0:0/96"; "100::/64";
   "2001:db8::/32"; "fc00::/7"; "fe80::/10"; "ff00::/8"].
Definition BOGONS : list IpNet := nets BOGON_LITERALS.

Definition overlaps_any (candidate : IpNet) (excluded : list IpNet) : bool :=
  existsb (fun ex => net_contains ex (network candidate) || net_contains candidate (network ex))
    excluded.

Definition filter_and_aggregate (networks : list IpNet)
    (filter_rfc1918 filter_bogons filter_loopback : bool) : list IpNet :=
  let filtered :=
    List.filter (fun net => negb filter_loopback || negb (overlaps_any net LOOPBACK))
      (List.filter (fun net => negb filter_bogons || negb (overlaps_any net BOGONS))
         (List.filter (fun net => negb filter_rfc1918 || negb (overlaps_any net RFC1918))
            networks)) in
  aggregate filtered.

End ipfilter.

(** ** What the filters mean *)

Section meaning.
Context {L : IpNetLib} {LL : IpNetLaws L}.

(** The ranges the three flags take out of a feed. *)
Definition exclusions (filter_rfc1918 filter_bogons filter_loopback : bool) : list IpNet :=
  (if filter_rfc1918 then RFC1918 else []) ++ (if filter_bogons then BOGONS else [])
  ++ (if filter_loopback then LOOPBACK else []).

(** Two blocks have an address in common. *)
Definition intersects (n m : IpNet) : Prop :=
  exists a, ip_wf a /\ net_contains n a = true /\ net_contains m a = true.

Lemma overlaps_any_true c ex :
  overlaps_any c ex = true <-> exists e, e ∈ ex /\ intersects c e.
Proof.
  unfold overlaps_any. rewrite existsb_exists.
  split; intros (e & He & Ho); exists e; rewrite list_elem_of_In in *;
    (split; [done|]); by apply overlap_iff.
Qed.

Lemma overlaps_any_app c l1 l2 :
  overlaps_any c (l1 ++ l2) = overlaps_any c l1 || overlaps_any c l2.
Proof. apply existsb_app. Qed.

Lemma overlaps_any_if (f : bool) c l : overlaps_any c (if f then l else []) = f && overlaps_any c l.
Proof. by destruct f. Qed.

(** The three filters in sequence are one filter against all the exclusions. *)
Lemma filtered_eq ns r b l :
  filter_and_aggregate ns r b l =
  aggregate (List.filter (fun n => negb (overlaps_any n (exclusions r b l))) ns).
Proof.
  unfold filter_and_aggregate. f_equal. induction ns as [|n ns IH]; [done|]. cbn [List.filter].
  rewrite <- IH. unfold exclusions. rewrite !overlaps_any_app, !overlaps_any_if. clear IH.
  destruct (overlaps_any n RFC1918), (overlaps_any n BOGONS) eqn:Hb,
    (overlaps_any n LOOPBACK) eqn:Hl, r, b, l; cbn [negb orb andb List.filter];
    rewrite ?Hb; cbn [negb orb andb List.filter]; by rewrite ?Hl.
Qed.

(** Every literal of a list, read by the parser as the block it names. *)
Definition names (lit : string) (spec : string * IpAddr * Z) : bool :=
  let '(text, a, p) := spec in
  bool_decide (lit = text +:+ "/" +:+ pretty p) && bool_decide (ip_parse text = Some a)
  && (0 <=? p) && (p <=? width a).

Lemma nets_named lits specs :
  forallb (fun '(l, s) => names l s) (zip lits specs) = true -> length lits = length specs ->
  Forall2 (fun n s => net_addr n = s.1.2 /\ prefix_len n = s.2) (nets lits) specs.
Proof.
  revert specs. induction lits as [|l lits IH]; intros [|[[t a] p] specs] Hn Hl; try done.
  simpl in Hn. apply andb_true_iff in Hn as [Hn Hns].
  rewrite !andb_true_iff, !bool_decide_eq_true, !Z.leb_le in Hn. destruct Hn as [[[-> Hp] ?] ?].
  destruct (net_parse_cidr t a p Hp) as (n & Hparse & Ha & Hlen); [lia|].
  unfold nets in *. simpl. rewrite Hparse. constructor; [done|]. apply IH; [done|simpl in Hl; lia].
Qed.

Definition rfc1918_specs : list (string * IpAddr * Z) :=
  [("10.0.0.0", V4 167772160, 8); ("172.16.0.0", V4 2886729728, 12);
   ("192.168.0.0", V4 3232235520, 16)].

Definition loopback_specs : list (string * IpAddr * Z) :=
  [("127.0.0.0", V4 2130706432, 8); ("::1", V6 1, 128)].

Definition bogon_specs : list (string * IpAddr * Z) :=
  [("0.0.0.0", V4 0, 8); ("100.64.0.0", V4 1681915904, 10); ("169.254.0.0", V4 2851995648, 16);
   ("192.0.0.0", V4 3221225472, 24); ("192.0.2.0", V4 3221225984, 24);
   ("192.88.99.0", V4 3227017984, 24); ("198.18.0.0", V4 3323068416, 15);
   ("198.51.100.0", V4 3325256704, 24); ("203.0.113.0", V4 3405803776, 24);
   ("224.0.0.0", V4 3758096384, 4); ("240.0.0.0", V4 4026531840, 4);
   ("255.255.255.255", V4 4294967295, 32); ("::", V6 0, 128);
   ("::ffff:0:0", V6 (65535 * 2 ^ 32), 96); ("100::", V6 (256 * 2 ^ 112), 64);
   ("2001:db8::", V6 (536939960 * 2 ^ 96), 32); ("fc00::", V6 (64512 * 2 ^ 112), 7);
   ("fe80::", V6 (65152 * 2 ^ 112), 10); ("ff00::", V6 (65280 * 2 ^ 112), 8)].

Definition named_blocks (ns : list IpNet) (specs : list (string * IpAddr * Z)) : Prop :=
  Forall2 (fun n s => net_addr n = s.1.2 /\ prefix_len n = s.2) ns specs.

Lemma rfc1918_named : named_blocks RFC1918 rfc1918_specs.
Proof. apply nets_named; by vm_compute. Qed.
Lemma loopback_named : named_blocks LOOPBACK loopback_specs.
Proof. apply nets_named; by vm_compute. Qed.
Lemma bogons_named : named_blocks BOGONS bogon_specs.
Proof. apply nets_named; by vm_compute. Qed.

(** An address lies in the block [base/p]. *)
Definition in_block (s : string * IpAddr * Z) (a : IpAddr) : bool :=
  let '(_, base, p) := s in
  same_family base a && (bits base <=? bits a) && (bits a <? bits base + 2 ^ (width base - p)).

(** A block whose base address has no host bits contains exactly the interval
    of its addresses. *)
Lemma contains_in_block n t base p a :
  net_addr n = base -> prefix_len n = p -> mask p base = base -> ip_wf a ->
  net_contains n a = in_block (t, base, p) a.
Proof.
  intros Hn Hp Hm Ha. rewrite contains_spec, Hn, Hp by done. simpl.
  destruct (same_family base a) eqn:Hf; [|done]. simpl.
  pose proof (same_family_width _ _ Hf) as Hw. pose proof (prefix_len_bound n) as Hb.
  rewrite Hn, Hp in Hb. set (B := 2 ^ (width base - p)).
  assert (0 < B) by (apply Z.pow_pos_nonneg; lia).
  assert (bits (mask p a) = bits a - bits a `mod` B) as Ea
    by (rewrite mask_bits by lia; unfold B; by rewrite Hw).
  assert (bits base = bits base - bits base `mod` B) as Eb
    by (unfold B; rewrite <- mask_bits by done; by rewrite Hm).
  pose proof (Z.mod_pos_bound (bits a) B ltac:(lia)).
  pose proof (Z.div_mod (bits a) B ltac:(lia)). pose proof (Z.div_mod (bits base) B ltac:(lia)).
  rewrite Hm. apply eq_iff_eq_true.
  rewrite bool_decide_eq_true, andb_true_iff, Z.leb_le, Z.ltb_lt. split.
  - intros Hma. rewrite <- Hma. lia.
  - intros [??]. apply same_family_bits; [by rewrite same_family_mask, same_family_sym|].
    rewrite Ea. assert (bits a `div` B = bits base `div` B) by nia. lia.
Qed.

Definition base_ok (s : string * IpAddr * Z) : bool :=
  bool_decide (mask s.2 s.1.2 = s.1.2).

Lemma covered_named ns specs a :
  named_blocks ns specs -> forallb base_ok specs = true -> ip_wf a ->
  covered ns a = existsb (fun s => in_block s a) specs.
Proof.
  intros Hn Hb Ha. induction Hn as [|n [[t base] p] ns specs [Hna Hnp] Hn IH]; [done|].
  simpl in *. apply andb_true_iff in Hb as [Hb%bool_decide_eq_true Hbs].
  rewrite (contains_in_block n t base p a) by done. by rewrite <- IH.
Qed.

(** What the output covers, address by address. *)
Lemma filter_covers ns r b l a : ip_wf a ->
  covered (filter_and_aggregate ns r b l) a = true <->
  exists n, n ∈ ns /\ net_contains n a = true /\
    forall e, e ∈ exclusions r b l -> ~ intersects n e.
Proof.
  intros Ha. rewrite filtered_eq, aggregate_covers, covered_true by done.
  setoid_rewrite list_elem_of_In. setoid_rewrite filter_In. split.
  - intros (n & [Hn Ho] & Hc). exists n. split_and!; [done..|]. intros e He Hi.
    assert (overlaps_any n (exclusions r b l) = true) as Ho' by (apply overlaps_any_true; exists e; by rewrite list_elem_of_In).
    by rewrite Ho' in Ho.
  - intros (n & Hn & Hc & Hex). exists n. split_and!; [done| |done].
    destruct (overlaps_any n (exclusions r b l)) eqn:Ho; [|done].
    apply overlaps_any_true in Ho as (e & He & Hi). exfalso. apply (Hex e); [by rewrite <- list_elem_of_In|done].
Qed.

Lemma covered_exclusions r b l a :
  covered (exclusions r b l) a =
  (r && covered RFC1918 a) || (b && covered BOGONS a) || (l && covered LOOPBACK a).
Proof.
  unfold exclusions, covered. rewrite !existsb_app.
  destruct r, b, l; cbn [existsb orb andb]; by rewrite ?orb_false_r, ?orb_assoc.
Qed.

(** The addresses each flag withholds, as intervals. *)
Definition withheld (r b l : bool) (a : IpAddr) : bool :=
  (r && existsb (fun s => in_block s a) rfc1918_specs)
  || (b && existsb (fun s => in_block s a) bogon_specs)
  || (l && existsb (fun s => in_block s a) loopback_specs).

Lemma covered_exclusions_withheld r b l a :
  ip_wf a -> covered (exclusions r b l) a = withheld r b l a.
Proof.
  intros Ha. rewrite covered_exclusions. unfold withheld.
  by rewrite (covered_named _ _ a rfc1918_named), (covered_named _ _ a bogons_named),
    (covered_named _ _ a loopback_named).
Qed.

(** What the output covers, in terms of the withheld intervals. *)
Lemma filter_exact ns r b l a :
  ip_wf a ->
  covered (filter_and_aggregate ns r b l) a = true <->
  exists n, n ∈ ns /\ net_contains n a = true /\
    forall a', ip_wf a' -> net_contains n a' = true -> withheld r b l a' = false.
Proof.
  intros Ha. rewrite filter_covers by done.
  split; intros (n & Hn & Hc & Hex); exists n; (split_and!; [done..|]).
  - intros a' Ha' Hc'. destruct (withheld r b l a') eqn:Hw; [|done].
    rewrite <- covered_exclusions_withheld, covered_true in Hw by done.
    destruct Hw as (e & He & Hea). exfalso. apply (Hex e He). by exists a'.
  - intros e He (a' & Ha' & Hna & Hea). specialize (Hex a' Ha' Hna).
    rewrite <- covered_exclusions_withheld in Hex by done.
    assert (covered (exclusions r b l) a' = true) as Hco by (apply covered_true; eauto).
    congruence.
Qed.

(** No literal of the three exclusion lists is dropped by the lenient
    parser: each list denotes, address by address, exactly the intervals its
    CIDR literals name. *)
Theorem literals_not_dropped :
  length RFC1918 = length RFC1918_LITERALS /\ length LOOPBACK = length LOOPBACK_LITERALS /\
  length BOGONS = length BOGON_LITERALS /\
  named_blocks RFC1918 rfc1918_specs /\ named_blocks LOOPBACK loopback_specs /\
  named_blocks BOGONS bogon_specs.
Proof.
  pose proof rfc1918_named as H1. pose proof loopback_named as H2. pose proof bogons_named as H3.
  split_and!; try done;
    [exact (Forall2_length _ _ _ H1)|exact (Forall2_length _ _ _ H2)|exact (Forall2_length _ _ _ H3)].
Qed.

(** The overlap test is exact: a block is refused exactly when it shares at
    least one address with an excluded block, whichever of the two is larger. *)
Theorem overlaps_any_exact c ex :
  overlaps_any c ex = true <->
  exists e a, e ∈ ex /\ ip_wf a /\ net_contains c a = true /\ net_contains e a = true.
Proof. rewrite overlaps_any_true. unfold intersects. naive_solver. Qed.

(** The published list covers an address exactly when some cached block
    contains it and that block shares no address with a range the endpoint's
    flags withhold; in particular nothing else is dropped or invented by the
    aggregation. *)
Theorem filter_and_aggregate_exact ns r b l a :
  ip_wf a ->
  covered (filter_and_aggregate ns r b l) a = true <->
  exists n, n ∈ ns /\ net_contains n a = true /\
    forall a', ip_wf a' -> net_contains n a' = true -> withheld r b l a' = false.
Proof. apply filter_exact. Qed.

(** With a flag on, no address of its ranges is ever published, whatever
    the cache holds. *)
Theorem withheld_never_published ns r b l a :
  ip_wf a -> withheld r b l a = true -> covered (filter_and_aggregate ns r b l) a = false.
Proof.
  intros Ha Hw. destruct (covered _ a) eqn:Hc; [|done].
  apply filter_covers in Hc as (n & _ & Hn & Hex); [|done].
  rewrite <- covered_exclusions_withheld, covered_true in Hw by done.
  destruct Hw as (e & He & Hea). exfalso. apply (Hex e He). by exists a.
Qed.

End meaning.

Lemma filter_and_aggregate_exact_witness :
  covered (filter_and_aggregate (nets ["10.1.2.0/24"; "8.8.8.0/24"; "11.0.0.0/8"]) true true true)
    (V4 134744077) = true.
Proof.
  apply (filter_and_aggregate_exact _ true true true (V4 134744077)); [vm_compute; intuition congruence|].
  eexists. split; [|split].
  - apply list_elem_of_In. right. left. reflexivity.
  - by vm_compute.
  - intros a' Ha' Hc. rewrite (contains_in_block _ "8.8.8.0" (V4 134744064) 24 a') in Hc by done.
    destruct a' as [x|x]; [|done]. cbn in Hc.
    apply andb_true_iff in Hc as [?%Z.leb_le ?%Z.ltb_lt].
    change (2 ^ 8) with 256 in *. unfold withheld, rfc1918_specs, bogon_specs, loopback_specs. cbn.
    rewrite !orb_false_iff, !andb_false_iff, !Z.leb_gt, !Z.ltb_ge. lia.
Defined.

Lemma withheld_never_published_witness :
  covered (filter_and_aggregate (nets ["10.1.2.0/24"; "0.0.0.0/0"]) true false false) (V4 167838210)
  = false.
Proof.
  apply (withheld_never_published _ true false false (V4 167838210));
    [vm_compute; intuition congruence|by vm_compute].
Defined.

End IpFilter.
