(* ===== verification/Cache.v ===== *)
(** * [cache.rs]: the in-memory cache of Vault records

    [IpCache] is a map from endpoint ids to the records of its feed.  The lock
    around it serialises the operations, so each is one function of the map.
    A Rust [HashMap] iterates in an unspecified order: a snapshot is a list here,
    and the theorems about it speak of membership only.  [None] is a panic. *)

From S2P Require Import Prelude.
From S2P Require Import RustStr.
From S2P Require Import Net.
From S2P Require Import Libs.
From S2P Require Import LibsRef.
#[local] Open Scope Z_scope.

Module Cache.

(** ** Data *)

Section data.
Context {L : IpNetLib}.

Definition parse_target_address (raw : string) : option IpNet :=
  match net_parse raw with
  | Some net => Some net
  | None => net_from <$> ip_parse raw
  end.

Record CachedRecord := mkCachedRecord {
  cr_network : IpNet;
  cr_last_seen_at : Z;
}.

Record EndpointCache := mkEndpointCache {
  records : gmap string CachedRecord;
  last_synced_at_ : option Z;
  last_full_sync_at : option Z;
}.

Definition EndpointCache_default : EndpointCache := mkEndpointCache ∅ None None.

Record VaultRecord := mkVaultRecord {
  target_address : string;
  last_seen_at : Z;
  is_deleted : bool;
}.

#[local] Abbreviation IpCache := (gmap Uuid EndpointCache).

Definition new : IpCache := ∅.

(** [guard.entry(id).or_default()]. *)
Definition entry_of (c : IpCache) (endpoint_id : Uuid) : EndpointCache :=
  default EndpointCache_default (c !! endpoint_id).

(** [Some(max.map_or(at, |m| m.max(at)))]. *)
Definition max_seen (m : option Z) (at_ : Z) : option Z :=
  Some (match m with None => at_ | Some m => Z.max m at_ end).

(** ** Operations *)

(** One iteration of [apply_full]'s loop. *)
Definition full_step (acc : gmap string CachedRecord * option Z) (record : VaultRecord)
  : gmap string CachedRecord * option Z :=
  let '(recs, max_last_seen) := acc in
  if is_deleted record then acc else
  match parse_target_address (target_address record) with
  | None => acc
  | Some network =>
      (<[target_address record := mkCachedRecord network (last_seen_at record)]> recs,
       max_seen max_last_seen (last_seen_at record))
  end.

Definition apply_full (instant_now : Z) (c : IpCache) (endpoint_id : Uuid)
    (rs : list VaultRecord) : IpCache :=
  let entry := entry_of c endpoint_id in
  let '(recs, max_last_seen) := foldl full_step (∅, last_synced_at_ entry) rs in
  <[endpoint_id := mkEndpointCache recs max_last_seen (Some instant_now)]> c.

(** One iteration of [apply_diff]'s loop. *)
Definition diff_step (acc : gmap string CachedRecord * option Z) (record : VaultRecord)
  : gmap string CachedRecord * option Z :=
  let '(recs, max_last_seen) := acc in
  let max_last_seen := max_seen max_last_seen (last_seen_at record) in
  if is_deleted record then (delete (target_address record) recs, max_last_seen) else
  match parse_target_address (target_address record) with
  | None => (recs, max_last_seen)
  | Some network =>
      (<[target_address record := mkCachedRecord network (last_seen_at record)]> recs,
       max_last_seen)
  end.

Definition apply_diff (c : IpCache) (endpoint_id : Uuid) (rs : list VaultRecord) : IpCache :=
  let entry := entry_of c endpoint_id in
  let '(recs, max_last_seen) := foldl diff_step (records entry, last_synced_at_ entry) rs in
  <[endpoint_id := mkEndpointCache recs max_last_seen (last_full_sync_at entry)]> c.

(** The values of a [HashMap], in some order. *)
Definition values (m : gmap string CachedRecord) : list CachedRecord := (map_to_list m).*2.

Definition snapshot_within {C : ChronoLib} (c : IpCache) (endpoint_id : Uuid)
    (max_age_seconds now : Z) : option (list IpNet) :=
  match c !! endpoint_id with
  | None => Some []
  | Some entry =>
      if max_age_seconds <=? 0 then Some (cr_network <$> values (records entry)) else
      match delta_seconds max_age_seconds with
      | None => None
      | Some age =>
          match datetime_sub now age with
          | None => None
          | Some cutoff =>
              Some (cr_network <$>
                List.filter (fun r => cutoff <=? cr_last_seen_at r) (values (records entry)))
          end
      end
  end.

Definition snapshot {C : ChronoLib} (c : IpCache) (endpoint_id : Uuid) (now : Z)
  : option (list IpNet) :=
  snapshot_within c endpoint_id 0 now.

Definition last_synced_at (c : IpCache) (endpoint_id : Uuid) : option Z :=
  match c !! endpoint_id with Some e => last_synced_at_ e | None => None end.

(** [Instant::elapsed] saturates at zero. *)
Definition full_sync_due (instant_now : Z) (c : IpCache) (endpoint_id : Uuid) (interval : Z)
  : bool :=
  match (match c !! endpoint_id with Some e => last_full_sync_at e | None => None end) with
  | Some at_ => interval <=? Z.max 0 (instant_now - at_)
  | None => true
  end.

Definition evict (c : IpCache) (endpoint_id : Uuid) : IpCache := delete endpoint_id c.

End data.
#[global] Arguments CachedRecord {L}.
#[global] Arguments EndpointCache {L}.
Abbreviation IpCache := (gmap Uuid EndpointCache).

(** ** The record set: what the loops compute *)

Section lookup.
Context {L : IpNetLib}.
Implicit Types (rs : list VaultRecord) (m : gmap string CachedRecord).

(** The records cached for an endpoint. *)
Definition cached (c : IpCache) (id : Uuid) : gmap string CachedRecord := records (entry_of c id).

(** A live record as the cache holds it. *)
Definition as_cached (r : VaultRecord) : option CachedRecord :=
  (fun n => mkCachedRecord n (last_seen_at r)) <$> parse_target_address (target_address r).

(** The last record of a batch that names [k]: a batch has an item for every
    membership of an address in a group, so it can name an address many times. *)
Definition last_word rs (k : string) : option VaultRecord := last (filter (fun r => target_address r = k) rs).

(** The live records of a batch. *)
Definition live rs : list VaultRecord := filter (fun r => is_deleted r = false) rs.

Lemma full_step_lookup m t r k :
  (full_step (m, t) r).1 !! k =
  if decide (target_address r = k)
  then (if is_deleted r then m !! k
        else match as_cached r with Some e => Some e | None => m !! k end)
  else m !! k.
Proof.
  unfold full_step, as_cached. repeat case_match; simplify_eq/=; try done;
    simplify_map_eq; done.
Qed.

Lemma diff_step_lookup m t r k :
  (diff_step (m, t) r).1 !! k =
  if decide (target_address r = k)
  then (if is_deleted r then None
        else match as_cached r with Some e => Some e | None => m !! k end)
  else m !! k.
Proof.
  unfold diff_step, as_cached. repeat case_match; simplify_eq/=; try done;
    simplify_map_eq; done.
Qed.

Lemma fold_absent (step : gmap string CachedRecord * option Z -> VaultRecord -> _) rs k :
  (forall m t r, target_address r <> k -> (step (m, t) r).1 !! k = m !! k) ->
  k ∉ target_address <$> rs ->
  forall acc, (foldl step acc rs).1 !! k = acc.1 !! k.
Proof.
  intros Hstep. induction rs as [|r rs IH]; intros Hk acc; [done|].
  rewrite fmap_cons, not_elem_of_cons in Hk. destruct Hk as [Hne Hk]. simpl.
  rewrite IH by done. destruct acc as [m t]. by apply Hstep.
Qed.

Lemma last_synced_at_entry c id : last_synced_at_ (entry_of c id) = last_synced_at c id.
Proof. unfold entry_of, last_synced_at. by destruct (c !! id). Qed.

Lemma cached_apply_full i c id rs :
  cached (apply_full i c id rs) id = (foldl full_step (∅, last_synced_at c id) rs).1.
Proof.
  unfold apply_full. rewrite last_synced_at_entry. unfold cached.
  destruct (foldl _ _ rs) as [recs mx]. unfold entry_of. by rewrite lookup_insert_eq.
Qed.

Lemma cached_apply_diff c id rs :
  cached (apply_diff c id rs) id = (foldl diff_step (cached c id, last_synced_at c id) rs).1.
Proof.
  unfold apply_diff. rewrite last_synced_at_entry. unfold cached.
  destruct (foldl _ _ rs) as [recs mx]. unfold entry_of. by rewrite lookup_insert_eq.
Qed.

Lemma full_step_ne m t r k : target_address r <> k -> (full_step (m, t) r).1 !! k = m !! k.
Proof. intros. rewrite full_step_lookup. by rewrite decide_False. Qed.

Lemma diff_step_ne m t r k : target_address r <> k -> (diff_step (m, t) r).1 !! k = m !! k.
Proof. intros. rewrite diff_step_lookup. by rewrite decide_False. Qed.

Lemma last_word_snoc rs r k :
  last_word (rs ++ [r]) k = if decide (target_address r = k) then Some r else last_word rs k.
Proof.
  unfold last_word. rewrite filter_app, filter_cons, filter_nil.
  case_decide; [by rewrite last_snoc|by rewrite app_nil_r].
Qed.

Lemma last_word_Some rs k r : last_word rs k = Some r -> r ∈ rs /\ target_address r = k.
Proof. intros [Hk Hr]%last_Some_elem_of%list_elem_of_filter. done. Qed.

Lemma last_word_None rs k r : last_word rs k = None -> r ∈ rs -> target_address r <> k.
Proof.
  unfold last_word. intros Hl%last_None Hr Hk. apply (not_elem_of_nil r). rewrite <- Hl.
  by apply list_elem_of_filter.
Qed.

Lemma last_word_app rs rs' k :
  last_word (rs ++ rs') k = match last_word rs' k with Some r => Some r | None => last_word rs k end.
Proof. unfold last_word. by rewrite filter_app, last_app. Qed.

Lemma as_cached_unparseable r : parse_target_address (target_address r) = None -> as_cached r = None.
Proof. unfold as_cached. by intros ->. Qed.

(** An address is readable, or it is not in the cache. *)
Definition readable (k : string) (o : option CachedRecord) : Prop :=
  is_Some (parse_target_address k) \/ o = None.

(** A full batch leaves the last live word on every address, *)
Lemma full_fold rs k acc :
  readable k (acc.1 !! k) ->
  (foldl full_step acc rs).1 !! k =
  match last_word (live rs) k with Some r => as_cached r | None => acc.1 !! k end.
Proof.
  intros Hk. induction rs as [|r rs IH] using rev_ind; [done|]. rewrite foldl_app. cbn [foldl].
  destruct (foldl full_step acc rs) as [m t]. cbn [fst] in IH. rewrite full_step_lookup. unfold live in *.
  rewrite filter_app, filter_cons, filter_nil. destruct (is_deleted r); simpl.
  { rewrite app_nil_r. by case_decide. }
  rewrite last_word_snoc. case_decide as Ha; [|done]. unfold as_cached at 1 2. rewrite Ha.
  destruct Hk as [[n ->]|Hk]; [done|]. destruct (parse_target_address k) eqn:Hp; [done|]. simpl. rewrite IH.
  destruct (last_word _ k) as [r'|] eqn:Hl; [|done]. apply last_word_Some in Hl as [_ <-].
  by apply as_cached_unparseable.
Qed.

(** and a differential one the last word, where there is one. *)
Lemma diff_fold rs k acc :
  readable k (acc.1 !! k) ->
  (foldl diff_step acc rs).1 !! k =
  match last_word rs k with
  | Some r => if is_deleted r then None else as_cached r
  | None => acc.1 !! k
  end.
Proof.
  intros Hk. induction rs as [|r rs IH] using rev_ind; [done|]. rewrite foldl_app. cbn [foldl].
  destruct (foldl diff_step acc rs) as [m t]. cbn [fst] in IH. rewrite diff_step_lookup, last_word_snoc.
  case_decide as Ha; [|done]. destruct (is_deleted r); [done|]. unfold as_cached at 1 2. rewrite Ha.
  destruct Hk as [[n ->]|Hk]; [done|]. destruct (parse_target_address k) eqn:Hp; [done|]. simpl. rewrite IH.
  destruct (last_word _ k) as [r'|] eqn:Hl; [|done]. apply last_word_Some in Hl as [_ <-].
  destruct (is_deleted r'); [done|]. by apply as_cached_unparseable.
Qed.

Lemma apply_full_lookup i c id rs k :
  cached (apply_full i c id rs) id !! k =
  match last_word (live rs) k with Some r => as_cached r | None => None end.
Proof. rewrite cached_apply_full, full_fold by by right. done. Qed.

Lemma apply_diff_lookup c id rs k :
  readable k (cached c id !! k) ->
  cached (apply_diff c id rs) id !! k =
  match last_word rs k with
  | Some r => if is_deleted r then None else as_cached r
  | None => cached c id !! k
  end.
Proof. intros Hk. by rewrite cached_apply_diff, diff_fold. Qed.

End lookup.

(** ** Mirroring Vault

    The store behind [GET /api/ips], as far as the groups of an endpoint go: the
    membership of an address in a group has the time it was last seen there and
    whether it is a tombstone.  An item of an answer is one membership, without
    the name of the group. *)

Abbreviation VaultState := (gmap (string * string) (Z * bool)).

Section mirror.
Context {L : IpNetLib}.

(** The address [k] was last seen at [t] in some group, as a tombstone or not. *)
Definition seen (V : VaultState) (k : string) (t : Z) (deleted : bool) : Prop :=
  exists g, V !! (k, g) = Some (t, deleted).

(** The items of [rs] are the memberships of [V] that satisfy [P], in any order. *)
Definition lists (V : VaultState) (P : VaultRecord -> Prop) (rs : list VaultRecord) : Prop :=
  forall r, r ∈ rs <-> seen V (target_address r) (last_seen_at r) (is_deleted r) /\ P r.

#[global] Instance vault_record_eq_dec : EqDecision VaultRecord.
Proof. solve_decision. Defined.

Definition item (m : string * string * (Z * bool)) : VaultRecord := mkVaultRecord m.1.1 m.2.1 m.2.2.

Lemma elem_of_items V r :
  r ∈ item <$> map_to_list V <-> seen V (target_address r) (last_seen_at r) (is_deleted r).
Proof.
  rewrite list_elem_of_fmap. unfold seen. split.
  - intros ([[k g] [t d]] & -> & Hm%elem_of_map_to_list). by exists g.
  - intros [g Hg]. exists (target_address r, g, (last_seen_at r, is_deleted r)).
    split; [by destruct r|by apply elem_of_map_to_list].
Qed.

(** For concrete states. *)
Lemma lists_concrete V P `{!forall r, Decision (P r)} rs :
  bool_decide (filter P (item <$> map_to_list V) ⊆ rs /\ rs ⊆ filter P (item <$> map_to_list V)) = true ->
  lists V P rs.
Proof.
  intros [H1 H2]%bool_decide_eq_true r. rewrite <- elem_of_items, (and_comm _ (P r)), <- list_elem_of_filter.
  split; [apply H2|apply H1].
Qed.

(** The cache is right about [k]: it holds [k] with the time of a live membership,
    or there is none or [k] cannot be read as an address. *)
Definition faithful (c : IpCache) (id : Uuid) (V : VaultState) (k : string) : Prop :=
  match cached c id !! k with
  | Some r => parse_target_address k = Some (cr_network r) /\ seen V k (cr_last_seen_at r) false
  | None => parse_target_address k = None \/ forall t, ~ seen V k t false
  end.

Definition mirrors (c : IpCache) (id : Uuid) (V : VaultState) : Prop := forall k, faithful c id V k.

Lemma mirrors_full i c id V rs :
  lists V (fun r => is_deleted r = false) rs -> mirrors (apply_full i c id rs) id V.
Proof.
  intros Hl k. unfold faithful. rewrite apply_full_lookup. destruct (last_word (live rs) k) as [r|] eqn:Hw.
  - apply last_word_Some in Hw as [[Hd Hr]%list_elem_of_filter <-]. apply Hl in Hr as [Hs _]. rewrite Hd in Hs.
    unfold as_cached. destruct (parse_target_address (target_address r)); simpl; [done|by left].
  - right. intros t Hs. apply (last_word_None _ _ (mkVaultRecord k t false) Hw); [|done].
    apply list_elem_of_filter. split; [done|]. by apply Hl.
Qed.

(** *** Differential batches *)

(** The items of [rs] are the memberships of [V] in [Lst], in any order: what Vault
    answers to a query [since], [Lst] being what it counts as touched since. *)
Definition selects (Lst : string * string -> Prop) (V : VaultState) (rs : list VaultRecord) : Prop :=
  forall r, r ∈ rs <->
    exists g, V !! (target_address r, g) = Some (last_seen_at r, is_deleted r) /\ Lst (target_address r, g).

(** The documented reading of [since]: observed at or after it. *)
Definition stamped (V : VaultState) (since : Z) (m : string * string) : Prop :=
  exists t d, V !! m = Some (t, d) /\ since <= t.

Lemma lists_selects V since rs :
  lists V (fun r => since <= last_seen_at r) rs -> selects (stamped V since) V rs.
Proof.
  intros Hl r. rewrite (Hl r). unfold seen, stamped. split.
  - intros [[g Hg] Ht]. exists g. split; [done|]. by exists (last_seen_at r), (is_deleted r).
  - intros (g & Hg & t & d & Hm & Ht). split; [by exists g|]. rewrite Hg in Hm. injection Hm as H1 H2. by rewrite H1.
Qed.

(** [k] has a membership, a tombstone or not, in [Lst]. *)
Definition touched (V : VaultState) (Lst : string * string -> Prop) (k : string) (deleted : bool) : Prop :=
  exists g t, V !! (k, g) = Some (t, deleted) /\ Lst (k, g).

(** What a batch of the memberships in [Lst] makes of the entry of [k]: it is kept
    when none is of [k]; a tombstone can withdraw it, and a live membership set it. *)
Inductive carried (V : VaultState) (Lst : string * string -> Prop) (k : string) (old : option CachedRecord)
  : option CachedRecord -> Prop :=
| carried_kept : (forall d, ~ touched V Lst k d) -> carried V Lst k old old
| carried_withdrawn : touched V Lst k true -> carried V Lst k old None
| carried_set n g t : parse_target_address k = Some n -> V !! (k, g) = Some (t, false) -> Lst (k, g) ->
    carried V Lst k old (Some (mkCachedRecord n t))
| carried_unreadable : parse_target_address k = None -> carried V Lst k old None.

Lemma diff_carried c id V Lst rs k :
  readable k (cached c id !! k) -> selects Lst V rs ->
  carried V Lst k (cached c id !! k) (cached (apply_diff c id rs) id !! k).
Proof.
  intros Hk Hl. rewrite apply_diff_lookup by done. destruct (last_word rs k) as [r|] eqn:Hw.
  - apply last_word_Some in Hw as [(g & Hg & HL)%Hl <-].
    destruct (is_deleted r) eqn:Hd; [by constructor; exists g, (last_seen_at r)|].
    unfold as_cached. destruct (parse_target_address _) eqn:Hp; [by econstructor|by constructor 4].
  - constructor. intros d (g & t & Hg & HL). apply (last_word_None _ _ (mkVaultRecord k t d) Hw); [|done].
    apply Hl. by exists g.
Qed.

(** [V'] differs from [V] only in memberships it has and that are in [Lst]. *)
Definition changed_within (Lst : string * string -> Prop) (V V' : VaultState) : Prop :=
  forall m, V' !! m <> V !! m -> is_Some (V' !! m) /\ Lst m.

(** No address has a tombstone in [Lst] for one group and is live in another. *)
Definition undisputed (Lst : string * string -> Prop) (V : VaultState) : Prop :=
  forall k, touched V Lst k true -> forall t, ~ seen V k t false.

Lemma changed_untouched Lst V V' k :
  changed_within Lst V V' -> (forall d, ~ touched V' Lst k d) -> forall t d, seen V' k t d <-> seen V k t d.
Proof.
  intros Hch Hno t d. assert (forall g, V' !! (k, g) = V !! (k, g)) as Heq.
  { intros g. destruct (decide (V' !! (k, g) = V !! (k, g))) as [|Hne]; [done|].
    destruct (Hch _ Hne) as [[[t' d'] Hv] HL]. exfalso. apply (Hno d'). by exists g, t'. }
  unfold seen. by setoid_rewrite Heq.
Qed.

Lemma faithful_diff c id Lst V V' rs k :
  faithful c id V k -> changed_within Lst V V' -> undisputed Lst V' -> selects Lst V' rs ->
  faithful (apply_diff c id rs) id V' k.
Proof.
  intros Hf Hch Hun Hl. assert (readable k (cached c id !! k)) as Hk.
  { unfold faithful in Hf. destruct (cached c id !! k); [|by right]. destruct Hf as [Hp _]. left. by rewrite Hp. }
  pose proof (diff_carried c id V' Lst rs k Hk Hl) as Hc. unfold faithful in *.
  destruct Hc as [Hno|Ht|n g t Hp Hs HL|Hp]; [|right; by apply Hun|split; [done|by exists g]|by left].
  pose proof (changed_untouched Lst V V' k Hch Hno) as Heq. destruct (cached c id !! k); by setoid_rewrite Heq.
Qed.

Lemma mirrors_diff c id Lst V V' rs :
  mirrors c id V -> changed_within Lst V V' -> undisputed Lst V' -> selects Lst V' rs ->
  mirrors (apply_diff c id rs) id V'.
Proof. intros Hm Hch Hun Hl k. by eapply faithful_diff. Qed.

Lemma cached_ne c id id' e : id <> id' -> cached (<[id' := e]> c) id = cached c id.
Proof. intros. unfold cached, entry_of. by rewrite lookup_insert_ne. Qed.

Lemma apply_full_other i c id id' rs :
  id <> id' -> cached (apply_full i c id' rs) id = cached c id.
Proof. intros. unfold apply_full. case_match. by apply cached_ne. Qed.

Lemma apply_diff_other c id id' rs :
  id <> id' -> cached (apply_diff c id' rs) id = cached c id.
Proof. intros. unfold apply_diff. case_match. by apply cached_ne. Qed.

Lemma evict_other c id id' : id <> id' -> cached (evict c id') id = cached c id.
Proof. intros. unfold cached, entry_of, evict. by rewrite lookup_delete_ne. Qed.

(** ** The cache as a log

    The abstract view: an endpoint has the list of the records it was told since
    its last full batch, and what it holds of an address is the last word on it. *)

(** The operations that change the cache. *)
Inductive cache_op :=
| OpFull (instant_now : Z) (id : Uuid) (rs : list VaultRecord)
| OpDiff (id : Uuid) (rs : list VaultRecord)
| OpEvict (id : Uuid).

Definition cache_exec (c : IpCache) (o : cache_op) : IpCache :=
  match o with
  | OpFull i id rs => apply_full i c id rs
  | OpDiff id rs => apply_diff c id rs
  | OpEvict id => evict c id
  end.

Definition op_id (op : cache_op) : Uuid :=
  match op with OpFull _ id _ | OpDiff id _ | OpEvict id => id end.

Definition told (log : list VaultRecord) (op : cache_op) : list VaultRecord :=
  match op with
  | OpFull _ _ rs => live rs
  | OpDiff _ rs => log ++ rs
  | OpEvict _ => []
  end.

Definition log_of (id : Uuid) (ops : list cache_op) : list VaultRecord :=
  foldl (fun log op => if decide (op_id op = id) then told log op else log) [] ops.

Definition entry_after (log : list VaultRecord) (k : string) : option CachedRecord :=
  match last_word log k with
  | Some r => if is_deleted r then None else as_cached r
  | None => None
  end.

Lemma entry_after_readable log k : readable k (entry_after log k).
Proof.
  unfold readable, entry_after. destruct (parse_target_address k) eqn:Hp; [by left|right].
  destruct (last_word log k) as [r|] eqn:Hl; [|done]. apply last_word_Some in Hl as [_ <-].
  destruct (is_deleted r); [done|by apply as_cached_unparseable].
Qed.

Lemma told_lookup c log op k :
  (forall k, cached c (op_id op) !! k = entry_after log k) ->
  cached (cache_exec c op) (op_id op) !! k = entry_after (told log op) k.
Proof.
  intros IH. unfold entry_after at 1. destruct op as [i id rs|id rs|id]; cbn [cache_exec op_id told] in *.
  - rewrite apply_full_lookup. destruct (last_word (live rs) k) as [r|] eqn:Hl; [|done].
    apply last_word_Some in Hl as [[Hd _]%list_elem_of_filter _]. by rewrite Hd.
  - rewrite apply_diff_lookup by (rewrite IH; apply entry_after_readable). rewrite last_word_app.
    destruct (last_word rs k); [done|apply IH].
  - unfold cached, entry_of, evict. by rewrite lookup_delete_eq.
Qed.

Lemma cache_exec_other c op id : op_id op <> id -> cached (cache_exec c op) id = cached c id.
Proof.
  intros Hid. destruct op; cbn [cache_exec op_id] in *;
    [by apply apply_full_other|by apply apply_diff_other|by apply evict_other].
Qed.

(** C28. Whatever batches Vault sends, in whatever order and with however many items
    for an address, and however the operations of other endpoints interleave: what
    the cache of an endpoint holds of an address is what the last item that named
    it says, among the live items of the last full batch and all items of the
    differential batches since; a tombstone and an unreadable address hold nothing. *)
Theorem cache_is_last_word ops id k :
  cached (foldl cache_exec new ops) id !! k = entry_after (log_of id ops) k.
Proof.
  revert k. induction ops as [|op ops IH] using rev_ind; intros k; [done|]. unfold log_of. rewrite !foldl_app. cbn [foldl].
  fold (log_of id ops). case_decide as Hid; [|by rewrite cache_exec_other].
  subst id. by apply told_lookup.
Qed.

End mirror.

Section invariant.
Context {L : IpNetLib}.

(** ** The invariant of the cache *)

(** Every record is cached under the address it parses from, and none is newer
    than the endpoint's cursor. *)
Definition entry_wf (m : gmap string CachedRecord) (cursor : option Z) : Prop :=
  forall k r, m !! k = Some r ->
    parse_target_address k = Some (cr_network r) /\
    exists t, cursor = Some t /\ cr_last_seen_at r <= t.

Definition cache_wf (c : IpCache) : Prop :=
  forall id e, c !! id = Some e -> entry_wf (records e) (last_synced_at_ e).

Definition cursor_le (a b : option Z) : Prop :=
  match a, b with
  | None, _ => True
  | Some x, Some y => x <= y
  | Some _, None => False
  end.

Lemma cursor_le_refl a : cursor_le a a.
Proof. destruct a; simpl; [lia|done]. Qed.

Lemma cursor_le_trans a b d : cursor_le a b -> cursor_le b d -> cursor_le a d.
Proof. destruct a, b, d; simpl; try done; lia. Qed.

Lemma max_seen_le m x : cursor_le m (max_seen m x) /\ cursor_le (Some x) (max_seen m x).
Proof. destruct m; simpl; lia. Qed.

Lemma entry_wf_mono m a b : cursor_le a b -> entry_wf m a -> entry_wf m b.
Proof.
  intros Hab Hm k r Hr. destruct (Hm k r Hr) as [Hp (t & -> & Hle)]. split; [done|].
  destruct b as [t'|]; [|done]. exists t'. simpl in Hab. split; [done|lia].
Qed.

Lemma entry_wf_insert m cur r net :
  entry_wf m cur -> parse_target_address (target_address r) = Some net ->
  entry_wf (<[target_address r := mkCachedRecord net (last_seen_at r)]> m)
    (max_seen cur (last_seen_at r)).
Proof.
  intros Hm Hp k r' [[<- <-]|[Hne Hr]]%lookup_insert_Some.
  - split; [done|]. eexists. split; [done|]. destruct cur; simpl; lia.
  - eapply (entry_wf_mono m cur); [apply max_seen_le|done|done].
Qed.

Lemma full_step_wf m cur r :
  entry_wf m cur ->
  entry_wf (full_step (m, cur) r).1 (full_step (m, cur) r).2 /\
  cursor_le cur (full_step (m, cur) r).2.
Proof.
  intros Hm. unfold full_step. repeat case_match; simpl.
  - split; [done|apply cursor_le_refl].
  - split; [by apply entry_wf_insert|apply max_seen_le].
  - split; [done|apply cursor_le_refl].
Qed.

Lemma diff_step_wf m cur r :
  entry_wf m cur ->
  entry_wf (diff_step (m, cur) r).1 (diff_step (m, cur) r).2 /\
  cursor_le cur (diff_step (m, cur) r).2.
Proof.
  intros Hm. unfold diff_step. repeat case_match; simpl; (split; [|apply max_seen_le]).
  - intros k r' [_ Hr]%lookup_delete_Some. eapply (entry_wf_mono m cur); [apply max_seen_le|done..].
  - by apply entry_wf_insert.
  - eapply (entry_wf_mono m cur); [apply max_seen_le|done].
Qed.

Lemma fold_wf (step : gmap string CachedRecord * option Z -> VaultRecord -> _) rs :
  (forall m cur r, entry_wf m cur ->
     entry_wf (step (m, cur) r).1 (step (m, cur) r).2 /\ cursor_le cur (step (m, cur) r).2) ->
  forall acc, entry_wf acc.1 acc.2 ->
  entry_wf (foldl step acc rs).1 (foldl step acc rs).2 /\ cursor_le acc.2 (foldl step acc rs).2.
Proof.
  intros Hstep. induction rs as [|r rs IH]; intros [m cur] Hm; simpl.
  - split; [done|apply cursor_le_refl].
  - destruct (Hstep m cur r Hm) as [Hw Hc]. destruct (IH _ Hw) as [Hw' Hc']. split; [done|].
    by eapply cursor_le_trans.
Qed.

(** The cursor after a differential batch is at least each of its timestamps. *)
Lemma fold_diff_cursor r rs : r ∈ rs -> forall m cur,
  entry_wf m cur -> cursor_le (Some (last_seen_at r)) (foldl diff_step (m, cur) rs).2.
Proof.
  induction rs as [|r' rs IH]; intros Hr m cur Hw; [by apply elem_of_nil in Hr|]. cbn [foldl].
  pose proof (diff_step_wf m cur r' Hw) as [Hw' _].
  apply elem_of_cons in Hr as [<-|Hr].
  - apply (cursor_le_trans _ (diff_step (m, cur) r).2);
      [|by apply (fold_wf diff_step rs diff_step_wf)].
    unfold diff_step. repeat case_match; apply max_seen_le.
  - destruct (diff_step (m, cur) r') as [m1 cur1]. by apply IH.
Qed.

Lemma entry_wf_of c id : cache_wf c -> entry_wf (records (entry_of c id)) (last_synced_at c id).
Proof.
  intros Hc. rewrite <- last_synced_at_entry. unfold entry_of.
  destruct (c !! id) as [e|] eqn:He; [by apply (Hc id)|]. intros k r Hr. simpl in Hr. by simplify_map_eq.
Qed.

Lemma wf_readable c id k : cache_wf c -> readable k (cached c id !! k).
Proof.
  intros Hc. destruct (cached c id !! k) as [r|] eqn:Hr; [left|by right].
  destruct (entry_wf_of c id Hc k r Hr) as [Hp _]. by rewrite Hp.
Qed.

Lemma cache_wf_insert c id e :
  cache_wf c -> entry_wf (records e) (last_synced_at_ e) -> cache_wf (<[id := e]> c).
Proof. intros Hc He id' e' [[<- <-]|[? ?]]%lookup_insert_Some; eauto. Qed.

Lemma apply_full_wf i c id rs :
  cache_wf c ->
  cache_wf (apply_full i c id rs) /\
  cursor_le (last_synced_at c id) (last_synced_at (apply_full i c id rs) id).
Proof.
  intros Hc. unfold apply_full. rewrite last_synced_at_entry.
  destruct (fold_wf full_step rs full_step_wf (∅, last_synced_at c id)) as [Hw Hle].
  { intros k r Hr. simpl in Hr. by simplify_map_eq. }
  destruct (foldl _ _ rs) as [m cur]. simpl in *. split; [by apply cache_wf_insert|].
  unfold last_synced_at at 2. by rewrite lookup_insert_eq.
Qed.

Lemma apply_diff_wf c id rs :
  cache_wf c ->
  cache_wf (apply_diff c id rs) /\
  cursor_le (last_synced_at c id) (last_synced_at (apply_diff c id rs) id).
Proof.
  intros Hc. unfold apply_diff. rewrite last_synced_at_entry.
  destruct (fold_wf diff_step rs diff_step_wf (records (entry_of c id), last_synced_at c id))
    as [Hw Hle].
  { by apply entry_wf_of. }
  destruct (foldl _ _ rs) as [m cur]. simpl in *. split; [by apply cache_wf_insert|].
  unfold last_synced_at at 2. by rewrite lookup_insert_eq.
Qed.

Lemma new_wf : cache_wf new.
Proof. unfold new. intros id e He. by apply lookup_empty_Some in He. Qed.

Lemma cache_exec_wf c o : cache_wf c -> cache_wf (cache_exec c o).
Proof.
  intros Hc. destruct o as [i id rs|id rs|id]; simpl.
  - by apply apply_full_wf.
  - by apply apply_diff_wf.
  - unfold evict. intros id' e [_ He]%lookup_delete_Some. eauto.
Qed.

(** Starting from the empty cache, after any sequence of full syncs,
    differential syncs and evictions every record sits under the address text it
    parses from and no record is newer than its endpoint's cursor. *)
Theorem cache_invariant ops : cache_wf (foldl cache_exec new ops).
Proof.
  pose proof new_wf as H0.
  revert H0. generalize new. induction ops as [|o ops IH]; intros c Hc; [done|].
  apply IH. by apply cache_exec_wf.
Qed.

(** The [since] cursor of an endpoint never moves backwards, and after a
    differential batch it is at least every timestamp of the batch. *)
Theorem cursor_monotone i c id rs :
  cache_wf c ->
  cursor_le (last_synced_at c id) (last_synced_at (apply_full i c id rs) id) /\
  cursor_le (last_synced_at c id) (last_synced_at (apply_diff c id rs) id) /\
  forall r, r ∈ rs -> cursor_le (Some (last_seen_at r)) (last_synced_at (apply_diff c id rs) id).
Proof.
  intros Hc. split_and!; [by apply apply_full_wf|by apply apply_diff_wf|].
  intros r Hr. unfold apply_diff. rewrite last_synced_at_entry.
  pose proof (fold_diff_cursor r rs Hr _ _ (entry_wf_of c id Hc)) as Hcur.
  destruct (foldl _ _ rs) as [m cur]. unfold last_synced_at. by rewrite lookup_insert_eq.
Qed.

End invariant.

(** ** Snapshots *)

Section snapshots.
Context {L : IpNetLib} {C : ChronoLib} {CL : ChronoLaws C}.

Lemma elem_of_values m r : r ∈ values m <-> exists k, m !! k = Some r.
Proof.
  unfold values. rewrite list_elem_of_fmap. split.
  - intros ([k r'] & -> & Hr%elem_of_map_to_list). eauto.
  - intros [k Hk]. exists (k, r). split; [done|by apply elem_of_map_to_list].
Qed.

Lemma cached_Some c id e : c !! id = Some e -> cached c id = records e.
Proof. unfold cached, entry_of. by intros ->. Qed.

(** The retention windows [TimeDelta] and [NaiveDateTime] can represent at [now]. *)
Definition window_representable (max_age_seconds now : Z) : Prop :=
  max_age_seconds <= delta_max_secs /\
  datetime_min <= now - from_secs max_age_seconds < datetime_max.

(** A snapshot that did not panic. *)
Lemma snapshot_Some c id max_age now ns :
  snapshot_within c id max_age now = Some ns ->
  forall n, n ∈ ns <->
    exists k r, cached c id !! k = Some r /\ cr_network r = n /\
      (0 < max_age -> now - from_secs max_age <= cr_last_seen_at r).
Proof.
  unfold snapshot_within. destruct (c !! id) as [e|] eqn:He.
  2:{ intros [= <-] n. unfold cached, entry_of. rewrite He. simpl.
      split; [by intros ?%elem_of_nil|]. intros (k & r & Hk & _). by simplify_map_eq. }
  rewrite (cached_Some _ _ _ He). destruct (Z.leb_spec max_age 0) as [H0|H0].
  - intros [= <-] n. rewrite list_elem_of_fmap.
    setoid_rewrite elem_of_values. split; [|naive_solver].
    intros (r & -> & [k Hk]). exists k, r. split_and!; [done..|]. lia.
  - rewrite delta_seconds_spec. destruct (_ && _); [|done].
    rewrite datetime_sub_spec. destruct (_ && _); [|done]. intros [= <-] n. rewrite list_elem_of_fmap.
    setoid_rewrite elem_of_filter_bool.
    setoid_rewrite elem_of_values. setoid_rewrite Z.leb_le. naive_solver.
Qed.

(** The window and the cutoff are values chrono can represent. *)
Lemma snapshot_None c id max_age now :
  snapshot_within c id max_age now = None <->
  is_Some (c !! id) /\ 0 < max_age /\ ~ window_representable max_age now.
Proof.
  unfold snapshot_within, window_representable. destruct (c !! id) as [e|]; [|naive_solver].
  assert (0 < delta_max_secs) by (unfold delta_max_secs, i64_max; by vm_compute).
  destruct (Z.leb_spec max_age 0) as [H0|H0]; [split; [done|lia]|].
  rewrite delta_seconds_spec, (proj2 (Z.leb_le (- delta_max_secs) _)) by lia.
  destruct (Z.leb_spec max_age delta_max_secs) as [Hmax|Hmax]; cbn [andb].
  2:{ split; [|done]. intros _. split_and!; [done..|]. lia. }
  rewrite datetime_sub_spec. destruct (Z.leb_spec datetime_min (now - from_secs max_age)) as [Hlo|Hlo];
    [destruct (Z.ltb_spec (now - from_secs max_age) datetime_max) as [Hhi|Hhi]|]; cbn [andb].
  - split; [done|]. intros (_ & _ & []). done.
  - split; [|done]. intros _. split_and!; [done..|]. lia.
  - split; [|done]. intros _. split_and!; [done..|]. lia.
Qed.

(** C40. Snapshots in full, panics included: the call panics precisely when the
    endpoint has an entry and its retention window, or the date it reaches back
    to, is beyond what chrono represents; otherwise it returns exactly the
    networks of the endpoint's records seen within the window (all of them when
    the window is not positive), and nothing for an unknown endpoint. *)
Theorem snapshot_within_exact c id max_age now :
  (snapshot_within c id max_age now = None <->
     is_Some (c !! id) /\ 0 < max_age /\ ~ window_representable max_age now) /\
  forall ns, snapshot_within c id max_age now = Some ns ->
    forall n, n ∈ ns <->
      exists k r, cached c id !! k = Some r /\ cr_network r = n /\
        (0 < max_age -> now - from_secs max_age <= cr_last_seen_at r).
Proof. split; [apply snapshot_None|intros ns; apply snapshot_Some]. Qed.

(** The full-sync schedule: a full sync is due until one has run, not due
    before [interval] has passed since the last one, whatever differential syncs
    ran in between, and due again from then on; an eviction makes it due. *)
Theorem full_sync_schedule i i' c id rs diffs interval :
  0 < interval -> i <= i' ->
  full_sync_due i' new id interval = true /\
  full_sync_due i' (foldl (fun c d => apply_diff c id d) (apply_full i c id rs) diffs) id interval
  = bool_decide (i + interval <= i') /\
  full_sync_due i' (evict (apply_full i c id rs) id) id interval = true.
Proof.
  intros Hint Hi. split_and!.
  - done.
  - assert (forall c, (exists e, c !! id = Some e /\ last_full_sync_at e = Some i) ->
      exists e, foldl (fun c d => apply_diff c id d) c diffs !! id = Some e /\
        last_full_sync_at e = Some i) as Hkeep.
    { clear. induction diffs as [|d diffs IH]; intros c Hc; [done|]. apply IH.
      destruct Hc as (e & He & Hl). unfold apply_diff, entry_of. rewrite He.
      cbn [default]. case_match. eexists. rewrite lookup_insert_eq. split; [done|]. done. }
    destruct (Hkeep (apply_full i c id rs)) as (e & He & Hl).
    { unfold apply_full. case_match. eexists. rewrite lookup_insert_eq. done. }
    unfold full_sync_due. rewrite He, Hl. apply eq_iff_eq_true.
    rewrite Z.leb_le, bool_decide_eq_true. lia.
  - unfold full_sync_due, evict. by rewrite lookup_delete_eq.
Qed.

End snapshots.

(** ** Witnesses *)

Section witnesses.
Import Ref.

Definition w_full : list VaultRecord :=
  [mkVaultRecord "1.2.3.4" 10 false; mkVaultRecord "5.6.7.8/24" 11 false].
Definition w_diff : list VaultRecord := [mkVaultRecord "1.2.3.4" 20 true].
Definition w_cache : IpCache := apply_full 100 new 7%N w_full.

(** An address of two groups: the order of the items decides. *)
Example w_order :
  (fun rs => cr_last_seen_at <$> cached (foldl cache_exec new [OpFull 0 7%N w_full; OpDiff 7%N rs]) 7%N !! "1.2.3.4")
    <$> [[mkVaultRecord "1.2.3.4" 20 true; mkVaultRecord "1.2.3.4" 21 false];
         [mkVaultRecord "1.2.3.4" 21 false; mkVaultRecord "1.2.3.4" 20 true]]
  = [Some 21; None].
Proof. by vm_compute. Qed.

Lemma cursor_monotone_witness :
  cursor_le (Some 20) (last_synced_at (apply_diff w_cache 7%N w_diff) 7%N).
Proof.
  refine (proj2 (proj2 (cursor_monotone 0 w_cache 7%N w_diff _)) (mkVaultRecord "1.2.3.4" 20 true) _).
  - apply apply_full_wf, new_wf.
  - apply elem_of_cons. by left.
Defined.

(** The largest window the API accepts panics. *)
Lemma snapshot_within_exact_witness : snapshot_within w_cache 7%N i64_max (from_secs 5000) = None.
Proof.
  apply (snapshot_within_exact w_cache 7%N i64_max (from_secs 5000)). split_and!.
  - unfold w_cache, apply_full. case_match. rewrite lookup_insert_eq. eauto.
  - by vm_compute.
  - intros [Hmax _]. by vm_compute in Hmax.
Defined.

Lemma full_sync_schedule_witness :
  full_sync_due 199 (foldl (fun c d => apply_diff c 7%N d) w_cache [w_diff; w_diff]) 7%N 100 = false.
Proof.
  refine (eq_trans (proj1 (proj2 (full_sync_schedule 100 199 new 7%N w_full [w_diff; w_diff] 100 _ _))) _);
    [lia|lia|by vm_compute].
Defined.

End witnesses.

End Cache.
