(* ===== verification/Crypto.v ===== *)
(** * [crypto.rs]: request signing and secrets at rest

    [CANONICAL_V1] signing and its verification, and [SecretCipher].  Random
    nonces are an argument of [seal]; the digests and the cipher are the
    operations of [CryptoLib]. *)

From S2P Require Import Prelude.
From S2P Require Import RustStr.
From S2P Require Import Net.
From S2P Require Import Libs.
From S2P Require Import LibsRef.
From Stdlib Require Import Ascii.
#[local] Open Scope rust_scope.

Module Crypto.

(** ** Data *)

Inductive SignatureRejection :=
| MissingPrefix | MalformedHex | Mismatch | KeyUnusable.

Inductive CryptoError :=
| InvalidKey | MalformedCiphertext | DecryptionFailed | EncryptionFailed.

Inductive SecretCipher :=
| Plaintext
| Sealed (key : Bytes).

Definition SIGNATURE_PREFIX : string := "sha256=".
Definition PLAINTEXT_PREFIX : string := "v1.plain.".
Definition SEALED_PREFIX : string := "v1.xchacha20poly1305.".
Definition NONCE_LEN : nat := 24.
Definition KEY_LEN : nat := 32.

Definition newline : ascii := Ascii.ascii_of_nat 10.

(** ** Operations *)

Section operations.
Context {C : CryptoLib}.

Definition generate_signing_secret (random32 : Bytes) : string := hex_encode random32.

Definition canonical_v1_payload (method target timestamp : string) (body : Bytes) : Bytes :=
  method +:+ String newline (target +:+ String newline (timestamp +:+ String newline body)).

Definition compute_signature (secret : string) (payload : Bytes) : option string :=
  match hmac_sha256 secret payload with
  | Some mac => Some (SIGNATURE_PREFIX +:+ hex_encode mac)
  | None => None
  end.

Definition verify_signature (secret : string) (payload : Bytes) (provided : string)
  : result Bytes SignatureRejection :=
  let? hex_digest := ok_or (Str.strip_prefix SIGNATURE_PREFIX (Str.trim provided)) MissingPrefix in
  let? provided_bytes := ok_or (hex_decode (Str.trim hex_digest)) MalformedHex in
  let? mac := ok_or (hmac_sha256 secret payload) KeyUnusable in
  if bool_decide (mac = provided_bytes) then Ok provided_bytes else Err Mismatch.

Definition from_hex_key (hex_key : string) : result SecretCipher CryptoError :=
  let? bytes := ok_or (hex_decode hex_key) InvalidKey in
  if negb (Nat.eqb (String.length bytes) KEY_LEN) then Err InvalidKey
  else Ok (Sealed bytes).

(** [env_value] is [EXPORTER_ENCRYPTION_KEY]. *)
Definition from_env (env_value : option string) : result SecretCipher CryptoError :=
  match env_value with
  | Some raw => if Str.is_empty (Str.trim raw) then Ok Plaintext else from_hex_key (Str.trim raw)
  | None => Ok Plaintext
  end.

Definition is_encrypting (c : SecretCipher) : bool :=
  match c with Sealed _ => true | Plaintext => false end.

Definition seal (c : SecretCipher) (nonce_bytes : Bytes) (plaintext : string)
  : result string CryptoError :=
  match c with
  | Plaintext => Ok (PLAINTEXT_PREFIX +:+ hex_encode plaintext)
  | Sealed key =>
      let? ciphertext := ok_or (aead_encrypt key nonce_bytes plaintext) EncryptionFailed in
      Ok (SEALED_PREFIX +:+ hex_encode nonce_bytes +:+ "." +:+ hex_encode ciphertext)
  end.

(** [String::from_utf8]. *)
Definition from_utf8 (b : Bytes) : option string := if Str.is_utf8 b then Some b else None.

Definition open (c : SecretCipher) (stored : string) : result string CryptoError :=
  match Str.strip_prefix PLAINTEXT_PREFIX stored with
  | Some encoded =>
      let? bytes := ok_or (hex_decode encoded) MalformedCiphertext in
      ok_or (from_utf8 bytes) MalformedCiphertext
  | None =>
      let? body := ok_or (Str.strip_prefix SEALED_PREFIX stored) MalformedCiphertext in
      let? parts := ok_or (Str.split_once "." body) MalformedCiphertext in
      let? nonce_bytes := ok_or (hex_decode parts.1) MalformedCiphertext in
      if negb (Nat.eqb (String.length nonce_bytes) NONCE_LEN) then Err MalformedCiphertext else
      let? ciphertext := ok_or (hex_decode parts.2) MalformedCiphertext in
      match c with
      | Plaintext => Err DecryptionFailed
      | Sealed key =>
          let? plaintext := ok_or (aead_decrypt key nonce_bytes ciphertext) DecryptionFailed in
          ok_or (from_utf8 plaintext) MalformedCiphertext
      end
  end.

End operations.

(** ** Theorems *)

Section theorems.
Context {C : CryptoLib} {CL : CryptoLaws C}.

Lemma hexdigit_plain c : Str.is_ascii_hexdigit c = true -> Str.plain c = true.
Proof.
  unfold Str.is_ascii_hexdigit, Str.plain, Str.in_range.
  rewrite !orb_true_iff, !andb_true_iff, !Z.leb_le. lia.
Qed.

Lemma hex_plain b : Str.all_chars Str.plain (hex_encode b) = true.
Proof. eapply Str.all_chars_impl; [apply hexdigit_plain|apply hex_digits]. Qed.

Lemma hex_trim b : Str.trim (hex_encode b) = hex_encode b.
Proof. apply Str.trim_plain, hex_plain. Qed.

Lemma hex_no_dot b : Str.contains "." (hex_encode b) = false.
Proof.
  unfold Str.contains. apply negb_false_iff. eapply Str.all_chars_impl; [|apply hex_digits].
  intros c Hc. apply negb_true_iff. destruct (Ascii.eqb_spec "." c) as [<-|]; [|done].
  by vm_compute in Hc.
Qed.

Lemma signature_trim mac :
  Str.trim (SIGNATURE_PREFIX +:+ hex_encode mac) = SIGNATURE_PREFIX +:+ hex_encode mac.
Proof. apply Str.trim_plain. rewrite Str.all_chars_app, hex_plain. done. Qed.

(** A freshly generated secret is text. *)
Lemma hex_utf8 b : Str.is_utf8 (hex_encode b) = true.
Proof.
  pose proof (hex_digits b) as Hh. induction (hex_encode b) as [|c s IH]; [done|].
  cbn [Str.all_chars] in Hh. apply andb_true_iff in Hh as [Hc Hs]. cbn [Str.is_utf8].
  apply hexdigit_plain in Hc. unfold Str.plain in Hc.
  rewrite (proj2 (Z.ltb_lt _ _)); [by apply IH|].
  unfold Str.in_range in Hc. rewrite ?andb_true_iff, ?Z.leb_le, ?Z.ltb_lt in Hc. lia.
Qed.

(** The reading of a signature header: the digest it carries, whitespace and
    case aside. *)
Definition digest_of (provided : string) : option Bytes :=
  match Str.strip_prefix SIGNATURE_PREFIX (Str.trim provided) with
  | Some h => hex_decode (Str.trim h)
  | None => None
  end.

Lemma app_inj_sep c a a' b b' :
  Str.contains c a = false -> Str.contains c a' = false ->
  a +:+ String c b = a' +:+ String c b' -> a = a' /\ b = b'.
Proof.
  intros Ha Ha' Heq. pose proof (Str.split_once_app c a b Ha) as H1.
  rewrite Heq, Str.split_once_app in H1 by done. by simplify_eq.
Qed.

(** The canonical payload is unambiguous: with a method, a target and a
    timestamp that hold no line feed, equal payloads come from equal requests,
    whatever bytes the body holds. *)
Theorem canonical_payload_injective m m' t t' ts ts' b b' :
  Str.contains newline m = false -> Str.contains newline m' = false ->
  Str.contains newline t = false -> Str.contains newline t' = false ->
  Str.contains newline ts = false -> Str.contains newline ts' = false ->
  canonical_v1_payload m t ts b = canonical_v1_payload m' t' ts' b' ->
  m = m' /\ t = t' /\ ts = ts' /\ b = b'.
Proof.
  unfold canonical_v1_payload. intros ?????? Heq.
  apply app_inj_sep in Heq as [-> Heq]; [|done..].
  apply app_inj_sep in Heq as [-> Heq]; [|done..].
  apply app_inj_sep in Heq as [-> ->]; done.
Qed.

(** A computed signature verifies. *)
Lemma compute_verifies secret payload s :
  compute_signature secret payload = Some s ->
  exists mac, hmac_sha256 secret payload = Some mac /\
    verify_signature secret payload s = Ok mac.
Proof.
  unfold compute_signature, verify_signature. intros Hs.
  destruct (hmac_sha256 secret payload) as [mac|]; [|done]. simplify_eq.
  exists mac. split; [done|]. rewrite signature_trim, Str.strip_prefix_app. simpl.
  rewrite hex_trim, hex_roundtrip. simpl. by rewrite bool_decide_true.
Qed.

(** The accepted digest is the one the header spells. *)
Lemma verify_digest secret payload provided d :
  verify_signature secret payload provided = Ok d <->
  digest_of provided = Some d /\ hmac_sha256 secret payload = Some d.
Proof.
  unfold verify_signature, digest_of.
  destruct (Str.strip_prefix _ _) as [h|]; [|naive_solver]. simpl.
  destruct (hex_decode _) as [b|]; [|naive_solver]. simpl.
  destruct (hmac_sha256 _ _) as [mac|]; [|naive_solver]. simpl.
  case_bool_decide; naive_solver.
Qed.

(** Signing and verification agree: a header is accepted for a payload
    exactly when it carries the payload's HMAC, the accepted value is that digest
    whatever the header's spelling, and a signature the daemon computes itself
    always verifies. *)
Theorem verify_signature_exact secret payload provided d :
  (verify_signature secret payload provided = Ok d <->
   digest_of provided = Some d /\ hmac_sha256 secret payload = Some d) /\
  (forall s, compute_signature secret payload = Some s ->
   exists mac, hmac_sha256 secret payload = Some mac /\
     verify_signature secret payload s = Ok mac).
Proof. split; [apply verify_digest|]. intros s. apply compute_verifies. Qed.

Lemma plaintext_prefix_sealed s : Str.strip_prefix PLAINTEXT_PREFIX (SEALED_PREFIX +:+ s) = None.
Proof. done. Qed.

Lemma open_plain c p :
  Str.is_utf8 p = true -> open c (PLAINTEXT_PREFIX +:+ hex_encode p) = Ok p.
Proof.
  intros Hp. unfold open. rewrite Str.strip_prefix_app, hex_roundtrip. simpl.
  unfold from_utf8. by rewrite Hp.
Qed.

(** A well-formed sealed row reaches the cipher. *)
Lemma open_sealed c nonce ct :
  String.length nonce = NONCE_LEN ->
  open c (SEALED_PREFIX +:+ hex_encode nonce +:+ "." +:+ hex_encode ct) =
  match c with
  | Plaintext => Err DecryptionFailed
  | Sealed key =>
      let? plaintext := ok_or (aead_decrypt key nonce ct) DecryptionFailed in
      ok_or (from_utf8 plaintext) MalformedCiphertext
  end.
Proof.
  intros Hn. unfold open. rewrite plaintext_prefix_sealed, Str.strip_prefix_app. cbn [ok_or].
  change ("." +:+ hex_encode ct) with (String "." (hex_encode ct)).
  rewrite Str.split_once_app by apply hex_no_dot.
  cbn [ok_or fst snd]. rewrite hex_roundtrip. cbn [ok_or]. rewrite Hn. cbn [negb Nat.eqb NONCE_LEN].
  rewrite hex_roundtrip. by destruct c.
Qed.

(** Sealing and opening under one cipher, and a plain row under any. *)
Lemma seal_open c nonce p stored :
  Str.is_utf8 p = true -> String.length nonce = NONCE_LEN ->
  seal c nonce p = Ok stored ->
  open c stored = Ok p /\ (c = Plaintext -> forall c', open c' stored = Ok p).
Proof.
  intros Hp Hn Hs. destruct c as [|key]; simpl in Hs.
  - simplify_eq. split; [|intros _ c']; by apply open_plain.
  - destruct (aead_encrypt key nonce p) as [ct|] eqn:He; simplify_eq/=. split; [|done].
    rewrite open_sealed by done. rewrite (aead_roundtrip _ _ _ _ He). cbn [ok_or].
    unfold from_utf8. by rewrite Hp.
Qed.

(** C38. A secret that was sealed opens to itself under the same cipher, and a
    row written without encryption stays readable under every cipher, so that
    turning encryption on loses no stored secret. *)
Theorem seal_open_roundtrip c nonce p stored :
  Str.is_utf8 p = true -> String.length nonce = NONCE_LEN ->
  seal c nonce p = Ok stored ->
  open c stored = Ok p /\ (c = Plaintext -> forall c', open c' stored = Ok p).
Proof. apply seal_open. Qed.

(** A sealed row is never read as plaintext: without a key, or with a key
    under which it does not authenticate, opening it is [DecryptionFailed]. *)
Theorem sealed_row_needs_its_key key nonce p stored c :
  String.length nonce = NONCE_LEN -> seal (Sealed key) nonce p = Ok stored ->
  (forall key', c = Sealed key' -> forall ct,
     aead_encrypt key nonce p = Some ct -> aead_decrypt key' nonce ct = None) ->
  open c stored = Err DecryptionFailed.
Proof.
  intros Hn Hs Hc. simpl in Hs. destruct (aead_encrypt key nonce p) as [ct|] eqn:He; simplify_eq/=.
  rewrite open_sealed by done. destruct c as [|key']; [done|].
  by rewrite (Hc key' eq_refl ct eq_refl).
Qed.

(** Startup never falls back to plaintext on a malformed key: a non-blank
    [EXPORTER_ENCRYPTION_KEY] either is 32 bytes of hexadecimal and gives an
    encrypting cipher, or is refused; plaintext means the variable is unset or
    blank. *)
Theorem from_env_no_fallback v :
  match from_env v with
  | Ok Plaintext => match v with Some raw => Str.is_empty (Str.trim raw) = true | None => True end
  | Ok (Sealed key) =>
      exists raw, v = Some raw /\ hex_decode (Str.trim raw) = Some key /\ String.length key = KEY_LEN
  | Err e =>
      e = InvalidKey /\ exists raw, v = Some raw /\ Str.is_empty (Str.trim raw) = false /\
        forall key, hex_decode (Str.trim raw) = Some key -> String.length key <> KEY_LEN
  end.
Proof.
  destruct v as [raw|]; [|done]. simpl. destruct (Str.is_empty (Str.trim raw)) eqn:He; [done|].
  unfold from_hex_key. destruct (hex_decode (Str.trim raw)) as [key|] eqn:Hd; simpl.
  - destruct (Nat.eqb_spec (String.length key) KEY_LEN) as [Hk|Hk]; simpl; [by eauto|].
    split; [done|]. exists raw. split_and!; [done..|]. intros ? ?. by simplify_eq.
  - split; [done|]. exists raw. split_and!; [done..|]. intros ? ?. by simplify_eq.
Qed.

End theorems.

(** ** Witnesses *)

Section witnesses.
Import Ref.

Lemma canonical_payload_injective_witness :
  "GET" = "GET" /\ "/api/keys" = "/api/keys" /\ "17" = "17" /\ "x" = "x".
Proof.
  apply (canonical_payload_injective "GET" "GET" "/api/keys" "/api/keys" "17" "17" "x" "x");
    reflexivity.
Defined.

Lemma verify_signature_exact_witness :
  verify_signature "k" "m" " sha256=6B7C6d " = Ok "k|m".
Proof.
  apply (proj2 (proj1 (verify_signature_exact "k" "m" " sha256=6B7C6d " "k|m"))). by vm_compute.
Defined.

Lemma seal_open_roundtrip_witness :
  open (Sealed "k") "v1.xchacha20poly1305.303132333435363738393031323334353637383930313233.6b736563726574"
  = Ok "secret".
Proof.
  refine (proj1 (seal_open_roundtrip (Sealed "k") "012345678901234567890123" "secret" _ _ _ _));
    by vm_compute.
Defined.

Lemma sealed_row_needs_its_key_witness :
  open (Sealed "other")
    "v1.xchacha20poly1305.303132333435363738393031323334353637383930313233.6b736563726574"
  = Err DecryptionFailed.
Proof.
  apply (sealed_row_needs_its_key "k" "012345678901234567890123" "secret" _ (Sealed "other"));
    [by vm_compute..|]. intros key' [= <-] ct [= <-]. by vm_compute.
Defined.

End witnesses.

End Crypto.
