(* ===== verification/VaultClient.v ===== *)
(** * [vault_client.rs]: the signed client of simply_ip_vault

    One request is a signed [GET]; [fetch_ips] probes the first page and then
    walks the others, concurrently when Vault reports a page count and one after
    the other when it does not.  The network, Vault's answers, the clock and the
    order in which concurrent pages complete are the fields of [VaultEnv]; the
    state is the client's last timestamp and the log of requests sent. *)

From S2P Require Import Prelude.
From S2P Require Import RustStr.
From S2P Require Import Net.
From S2P Require Import Libs.
From S2P Require Import LibsRef.
From S2P Require Import Crypto.
From Stdlib Require Import Ascii.
#[local] Open Scope Z_scope.

Module Vault.

(** ** Data *)

Record VaultApiRecord := mkVaultApiRecord {
  api_target_address : string;
  api_last_seen_at : Z;
  api_is_deleted : bool;
}.

Record VaultGroup := mkVaultGroup { vg_id : Uuid; vg_name : string }.

Inductive VaultError :=
| NotConfigured
| Request
| Status (code : Z).

Record IpRecordsEnvelope := mkIpRecordsEnvelope {
  data : list VaultApiRecord;
  total_pages : Z;
}.

Inductive IpsResponse :=
| Envelope (e : IpRecordsEnvelope)
| Legacy (rs : list VaultApiRecord).

Record VaultClient := mkVaultClient {
  base_url : string;
  api_key : string;
  signing_secret : string;
  page_size : Z;
}.

Definition PAGE_SIZE : Z := 1000.
Definition MAX_PAGES : Z := 1000.
Definition MAX_CONCURRENT_PAGES : nat := 5.
Definition REQUEST_TIMEOUT : Z := from_secs 15.

Definition INTERNAL_SERVER_ERROR : Z := 500.
Definition BAD_REQUEST : Z := 400.

(** [VaultClient::from_config] from the three settings it reads. *)
Definition from_config (vault_base_url vault_api_key vault_signing_secret : option string)
  : option VaultClient :=
  match vault_base_url, vault_api_key, vault_signing_secret with
  | Some b, Some k, Some s => Some (mkVaultClient b k s PAGE_SIZE)
  | _, _, _ => None
  end.

(** A request as it goes out, and what comes back. *)
Record SignedRequest := mkSignedRequest {
  rq_url : string;
  rq_api_key : string;
  rq_timestamp : string;
  rq_signature : string;
}.

Inductive HttpOutcome :=
| Failed
| Responded (status : Z) (body : Bytes).

(** [serde_json]'s readings of a body, one per type the client asks for. *)
Class JsonLib := {
  de_ips : Bytes -> option IpsResponse;
  de_records : Bytes -> option (list VaultApiRecord);
  de_groups : Bytes -> option (list VaultGroup);
}.

(** The [n]th request meets the clock [clock n] and the answer [transport n];
    [choice] says which of the requests in flight completes next, and [allocates]
    whether the allocator grants that many bytes at once. *)
Record VaultEnv := mkVaultEnv {
  clock : nat -> Z;
  transport : nat -> SignedRequest -> HttpOutcome;
  choice : nat -> nat;
  allocates : Z -> bool;
}.

Record VaultSt := mkVaultSt {
  last_timestamp : Z;
  sent : list SignedRequest;
}.

(** ** Percent-encoding *)

Definition unreserved (c : ascii) : bool :=
  Str.is_ascii_alphanumeric c
  || Ascii.eqb c "-" || Ascii.eqb c "_" || Ascii.eqb c "." || Ascii.eqb c "~" || Ascii.eqb c ",".

(** A digit of [{:02X}]. *)
Definition hex_upper (d : Z) : ascii :=
  ascii_of_N (Z.to_N (if d <? 10 then 48 + d else 55 + d)).

Fixpoint urlencode (raw : string) : string :=
  match raw with
  | EmptyString => EmptyString
  | String c s =>
      if unreserved c then String c (urlencode s)
      else String "%" (String (hex_upper (Str.code c / 16))
             (String (hex_upper (Str.code c mod 16)) (urlencode s)))
  end.

(** ** Requests *)

(** The closure of [fetch_update] in [signed_get]. *)
Definition next_timestamp (last now : Z) : Z :=
  let diff := Z.max i64_min (Z.min i64_max (last - now)) in
  if (last <? now) || (5 <=? diff) then now else wrap_i64 (last + 1).

Definition is_success (status : Z) : bool := (200 <=? status) && (status <? 300).

Section client.
Context {C : CryptoLib} {J : JsonLib} (self : VaultClient) (env : VaultEnv).

Definition signed_get {T} (decode : Bytes -> option T) (path_and_query : string) (st : VaultSt)
  : result T VaultError * VaultSt :=
  let n := length (sent st) in
  let ts := next_timestamp (last_timestamp st) (clock env n) in
  let timestamp := pretty ts in
  let payload := Crypto.canonical_v1_payload "GET" path_and_query timestamp "" in
  match Crypto.compute_signature (signing_secret self) payload with
  | None => (Err (Status INTERNAL_SERVER_ERROR), mkVaultSt ts (sent st))
  | Some signature =>
      let rq := mkSignedRequest (base_url self +:+ path_and_query) (api_key self)
                  timestamp signature in
      let st' := mkVaultSt ts (sent st ++ [rq]) in
      match transport env n rq with
      | Failed => (Err Request, st')
      | Responded status body =>
          if is_success status then (ok_or (decode body) Request, st')
          else (Err (Status status), st')
      end
  end.

Definition list_groups : VaultSt -> result (list VaultGroup) VaultError * VaultSt :=
  signed_get de_groups "/api/groups".

Definition page_path (base : string) (offset : Z) : string :=
  base +:+ "&limit=" +:+ pretty (page_size self) +:+ "&offset=" +:+ pretty offset.

(** *** The sequential walk *)

(** The loop; [None] is exhausted fuel. *)
Fixpoint sequential_loop (fuel : nat) (base : string) (all : list VaultApiRecord)
    (offset pages : Z) (st : VaultSt)
  : option (result (list VaultApiRecord) VaultError * VaultSt) :=
  match fuel with
  | O => None
  | S fuel' =>
      match signed_get de_records (page_path base offset) st with
      | (Err e, st') => Some (Err e, st')
      | (Ok page, st') =>
          let page_len := Z.of_nat (length page) in
          let all := all ++ page in
          let pages := pages + 1 in
          if page_len <? page_size self then Some (Ok all, st')
          else if MAX_PAGES <=? pages then Some (Ok all, st')
          else sequential_loop fuel' base all (offset + page_size self) pages st'
      end
  end.

Definition fetch_sequentially (fuel : nat) (base : string) (already_fetched : list VaultApiRecord)
    (st : VaultSt) : option (result (list VaultApiRecord) VaultError * VaultSt) :=
  let resume_at_second_page := Z.of_nat (length already_fetched) =? page_size self in
  let all := already_fetched in
  if negb (Nat.eqb (length all) 0) && negb resume_at_second_page then Some (Ok all, st)
  else
    sequential_loop fuel base all (if resume_at_second_page then page_size self else 0)
      (if resume_at_second_page then 1 else 0) st.

(** *** The concurrent walk *)

(** Remove the [i]th element of a non-empty list. *)
Definition pick {A} (i : nat) (l : list A) : option (A * list A) :=
  match l !! i with Some x => Some (x, delete i l) | None => None end.

(** [buffer_unordered]: requests are issued in order while fewer than
    [MAX_CONCURRENT_PAGES] are in flight. *)
Fixpoint fill (room : nat) (base : string) (offsets : list Z)
    (in_flight : list (result (list VaultApiRecord) VaultError)) (st : VaultSt)
  : list Z * list (result (list VaultApiRecord) VaultError) * VaultSt :=
  match room, offsets with
  | S room', offset :: rest =>
      let '(r, st') := signed_get de_records (page_path base offset) st in
      fill room' base rest (in_flight ++ [r]) st'
  | _, _ => (offsets, in_flight, st)
  end.

(** [try_collect]: pages arrive in the order the scheduler completes them; the
    first error ends the stream. *)
Fixpoint collect_pages (fuel : nat) (base : string) (offsets : list Z)
    (in_flight : list (result (list VaultApiRecord) VaultError))
    (pages : list (list VaultApiRecord)) (st : VaultSt)
  : option (result (list (list VaultApiRecord)) VaultError * VaultSt) :=
  match fuel with
  | O => None
  | S fuel' =>
      let '(offsets, in_flight, st) :=
        fill (MAX_CONCURRENT_PAGES - length in_flight) base offsets in_flight st in
      match pick (choice env (length pages) `mod` length in_flight) in_flight with
      | None => Some (Ok pages, st)
      | Some (Err e, _) => Some (Err e, st)
      | Some (Ok page, in_flight) =>
          collect_pages fuel' base offsets in_flight (pages ++ [page]) st
      end
  end.

Definition wrap_u64 (z : Z) : Z := z `mod` 2 ^ 64.

Definition remaining_offsets (total : Z) : list Z :=
  (fun page => wrap_u64 (page * page_size self)) <$> seqZ 1 (total - 1).

(** What a call came to; [None] when it ended in a panic or an abort. *)
Definition Fetched : Type := option (result (list VaultApiRecord) VaultError).

(** Whether [n] offsets can be collected into a [Vec<u64>]: the range knows its
    length, so all of them are reserved at once, which panics beyond [isize::MAX]
    bytes and aborts when the allocator refuses. *)
Definition reserves (n : Z) : bool :=
  (n <=? 0) || ((8 * n <=? i64_max) && allocates env (8 * n)).

(** All offsets are collected before the excess over [MAX_PAGES] is dropped. *)
Definition fetch_remaining_pages_in_parallel (fuel : nat) (base : string)
    (envelope : IpRecordsEnvelope) (st : VaultSt) : option (Fetched * VaultSt) :=
  let all := data envelope in
  if negb (reserves (total_pages envelope - 1)) then Some (None, st) else
  let offsets := remaining_offsets (total_pages envelope) in
  if Nat.eqb (length offsets) 0 then Some (Some (Ok all), st)
  else
    let offsets := take (Z.to_nat (MAX_PAGES - 1)) offsets in
    match collect_pages fuel base offsets [] [] st with
    | None => None
    | Some (Err e, st') => Some (Some (Err e), st')
    | Some (Ok pages, st') => Some (Some (Ok (all ++ concat pages)), st')
    end.

(** *** [fetch_ips] *)

Definition ips_base (groups : string) (since : option Z) : string :=
  "/api/ips?groups=" +:+ urlencode groups +:+
  match since with
  | Some t => "&since=" +:+ urlencode (pretty (t `div` nanos_per_sec)) +:+ "&include_deleted=true"
  | None => ""
  end.

Definition first_path (base : string) : string :=
  base +:+ "&include_total=true&limit=" +:+ pretty (page_size self) +:+ "&offset=0".

(** The sequential walk never panics. *)
Definition walked (o : option (result (list VaultApiRecord) VaultError * VaultSt)) : option (Fetched * VaultSt) :=
  match o with Some (r, st) => Some (Some r, st) | None => None end.

Definition fetch_ips_fuel (fuel : nat) (groups : string) (since : option Z) (st : VaultSt)
  : option (Fetched * VaultSt) :=
  let base := ips_base groups since in
  match signed_get de_ips (first_path base) st with
  | (Ok (Envelope envelope), st') => fetch_remaining_pages_in_parallel fuel base envelope st'
  | (Ok (Legacy first_page), st') => walked (fetch_sequentially fuel base first_page st')
  | (Err (Status status), st') =>
      if status =? BAD_REQUEST then walked (fetch_sequentially fuel base [] st')
      else Some (Some (Err (Status status)), st')
  | (Err e, st') => Some (Some (Err e), st')
  end.

(** Both walks visit at most [MAX_PAGES] pages. *)
Definition walk_fuel : nat := S (Z.to_nat MAX_PAGES).

Definition fetch_ips (groups : string) (since : option Z) (st : VaultSt) : Fetched * VaultSt :=
  default (Some (Err Request), st) (fetch_ips_fuel walk_fuel groups since st).

End client.

(** ** Termination and the request log *)

Section requests.
Context {C : CryptoLib} {J : JsonLib} (self : VaultClient) (env : VaultEnv).

(** At most [n] requests go out between two states, and none is forgotten. *)
Definition sends (n : nat) (st st' : VaultSt) : Prop :=
  exists new, sent st' = sent st ++ new /\ (length new <= n)%nat.

Lemma sends_refl st : sends 0 st st.
Proof. exists []. by rewrite app_nil_r. Qed.

Lemma sends_trans n m st st' st'' : sends n st st' -> sends m st' st'' -> sends (n + m) st st''.
Proof.
  intros (l & Hl & ?) (l' & Hl' & ?). exists (l ++ l'). rewrite Hl', Hl, app_assoc, length_app.
  split; [done|lia].
Qed.

Lemma sends_weaken n m st st' : (n <= m)%nat -> sends n st st' -> sends m st st'.
Proof. intros Hm (l & Hl & ?). exists l. split; [done|lia]. Qed.

Lemma signed_get_sends {T} (d : Bytes -> option T) path st :
  sends 1 st (signed_get self env d path st).2.
Proof.
  unfold signed_get. repeat case_match; simpl;
    first [by eexists [_]; split; [done|simpl; lia]
          |exists []; rewrite app_nil_r; split; [done|simpl; lia]].
Qed.

Lemma sequential_loop_total fuel base : forall all offset pages st,
  pages < MAX_PAGES -> MAX_PAGES - pages <= Z.of_nat fuel ->
  exists r st', sequential_loop self env fuel base all offset pages st = Some (r, st') /\
    sends (Z.to_nat (MAX_PAGES - pages)) st st'.
Proof.
  induction fuel as [|fuel IH]; intros all offset pages st Hp Hf; [lia|]. cbn [sequential_loop].
  pose proof (signed_get_sends de_records (page_path self base offset) st) as Hs.
  destruct (signed_get _ _ _ _ st) as [[page|e] st1]; cbn [snd] in Hs.
  2:{ do 2 eexists. split; [done|]. eapply sends_weaken; [|done]. lia. }
  destruct (_ <? page_size self).
  { do 2 eexists. split; [done|]. eapply sends_weaken; [|done]. lia. }
  destruct (Z.leb_spec MAX_PAGES (pages + 1)).
  { do 2 eexists. split; [done|]. eapply sends_weaken; [|done]. lia. }
  destruct (IH (all ++ page) (offset + page_size self) (pages + 1) st1) as (r & st' & -> & Hs');
    [lia..|]. do 2 eexists. split; [done|].
  eapply sends_weaken; [|by eapply sends_trans]. lia.
Qed.

Lemma fetch_sequentially_total base first st :
  exists r st', fetch_sequentially self env walk_fuel base first st = Some (r, st') /\
    sends (Z.to_nat MAX_PAGES) st st'.
Proof.
  unfold fetch_sequentially. case_match.
  { do 2 eexists. split; [done|]. eapply sends_weaken; [|apply sends_refl]. lia. }
  destruct (_ =? page_size self).
  - destruct (sequential_loop_total walk_fuel base first (page_size self) 1 st)
      as (r & st' & -> & Hs); [done..|]. do 2 eexists. split; [done|].
    eapply sends_weaken; [|done]. unfold MAX_PAGES. lia.
  - destruct (sequential_loop_total walk_fuel base first 0 0 st)
      as (r & st' & -> & Hs); [done..|]. do 2 eexists. split; [done|].
    eapply sends_weaken; [|done]. unfold MAX_PAGES. lia.
Qed.

Lemma fill_spec room base : forall offsets inf st,
  exists inf' st', fill self env room base offsets inf st = (drop room offsets, inf', st') /\
    length inf' = (length inf + min room (length offsets))%nat /\
    sends (min room (length offsets)) st st'.
Proof.
  induction room as [|room IH]; intros offsets inf st; cbn [fill].
  { do 2 eexists. split_and!; [done|simpl; lia|apply sends_refl]. }
  destruct offsets as [|o offsets]; [do 2 eexists; split_and!; [done|simpl; lia|apply sends_refl]|].
  pose proof (signed_get_sends de_records (page_path self base o) st) as Hs.
  destruct (signed_get _ _ _ _ st) as [r st1]. cbn [snd] in Hs.
  destruct (IH offsets (inf ++ [r]) st1) as (inf' & st' & -> & Hl & Hs').
  do 2 eexists. split_and!; [done| |].
  - rewrite Hl, length_app. simpl. lia.
  - eapply sends_weaken; [|by eapply sends_trans]. simpl. lia.
Qed.

Lemma pick_Some {A} (i : nat) (l : list A) :
  (i < length l)%nat -> exists x, pick i l = Some (x, delete i l) /\ l !! i = Some x.
Proof. intros [x Hx]%lookup_lt_is_Some_2. exists x. unfold pick. by rewrite Hx. Qed.

Lemma collect_pages_total fuel base : forall offsets inf pages st,
  (length offsets + length inf < fuel)%nat ->
  exists r st', collect_pages self env fuel base offsets inf pages st = Some (r, st') /\
    sends (length offsets) st st'.
Proof.
  induction fuel as [|fuel IH]; intros offsets inf pages st Hf; [lia|]. cbn [collect_pages].
  destruct (fill_spec (MAX_CONCURRENT_PAGES - length inf) base offsets inf st)
    as (inf' & st1 & -> & Hl & Hs).
  set (i := (choice env (length pages) `mod` length inf')%nat).
  destruct (decide (i < length inf')%nat) as [Hi|Hi].
  - destruct (pick_Some i inf' Hi) as ([page|e] & -> & Hx).
    2:{ do 2 eexists. split; [done|]. eapply sends_weaken; [|done]. lia. }
    pose proof (length_delete inf' i ltac:(eauto)) as Hd.
    destruct (IH (drop (MAX_CONCURRENT_PAGES - length inf) offsets) (delete i inf')
                (pages ++ [page]) st1) as (r & st' & -> & Hs').
    { rewrite length_drop, Hd. lia. }
    do 2 eexists. split; [done|]. rewrite length_drop in Hs'.
    eapply sends_weaken; [|by eapply sends_trans]. lia.
  - unfold pick. rewrite lookup_ge_None_2 by lia.
    do 2 eexists. split; [done|]. eapply sends_weaken; [|done]. lia.
Qed.

Lemma fetch_remaining_total base e st :
  exists r st', fetch_remaining_pages_in_parallel self env walk_fuel base e st = Some (r, st') /\
    sends (Z.to_nat MAX_PAGES) st st' /\ (r = None <-> reserves env (total_pages e - 1) = false).
Proof.
  unfold fetch_remaining_pages_in_parallel. destruct (reserves env _); cbn [negb].
  2:{ do 2 eexists. split_and!; [done| |done]. eapply sends_weaken; [|apply sends_refl]. lia. }
  case_match.
  { do 2 eexists. split_and!; [done| |done]. eapply sends_weaken; [|apply sends_refl]. lia. }
  set (offsets := take _ _).
  assert (length offsets <= Z.to_nat (MAX_PAGES - 1))%nat as Hle
    by (unfold offsets; rewrite length_take; lia).
  destruct (collect_pages_total walk_fuel base offsets [] [] st) as ([ps|er] & st' & -> & Hs).
  { unfold walk_fuel. simpl length. lia. }
  all: do 2 eexists; split_and!; [done| |done]; eapply sends_weaken; [|done]; lia.
Qed.

(** The probe of this fetch announces more pages than offsets can be collected for. *)
Definition announces_too_much (groups : string) (since : option Z) (st : VaultSt) : Prop :=
  exists e st1, signed_get self env de_ips (first_path self (ips_base groups since)) st = (Ok (Envelope e), st1) /\
    reserves env (total_pages e - 1) = false.

Lemma walked_total base first st st1 :
  sends 1 st st1 -> exists r st', walked (fetch_sequentially self env walk_fuel base first st1) = Some (Some r, st') /\
    sends (1 + Z.to_nat MAX_PAGES) st st'.
Proof.
  intros Hs. destruct (fetch_sequentially_total base first st1) as (r & st' & -> & Hs').
  do 2 eexists. split; [done|by eapply sends_trans].
Qed.

Lemma fetch_ips_total_fuel groups since st :
  exists r st', fetch_ips_fuel self env walk_fuel groups since st = Some (r, st') /\
    sends (1 + Z.to_nat MAX_PAGES) st st' /\ (r = None <-> announces_too_much groups since st).
Proof.
  unfold fetch_ips_fuel, announces_too_much.
  pose proof (signed_get_sends de_ips (first_path self (ips_base groups since)) st) as Hs.
  destruct (signed_get _ _ _ _ st) as [[[e|first]|er] st1]; cbn [snd] in Hs.
  - destruct (fetch_remaining_total (ips_base groups since) e st1) as (r & st' & -> & Hs' & Hr).
    do 2 eexists. split_and!; [done|by eapply sends_trans|]. rewrite Hr. naive_solver.
  - destruct (walked_total (ips_base groups since) first st st1 Hs) as (r & st' & -> & Hs').
    do 2 eexists. split_and!; [done..|]. split; [done|by intros (? & ? & ? & ?)].
  - destruct (walked_total (ips_base groups since) [] st st1 Hs) as (r & st' & Hw & Hs').
    destruct er as [| |status]; [| |destruct (status =? BAD_REQUEST); [rewrite Hw|]];
      (do 2 eexists; split_and!; [done|first [done|eapply sends_weaken; [|exact Hs]; lia]|];
       split; [done|by intros (? & ? & ? & ?)]).
Qed.

(** C30. A fetch ends whatever Vault answers and in whatever order pages complete,
    after at most one probe and [MAX_PAGES] page requests: the fuel of the model
    never runs out.  It ends in a result, with one exception, which is exact: a
    probe that announces so many pages that their offsets cannot be collected, as
    the offsets of all pages are collected before the excess is dropped. *)
Theorem fetch_ips_terminates groups since st :
  exists r st',
    fetch_ips_fuel self env walk_fuel groups since st = Some (r, st') /\
    fetch_ips self env groups since st = (r, st') /\
    (exists new, sent st' = sent st ++ new /\ (length new <= 1 + Z.to_nat MAX_PAGES)%nat) /\
    (r = None <-> announces_too_much groups since st).
Proof.
  destruct (fetch_ips_total_fuel groups since st) as (r & st' & Hf & Hs & Hr).
  exists r, st'. unfold fetch_ips. by rewrite Hf.
Qed.

End requests.

(** ** Completeness of the walk *)

(** The offsets of a listing within the ceiling fit. *)
Lemma reserves_small env total :
  total <= MAX_PAGES -> (forall bytes, bytes <= 8 * MAX_PAGES -> allocates env bytes = true) ->
  reserves env (total - 1) = true.
Proof.
  intros Ht Ha. unfold reserves. rewrite Ha by lia. rewrite andb_true_r.
  destruct (Z.leb_spec (8 * (total - 1)) i64_max) as [_|Hgt]; [by rewrite orb_true_r|].
  unfold i64_max, MAX_PAGES in *. lia.
Qed.

Section pagination.
Context {C : CryptoLib} {J : JsonLib} (self : VaultClient) (env : VaultEnv).
Context (base : string) (R : list VaultApiRecord).

Definition page_len : nat := Z.to_nat (page_size self).

(** Page [k] of the listing. *)
Definition page (k : nat) : list VaultApiRecord := take page_len (drop (k * page_len) R).

(** How many pages a listing has. *)
Definition page_count : Z := (Z.of_nat (length R) + page_size self - 1) `div` page_size self.

(** The answer to the probe: the paginated envelope, a bare first page, or the
    refusal of the unknown parameter. *)
Inductive probe_reply : HttpOutcome -> Prop :=
| ReplyEnvelope b : de_ips b = Some (Envelope (mkIpRecordsEnvelope (page 0) page_count)) ->
    probe_reply (Responded 200 b)
| ReplyLegacy b : de_ips b = Some (Legacy (page 0)) -> probe_reply (Responded 200 b)
| ReplyRefused b : probe_reply (Responded BAD_REQUEST b).

(** A Vault that serves the unchanging listing [R] page by page. *)
Record serves : Prop := {
  srv_key : forall m, is_Some (hmac_sha256 (signing_secret self) m);
  srv_size : 0 < page_size self /\ MAX_PAGES * page_size self < 2 ^ 64;
  srv_probe : forall n rq, rq_url rq = base_url self +:+ first_path self base ->
    probe_reply (transport env n rq);
  srv_page : forall n rq (k : nat),
    rq_url rq = base_url self +:+ page_path self base (Z.of_nat k * page_size self) ->
    exists b, transport env n rq = Responded 200 b /\ de_records b = Some (page k);
  srv_memory : forall bytes, bytes <= 8 * MAX_PAGES -> allocates env bytes = true;
}.

Context (Hs : serves).

Lemma get_page k st :
  exists st', signed_get self env de_records (page_path self base (Z.of_nat k * page_size self)) st
    = (Ok (page k), st').
Proof.
  unfold signed_get, Crypto.compute_signature.
  edestruct (srv_key Hs) as [mac ->].
  edestruct (srv_page Hs) as (b & -> & Hb); [reflexivity|]. simpl. rewrite Hb. eauto.
Qed.

Lemma page_len_pos : (0 < page_len)%nat.
Proof. destruct (srv_size Hs). unfold page_len. lia. Qed.

Lemma page_len_Z : Z.of_nat page_len = page_size self.
Proof. destruct (srv_size Hs). unfold page_len. lia. Qed.

(** Pages from [k] on, put together. *)
Lemma take_page k : take (k * page_len) R ++ page k = take (S k * page_len) R.
Proof.
  unfold page. rewrite <- (take_drop (k * page_len) R) at 3.
  destruct (decide (k * page_len <= length R)%nat) as [Hle|Hgt].
  - rewrite take_app, take_take, length_take.
    rewrite Nat.min_r by lia. f_equal. f_equal. lia.
  - rewrite (drop_ge R) by lia. rewrite take_nil, !app_nil_r, take_take. f_equal. lia.
Qed.

Lemma concat_pages n : concat (page <$> seq 0 n) = take (n * page_len) R.
Proof.
  induction n as [|n IH]; [done|].
  rewrite seq_S, fmap_app, concat_app, IH. cbn [fmap list_fmap concat]. rewrite app_nil_r.
  apply take_page.
Qed.

Lemma sequential_loop_complete fuel : forall (k : nat) st,
  Z.of_nat (length R) < MAX_PAGES * page_size self ->
  Z.of_nat k < MAX_PAGES -> MAX_PAGES - Z.of_nat k <= Z.of_nat fuel ->
  exists st', sequential_loop self env fuel base (take (k * page_len) R)
    (Z.of_nat k * page_size self) (Z.of_nat k) st = Some (Ok R, st').
Proof.
  pose proof page_len_Z as HZ. pose proof page_len_pos as Hpos.
  induction fuel as [|fuel IH]; intros k st HR Hk Hf; [lia|]. cbn [sequential_loop].
  destruct (get_page k st) as [st1 ->]. rewrite take_page.
  assert (length (page k) = min page_len (length R - k * page_len)) as Hlen
    by (unfold page; rewrite length_take, length_drop; done).
  destruct (Z.ltb_spec (Z.of_nat (length (page k))) (page_size self)).
  { eexists. rewrite take_ge by lia. done. }
  destruct (Z.leb_spec MAX_PAGES (Z.of_nat k + 1)).
  { assert (Z.of_nat k + 1 = MAX_PAGES) by lia. exfalso. nia. }
  replace (Z.of_nat k * page_size self + page_size self) with (Z.of_nat (S k) * page_size self) by lia.
  replace (Z.of_nat k + 1) with (Z.of_nat (S k)) by lia. apply IH; lia.
Qed.

Lemma sequential_from k all offset pages st :
  Z.of_nat (length R) < MAX_PAGES * page_size self -> Z.of_nat k < MAX_PAGES ->
  all = take (k * page_len) R -> offset = Z.of_nat k * page_size self -> pages = Z.of_nat k ->
  exists st', sequential_loop self env walk_fuel base all offset pages st = Some (Ok R, st').
Proof.
  intros HR Hk -> -> ->. apply sequential_loop_complete; [done..|]. unfold walk_fuel. lia.
Qed.

Lemma fetch_sequentially_complete first st :
  Z.of_nat (length R) < MAX_PAGES * page_size self -> first = [] \/ first = page 0 ->
  exists st', fetch_sequentially self env walk_fuel base first st = Some (Ok R, st').
Proof.
  intros HR Hfirst. pose proof page_len_Z as HZ. pose proof page_len_pos as Hpos.
  assert (0 < 1 < MAX_PAGES) by (unfold MAX_PAGES; lia).
  unfold fetch_sequentially. destruct Hfirst as [->| ->].
  - cbn [length Nat.eqb negb andb]. destruct (Z.eqb_spec (Z.of_nat 0) (page_size self)); [lia|].
    apply (sequential_from 0); [done|lia|done..].
  - assert (page 0 = take page_len R) as Hp by done.
    destruct (Z.eqb_spec (Z.of_nat (length (page 0))) (page_size self)) as [Heq|Hne]; cbn [negb].
    + rewrite andb_false_r.
      apply (sequential_from 1); [done|lia|by rewrite Nat.mul_1_l|by rewrite Z.mul_1_l|done].
    + rewrite andb_true_r. assert (length R < page_len)%nat.
      { rewrite Hp, length_take in Hne. lia. }
      assert (page 0 = R) as -> by (rewrite Hp; apply take_ge; lia).
      destruct (Nat.eqb_spec (length R) 0) as [Hz|Hz]; cbn [negb]; [|eauto].
      apply (sequential_from 0); [done|lia|by apply nil_length_inv|done..].
Qed.

Lemma fill_pages room : forall ks inf st,
  exists st', fill self env room base ((fun k : nat => Z.of_nat k * page_size self) <$> ks)
      (Ok <$> inf) st
    = ((fun k : nat => Z.of_nat k * page_size self) <$> drop room ks,
       Ok <$> (inf ++ (page <$> take room ks)), st').
Proof.
  induction room as [|room IH]; intros ks inf st; cbn [fill]; [by rewrite app_nil_r; eauto|].
  destruct ks as [|k ks]; cbn [fmap list_fmap fill]; [by rewrite app_nil_r; eauto|].
  destruct (get_page k st) as [st1 ->].
  change ([Ok (page k)]) with (Ok (E:=VaultError) <$> [page k]). rewrite <- fmap_app.
  destruct (IH ks (inf ++ [page k]) st1) as [st' ->]. exists st'. cbn [take drop fmap list_fmap].
  by rewrite <- app_assoc.
Qed.

Lemma collect_pages_complete fuel : forall ks inf pages st,
  (length ks + length inf < fuel)%nat ->
  exists pages' st',
    collect_pages self env fuel base ((fun k : nat => Z.of_nat k * page_size self) <$> ks)
      (Ok <$> inf) pages st = Some (Ok pages', st') /\
    pages' ≡ₚ pages ++ inf ++ (page <$> ks).
Proof.
  induction fuel as [|fuel IH]; intros ks inf pages st Hf; [lia|]. cbn [collect_pages].
  rewrite length_fmap. set (room := (MAX_CONCURRENT_PAGES - length inf)%nat).
  destruct (fill_pages room ks inf st) as [st1 ->].
  set (inf' := inf ++ (page <$> take room ks)).
  assert (length inf' = length inf + min room (length ks))%nat as Hl
    by (unfold inf'; rewrite length_app, length_fmap, length_take; done).
  assert (inf ++ (page <$> ks) ≡ₚ inf' ++ (page <$> drop room ks)) as Hperm.
  { unfold inf'. rewrite <- app_assoc, <- fmap_app, take_drop. done. }
  rewrite length_fmap. set (i := (choice env (length pages) `mod` length inf')%nat).
  destruct (decide (i < length inf')%nat) as [Hi|Hi].
  - apply lookup_lt_is_Some_2 in Hi as [p Hp]. unfold pick.
    rewrite list_lookup_fmap, Hp. simpl.
    replace (delete i (Ok (E:=VaultError) <$> inf')) with (Ok (E:=VaultError) <$> delete i inf')
      by (rewrite !delete_take_drop, fmap_app, fmap_take, fmap_drop; done).
    destruct (IH (drop room ks) (delete i inf') (pages ++ [p]) st1) as (pages' & st' & -> & Hpages).
    { apply lookup_lt_Some in Hp as Hlt. rewrite length_drop, length_delete by eauto. lia. }
    do 2 eexists. split; [done|]. rewrite Hpages, <- app_assoc. f_equiv. rewrite Hperm.
    rewrite (delete_Permutation inf' i p) at 2 by done. done.
  - unfold pick. rewrite lookup_ge_None_2 by (rewrite length_fmap; lia).
    do 2 eexists. split; [done|]. rewrite Hperm.
    assert (length inf' = 0)%nat as H0.
    { destruct (length inf') as [|m] eqn:Hm; [done|]. exfalso. apply Hi. apply Nat.mod_upper_bound. done. }
    assert (inf' = []) as -> by by apply nil_length_inv.
    assert (length ks = 0)%nat as Hk0 by (unfold room, MAX_CONCURRENT_PAGES in *; lia).
    apply nil_length_inv in Hk0 as ->. rewrite drop_nil. by rewrite !app_nil_r.
Qed.

Lemma remaining_offsets_spec total :
  total <= MAX_PAGES ->
  remaining_offsets self total =
  (fun k : nat => Z.of_nat k * page_size self) <$> seq 1 (Z.to_nat (total - 1)).
Proof.
  intros Ht. destruct (srv_size Hs) as [Hp Hw]. unfold remaining_offsets, seqZ.
  rewrite <- (fmap_S_seq 0), <- !list_fmap_compose. apply list_fmap_ext. intros i k Hk.
  apply lookup_seq in Hk as [-> Hi]. simpl. unfold wrap_u64. rewrite Z.mod_small; [f_equal; lia|]. nia.
Qed.

Lemma page_count_bounds :
  (length R <= Z.to_nat page_count * page_len)%nat /\
  (Z.of_nat (length R) <= MAX_PAGES * page_size self -> page_count <= MAX_PAGES).
Proof.
  destruct (srv_size Hs) as [Hp _]. pose proof page_len_Z. unfold page_count.
  set (N := Z.of_nat (length R)). set (P := page_size self) in *.
  pose proof (Z.div_mod (N + P - 1) P ltac:(lia)). pose proof (Z.mod_pos_bound (N + P - 1) P Hp).
  pose proof (Z.div_pos (N + P - 1) P ltac:(lia) Hp). split; [nia|]. intros HN.
  apply Z.lt_succ_r, Z.div_lt_upper_bound; lia.
Qed.

Lemma fetch_remaining_complete st :
  Z.of_nat (length R) <= MAX_PAGES * page_size self ->
  exists all st', fetch_remaining_pages_in_parallel self env walk_fuel base
      (mkIpRecordsEnvelope (page 0) page_count) st = Some (Some (Ok all), st') /\ all ≡ₚ R.
Proof.
  intros HR. pose proof page_len_Z. destruct page_count_bounds as [Hc Hm]. specialize (Hm HR).
  set (m := Z.to_nat (page_count - 1)).
  assert (R ≡ₚ page 0 ++ concat (page <$> seq 1 m)) as HRp.
  { change (page 0 ++ concat (page <$> seq 1 m)) with (concat (page <$> seq 0 (S m))).
    rewrite concat_pages, take_ge; [done|]. destruct (decide (page_count <= 0)); [|unfold m; nia].
    assert (Z.to_nat page_count = 0)%nat by lia. nia. }
  unfold fetch_remaining_pages_in_parallel. cbn [data total_pages].
  rewrite (reserves_small env) by (done || apply (srv_memory Hs)). cbn [negb].
  rewrite remaining_offsets_spec by done. fold m. rewrite length_fmap, length_seq.
  destruct (Nat.eqb_spec m 0) as [H0|H0].
  { do 2 eexists. split; [done|]. rewrite H0 in HRp. cbn in HRp. by rewrite app_nil_r in HRp. }
  rewrite take_ge by (rewrite length_fmap, length_seq; unfold m; lia).
  destruct (collect_pages_complete walk_fuel (seq 1 m) [] [] st) as (ps & st' & Hcol & Hperm).
  { rewrite length_seq. unfold walk_fuel, m. simpl length. lia. }
  cbn [fmap list_fmap] in Hcol. change (Ok <$> []) with (@nil (result (list VaultApiRecord) VaultError)) in Hcol.
  rewrite Hcol. do 2 eexists. split; [done|]. rewrite HRp. f_equiv.
  by rewrite Hperm.
Qed.

End pagination.

(** The walk returns the served records. *)
Lemma fetch_complete {C : CryptoLib} {J : JsonLib} self env groups since R st :
  serves self env (ips_base groups since) R ->
  Z.of_nat (length R) < MAX_PAGES * page_size self ->
  exists all st', fetch_ips self env groups since st = (Some (Ok all), st') /\ all ≡ₚ R.
Proof.
  intros Hs HR. set (base := ips_base groups since) in *.
  assert (exists all st', fetch_ips_fuel self env walk_fuel groups since st = Some (Some (Ok all), st') /\
    all ≡ₚ R) as (all & st' & Hf & Hp).
  2:{ exists all, st'. unfold fetch_ips. by rewrite Hf. }
  unfold fetch_ips_fuel, signed_get at 1, Crypto.compute_signature. fold base.
  edestruct (srv_key _ _ _ _ Hs) as [mac ->].
  match goal with |- context [transport env ?n ?rq] =>
    destruct (srv_probe _ _ _ _ Hs n rq eq_refl) as [b Hb|b Hb|b]
  end; change (is_success 200) with true; change (is_success BAD_REQUEST) with false;
    cbv iota; rewrite ?Hb, ?Z.eqb_refl; cbn [ok_or].
  { apply fetch_remaining_complete; [done|lia]. }
  all: match goal with |- context [fetch_sequentially _ _ _ _ ?first ?st'] =>
    destruct (fetch_sequentially_complete self env base R Hs first st') as [st2 Hf];
      [done|by auto|by rewrite Hf; eauto]
  end.
Qed.

(** C29. The walk loses nothing: against a Vault that serves an unchanging
    listing of fewer than [MAX_PAGES] full pages, [fetch_ips] succeeds and returns
    exactly its records, whether Vault reports a page count, ignores the request
    for it, or refuses it with [400], and whatever the completion order of the
    concurrent pages. *)
Theorem fetch_ips_complete {C : CryptoLib} {J : JsonLib} self env groups since R st :
  serves self env (ips_base groups since) R ->
  Z.of_nat (length R) < MAX_PAGES * page_size self ->
  exists all st', fetch_ips self env groups since st = (Some (Ok all), st') /\ all ≡ₚ R.
Proof. apply fetch_complete. Qed.

(** ** Signed requests *)

Section authenticity.
Context {C : CryptoLib} {CL : CryptoLaws C} {J : JsonLib} (self : VaultClient) (env : VaultEnv).

(** What every request preserves, a whole fetch preserves. *)
Section preserved.
Context (P : VaultSt -> Prop).
Context (HP : forall T (d : Bytes -> option T) path st, P st -> P (signed_get self env d path st).2).

Lemma sequential_loop_preserves fuel base : forall all offset pages st r st',
  P st -> sequential_loop self env fuel base all offset pages st = Some (r, st') -> P st'.
Proof.
  induction fuel as [|fuel IH]; intros all offset pages st r st' Hst Hl; [done|].
  cbn [sequential_loop] in Hl. pose proof (HP _ de_records (page_path self base offset) st Hst).
  destruct (signed_get _ _ _ _ st) as [[pg|e] st1]; [|by simplify_eq].
  repeat case_match; simplify_eq; eauto.
Qed.

Lemma fill_preserves room base : forall offsets inf st,
  P st -> P (fill self env room base offsets inf st).2.
Proof.
  induction room as [|room IH]; intros [|o offsets] inf st Hst; try done. cbn [fill].
  pose proof (HP _ de_records (page_path self base o) st Hst).
  destruct (signed_get _ _ _ _ st). by apply IH.
Qed.

Lemma collect_pages_preserves fuel base : forall offsets inf pages st r st',
  P st -> collect_pages self env fuel base offsets inf pages st = Some (r, st') -> P st'.
Proof.
  induction fuel as [|fuel IH]; intros offsets inf pages st r st' Hst Hl; [done|].
  cbn [collect_pages] in Hl.
  pose proof (fill_preserves (MAX_CONCURRENT_PAGES - length inf) base offsets inf st Hst).
  destruct (fill _ _ _ _ _ _ st) as [[o' inf'] st1]. cbn [snd] in *.
  destruct (pick _ _) as [[[pg|e] inf'']|]; simplify_eq; eauto.
Qed.

Lemma walked_preserves fuel base first st r st' :
  P st -> walked (fetch_sequentially self env fuel base first st) = Some (r, st') -> P st'.
Proof.
  intros Hst. unfold fetch_sequentially. destruct (_ && _); cbn [walked]; [by intros [= _ <-]|].
  destruct (sequential_loop _ _ _ _ _ _ _ _) as [[r1 st1]|] eqn:Hl; cbn [walked]; [intros [= _ <-]|done].
  by eapply sequential_loop_preserves.
Qed.

Lemma fetch_ips_preserves groups since st : P st -> P (fetch_ips self env groups since st).2.
Proof.
  intros Hst. destruct (fetch_ips_total_fuel self env groups since st) as (r & st' & Hf & _).
  unfold fetch_ips. rewrite Hf. cbn [default snd]. unfold fetch_ips_fuel in Hf.
  pose proof (HP _ de_ips (first_path self (ips_base groups since)) st Hst) as H1.
  destruct (signed_get _ _ _ _ st) as [[[e|f]|[| |s]] st1]; cbn [snd] in H1; try by simplify_eq.
  - unfold fetch_remaining_pages_in_parallel in Hf.
    destruct (negb _); [by simplify_eq|]. destruct (Nat.eqb _ 0); [by simplify_eq|].
    destruct (collect_pages _ _ _ _ _ _ _ _) as [[[pg|er] st2]|] eqn:Hc; simplify_eq;
      eauto using collect_pages_preserves.
  - by eapply walked_preserves.
  - destruct (s =? BAD_REQUEST); [by eapply walked_preserves|by simplify_eq].
Qed.

End preserved.

(** A request Vault's own verification accepts: the signature covers the method,
    the path and query as sent, the timestamp header and the empty body. *)
Definition authentic (rq : SignedRequest) : Prop :=
  rq_api_key rq = api_key self /\
  exists path d, rq_url rq = base_url self +:+ path /\
    Crypto.verify_signature (signing_secret self)
      (Crypto.canonical_v1_payload "GET" path (rq_timestamp rq) "") (rq_signature rq) = Ok d.

Lemma signed_get_authentic {T} (d : Bytes -> option T) path st :
  Forall authentic (sent st) -> Forall authentic (sent (signed_get self env d path st).2).
Proof.
  intros Hst. unfold signed_get.
  set (ts := next_timestamp _ _).
  set (payload := Crypto.canonical_v1_payload "GET" path (pretty ts) "").
  destruct (Crypto.compute_signature (signing_secret self) payload) as [sig|] eqn:Hsig; [|done].
  assert (Forall authentic (sent st ++
    [mkSignedRequest (base_url self +:+ path) (api_key self) (pretty ts) sig])) as Hnew.
  { apply Forall_app. split; [done|]. apply Forall_singleton. split; [done|].
    pose proof (Crypto.compute_verifies _ _ _ Hsig) as (mac & _ & Hv). by exists path, mac. }
  by repeat case_match.
Qed.

(** Every request a fetch sends carries the client's key and a signature
    that verifies, under the shared secret, for exactly the path and query in its
    URL and the timestamp in its header. *)
Theorem fetch_ips_authentic groups since last :
  Forall authentic (sent (fetch_ips self env groups since (mkVaultSt last [])).2).
Proof.
  apply (fetch_ips_preserves (fun st => Forall authentic (sent st))); [|done].
  intros T d path st. apply signed_get_authentic.
Qed.

End authenticity.

(** ** Timestamps *)

(** The timestamps of a sequence of requests, from the clock each one reads. *)
Fixpoint stamps (last : Z) (clocks : list Z) : list Z :=
  match clocks with
  | [] => []
  | now :: clocks' => let ts := next_timestamp last now in ts :: stamps ts clocks'
  end.

Definition i64_clock (t : Z) : Prop := i64_min <= t <= i64_max - 5.

Lemma next_timestamp_spec last now :
  i64_min <= last <= i64_max -> i64_clock now ->
  next_timestamp last now = if (last <? now) || (now + 5 <=? last) then now else last + 1.
Proof.
  intros Hl Hn. unfold i64_clock, next_timestamp, wrap_i64, i64_min, i64_max in *.
  replace (5 <=? Z.max (- 2 ^ 63) (Z.min (2 ^ 63 - 1) (last - now))) with (now + 5 <=? last)
    by (apply eq_iff_eq_true; rewrite !Z.leb_le; lia).
  destruct (Z.ltb_spec last now); [done|]. destruct (Z.leb_spec (now + 5) last); [done|]. simpl.
  rewrite Z.mod_small by lia. lia.
Qed.

(** Each request is stamped between the clock and five seconds ahead of it,
    and later than the request before it unless that one already ran five seconds
    or more ahead of the clock. *)
Theorem timestamp_bounds last now :
  i64_min <= last <= i64_max -> i64_clock now ->
  now <= next_timestamp last now <= now + 5 /\
  (last < now + 5 -> last < next_timestamp last now).
Proof.
  intros Hl Hn. rewrite next_timestamp_spec by done.
  destruct (Z.ltb_spec last now); destruct (Z.leb_spec (now + 5) last); simpl; lia.
Qed.

(** A burst of requests within one second cycles through six timestamps: the
    request number [k] is stamped [now + k mod 6], so the seventh request repeats
    the timestamp of the first. *)
Theorem burst_timestamps_cycle last now n k :
  i64_min <= last < now -> i64_clock now -> (k < n)%nat ->
  stamps last (replicate n now) !! k = Some (now + Z.of_nat k `mod` 6).
Proof.
  intros Hl Hn Hk.
  assert (forall n k j last, (k < n)%nat -> 0 <= j <= 5 -> last = now + j ->
    stamps last (replicate n now) !! k = Some (now + (Z.of_nat k + j + 1) `mod` 6)) as Hgen.
  { clear - Hn. induction n as [|n IH]; intros k j last Hk Hj ->; [lia|]. cbn [replicate stamps].
    rewrite next_timestamp_spec by (unfold i64_clock in *; lia).
    destruct (Z.ltb_spec (now + j) now); [lia|]. destruct (Z.leb_spec (now + 5) (now + j)); cbn [orb].
    - assert (j = 5) as -> by lia. destruct k as [|k]; cbn [lookup list_lookup].
      + f_equal. change ((Z.of_nat 0 + 5 + 1) `mod` 6) with 0. lia.
      + rewrite (IH k 0) by lia. f_equal. f_equal.
        replace (Z.of_nat (S k) + 5 + 1) with (Z.of_nat k + 0 + 1 + 1 * 6) by lia.
        by rewrite Z.mod_add by lia.
    - destruct k as [|k]; cbn [lookup list_lookup].
      + f_equal. rewrite Z.mod_small by lia. lia.
      + rewrite (IH k (j + 1)) by lia. do 3 f_equal. lia. }
  destruct n as [|n]; [lia|]. cbn [replicate stamps].
  rewrite next_timestamp_spec by (unfold i64_clock, i64_min, i64_max in *; lia).
  destruct (Z.ltb_spec last now); [|lia]. cbn [orb].
  destruct k as [|k]; cbn [lookup list_lookup].
  - f_equal. change (Z.of_nat 0 `mod` 6) with 0. lia.
  - rewrite (Hgen n k 0) by lia. do 3 f_equal. lia.
Qed.

(** ** Percent-encoding *)

(** The percent-decoding of a query value. *)
Fixpoint percent_decode (s : string) : option string :=
  match s with
  | EmptyString => Some EmptyString
  | String c s' =>
      if Ascii.eqb c "%" then
        match s' with
        | String h (String l s'') =>
            match Str.to_digit 16 h, Str.to_digit 16 l, percent_decode s'' with
            | Some h, Some l, Some r => Some (String (ascii_of_N (Z.to_N (16 * h + l))) r)
            | _, _, _ => None
            end
        | _ => None
        end
      else match percent_decode s' with Some r => Some (String c r) | None => None end
  end.

Definition query_safe (c : ascii) : bool := unreserved c || Ascii.eqb c "%".

Definition byte_encodes (c : ascii) : bool :=
  bool_decide (percent_decode (urlencode (String c "")) = Some (String c ""))
  && Str.all_chars query_safe (urlencode (String c ""))
  && implb (unreserved c) (negb (Ascii.eqb c "%")).

Lemma byte_encodes_all c : byte_encodes c = true.
Proof. destruct c as [[] [] [] [] [] [] [] []]; by vm_compute. Qed.

(** The encoding of a group list or of a cursor decodes to itself and holds
    no character that separates query parameters, so a value cannot add, drop or
    change a parameter of the request. *)
Theorem urlencode_roundtrip raw :
  percent_decode (urlencode raw) = Some raw /\
  Str.all_chars query_safe (urlencode raw) = true /\
  Str.contains "&" (urlencode raw) = false /\ Str.contains "#" (urlencode raw) = false.
Proof.
  assert (Str.all_chars query_safe (urlencode raw) = true) as Hsafe.
  { induction raw as [|c raw IH]; [done|]. pose proof (byte_encodes_all c) as Hc.
    unfold byte_encodes in Hc. rewrite !andb_true_iff in Hc. destruct Hc as [[_ Hc] _].
    cbn [urlencode] in *. destruct (unreserved c); cbn [Str.all_chars] in *;
      rewrite ?andb_true_r in Hc; rewrite ?IH; rewrite !andb_true_iff in *; naive_solver. }
  split_and!; [|done|unfold Str.contains; apply negb_false_iff;
    eapply Str.all_chars_impl; [|exact Hsafe]; intros c Hc; apply negb_true_iff;
    match goal with |- Ascii.eqb ?x c = _ => destruct (Ascii.eqb_spec x c) as [<-|]; [by vm_compute in Hc|done] end..].
  induction raw as [|c raw IH]; [done|]. pose proof (byte_encodes_all c) as Hc.
  unfold byte_encodes in Hc. rewrite !andb_true_iff, bool_decide_eq_true in Hc.
  destruct Hc as [[Hc _] Hp].
  assert (Str.all_chars query_safe (urlencode raw) = true) as Hs'.
  { clear - Hsafe. cbn [urlencode] in Hsafe. destruct (unreserved c); cbn [Str.all_chars] in Hsafe;
      rewrite !andb_true_iff in Hsafe; naive_solver. }
  specialize (IH Hs'). cbn [urlencode] in *. destruct (unreserved c).
  - cbn [percent_decode]. simpl in Hp. rewrite negb_true_iff in Hp. by rewrite Hp, IH.
  - cbn [percent_decode] in *. change (Ascii.eqb "%" "%") with true in *. cbv iota in *.
    repeat case_match; simplify_eq/=; congruence.
Qed.

(** ** Witnesses *)

Section witnesses.
Import Ref.

Definition w_record (a : string) : VaultApiRecord := mkVaultApiRecord a 0 false.
Definition w_listing : list VaultApiRecord := w_record <$> ["1.1.1.1"; "2.2.2.2"; "3.3.3.3"].
Definition w_client : VaultClient := mkVaultClient "http://vault" "key" "secret" 2.
Definition w_base : string := ips_base "malware,scanners" None.

#[global] Instance w_json : JsonLib := {|
  de_ips b := if String.eqb b "probe"
              then Some (Envelope (mkIpRecordsEnvelope (take 2 w_listing) 2)) else None;
  de_records b := Some (if String.eqb b "page 0" then take 2 w_listing
                        else if String.eqb b "page 1" then drop 2 w_listing else []);
  de_groups b := Some [mkVaultGroup 100 "malware"];
|}.

Definition w_url (path : string) : string := "http://vault" +:+ path.

(** Vault answers the probe and the two pages, and an empty page beyond them. *)
Definition w_env : VaultEnv := {|
  clock n := 100;
  transport n rq :=
    Responded 200
      (if decide (rq_url rq = w_url (first_path w_client w_base)) then "probe"
       else if decide (rq_url rq = w_url (page_path w_client w_base 0)) then "page 0"
       else if decide (rq_url rq = w_url (page_path w_client w_base 2)) then "page 1"
       else "[]");
  choice n := 3%nat;
  allocates _ := true;
|}.

Lemma w_first_not_page o : w_url (page_path w_client w_base o) <> w_url (first_path w_client w_base).
Proof. unfold w_url, page_path, first_path. by intros ?%Str.app_inv_head%Str.app_inv_head. Qed.

Lemma w_page_inj o o' :
  w_url (page_path w_client w_base o) = w_url (page_path w_client w_base o') -> o = o'.
Proof.
  unfold w_url, page_path. intros H%Str.app_inv_head%Str.app_inv_head%Str.app_inv_head%Str.app_inv_head%Str.app_inv_head.
  by apply (inj pretty).
Qed.

Lemma w_serves : serves w_client w_env w_base w_listing.
Proof.
  split.
  - intros m. simpl. eauto.
  - simpl. unfold MAX_PAGES. lia.
  - intros n rq Hrq. cbn [transport w_env]. rewrite decide_True by done. by apply ReplyEnvelope.
  - intros n rq k Hrq. cbn [transport w_env].
    change (rq_url rq = w_url (page_path w_client w_base (Z.of_nat k * 2))) in Hrq. rewrite Hrq.
    rewrite decide_False by apply w_first_not_page. eexists. split; [done|].
    destruct k as [|[|k]].
    + by rewrite decide_True.
    + rewrite decide_False by (intros ?%w_page_inj; lia). by rewrite decide_True.
    + rewrite !decide_False by (intros ?%w_page_inj; lia). done.
  - done.
Qed.

(** A Vault whose probe announces 2^60 pages: the offsets need 2^63 bytes. *)
Definition w_huge_json : JsonLib := {|
  de_ips b := Some (Envelope (mkIpRecordsEnvelope [] (2 ^ 60 + 1)));
  de_records b := None;
  de_groups b := None;
|}.

Example w_huge :
  (fetch_ips (J := w_huge_json) w_client w_env "malware,scanners" None (mkVaultSt 0 [])).1 = None.
Proof. by vm_compute. Qed.

Lemma fetch_ips_complete_witness :
  exists all st', fetch_ips w_client w_env "malware,scanners" None (mkVaultSt 0 []) = (Some (Ok all), st')
    /\ all ≡ₚ w_listing.
Proof.
  apply (fetch_ips_complete w_client w_env "malware,scanners" None w_listing); [apply w_serves|].
  by vm_compute.
Defined.

Lemma fetch_ips_authentic_witness :
  Forall (authentic w_client)
    (sent (fetch_ips w_client w_env "malware,scanners" None (mkVaultSt 0 [])).2).
Proof. exact (fetch_ips_authentic w_client w_env "malware,scanners" None 0). Defined.

Lemma timestamp_bounds_witness : 100 <= next_timestamp 103 100 <= 105.
Proof.
  refine (proj1 (timestamp_bounds 103 100 _ _)); vm_compute; intuition congruence.
Defined.

Lemma burst_timestamps_cycle_witness :
  stamps 0 (replicate 7 100) !! 6%nat = Some 100.
Proof.
  refine (burst_timestamps_cycle 0 100 7 6 _ _ _); [vm_compute; intuition congruence..|lia].
Defined.

End witnesses.

End Vault.
