(* ===== verification/DnsCache.v ===== *)
(** * [dns_cache.rs] and [bound_ips.rs]: hostnames as addresses

    The positive/negative cache of hostname resolutions, and the [bound_ips]
    lists matched through it.  What the name server answers, and the instants at
    which one resolution reads the clock, are a [DnsTick]; the [n]th resolution
    of a request meets tick [n]. *)

From S2P Require Import Prelude.
From S2P Require Import RustStr.
From S2P Require Import Net.
From S2P Require Import Libs.
From S2P Require Import LibsRef.
From Stdlib Require Import Ascii.
#[local] Open Scope Z_scope.

Module Dns.

Definition POSITIVE_TTL : Z := from_secs 30.
Definition NEGATIVE_TTL : Z := from_secs 5.

Definition normalize_ip (ip : IpAddr) : IpAddr :=
  match ip with
  | V6 v6 => match to_ipv4_mapped v6 with Some v4 => V4 v4 | None => V6 v6 end
  | v4 => v4
  end.

(** ** Hostname syntax *)

Definition host_char (c : ascii) : bool :=
  Str.is_ascii_alphanumeric c || Ascii.eqb c "-" || Ascii.eqb c "." || Ascii.eqb c "_".

Definition edges_are_alphanumeric (entry : string) : bool :=
  match Str.first_byte entry, Str.last_byte entry with
  | Some first, Some last => Str.is_ascii_alphanumeric first && Str.is_ascii_alphanumeric last
  | _, _ => false
  end.

Definition hostname_rejection (entry : string) : option string :=
  if Str.is_empty entry then Some "empty"
  else if (253 <? String.length entry)%nat then
    Some "longer than the 253-character limit on a DNS name"
  else if Str.contains "/" entry || Str.contains ":" entry then
    Some ("contains '/' or ':', which appear only in CIDR and IPv6 syntax, so this is a "
          +:+ "malformed address rather than a hostname")
  else if negb (edges_are_alphanumeric entry) then
    Some "a hostname must begin and end with a letter or a digit"
  else if Str.all_chars (fun c => Str.is_ascii_digit c || Ascii.eqb c ".") entry then
    Some "made only of digits and dots, so this is a malformed IPv4 literal"
  else if negb (Str.all_chars host_char entry) then
    Some "contains characters that cannot appear in a DNS name"
  else None.

(** ** The resolver *)

Section resolver.
Context {L : IpNetLib}.

Record HostnameState := mkHostnameState {
  addresses : list IpNet;
  attempted_at : Z;
  resolved : bool;
}.

Definition is_fresh (now : Z) (self : HostnameState) (positive negative : Z) : bool :=
  let ttl := if resolved self then positive else negative in
  Z.max 0 (now - attempted_at self) <? ttl.

Record DnsResolver := mkDnsResolver {
  positive_ttl : Z;
  negative_ttl : Z;
  cache : gmap string HostnameState;
}.

Definition new : DnsResolver := mkDnsResolver POSITIVE_TTL NEGATIVE_TTL ∅.

(** The clock at the read check, at the write check and after the lookup, and
    [tokio::net::lookup_host]'s answer ([None]: an error). *)
Record DnsTick := mkDnsTick {
  t_read : Z;
  t_write : Z;
  t_done : Z;
  t_lookup : string -> option (list IpAddr);
}.

Definition lookup_hostname (tk : DnsTick) (hostname : string) : list IpNet :=
  match t_lookup tk hostname with
  | Some addrs => (fun addr => net_from (normalize_ip addr)) <$> addrs
  | None => []
  end.

Definition set_cache (self : DnsResolver) (c : gmap string HostnameState) : DnsResolver :=
  mkDnsResolver (positive_ttl self) (negative_ttl self) c.

Definition refresh_locked (tk : DnsTick) (self : DnsResolver) (hostname : string)
  : list IpNet * DnsResolver :=
  let addrs := lookup_hostname tk hostname in
  let state := mkHostnameState addrs (t_done tk) (negb (Nat.eqb (length addrs) 0)) in
  (addrs, set_cache self (<[hostname := state]> (cache self))).

(** The reusable attempt for a name at [now], if any. *)
Definition fresh_entry (now : Z) (self : DnsResolver) (hostname : string) : option (list IpNet) :=
  match cache self !! hostname with
  | Some state =>
      if is_fresh now state (positive_ttl self) (negative_ttl self)
      then Some (addresses state) else None
  | None => None
  end.

(** The half of [resolve] under the write lock: it re-checks, then looks up. *)
Definition resolve_write (tk : DnsTick) (self : DnsResolver) (hostname : string)
  : list IpNet * DnsResolver :=
  match fresh_entry (t_write tk) self hostname with
  | Some addrs => (addrs, self)
  | None => refresh_locked tk self hostname
  end.

Definition resolve (tk : DnsTick) (self : DnsResolver) (hostname : string)
  : list IpNet * DnsResolver :=
  match fresh_entry (t_read tk) self hostname with
  | Some addrs => (addrs, self)
  | None => resolve_write tk self hostname
  end.

Definition force_resolve (tk : DnsTick) (self : DnsResolver) (hostname : string)
  : list IpNet * DnsResolver :=
  refresh_locked tk self hostname.

(** ** [bound_ips] *)

Inductive BoundIpEntry :=
| Network (net : IpNet)
| Hostname (name : string).

(** A refusal names the entry and the reason. *)
Definition Refusal : Type := string * string.

(** The three-way reading of one entry: CIDR, bare address, hostname. *)
Definition parse_entry (entry : string) : result BoundIpEntry Refusal :=
  match net_parse entry with
  | Some net => Ok (Network net)
  | None =>
      match ip_parse entry with
      | Some addr => Ok (Network (net_from addr))
      | None =>
          match hostname_rejection entry with
          | None => Ok (Hostname entry)
          | Some reason => Err (entry, reason)
          end
      end
  end.

(** The loop of [parse_bound_ips]: the first bad entry ends it. *)
Fixpoint parse_entries (es : list string) : result (list BoundIpEntry) Refusal :=
  match es with
  | [] => Ok []
  | e :: es' =>
      match parse_entry e with
      | Err r => Err r
      | Ok b => match parse_entries es' with Ok bs => Ok (b :: bs) | Err r => Err r end
      end
  end.

Definition parse_bound_ips (raw : string) : result (list BoundIpEntry) Refusal :=
  parse_entries (Str.comma_entries raw).

Definition validate_bound_ips (raw : string) : result unit Refusal :=
  match parse_bound_ips raw with Ok _ => Ok tt | Err e => Err e end.

(** The loop of [is_allowed]; [i] counts the resolutions. *)
Fixpoint is_allowed_from (env : nat -> DnsTick) (i : nat) (entries : list BoundIpEntry)
    (client_ip : IpAddr) (dns : DnsResolver) : bool * DnsResolver :=
  match entries with
  | [] => (false, dns)
  | Network net :: rest =>
      if net_contains net client_ip then (true, dns)
      else is_allowed_from env i rest client_ip dns
  | Hostname name :: rest =>
      let '(addrs, dns') := resolve (env i) dns name in
      if existsb (fun net => net_contains net client_ip) addrs then (true, dns')
      else is_allowed_from env (S i) rest client_ip dns'
  end.

Definition is_allowed (env : nat -> DnsTick) (entries : list BoundIpEntry) (client_ip : IpAddr)
    (dns : DnsResolver) : bool * DnsResolver :=
  is_allowed_from env 0 entries client_ip dns.

End resolver.
#[global] Arguments HostnameState {L}.
#[global] Arguments DnsResolver {L}.
#[global] Arguments BoundIpEntry {L}.

(** ** Theorems *)

Section theorems.
Context {L : IpNetLib} {LL : IpNetLaws L}.

Lemma land_ones_bound v : 0 <= Z.land v (Z.ones 32) < 2 ^ 32.
Proof. rewrite Z.land_ones by lia. apply Z.mod_pos_bound. lia. Qed.

Lemma normalize_ip_wf a : ip_wf a -> ip_wf (normalize_ip a).
Proof.
  destruct a as [v|v]; [done|]. cbn [normalize_ip]. unfold to_ipv4_mapped.
  destruct (_ =? _); [|done]. intros _. exact (land_ones_bound v).
Qed.

Lemma normalize_ip_idemp a : normalize_ip (normalize_ip a) = normalize_ip a.
Proof.
  destruct a as [v|v]; [done|]. cbn [normalize_ip]. destruct (to_ipv4_mapped v) eqn:Hv; [done|].
  cbn [normalize_ip]. by rewrite Hv.
Qed.

(** The syntax check is exact: a name is accepted precisely when it has one
    to 253 characters, all letters, digits, [-], [.] or [_], begins and ends with
    a letter or digit, and is not made of digits and dots alone. *)
Theorem hostname_rejection_exact s :
  hostname_rejection s = None <->
  (1 <= String.length s <= 253)%nat /\ Str.all_chars host_char s = true /\
  edges_are_alphanumeric s = true /\
  Str.all_chars (fun c => Str.is_ascii_digit c || Ascii.eqb c ".") s = false.
Proof.
  unfold hostname_rejection.
  assert (Str.all_chars host_char s = true ->
    Str.contains "/" s || Str.contains ":" s = false) as Hc.
  { intros Hs. apply orb_false_iff. unfold Str.contains. rewrite !negb_false_iff.
    split; (eapply Str.all_chars_impl; [|exact Hs]); intros c Hhc; apply negb_true_iff;
      match goal with |- Ascii.eqb ?x c = _ =>
        destruct (Ascii.eqb_spec x c) as [<-|]; [by vm_compute in Hhc|done] end. }
  destruct (Str.is_empty s) eqn:He.
  { destruct s; [|done]. split; [done|]. intros [[? _] _]. simpl in *. lia. }
  assert (1 <= String.length s)%nat by (destruct s; [done|cbn; lia]).
  destruct (Nat.ltb_spec 253 (String.length s)).
  { split; [done|]. intros [? _]. lia. }
  destruct (Str.contains "/" s || Str.contains ":" s).
  { split; [done|]. intros (_ & Hh & _). by specialize (Hc Hh). }
  destruct (edges_are_alphanumeric s); cbn [negb]; [|by split; [|intros (_ & _ & ? & _)]].
  destruct (Str.all_chars (fun c => _) s); [by split; [|intros (_ & _ & _ & ?)]|].
  destruct (Str.all_chars host_char s); cbn [negb]; [done|by split; [|intros (_ & ? & _)]].
Qed.

(** *** The resolver *)

Lemma refresh_fresh tk self h now :
  fresh_entry now (refresh_locked tk self h).2 h =
  let addrs := lookup_hostname tk h in
  let ttl := if Nat.eqb (length addrs) 0 then negative_ttl self else positive_ttl self in
  if Z.max 0 (now - t_done tk) <? ttl then Some addrs else None.
Proof.
  unfold refresh_locked, fresh_entry. cbn [snd cache set_cache]. rewrite lookup_insert_eq.
  unfold is_fresh. simpl. by destruct (Nat.eqb (length (lookup_hostname tk h)) 0).
Qed.

(** The writers queued behind one expiry, and how many looked the name up. *)
Fixpoint writers (self : DnsResolver) (h : string) (ticks : list DnsTick)
  : list (list IpNet) * nat * DnsResolver :=
  match ticks with
  | [] => ([], 0%nat, self)
  | tk :: ticks' =>
      let looked_up := match fresh_entry (t_write tk) self h with Some _ => 0%nat | None => 1%nat end in
      let '(a, self') := resolve_write tk self h in
      let '(rest, n, self'') := writers self' h ticks' in
      (a :: rest, (looked_up + n)%nat, self'')
  end.

Lemma writers_hit self h addrs ticks :
  Forall (fun tk => fresh_entry (t_write tk) self h = Some addrs) ticks ->
  writers self h ticks = (replicate (length ticks) addrs, 0%nat, self).
Proof.
  induction 1 as [|tk ticks Htk _ IH]; [done|]. cbn [writers].
  unfold resolve_write. rewrite Htk, IH. done.
Qed.

(** One expiry costs one lookup: of the requests that queue for the write
    lock on an expired name, the first looks it up and the others, while its
    answer is fresh, reuse that answer, be it positive or negative. *)
Theorem one_lookup_per_expiry self h tk ticks :
  fresh_entry (t_write tk) self h = None ->
  let addrs := lookup_hostname tk h in
  let ttl := if Nat.eqb (length addrs) 0 then negative_ttl self else positive_ttl self in
  0 < ttl ->
  Forall (fun tk' => t_write tk' < t_done tk + ttl) ticks ->
  (writers self h (tk :: ticks)).1 = (replicate (S (length ticks)) addrs, 1%nat).
Proof.
  intros Hmiss addrs ttl Hpos Hf. cbn [writers]. unfold resolve_write at 1. rewrite Hmiss.
  destruct (refresh_locked tk self h) as [a self'] eqn:Hr.
  assert (a = addrs) as -> by (unfold refresh_locked in Hr; by simplify_eq).
  rewrite (writers_hit self' h addrs); [done|].
  eapply Forall_impl; [exact Hf|]. intros tk' Htk'. cbv beta in Htk'.
  replace self' with (refresh_locked tk self h).2 by by rewrite Hr.
  rewrite refresh_fresh. cbv zeta. fold addrs. fold ttl.
  destruct (Z.ltb_spec (Z.max 0 (t_write tk' - t_done tk)) ttl); [done|lia].
Qed.

(** A lookup that fails never widens what is trusted: once no fresh attempt
    is cached, a failing lookup yields no address, and every address a resolution
    ever returns was either answered by this lookup or cached within its TTL. *)
Theorem resolve_fails_closed tk self h :
  (fresh_entry (t_read tk) self h = None -> fresh_entry (t_write tk) self h = None ->
   t_lookup tk h = None -> (resolve tk self h).1 = []) /\
  (forall n, n ∈ (resolve tk self h).1 ->
     (exists addrs a, t_lookup tk h = Some addrs /\ a ∈ addrs /\ n = net_from (normalize_ip a)) \/
     (exists st now, cache self !! h = Some st /\ n ∈ addresses st /\
        (now = t_read tk \/ now = t_write tk) /\
        now - attempted_at st < (if resolved st then positive_ttl self else negative_ttl self))).
Proof.
  split.
  - intros H1 H2 H3. unfold resolve, resolve_write. rewrite H1, H2. simpl.
    unfold lookup_hostname. by rewrite H3.
  - intros n. assert (forall now addrs, now = t_read tk \/ now = t_write tk ->
      fresh_entry now self h = Some addrs -> n ∈ addrs ->
      exists st now, cache self !! h = Some st /\ n ∈ addresses st /\
        (now = t_read tk \/ now = t_write tk) /\
        now - attempted_at st < (if resolved st then positive_ttl self else negative_ttl self))
      as Hhit.
    { intros now addrs Hnow Hf Hn. unfold fresh_entry in Hf.
      destruct (cache self !! h) as [st|] eqn:Hst; [|done].
      destruct (is_fresh _ _ _ _) eqn:Hfr; simplify_eq. exists st, now.
      unfold is_fresh in Hfr. apply Z.ltb_lt in Hfr. split_and!; [done..|lia]. }
    unfold resolve, resolve_write.
    destruct (fresh_entry (t_read tk) self h) eqn:Hr; [intros; right; eauto|].
    destruct (fresh_entry (t_write tk) self h) eqn:Hw; [intros; right; eauto|].
    simpl. unfold lookup_hostname. destruct (t_lookup tk h) as [addrs|]; [|by intros ?%elem_of_nil].
    intros (a & -> & Ha)%list_elem_of_fmap. left. eauto.
Qed.

(** *** [bound_ips] *)

(** An entry admits an address: directly, or through some resolution of its name. *)
Fixpoint admits (env : nat -> DnsTick) (i : nat) (entries : list BoundIpEntry) (ip : IpAddr)
    (dns : DnsResolver) : Prop :=
  match entries with
  | [] => False
  | Network net :: rest => net_contains net ip = true \/ admits env i rest ip dns
  | Hostname name :: rest =>
      (exists n, n ∈ (resolve (env i) dns name).1 /\ net_contains n ip = true) \/
      admits env (S i) rest ip (resolve (env i) dns name).2
  end.

(** A client is allowed exactly when one of the list's literal networks
    contains its address, or the addresses one of its names resolves to do; the
    names are tried in order, each against the cache the earlier ones left. *)
Theorem is_allowed_exact env entries ip dns :
  (is_allowed env entries ip dns).1 = true <-> admits env 0 entries ip dns.
Proof.
  unfold is_allowed. generalize 0%nat. revert dns.
  induction entries as [|[net|name] rest IH]; intros dns i; simpl; [done|..].
  - destruct (net_contains net ip); simpl; [naive_solver|]. rewrite IH. naive_solver.
  - destruct (resolve (env i) dns name) as [addrs dns'] eqn:Hr. simpl.
    destruct (existsb _ addrs) eqn:He; simpl.
    + split; [|done]. intros _. left. by apply covered_true.
    + rewrite IH. split; [by right|]. intros [Hex|Ha]; [|done].
      apply covered_true in Hex. unfold covered in Hex. congruence.
Qed.

Lemma parse_entries_Ok es bs :
  parse_entries es = Ok bs <-> Forall2 (fun e b => parse_entry e = Ok b) es bs.
Proof.
  revert bs. induction es as [|e es IH]; intros bs; simpl.
  - split; [by intros [= <-]|]. by inversion 1.
  - destruct (parse_entry e) as [b|r] eqn:He.
    + destruct (parse_entries es) as [bs'|r].
      * split.
        -- intros [= <-]. constructor; [done|]. by apply IH.
        -- intros (b' & bs'' & Hb & Hbs & ->)%Forall2_cons_inv_l. apply IH in Hbs. congruence.
      * split; [done|]. intros (b' & bs'' & Hb & Hbs & ->)%Forall2_cons_inv_l. by apply IH in Hbs.
    + split; [done|]. intros (b' & bs'' & Hb & _)%Forall2_cons_inv_l. congruence.
Qed.

(** A list is refused with its first unusable entry: everything before that
    entry reads as a network or a name, and the refusal carries the entry's text
    and the reason [hostname_rejection] gives for it. *)
Theorem parse_bound_ips_first_error raw entry reason :
  parse_bound_ips raw = Err (entry, reason) <->
  exists before after bs, Str.comma_entries raw = before ++ entry :: after /\
    Forall2 (fun e b => parse_entry e = Ok b) before bs /\
    net_parse entry = None /\ ip_parse entry = None /\ hostname_rejection entry = Some reason.
Proof.
  unfold parse_bound_ips. generalize (Str.comma_entries raw) as es.
  assert (forall e r, parse_entry e = Err r <->
    r.1 = e /\ net_parse e = None /\ ip_parse e = None /\ hostname_rejection e = Some r.2) as Herr.
  { intros e [e' r]. unfold parse_entry. simpl.
    repeat case_match; split; try done; intros; destruct_and?; simplify_eq; done. }
  induction es as [|e es IH]; simpl.
  - split; [done|]. by intros ([|] & ? & ? & ? & _).
  - destruct (parse_entry e) as [b|r] eqn:He.
    + trans (parse_entries es = Err (entry, reason)).
      { destruct (parse_entries es); split; congruence. }
      rewrite IH. split.
      * intros (before & after & bs & -> & Hb & Hrest). exists (e :: before), after, (b :: bs).
        split_and!; [done| |apply Hrest..]. by constructor.
      * intros (before & after & bs & Heq & Hb & Hn & Hi & Hh). destruct before as [|e' before].
        -- exfalso. simplify_eq/=. unfold parse_entry in He. rewrite Hn, Hi, Hh in He. done.
        -- simplify_eq/=. apply Forall2_cons_inv_l in Hb as (b' & bs' & _ & Hb & ->). eauto 10.
    + split.
      * intros [= ->]. apply Herr in He as (<- & Hn & Hi & Hh). by exists [], es, [].
      * intros (before & after & bs & Heq & Hb & Hn & Hi & Hh). destruct before as [|e' before].
        -- simplify_eq/=. unfold parse_entry in He. rewrite Hn, Hi, Hh in He. by injection He as <-.
        -- exfalso. simplify_eq/=. apply Forall2_cons_inv_l in Hb as (b' & bs' & Hb & _). congruence.
Qed.

End theorems.

(** ** Witnesses *)

Section witnesses.
Import Ref.

Definition w_tick (t : Z) : DnsTick :=
  mkDnsTick t t (t + 1) (fun h => if String.eqb h "proxy" then Some [V4 167772161] else None).

Lemma one_lookup_per_expiry_witness :
  (writers new "proxy" [w_tick 0; w_tick 5; w_tick 9]).1
  = (replicate 3 [net_from (V4 167772161)], 1%nat).
Proof.
  apply (one_lookup_per_expiry new "proxy" (w_tick 0) [w_tick 5; w_tick 9]);
    [done|by vm_compute|]. repeat constructor.
Defined.

End witnesses.

End Dns.
