(* ===== verification/Http.v ===== *)
(** * Requests as the handlers see them

    The part of [http] and [axum] the handlers read: header values, status codes,
    and the query and body after the framework's extractors. *)

From S2P Require Import Prelude.
From S2P Require Import RustStr.
From Stdlib Require Import Ascii.
#[local] Open Scope Z_scope.

Module Http.

(** [HeaderMap::get]: the first value under a name. *)
Definition HeaderMap : Type := string -> option Bytes.

(** [HeaderValue::to_str] accepts visible ASCII, space and tab. *)
Definition header_char (c : ascii) : bool := Str.in_range 32 126 c || (Str.code c =? 9).

(** [headers.get(name).and_then(|v| v.to_str().ok())]. *)
Definition get_str (headers : HeaderMap) (name : string) : option string :=
  match headers name with
  | Some v => if Str.all_chars header_char v then Some v else None
  | None => None
  end.

End Http.
