(* ===== verification/Config.v ===== *)
(** * [config.rs]: trust, addresses and start-up settings

    [TrustedProxies] and the client address a request is attributed to, and the
    validation of the environment.  The DNS cache inside [TrustedProxies] is the
    one the whole process shares, so it is passed as the state it is. *)

From S2P Require Import Prelude.
From S2P Require Import RustStr.
From S2P Require Import Net.
From S2P Require Import Libs.
From S2P Require Import LibsRef.
From S2P Require Import DnsCache.
From S2P Require Import Http.
From Stdlib Require Import Ascii.
#[local] Open Scope Z_scope.

Module Config.

(** [std::env::var(name).ok()]. *)
Definition Environ : Type := string -> option string.

Definition DEFAULT_BIND_HOST : IpAddr := V4 0.
Definition DEFAULT_BIND_PORT : Z := 3002.
Definition DEFAULT_SIGNATURE_MAX_AGE_SECONDS : Z := 300.
Definition TRUSTED_PROXIES_ENV : string := "TRUSTED_PROXIES".
Definition BOOT_GRACE_PERIOD : Z := from_secs 60.

(** ** Trusted proxies *)

Section proxies.
Context {L : IpNetLib}.

Inductive ProxyMatcher :=
| Network (net : IpNet)
| Hostname (name : string).

Record InvalidProxyEntry := mkInvalidProxyEntry { entry : string; reason : string }.

Record TrustedProxies := mkTrustedProxies {
  matchers : list ProxyMatcher;
  networks : list IpNet;
  hostnames : list string;
}.

(** The loop of [parse_trusted_proxies]: good and bad entries, both in order. *)
Fixpoint sort_entries (es : list string) : list ProxyMatcher * list InvalidProxyEntry :=
  match es with
  | [] => ([], [])
  | e :: es' =>
      let '(ms, bad) := sort_entries es' in
      match net_parse e with
      | Some net => (Network net :: ms, bad)
      | None =>
          match ip_parse e with
          | Some addr => (Network (net_from addr) :: ms, bad)
          | None =>
              match Dns.hostname_rejection e with
              | None => (Hostname e :: ms, bad)
              | Some why => (ms, mkInvalidProxyEntry e why :: bad)
              end
          end
      end
  end.

Definition parse_trusted_proxies (raw : string)
  : result (list ProxyMatcher) (list InvalidProxyEntry) :=
  let '(ms, invalid) := sort_entries (Str.comma_entries raw) in
  match invalid with [] => Ok ms | _ => Err invalid end.

Definition new (ms : list ProxyMatcher) : TrustedProxies := {|
  matchers := ms;
  networks := omap (fun m => match m with Network net => Some net | Hostname _ => None end) ms;
  hostnames := omap (fun m => match m with Hostname n => Some n | Network _ => None end) ms;
|}.

(** [TrustedProxies::from_env]. *)
Definition proxies_from_env (env : Environ) : result TrustedProxies (list InvalidProxyEntry) :=
  match env TRUSTED_PROXIES_ENV with
  | None => Ok (new [])
  | Some raw =>
      match parse_trusted_proxies raw with
      | Ok ms => Ok (new ms)
      | Err entries => Err entries
      end
  end.

(** The loop of [resolved] over the hostnames; [i] counts the resolutions. *)
Fixpoint resolve_names (env : nat -> Dns.DnsTick) (i : nat) (names : list string)
    (merged : list IpNet) (dns : Dns.DnsResolver) : list IpNet * Dns.DnsResolver :=
  match names with
  | [] => (merged, dns)
  | name :: rest =>
      let '(addrs, dns') := Dns.resolve (env i) dns name in
      resolve_names env (S i) rest (merged ++ addrs) dns'
  end.

Definition resolved (env : nat -> Dns.DnsTick) (self : TrustedProxies) (dns : Dns.DnsResolver)
  : list IpNet * Dns.DnsResolver :=
  if Nat.eqb (length (hostnames self)) 0 then (networks self, dns)
  else resolve_names env 0 (hostnames self) (networks self) dns.

(** [prime]: a forced resolution of every name; the names that failed. *)
Fixpoint prime_names (env : nat -> Dns.DnsTick) (i : nat) (names failed : list string)
    (dns : Dns.DnsResolver) : list string * Dns.DnsResolver :=
  match names with
  | [] => (failed, dns)
  | name :: rest =>
      let '(addrs, dns') := Dns.force_resolve (env i) dns name in
      let failed := if Nat.eqb (length addrs) 0 then failed ++ [name] else failed in
      prime_names env (S i) rest failed dns'
  end.

Definition prime (env : nat -> Dns.DnsTick) (self : TrustedProxies) (dns : Dns.DnsResolver)
  : list string * Dns.DnsResolver :=
  prime_names env 0 (hostnames self) [] dns.

Definition is_trusted (ip : IpAddr) (trusted : list IpNet) : bool :=
  existsb (fun net => net_contains net ip) trusted.

(** [Iterator::find]. *)
Definition find_untrusted (trusted : list IpNet) (ips : list IpAddr) : option IpAddr :=
  List.find (fun ip => negb (is_trusted ip trusted)) ips.

(** The addresses of an [X-Forwarded-For] value, left to right. *)
Definition forwarded_chain (forwarded : string) : list IpAddr :=
  Dns.normalize_ip <$> omap ip_parse (Str.comma_entries forwarded).

Definition resolve_client_ip (peer : IpAddr) (headers : Http.HeaderMap) (trusted : list IpNet)
  : IpAddr :=
  let peer := Dns.normalize_ip peer in
  if negb (is_trusted peer trusted) then peer else
  match (match Http.get_str headers "X-Forwarded-For" with
         | Some forwarded => find_untrusted trusted (reverse (forwarded_chain forwarded))
         | None => None
         end) with
  | Some client => client
  | None =>
      match (match Http.get_str headers "X-Real-IP" with
             | Some h => ip_parse (Str.trim h)
             | None => None
             end) with
      | Some real_ip => Dns.normalize_ip real_ip
      | None => peer
      end
  end.

End proxies.
#[global] Arguments ProxyMatcher {L}.
#[global] Arguments TrustedProxies {L}.

(** ** Runtime settings *)

Section settings.
Context {L : IpNetLib}.

Record RuntimeConfig := mkRuntimeConfig {
  trusted_proxies : TrustedProxies;
  signature_max_age_seconds : Z;
  vault_base_url : option string;
  vault_api_key : option string;
  vault_signing_secret : option string;
}.

(** [parse_or_warn] at [i64]. *)
Definition parse_or_warn_i64 (env : Environ) (name : string) (default_ : Z) : Z :=
  match env name with
  | Some raw => default default_ (Str.parse_i64 (Str.trim raw))
  | None => default_
  end.

Definition non_empty (o : option string) : option string :=
  match o with Some s => if Str.is_empty s then None else Some s | None => None end.

(** [RuntimeConfig::from_env]. *)
Definition config_from_env (env : Environ) : result RuntimeConfig (list InvalidProxyEntry) :=
  match proxies_from_env env with
  | Err e => Err e
  | Ok proxies => Ok {|
      trusted_proxies := proxies;
      signature_max_age_seconds :=
        Z.max 1 (parse_or_warn_i64 env "SIGNATURE_MAX_AGE_SECONDS" DEFAULT_SIGNATURE_MAX_AGE_SECONDS);
      vault_base_url := non_empty (Str.trim_end_char "/" <$> env "VAULT_BASE_URL");
      vault_api_key := non_empty (env "VAULT_API_KEY");
      vault_signing_secret := non_empty (env "VAULT_SIGNING_SECRET");
    |}
  end.

(** [RuntimeConfig::default]. *)
Definition RuntimeConfig_default : RuntimeConfig :=
  mkRuntimeConfig (new []) DEFAULT_SIGNATURE_MAX_AGE_SECONDS None None None.

(** [TrustedProxies::is_empty]. *)
Definition proxies_is_empty (self : TrustedProxies) : bool := Nat.eqb (length (matchers self)) 0.

End settings.
#[global] Arguments RuntimeConfig {L}.

(** A present, non-blank setting, trimmed. *)
Definition trimmed (o : option string) : option string :=
  match o with
  | Some s => if Str.is_empty (Str.trim s) then None else Some (Str.trim s)
  | None => None
  end.

Definition parse_bind_addr (host port : option string) : IpAddr * Z :=
  let ip := match trimmed host with
            | Some raw => default DEFAULT_BIND_HOST (ip_parse raw)
            | None => DEFAULT_BIND_HOST
            end in
  let port := match trimmed port with
              | Some raw => default DEFAULT_BIND_PORT (Str.parse_u16 raw)
              | None => DEFAULT_BIND_PORT
              end in
  (ip, port).

Definition resolve_bind_addr (env : Environ) : IpAddr * Z :=
  let host := match env "BIND_HOST" with Some h => Some h | None => env "HOST" end in
  parse_bind_addr host (env "PORT").

(** *** [INITIAL_MASTER_KEY] *)

Definition INITIAL_MASTER_KEY_HEX_LEN : nat := 64.

Inductive InitialMasterKeyError :=
| Empty
| BadLength (got : nat)
| NonHex (found : string) (index : nat).

(** The first character of a UTF-8 string. *)
Definition first_char (s : string) : string :=
  match s with
  | EmptyString => EmptyString
  | String c _ =>
      let k := Str.code c in
      Str.take (if k <? 128 then 1 else if k <? 224 then 2 else if k <? 240 then 3 else 4) s
  end.

(** [char_indices().find(|(_, c)| !c.is_ascii_hexdigit())]. *)
Fixpoint find_non_hex (i : nat) (s : string) : option (nat * string) :=
  match s with
  | EmptyString => None
  | String c s' =>
      if Str.is_ascii_hexdigit c then find_non_hex (S i) s' else Some (i, first_char s)
  end.

Definition validate_initial_master_key (raw : option string)
  : result (option string) InitialMasterKeyError :=
  match raw with
  | None => Ok None
  | Some raw =>
      let candidate := Str.trim raw in
      if Str.is_empty candidate then Err Empty else
      match find_non_hex 0 candidate with
      | Some (index, found) => Err (NonHex found index)
      | None =>
          let width := String.length candidate in
          if negb (Nat.eqb width INITIAL_MASTER_KEY_HEX_LEN) then Err (BadLength width)
          else Ok (Some candidate)
      end
  end.

(** ** Theorems *)

Section theorems.
Context {L : IpNetLib} {LL : IpNetLaws L}.

Definition as_matcher (b : Dns.BoundIpEntry) : ProxyMatcher :=
  match b with Dns.Network n => Network n | Dns.Hostname h => Hostname h end.

Definition as_invalid (r : string * string) : InvalidProxyEntry := mkInvalidProxyEntry r.1 r.2.

(** The refused entries of a list, in order. *)
Definition refusals (es : list string) : list (string * string) :=
  omap (fun e => match Dns.parse_entry e with Ok _ => None | Err r => Some r end) es.

Lemma sort_entries_spec es :
  sort_entries es =
  (omap (fun e => match Dns.parse_entry e with Ok b => Some (as_matcher b) | Err _ => None end) es,
   as_invalid <$> refusals es).
Proof.
  unfold refusals. induction es as [|e es IH]; [done|]. cbn [sort_entries]. rewrite IH. simpl.
  unfold Dns.parse_entry. repeat case_match; simplify_eq/=; done.
Qed.

(** [TRUSTED_PROXIES] and [bound_ips] accept exactly the same lists and read
    them the same; where both refuse, [TRUSTED_PROXIES] reports every bad entry in
    order and [bound_ips] the first of them. *)
Theorem proxies_agree_with_bound_ips raw :
  match Dns.parse_bound_ips raw with
  | Ok bs => parse_trusted_proxies raw = Ok (as_matcher <$> bs)
  | Err r => exists rs, refusals (Str.comma_entries raw) = r :: rs /\
               parse_trusted_proxies raw = Err (as_invalid <$> (r :: rs))
  end.
Proof.
  unfold Dns.parse_bound_ips, parse_trusted_proxies. rewrite sort_entries_spec.
  set (es := Str.comma_entries raw).
  assert (match Dns.parse_entries es with
    | Ok bs => omap (fun e => match Dns.parse_entry e with Ok b => Some (as_matcher b) | Err _ => None end) es
                 = as_matcher <$> bs /\ refusals es = []
    | Err r => exists rs, refusals es = r :: rs end) as H.
  { induction es as [|e es IH]; [done|]. unfold refusals in *. simpl.
    destruct (Dns.parse_entry e) as [b|r]; [|by eauto].
    destruct (Dns.parse_entries es) as [bs|r]; [|done].
    destruct IH as [IH1 IH2]. split; [cbn; f_equal; exact IH1|exact IH2]. }
  destruct (Dns.parse_entries es) as [bs|r].
  - destruct H as [-> ->]. done.
  - destruct H as [rs ->]. eauto.
Qed.

(** *** The client address *)

Lemma find_app {A} (f : A -> bool) l1 l2 :
  List.find f (l1 ++ l2) = match List.find f l1 with Some x => Some x | None => List.find f l2 end.
Proof. induction l1 as [|x l1 IH]; simpl; [done|]. by destruct (f x). Qed.

Lemma find_all_trusted trusted l :
  Forall (fun ip => is_trusted ip trusted = true) l -> find_untrusted trusted l = None.
Proof. unfold find_untrusted. induction 1 as [|ip l Hip _ IH]; simpl; [done|]. by rewrite Hip. Qed.

(** A peer that is not a trusted proxy cannot choose its address: whatever
    headers it sends, the request is attributed to the peer itself. *)
Theorem untrusted_peer_ignores_headers peer headers trusted :
  is_trusted (Dns.normalize_ip peer) trusted = false ->
  resolve_client_ip peer headers trusted = Dns.normalize_ip peer.
Proof. intros Hp. unfold resolve_client_ip. by rewrite Hp. Qed.

(** C31. Behind trusted proxies a client cannot spoof its address: when the
    forwarding chain ends in the client's address followed only by trusted
    proxies, that address is the result, whatever the client put in front of it. *)
Theorem forwarded_chain_unspoofable peer headers trusted value spoofed client hops :
  is_trusted (Dns.normalize_ip peer) trusted = true ->
  Http.get_str headers "X-Forwarded-For" = Some value ->
  forwarded_chain value = spoofed ++ client :: hops ->
  is_trusted client trusted = false ->
  Forall (fun ip => is_trusted ip trusted = true) hops ->
  resolve_client_ip peer headers trusted = client.
Proof.
  intros Hp Hh Hchain Hc Hhops. unfold resolve_client_ip. rewrite Hp, Hh, Hchain. cbn [negb].
  rewrite reverse_app, reverse_cons, <- app_assoc. unfold find_untrusted.
  rewrite find_app. fold (find_untrusted trusted (reverse hops)).
  rewrite find_all_trusted by by apply Forall_reverse.
  cbn [app List.find]. by rewrite Hc.
Qed.

Lemma resolve_client_ip_cases peer headers trusted :
  let r := resolve_client_ip peer headers trusted in
  r = Dns.normalize_ip peer \/
  (is_trusted (Dns.normalize_ip peer) trusted = true /\
   ((exists value, Http.get_str headers "X-Forwarded-For" = Some value /\
       r ∈ forwarded_chain value /\ is_trusted r trusted = false) \/
    (exists value a, Http.get_str headers "X-Real-IP" = Some value /\
       ip_parse (Str.trim value) = Some a /\ r = Dns.normalize_ip a))).
Proof.
  cbv zeta. unfold resolve_client_ip.
  destruct (is_trusted (Dns.normalize_ip peer) trusted) eqn:Hp; [|by left]. cbn [negb].
  assert (forall r, match (match Http.get_str headers "X-Real-IP" with
      | Some h => ip_parse (Str.trim h) | None => None end) with
    | Some real_ip => Dns.normalize_ip real_ip | None => Dns.normalize_ip peer end = r ->
    r = Dns.normalize_ip peer \/ exists value a, Http.get_str headers "X-Real-IP" = Some value /\
      ip_parse (Str.trim value) = Some a /\ r = Dns.normalize_ip a) as Hreal.
  { intros r <-. destruct (Http.get_str headers "X-Real-IP") as [v|]; [|by left].
    destruct (ip_parse (Str.trim v)) as [a|] eqn:Ha; [right; eauto|by left]. }
  destruct (Http.get_str headers "X-Forwarded-For") as [v|].
  - destruct (find_untrusted trusted (reverse (forwarded_chain v))) as [c|] eqn:Hf.
    + right. split; [done|]. left. exists v. unfold find_untrusted in Hf.
      apply List.find_some in Hf as [Hin Hnt]. rewrite <- list_elem_of_In, elem_of_reverse in Hin.
      apply negb_true_iff in Hnt. done.
    + edestruct Hreal as [->|?]; [done|by left|right; eauto].
  - edestruct Hreal as [->|?]; [done|by left|right; eauto].
Qed.

(** The attributed address is always a normalised one: an IPv4-mapped IPv6
    address never reaches a [bound_ips] check, so an IPv4 rule cannot be missed by
    writing the address in its IPv6 form. *)
Theorem client_ip_normalized peer headers trusted :
  Dns.normalize_ip (resolve_client_ip peer headers trusted) = resolve_client_ip peer headers trusted.
Proof.
  destruct (resolve_client_ip_cases peer headers trusted)
    as [->|[_ [(v & _ & Hin & _)|(v & a & _ & _ & ->)]]]; [apply Dns.normalize_ip_idemp| |].
  - unfold forwarded_chain in Hin. apply list_elem_of_fmap in Hin as (b & -> & _).
    apply Dns.normalize_ip_idemp.
  - apply Dns.normalize_ip_idemp.
Qed.

Lemma resolve_names_spec env names : forall i merged dns,
  exists extra, (resolve_names env i names merged dns).1 = merged ++ extra /\
    forall n, n ∈ extra -> exists name j dns', name ∈ names /\ n ∈ (Dns.resolve (env j) dns' name).1.
Proof.
  induction names as [|name names IH]; intros i merged dns; cbn [resolve_names].
  { exists []. rewrite app_nil_r. split; [done|]. by intros n ?%elem_of_nil. }
  destruct (Dns.resolve (env i) dns name) as [addrs dns'] eqn:Hr.
  destruct (IH (S i) (merged ++ addrs) dns') as (extra & -> & He).
  exists (addrs ++ extra). rewrite app_assoc. split; [done|].
  intros n [Hn|Hn]%elem_of_app.
  - exists name, i, dns. rewrite Hr. split; [set_solver|done].
  - destruct (He n Hn) as (nm & j & d & ? & ?). exists nm, j, d. split; [set_solver|done].
Qed.

(** Trust comes from the configuration alone: a peer is trusted only through
    a literal network of [TRUSTED_PROXIES] or an address one of its hostnames
    resolves to, and every literal network is trusted. *)
Theorem resolved_trust env proxies dns ip :
  (is_trusted ip (networks proxies) = true ->
   is_trusted ip (resolved env proxies dns).1 = true) /\
  (is_trusted ip (resolved env proxies dns).1 = true ->
   is_trusted ip (networks proxies) = true \/
   exists name j dns' n, name ∈ hostnames proxies /\
     n ∈ (Dns.resolve (env j) dns' name).1 /\ net_contains n ip = true).
Proof.
  unfold resolved, is_trusted. destruct (Nat.eqb _ 0); [by auto|].
  destruct (resolve_names_spec env (hostnames proxies) 0 (networks proxies) dns) as (extra & -> & He).
  rewrite existsb_app, orb_true_iff. split; [by left|]. intros [H|H]; [by left|right].
  apply covered_true in H as (n & Hn & Hc). destruct (He n Hn) as (nm & j & d & ? & ?). eauto 10.
Qed.

(** With nothing configured the settings are the defaults. *)
Lemma unset_environment_is_default : config_from_env (fun _ => None) = Ok RuntimeConfig_default.
Proof. done. Qed.

(** Settings that report no matcher trust nobody: no header moves the client address. *)
Lemma empty_proxies_trust_nobody environ proxies env dns peer headers :
  proxies_from_env environ = Ok proxies -> proxies_is_empty proxies = true ->
  resolve_client_ip peer headers (resolved env proxies dns).1 = Dns.normalize_ip peer.
Proof.
  intros Hp He. assert (proxies = new []) as ->; [|done].
  assert (exists ms, proxies = new ms) as [ms ->].
  { unfold proxies_from_env in Hp. repeat case_match; simplify_eq; eauto. }
  apply Nat.eqb_eq in He. cbn [matchers new] in He. by apply nil_length_inv in He as ->.
Qed.

Lemma find_non_hex_None i s :
  find_non_hex i s = None <-> Str.all_chars Str.is_ascii_hexdigit s = true.
Proof.
  revert i. induction s as [|c s IH]; intros i; simpl; [done|].
  destruct (Str.is_ascii_hexdigit c); simpl; [apply IH|done].
Qed.

(** The bootstrap key is accepted exactly when, trimmed, it is 64 hexadecimal
    digits, and it is taken verbatim; an unset variable is not an error and a
    blank one is. *)
Theorem initial_master_key_exact raw k :
  validate_initial_master_key raw = Ok (Some k) <->
  exists r, raw = Some r /\ k = Str.trim r /\ String.length k = INITIAL_MASTER_KEY_HEX_LEN /\
    Str.all_chars Str.is_ascii_hexdigit k = true.
Proof.
  unfold validate_initial_master_key. destruct raw as [r|]; [|naive_solver].
  destruct (Str.is_empty (Str.trim r)) eqn:He.
  { split; [done|]. intros (r' & [= <-] & -> & Hl & _). destruct (Str.trim r); done. }
  destruct (find_non_hex 0 (Str.trim r)) as [[i f]|] eqn:Hf.
  { split; [done|]. intros (r' & [= <-] & -> & _ & Hh). apply (find_non_hex_None 0) in Hh. congruence. }
  apply find_non_hex_None in Hf.
  destruct (Nat.eqb_spec (String.length (Str.trim r)) INITIAL_MASTER_KEY_HEX_LEN); cbn [negb].
  - split; [intros [= <-]; eauto 10|]. by intros (r' & [= <-] & -> & _).
  - split; [done|]. by intros (r' & [= <-] & -> & ? & _).
Qed.

End theorems.

(** ** Witnesses *)

Section witnesses.
Import Ref.

Definition w_trusted : list IpNet := default [] (mapM net_parse ["10.0.0.0/8"]).

Definition w_headers : Http.HeaderMap := fun name =>
  if String.eqb name "X-Forwarded-For" then Some "1.2.3.4, 203.0.113.9, 10.0.0.2" else None.

(** The entry to the left of the client is not believed. *)
Lemma forwarded_chain_unspoofable_witness :
  resolve_client_ip (V4 167772161) w_headers w_trusted = V4 3405803785.
Proof.
  apply (forwarded_chain_unspoofable (V4 167772161) w_headers w_trusted
    "1.2.3.4, 203.0.113.9, 10.0.0.2" [V4 16909060] (V4 3405803785) [V4 167772162]);
    [by vm_compute..|]. repeat constructor.
Defined.

End witnesses.

End Config.
