(* ===== verification/Deadlines.v ===== *)
(** * Deadlines: the abstract "not again before" table

    The specification shared by the feed's rate limiter and by the replay guard:
    an unbounded table of deadlines.  A key is admitted when it has no deadline
    in the future, and being admitted at [now] sets its deadline to [now + W]. *)

From S2P Require Import Prelude.
#[local] Open Scope Z_scope.

Section deadlines.
Context `{Countable K} (W : Z).

Definition admission (m : gmap K Z) (now : Z) (k : K) : result unit Z * gmap K Z :=
  match m !! k with
  | Some deadline =>
      if now <? deadline then (Err (deadline - now), m) else (Ok tt, <[k := now + W]> m)
  | None => (Ok tt, <[k := now + W]> m)
  end.

Fixpoint admit_run (m : gmap K Z) (calls : list (Z * K)) : list (result unit Z) :=
  match calls with
  | [] => []
  | (now, k) :: calls' => let '(r, m') := admission m now k in r :: admit_run m' calls'
  end.

(** Admission never shrinks the table and touches one key. *)
Lemma admit_dom m now k : dom (admission m now k).2 ⊆ {[k]} ∪ dom m.
Proof.
  unfold admission. repeat case_match; simpl; rewrite ?dom_insert_L; set_solver.
Qed.

Lemma admit_lookup_ne m now k k' : k <> k' -> (admission m now k).2 !! k' = m !! k'.
Proof. intros. unfold admission. repeat case_match; simpl; by rewrite ?lookup_insert_ne. Qed.

(** Admitted means: no deadline after [now], and [now + W] is recorded. *)
Lemma admit_ok m now k m' :
  admission m now k = (Ok tt, m') ->
  m' = <[k := now + W]> m /\ forall d, m !! k = Some d -> d <= now.
Proof.
  unfold admission. intros Ha. destruct (m !! k) as [d|].
  - destruct (Z.ltb_spec now d); simplify_eq. split; [done|]. intros d' ?. simplify_eq. lia.
  - by simplify_eq.
Qed.

Lemma admit_err m now k e m' :
  admission m now k = (Err e, m') -> m' = m /\ exists d, m !! k = Some d /\ now < d /\ e = d - now.
Proof.
  unfold admission. intros Ha. destruct (m !! k) as [d|]; [|done].
  destruct (Z.ltb_spec now d); simplify_eq. eauto.
Qed.

Context (HW : 0 <= W).

(** A deadline in force refuses every earlier request, however many others are
    admitted in between. *)
Lemma admit_run_deadline k d calls : forall m j t,
  (exists d', m !! k = Some d' /\ d <= d') ->
  calls !! j = Some (t, k) -> admit_run m calls !! j = Some (Ok tt) -> d <= t.
Proof.
  induction calls as [|[now k'] calls IH]; intros m j t (d' & Hm & Hle) Hc Hr; [done|].
  simpl in Hr. destruct (admission m now k') as [r m'] eqn:Ha.
  destruct j as [|j]; simpl in *; simplify_eq.
  - apply admit_ok in Ha as [_ Ha]. specialize (Ha _ Hm). lia.
  - eapply (IH m'); [|done..]. destruct (decide (k' = k)) as [->|Hne].
    + destruct r as [[]|e].
      * apply admit_ok in Ha as [-> Ha]. exists (now + W). rewrite lookup_insert_eq.
        specialize (Ha _ Hm). split; [done|lia].
      * apply admit_err in Ha as [-> _]. eauto.
    + exists d'. split; [|done]. rewrite <- Hm. replace m' with (admission m now k').2 by (by rewrite Ha).
      by apply admit_lookup_ne.
Qed.

(** Two admissions of one key are at least [W] apart. *)
Lemma admit_run_spaced k calls : forall m i j t t',
  (i < j)%nat -> calls !! i = Some (t, k) -> calls !! j = Some (t', k) ->
  admit_run m calls !! i = Some (Ok tt) -> admit_run m calls !! j = Some (Ok tt) ->
  t + W <= t'.
Proof.
  induction calls as [|[now k'] calls IH]; intros m i j t t' Hij Hi Hj Hri Hrj; [done|].
  simpl in *. destruct (admission m now k') as [r m'] eqn:Hc.
  destruct j as [|j]; [lia|]. destruct i as [|i]; simpl in *; simplify_eq.
  - eapply admit_run_deadline; [|exact Hj|exact Hrj].
    apply admit_ok in Hc as [-> _]. exists (t + W). by rewrite lookup_insert_eq.
  - eapply (IH m' i j); eauto. lia.
Qed.

End deadlines.
