(* ===== verification/RateLimit.v ===== *)
(** * [src/ratelimit.rs]: the per-source-IP limiter of the public feed

    The limiter's state, its one operation and a run of it over a sequence of
    timed requests; the ideal limiter it refines (an unbounded map); the
    invariant tying the map to its eviction queue.  Theorems: bounded memory,
    first-in-first-out eviction, equivalence with the ideal limiter below the
    ceiling, and the two-minute spacing of accepted requests. *)

From S2P Require Import Prelude.
From S2P Require Import RustStr.
From S2P Require Import Net.
From S2P Require Import Deadlines.
#[local] Open Scope Z_scope.

Module RateLimit.

(** [RATE_LIMIT_WINDOW]: two minutes. *)
Definition RATE_LIMIT_WINDOW : Z := from_secs 120.

(** [MAX_TRACKED_IPS]. *)
Definition MAX_TRACKED_IPS : Z := 10000.

(** [Inner]: when each tracked address may next be served, and the addresses
    in the order they were first seen. *)
Record Inner := mkInner {
  next_allowed : gmap IpAddr Z;
  order : list IpAddr;
}.

(** [RateLimiter]: the mutex-protected state and the mutex's poison flag. *)
Record RateLimiter := mkRateLimiter {
  poisoned : bool;
  state : Inner;
}.

(** [RateLimiter::new]. *)
Definition new : RateLimiter := mkRateLimiter false (mkInner ∅ []).

(** The eviction loop: while the map is at its ceiling, forget the address at
    the front of the queue; an empty queue breaks out. *)
Fixpoint evict_oldest (m : gmap IpAddr Z) (q : list IpAddr) : gmap IpAddr Z * list IpAddr :=
  match q with
  | [] => (m, [])
  | oldest :: q' =>
      if MAX_TRACKED_IPS <=? Z.of_nat (size m)
      then evict_oldest (delete oldest m) q'
      else (m, q)
  end.

(** [check_and_record] at monotonic time [now]: the answer and the new state. *)
Definition check_and_record (rl : RateLimiter) (now : Z) (ip : IpAddr)
  : result unit Z * RateLimiter :=
  if poisoned rl then (Err RATE_LIMIT_WINDOW, rl) else
  let st := state rl in
  let is_new := bool_decide (next_allowed st !! ip = None) in
  let record (m : gmap IpAddr Z) (q : list IpAddr) :=
    let m' := <[ip := now + RATE_LIMIT_WINDOW]> m in
    let q' := if is_new then q ++ [ip] else q in
    (Ok tt, mkRateLimiter false (mkInner m' q')) in
  match next_allowed st !! ip with
  | Some na =>
      if now <? na then (Err (na - now), rl)
      else record (next_allowed st) (order st)
  | None =>
      if MAX_TRACKED_IPS <=? Z.of_nat (size (next_allowed st))
      then let '(m, q) := evict_oldest (next_allowed st) (order st) in record m q
      else record (next_allowed st) (order st)
  end.

(** A sequence of requests (time, source address) against one limiter. *)
Fixpoint run (rl : RateLimiter) (calls : list (Z * IpAddr))
  : list (result unit Z) * RateLimiter :=
  match calls with
  | [] => ([], rl)
  | (now, ip) :: calls' =>
      let '(r, rl1) := check_and_record rl now ip in
      let '(rs, rl2) := run rl1 calls' in
      (r :: rs, rl2)
  end.

(** ** Specification: a limiter with unbounded memory *)

Definition ideal_run : gmap IpAddr Z -> list (Z * IpAddr) -> list (result unit Z) :=
  admit_run RATE_LIMIT_WINDOW.

(** The invariant: the queue lists the tracked addresses, each once, and there
    are at most [MAX_TRACKED_IPS] of them. *)
Record inner_ok (st : Inner) : Prop := {
  ok_nodup : NoDup (order st);
  ok_dom : list_to_set (order st) = dom (next_allowed st);
  ok_size : Z.of_nat (size (next_allowed st)) <= MAX_TRACKED_IPS;
}.

(** ** Lemmas *)

Lemma order_length st : inner_ok st -> length (order st) = size (next_allowed st).
Proof.
  intros [Hnd Hdom _]. rewrite <- (size_dom (D := gset IpAddr)), <- Hdom.
  symmetry. by apply size_list_to_set.
Qed.

(** At the ceiling the loop forgets exactly the front of the queue. *)
Lemma evict_oldest_full st :
  inner_ok st -> Z.of_nat (size (next_allowed st)) = MAX_TRACKED_IPS ->
  exists oldest q, order st = oldest :: q /\
    evict_oldest (next_allowed st) (order st) = (delete oldest (next_allowed st), q).
Proof.
  intros Hok Hfull. pose proof (order_length st Hok) as Hlen.
  destruct Hok as [Hnd Hdom _]. destruct (order st) as [|o q] eqn:Hq.
  { exfalso. simpl in Hlen. unfold MAX_TRACKED_IPS in *. lia. }
  exists o, q. split; [done|]. cbn [evict_oldest].
  rewrite (proj2 (Z.leb_le _ _)) by lia.
  assert (is_Some (next_allowed st !! o)) as Hin.
  { apply elem_of_dom. rewrite <- Hdom. set_solver. }
  assert (Z.of_nat (size (delete o (next_allowed st))) < MAX_TRACKED_IPS) as Hlt.
  { rewrite map_size_delete. destruct Hin as [v ->]. unfold MAX_TRACKED_IPS in *. lia. }
  destruct q; cbn [evict_oldest]; [done|]. by rewrite (proj2 (Z.leb_gt _ _)) by done.
Qed.

Lemma inner_ok_insert_new m q ip v :
  inner_ok (mkInner m q) -> m !! ip = None -> Z.of_nat (size m) < MAX_TRACKED_IPS ->
  inner_ok (mkInner (<[ip := v]> m) (q ++ [ip])).
Proof.
  intros [Hnd Hdom Hsz] Hnew Hlt. simpl in *.
  assert (ip ∉ q) as Hq.
  { intros Hin. assert (ip ∈ dom m) as [w Hw]%elem_of_dom; [|congruence].
    rewrite <- Hdom. by apply elem_of_list_to_set. }
  split; simpl.
  - apply NoDup_app. split; [done|]. split; [set_solver|apply NoDup_singleton].
  - rewrite list_to_set_app_L, dom_insert_L, Hdom. set_solver.
  - rewrite map_size_insert_None by done. lia.
Qed.

Lemma inner_ok_insert_old m q ip v :
  inner_ok (mkInner m q) -> is_Some (m !! ip) -> inner_ok (mkInner (<[ip := v]> m) q).
Proof.
  intros [Hnd Hdom Hsz] Hin. simpl in *. split; simpl; [done| |].
  - rewrite dom_insert_L, Hdom. apply elem_of_dom in Hin. set_solver.
  - by rewrite map_size_insert_Some.
Qed.

Lemma inner_ok_pop m o q :
  inner_ok (mkInner m (o :: q)) -> inner_ok (mkInner (delete o m) q).
Proof.
  intros [Hnd Hdom Hsz]. simpl in *. apply NoDup_cons in Hnd as [Ho Hnd].
  split; simpl; [done| |].
  - rewrite dom_delete_L, <- Hdom. set_solver.
  - rewrite map_size_delete. destruct (m !! o); unfold id; lia.
Qed.

(** What a request from an untracked address does at the ceiling. *)
Lemma check_new_at_capacity rl now ip :
  poisoned rl = false -> inner_ok (state rl) ->
  next_allowed (state rl) !! ip = None ->
  Z.of_nat (size (next_allowed (state rl))) = MAX_TRACKED_IPS ->
  exists oldest q, order (state rl) = oldest :: q /\
    check_and_record rl now ip =
      (Ok tt, mkRateLimiter false
         (mkInner (<[ip := now + RATE_LIMIT_WINDOW]> (delete oldest (next_allowed (state rl))))
                  (q ++ [ip]))).
Proof.
  intros Hp Hok Hnew Hfull.
  destruct (evict_oldest_full _ Hok Hfull) as (o & q & Hq & Hev).
  exists o, q. split; [done|]. unfold check_and_record.
  rewrite Hp, Hnew, Hev, bool_decide_true by done.
  by rewrite (proj2 (Z.leb_le _ _)) by lia.
Qed.

Lemma check_preserves rl now ip :
  inner_ok (state rl) -> inner_ok (state (check_and_record rl now ip).2).
Proof.
  intros Hok. destruct (poisoned rl) eqn:Hp; [unfold check_and_record; by rewrite Hp|].
  destruct (next_allowed (state rl) !! ip) as [na|] eqn:Hl.
  - unfold check_and_record. rewrite Hp, Hl, bool_decide_false by done.
    destruct (now <? na); [done|]. simpl. destruct (state rl).
    apply inner_ok_insert_old; [done|]. simpl in *. eauto.
  - destruct (decide (Z.of_nat (size (next_allowed (state rl))) = MAX_TRACKED_IPS)) as [He|He].
    + destruct (check_new_at_capacity rl now ip) as (o & q & Hq & ->); try done. simpl.
      destruct (state rl) as [m q0]. simpl in *. subst q0.
      apply inner_ok_insert_new; [by eapply inner_ok_pop| |].
      * rewrite lookup_delete. by case_decide.
      * assert (is_Some (m !! o)) as [v Hv].
        { apply elem_of_dom. pose proof (ok_dom _ Hok) as Hd. simpl in Hd.
          rewrite <- Hd. set_solver. }
        rewrite map_size_delete, Hv. unfold MAX_TRACKED_IPS in *. lia.
    + unfold check_and_record. rewrite Hp, Hl, bool_decide_true by done.
      pose proof (ok_size _ Hok). rewrite (proj2 (Z.leb_gt _ _)) by lia. simpl.
      destruct (state rl). apply inner_ok_insert_new; simpl in *; try done. lia.
Qed.

Lemma check_poisoned rl now ip : poisoned (check_and_record rl now ip).2 = poisoned rl.
Proof.
  unfold check_and_record. destruct (poisoned rl) eqn:Hp; [done|].
  repeat case_match; simpl; done.
Qed.

Lemma run_ok calls : forall rl, inner_ok (state rl) -> inner_ok (state (run rl calls).2).
Proof.
  induction calls as [|[now ip] calls IH]; intros rl Hok; [done|]. simpl.
  pose proof (check_preserves rl now ip Hok).
  destruct (check_and_record rl now ip) as [r rl1]. specialize (IH rl1).
  destruct (run rl1 calls). eauto.
Qed.

Lemma new_ok : inner_ok (state new).
Proof. split; simpl; [apply NoDup_nil_2|set_solver|]. by vm_compute. Qed.

(** Below the ceiling the limiter's map is the ideal limiter's map. *)
Lemma check_ideal rl now ip :
  poisoned rl = false ->
  next_allowed (state rl) !! ip <> None \/
    Z.of_nat (size (next_allowed (state rl))) < MAX_TRACKED_IPS ->
  let '(r, rl') := check_and_record rl now ip in
  admission RATE_LIMIT_WINDOW (next_allowed (state rl)) now ip = (r, next_allowed (state rl')).
Proof.
  intros Hp Hroom. unfold check_and_record, admission. rewrite Hp.
  destruct (next_allowed (state rl) !! ip) as [na|] eqn:Hl; simpl.
  - by destruct (now <? na).
  - destruct Hroom as [?|Hlt]; [done|]. by rewrite (proj2 (Z.leb_gt _ _)) by lia.
Qed.

Lemma run_ideal (S : gset IpAddr) calls : forall rl,
  poisoned rl = false -> Z.of_nat (size S) <= MAX_TRACKED_IPS ->
  dom (next_allowed (state rl)) ⊆ S -> (list_to_set calls.*2 : gset IpAddr) ⊆ S ->
  (run rl calls).1 = ideal_run (next_allowed (state rl)) calls.
Proof.
  unfold ideal_run.
  induction calls as [|[now ip] calls IH]; intros rl Hp HS Hd Hc; [done|]. simpl in *.
  pose proof (check_poisoned rl now ip) as Hp1.
  assert (next_allowed (state rl) !! ip <> None \/
    Z.of_nat (size (next_allowed (state rl))) < MAX_TRACKED_IPS) as Hroom.
  { destruct (next_allowed (state rl) !! ip) eqn:Hl; [by left|right].
    rewrite <- (size_dom (D := gset IpAddr)).
    assert (dom (next_allowed (state rl)) ⊂ S) as Hss%subset_size; [|lia].
    apply not_elem_of_dom in Hl. set_solver. }
  pose proof (check_ideal rl now ip Hp Hroom) as Hi.
  pose proof (admit_dom RATE_LIMIT_WINDOW (next_allowed (state rl)) now ip) as Hdi.
  destruct (check_and_record rl now ip) as [r rl1]. rewrite Hi in Hdi |- *. simpl in *.
  rewrite <- (IH rl1); [by destruct (run rl1 calls)|congruence|done|set_solver|set_solver].
Qed.

(** *** One call below the ceiling *)

Definition tracked (rl : RateLimiter) : Z := Z.of_nat (size (next_allowed (state rl))).

Lemma check_ip_keeps rl now ip ip' e :
  tracked rl < MAX_TRACKED_IPS -> next_allowed (state rl) !! ip = Some e -> now < e ->
  next_allowed (state (check_and_record rl now ip').2) !! ip = Some e.
Proof.
  unfold tracked. intros Hs He Hlt. unfold check_and_record. destruct (poisoned rl); [done|].
  destruct (decide (ip' = ip)) as [->|Hne].
  - by rewrite He, (proj2 (Z.ltb_lt _ _)) by done.
  - destruct (next_allowed (state rl) !! ip') as [na|]; [destruct (now <? na); [done|]|].
    + simpl. by rewrite lookup_insert_ne.
    + rewrite (proj2 (Z.leb_gt _ _)) by done. simpl. by rewrite lookup_insert_ne.
Qed.

Lemma check_ip_accepts rl now ip rl' :
  check_and_record rl now ip = (Ok tt, rl') ->
  (forall e, next_allowed (state rl) !! ip = Some e -> e <= now) /\
  next_allowed (state rl') !! ip = Some (now + RATE_LIMIT_WINDOW).
Proof.
  unfold check_and_record. destruct (poisoned rl); [done|].
  destruct (next_allowed (state rl) !! ip) as [na|] eqn:Hna.
  - destruct (Z.ltb_spec now na) as [|Hge]; [done|]. intros [= <-]. simpl. rewrite lookup_insert_eq.
    split; [|done]. intros e [= <-]. done.
  - destruct (_ <=? _); [destruct (evict_oldest _ _) as [m q]|]; intros [= <-]; simpl;
      by rewrite lookup_insert_eq.
Qed.

(** ** Theorems *)

(** Memory is bounded whatever the traffic: after any sequence of requests
    against a fresh limiter, the eviction queue lists every tracked address
    exactly once, its length equals the number of tracked addresses, and that
    number never exceeds [MAX_TRACKED_IPS]. *)
Theorem limiter_memory_bounded calls :
  let st := state (run new calls).2 in
  NoDup (order st) /\ (forall ip, ip ∈ order st <-> is_Some (next_allowed st !! ip)) /\
  length (order st) = size (next_allowed st) /\
  Z.of_nat (length (order st)) <= MAX_TRACKED_IPS.
Proof.
  pose proof (run_ok calls new new_ok) as Hok. simpl.
  pose proof (order_length _ Hok) as Hlen. destruct Hok as [Hnd Hdom Hsz].
  split; [done|]. split; [|split; [done|lia]].
  intros ip. by rewrite <- elem_of_dom, <- Hdom, elem_of_list_to_set.
Qed.

(** C36. The limiter refines the one with unbounded memory: as long as the
    requests come from at most [MAX_TRACKED_IPS] distinct addresses, the answers
    are exactly the ideal limiter's. *)
Theorem limiter_refines_ideal calls
  (Hfew : Z.of_nat (size (list_to_set calls.*2 : gset IpAddr)) <= MAX_TRACKED_IPS) :
  (run new calls).1 = ideal_run ∅ calls.
Proof. by apply (run_ideal (list_to_set calls.*2)). Qed.

Lemma limiter_refines_ideal_witness :
  (run new [(0, V4 1); (5, V4 1); (6, V4 2); (RATE_LIMIT_WINDOW, V4 1)]).1 =
  [Ok tt; Err (RATE_LIMIT_WINDOW - 5); Ok tt; Ok tt].
Proof. rewrite limiter_refines_ideal; vm_compute; done. Defined.

(** Throttling: below the same bound on distinct addresses, two accepted
    requests of one address are at least [RATE_LIMIT_WINDOW] apart. *)
Theorem limiter_spacing calls ip i j t t'
  (Hfew : Z.of_nat (size (list_to_set calls.*2 : gset IpAddr)) <= MAX_TRACKED_IPS)
  (Hij : (i < j)%nat)
  (Hi : calls !! i = Some (t, ip)) (Hj : calls !! j = Some (t', ip))
  (Hri : (run new calls).1 !! i = Some (Ok tt))
  (Hrj : (run new calls).1 !! j = Some (Ok tt)) :
  t + RATE_LIMIT_WINDOW <= t'.
Proof.
  rewrite (run_ideal (list_to_set calls.*2)) in Hri, Hrj by done.
  eapply (admit_run_spaced RATE_LIMIT_WINDOW); eauto. by vm_compute.
Qed.

Lemma limiter_spacing_witness : 0 + RATE_LIMIT_WINDOW <= RATE_LIMIT_WINDOW + 7.
Proof.
  apply (limiter_spacing
    [(0, V4 1); (5, V4 1); (RATE_LIMIT_WINDOW + 7, V4 1)] (V4 1) 0 2);
    first [lia | reflexivity | by vm_compute].
Defined.

(** Eviction is first in, first out and never refuses: with the limiter at
    its ceiling, a request from an untracked address is accepted, the address
    first seen longest ago is forgotten, and every other tracked address keeps
    its deadline. *)
Theorem limiter_evicts_first_seen rl now ip
  (Hp : poisoned rl = false) (Hok : inner_ok (state rl))
  (Hnew : next_allowed (state rl) !! ip = None)
  (Hfull : Z.of_nat (size (next_allowed (state rl))) = MAX_TRACKED_IPS) :
  exists oldest q,
    order (state rl) = oldest :: q /\
    let '(r, rl') := check_and_record rl now ip in
    r = Ok tt /\ order (state rl') = q ++ [ip] /\
    next_allowed (state rl') !! oldest = None /\
    forall ip', ip' <> ip -> ip' <> oldest ->
      next_allowed (state rl') !! ip' = next_allowed (state rl) !! ip'.
Proof.
  destruct (check_new_at_capacity rl now ip) as (o & q & Hq & Hc); try done.
  exists o, q. rewrite Hc. simpl. repeat split; [done| |].
  - assert (o <> ip) as Hne; [|by rewrite lookup_insert_ne, lookup_delete_eq].
    intros ->. assert (ip ∈ dom (next_allowed (state rl))) as [? ?]%elem_of_dom; [|congruence].
    rewrite <- (ok_dom _ Hok), Hq. set_solver.
  - intros ip' H1 H2. by rewrite lookup_insert_ne, lookup_delete_ne.
Qed.

(** A limiter at its ceiling: the addresses 0, 1, ..., in that order. *)
Definition full_limiter : RateLimiter :=
  mkRateLimiter false
    (mkInner (list_to_map ((fun k => (V4 k, 0)) <$> seqZ 0 MAX_TRACKED_IPS))
             (V4 <$> seqZ 0 MAX_TRACKED_IPS)).

Lemma full_limiter_nodup : NoDup (order (state full_limiter)).
Proof. apply NoDup_fmap_2; [by intros ?? [=]|apply NoDup_seqZ]. Qed.

Lemma full_limiter_dom :
  list_to_set (order (state full_limiter)) = dom (next_allowed (state full_limiter)).
Proof.
  unfold full_limiter; cbn [state next_allowed order].
  by rewrite dom_list_to_map_L, <- list_fmap_compose.
Qed.

Lemma full_limiter_size :
  Z.of_nat (size (next_allowed (state full_limiter))) = MAX_TRACKED_IPS.
Proof.
  rewrite <- (size_dom (D := gset IpAddr)), <- full_limiter_dom.
  rewrite size_list_to_set by apply full_limiter_nodup.
  unfold full_limiter; cbn [state order].
  by rewrite length_fmap, length_seqZ, Z2Nat.id by done.
Qed.

Lemma full_limiter_ok : inner_ok (state full_limiter).
Proof.
  split; [apply full_limiter_nodup|apply full_limiter_dom|]. by rewrite full_limiter_size.
Qed.

Lemma full_limiter_fresh : next_allowed (state full_limiter) !! V6 1 = None.
Proof.
  apply not_elem_of_dom. rewrite <- full_limiter_dom, elem_of_list_to_set.
  unfold full_limiter; cbn [state order]. rewrite list_elem_of_fmap. by intros (? & ? & ?).
Qed.

Lemma limiter_evicts_first_seen_witness :
  exists oldest q, order (state full_limiter) = oldest :: q /\
    (check_and_record full_limiter 7 (V6 1)).1 = Ok tt.
Proof.
  destruct (limiter_evicts_first_seen full_limiter 7 (V6 1) eq_refl
    full_limiter_ok full_limiter_fresh full_limiter_size) as (o & q & Hq & Hr).
  exists o, q. split; [exact Hq|]. destruct (check_and_record _ _ _). apply Hr.
Defined.

(** The advertised delay is exact: a refused request that is repeated
    [remaining] later, with nothing in between, is accepted; and the delay is
    positive. *)
Theorem limiter_retry_after rl now ip remaining
  (Hp : poisoned rl = false)
  (Href : (check_and_record rl now ip).1 = Err remaining) :
  0 < remaining /\ (check_and_record rl now ip).2 = rl /\
  (check_and_record rl (now + remaining) ip).1 = Ok tt.
Proof.
  unfold check_and_record in *. rewrite Hp in *.
  destruct (next_allowed (state rl) !! ip) as [na|]; simpl in *.
  - destruct (Z.ltb_spec now na) as [Hlt|Hlt]; simplify_eq/=.
    split; [lia|]. split; [done|]. by rewrite (proj2 (Z.ltb_ge _ _)) by lia.
  - by repeat case_match.
Qed.

Lemma limiter_retry_after_witness :
  (check_and_record (check_and_record new 0 (V4 1)).2 (5 + (RATE_LIMIT_WINDOW - 5)) (V4 1)).1
  = Ok tt.
Proof.
  apply (limiter_retry_after (check_and_record new 0 (V4 1)).2 5 (V4 1)); by vm_compute.
Defined.

End RateLimit.
