(* ===== verification/Replay.v ===== *)
(** * [src/replay.rs]: single use of request signatures

    The guard's state (the accepted signatures with their expiry, the pruning
    schedule, the poison flags of its two mutexes) and its operation, with the
    pruning pass it performs first.  The specification is the table of
    [Deadlines], which never forgets: pruning is invisible, so a signature is
    accepted at most once per window. *)

From S2P Require Import Prelude.
From S2P Require Import Deadlines.
#[local] Open Scope Z_scope.

Module Replay.

Definition PRUNE_INTERVAL_DIVISOR : Z := 4.
Definition CAPACITY_BACKOFF_DIVISOR : Z := 16.
Definition MAX_TRACKED_SIGNATURES : Z := 250000.

(** [SignatureId]: the signing key and the raw digest. *)
Definition SignatureId : Type := Uuid * Bytes.

Record PruneSchedule := mkPruneSchedule {
  next : Z;
  next_capacity : Z;
}.

(** [ReplayGuard]. *)
Record ReplayGuard := mkReplayGuard {
  seen_poisoned : bool;
  seen : gmap (Uuid * Bytes) Z;
  schedule_poisoned : bool;
  schedule : PruneSchedule;
  window : Z;
  prune_interval : Z;
  capacity_backoff : Z;
}.

(** [ReplayGuard::new] at time [now]: the window is clamped to [1, 3600] s. *)
Definition new (window_seconds now : Z) : ReplayGuard :=
  let window := from_secs (Z.min 3600 (Z.max 1 window_seconds)) in
  let prune_interval := window `div` PRUNE_INTERVAL_DIVISOR in
  let capacity_backoff := window `div` CAPACITY_BACKOFF_DIVISOR in
  mkReplayGuard false ∅ false (mkPruneSchedule (now + prune_interval) now)
    window prune_interval capacity_backoff.

Definition set_seen (g : ReplayGuard) (m : gmap (Uuid * Bytes) Z) : ReplayGuard :=
  mkReplayGuard (seen_poisoned g) m (schedule_poisoned g) (schedule g)
    (window g) (prune_interval g) (capacity_backoff g).

Definition set_schedule (g : ReplayGuard) (s : PruneSchedule) : ReplayGuard :=
  mkReplayGuard (seen_poisoned g) (seen g) (schedule_poisoned g) s
    (window g) (prune_interval g) (capacity_backoff g).

(** [prune_if_due]: sweep the expired entries when a routine sweep is due, or
    when the table is over capacity and the capacity back-off has elapsed. *)
Definition prune_if_due (g : ReplayGuard) (now : Z) : ReplayGuard :=
  let over_capacity :=
    negb (seen_poisoned g) && (MAX_TRACKED_SIGNATURES <=? Z.of_nat (size (seen g))) in
  if schedule_poisoned g then g else
  let routine_due := next (schedule g) <=? now in
  let capacity_due := over_capacity && (next_capacity (schedule g) <=? now) in
  if negb routine_due && negb capacity_due then g else
  let g := set_schedule g (mkPruneSchedule (now + prune_interval g)
             (if capacity_due then now + capacity_backoff g
              else next_capacity (schedule g))) in
  if seen_poisoned g then g else
  set_seen g (filter (fun '(_, expires_at) => now < expires_at) (seen g)).

(** [check_and_record]: [true] when the signature had not been used.  The code reads
    the clock, prunes under one hold of the lock and decides under another; here
    the call is one step at the time it read.  Between the two holds another call
    can only add entries, or drop ones expired at its own time. *)
Definition check_and_record (g : ReplayGuard) (now : Z) (key_id : Uuid) (digest : Bytes)
  : bool * ReplayGuard :=
  let g := prune_if_due g now in
  if seen_poisoned g then (false, g) else
  let id := (key_id, digest) in
  let accept := (true, set_seen g (<[id := now + window g]> (seen g))) in
  match seen g !! id with
  | Some expires_at => if now <? expires_at then (false, g) else accept
  | None => accept
  end.

(** A sequence of verified signatures presented to one guard. *)
Fixpoint run (g : ReplayGuard) (calls : list (Z * SignatureId)) : list bool :=
  match calls with
  | [] => []
  | (now, (key_id, digest)) :: calls' =>
      let '(b, g') := check_and_record g now key_id digest in b :: run g' calls'
  end.

(** Times of a call sequence never go backwards (they are [Instant]s). *)
Fixpoint monotone_from (t : Z) (calls : list (Z * SignatureId)) : Prop :=
  match calls with
  | [] => True
  | (now, _) :: calls' => t <= now /\ monotone_from now calls'
  end.

(** ** Lemmas *)

(** [m1] and [m2] agree on the entries that expire after [t]. *)
Definition agree_after (t : Z) (m1 m2 : gmap (Uuid * Bytes) Z) : Prop :=
  forall id e, t < e -> m1 !! id = Some e <-> m2 !! id = Some e.

Lemma agree_after_mono t t' m1 m2 : t <= t' -> agree_after t m1 m2 -> agree_after t' m1 m2.
Proof. intros Ht Ha id e He. apply Ha. lia. Qed.

Lemma agree_after_insert t m1 m2 id e :
  agree_after t m1 m2 -> agree_after t (<[id := e]> m1) (<[id := e]> m2).
Proof.
  intros Ha id' e' He. rewrite !lookup_insert. case_decide; [done|by apply Ha].
Qed.

Lemma prune_agree g now m :
  agree_after now (seen g) m -> agree_after now (seen (prune_if_due g now)) m.
Proof.
  intros Ha. unfold prune_if_due. repeat case_match; simpl; try done;
    intros id e He; rewrite map_lookup_filter_Some; specialize (Ha id e He); naive_solver.
Qed.

Lemma prune_frame g now :
  seen_poisoned (prune_if_due g now) = seen_poisoned g /\
  window (prune_if_due g now) = window g.
Proof. unfold prune_if_due. by repeat case_match. Qed.

(** One call answers as the unpruned table does, and the two stay in step. *)
Lemma check_admit g now key_id digest m :
  seen_poisoned g = false -> agree_after now (seen g) m ->
  let '(b, g') := check_and_record g now key_id digest in
  let '(r, m') := admission (window g) m now (key_id, digest) in
  b = is_ok r /\ agree_after now (seen g') m' /\
  seen_poisoned g' = false /\ window g' = window g.
Proof.
  intros Hp Ha. destruct (prune_frame g now) as [Hp' Hw].
  pose proof (prune_agree g now m Ha) as Ha'. unfold check_and_record.
  rewrite Hp', Hp, Hw. set (s := seen (prune_if_due g now)) in *.
  assert (forall e, s !! (key_id, digest) = Some e -> now < e ->
            m !! (key_id, digest) = Some e) as Hs by (intros; by apply Ha').
  assert (forall e, m !! (key_id, digest) = Some e -> now < e ->
            s !! (key_id, digest) = Some e) as Hm by (intros; by apply Ha').
  destruct (s !! (key_id, digest)) as [e|] eqn:Hse; [destruct (Z.ltb_spec now e) as [Hlt|Hge]|].
  - destruct (admission _ _ _ _) as [r m'] eqn:Had. specialize (Hs e eq_refl Hlt).
    unfold admission in Had. rewrite Hs, (proj2 (Z.ltb_lt _ _)) in Had by done.
    simplify_eq/=. rewrite Hp', Hp. done.
  - destruct (admission _ _ _ _) as [r m'] eqn:Had. destruct r as [[]|d].
    + apply admit_ok in Had as [-> _]. simpl. rewrite Hp', Hp. eauto using agree_after_insert.
    + apply admit_err in Had as [_ (d' & Hd & Hlt & _)]. specialize (Hm _ Hd Hlt).
      simplify_eq. lia.
  - destruct (admission _ _ _ _) as [r m'] eqn:Had. destruct r as [[]|d].
    + apply admit_ok in Had as [-> _]. simpl. rewrite Hp', Hp. eauto using agree_after_insert.
    + apply admit_err in Had as [_ (d' & Hd & Hlt & _)]. by specialize (Hm _ Hd Hlt).
Qed.

Lemma run_admit calls : forall g t m,
  seen_poisoned g = false -> agree_after t (seen g) m -> monotone_from t calls ->
  run g calls = is_ok <$> admit_run (window g) m calls.
Proof.
  induction calls as [|[now [k d]] calls IH]; intros g t m Hp Ha Hmono; [done|].
  destruct Hmono as [Hle Hmono]. simpl.
  pose proof (check_admit g now k d m Hp (agree_after_mono _ _ _ _ Hle Ha)) as Hc.
  destruct (check_and_record g now k d) as [b g'], (admission (window g) m now (k, d)) as [r m'].
  destruct Hc as (-> & Ha' & Hp' & Hw). simpl. f_equal. rewrite <- Hw. by apply (IH g' now m').
Qed.

Lemma window_new ws now :
  window (new ws now) = from_secs (Z.min 3600 (Z.max 1 ws)).
Proof. done. Qed.

(** *** One call *)

Lemma prune_keeps g now id e :
  seen g !! id = Some e -> now < e -> seen (prune_if_due g now) !! id = Some e.
Proof.
  intros He Hlt. unfold prune_if_due. repeat case_match; simpl; rewrite ?map_lookup_filter_Some; done.
Qed.

(** A deadline in force survives whatever is presented before it. *)
Lemma check_keeps g now k d id e :
  seen g !! id = Some e -> now < e -> seen (check_and_record g now k d).2 !! id = Some e.
Proof.
  intros He Hlt. apply (prune_keeps g now) in He; [|done]. unfold check_and_record.
  destruct (seen_poisoned _); [done|]. destruct (decide (id = (k, d))) as [->|Hne].
  - rewrite He, (proj2 (Z.ltb_lt _ _)) by done. done.
  - repeat case_match; simpl; rewrite ?lookup_insert_ne by done; done.
Qed.

Lemma check_window g now k d : window (check_and_record g now k d).2 = window g.
Proof.
  rewrite <- (proj2 (prune_frame g now)). unfold check_and_record. by repeat case_match.
Qed.

(** What is accepted had no deadline in force, and has one now. *)
Lemma check_accepts g now k d g' :
  check_and_record g now k d = (true, g') ->
  (forall e, seen g !! (k, d) = Some e -> e <= now) /\ seen g' !! (k, d) = Some (now + window g).
Proof.
  intros Hc. split.
  - intros e He. destruct (Z.le_gt_cases e now) as [|Hlt]; [done|].
    apply (prune_keeps g now) in He; [|done]. unfold check_and_record in Hc.
    destruct (seen_poisoned _); [done|]. by rewrite He, (proj2 (Z.ltb_lt _ _)) in Hc.
  - unfold check_and_record in Hc. rewrite <- (proj2 (prune_frame g now)).
    repeat case_match; simplify_eq/=; by rewrite lookup_insert_eq.
Qed.

(** A signature is accepted at once by a new guard, and again once the window is over. *)
Lemma accepted_twice ws t later k d :
  t + window (new ws t) <= later ->
  (check_and_record (new ws t) t k d).1 = true /\
  (check_and_record (check_and_record (new ws t) t k d).2 later k d).1 = true.
Proof.
  intros Hl. assert (0 <= window (new ws t)) by (rewrite window_new; unfold from_secs, nanos_per_sec; lia).
  assert (run (new ws t) [(t, (k, d)); (later, (k, d))] = [true; true]) as Hr.
  { rewrite (run_admit _ _ t ∅); [|done|done|cbn; lia].
    revert Hl H. generalize (window (new ws t)). intros W Hl _. cbn [admit_run]. unfold admission at 1.
    rewrite lookup_empty. unfold admission. rewrite lookup_insert_eq.
    destruct (Z.ltb_spec later (t + W)); [lia|done]. }
  simpl in Hr. destruct (check_and_record (new ws t) t k d) as [b g].
  destruct (check_and_record g later k d) as [b' g'] eqn:Hc. simplify_eq/=. by rewrite Hc.
Qed.

(** ** Theorems *)

(** Pruning is invisible: on any sequence of calls whose times do not go
    backwards, the guard answers exactly as a table that never forgets. *)
Theorem replay_pruning_invisible window_seconds t0 calls
  (Hmono : monotone_from t0 calls) :
  run (new window_seconds t0) calls =
  is_ok <$> admit_run (window (new window_seconds t0)) ∅ calls.
Proof. by apply (run_admit calls _ t0). Qed.

Lemma replay_pruning_invisible_witness :
  run (new 300 0) [(1, (7%N, "d")); (2, (7%N, "d")); (from_secs 301, (7%N, "d"))] =
  [true; false; true].
Proof. rewrite replay_pruning_invisible; [by vm_compute|simpl; by vm_compute]. Defined.

(** Single use: two accepted uses of one (key, digest) pair are at least the
    guard's window apart, the window being the configured number of seconds
    clamped into [1, 3600]. *)
Theorem replay_single_use window_seconds t0 calls i j t t' id
  (Hmono : monotone_from t0 calls) (Hij : (i < j)%nat)
  (Hi : calls !! i = Some (t, id)) (Hj : calls !! j = Some (t', id))
  (Hri : run (new window_seconds t0) calls !! i = Some true)
  (Hrj : run (new window_seconds t0) calls !! j = Some true) :
  t + from_secs (Z.min 3600 (Z.max 1 window_seconds)) <= t'.
Proof.
  rewrite (run_admit calls _ t0 ∅) in Hri, Hrj by done.
  apply list_lookup_fmap_Some in Hri as ([[]|] & [=] & Hri).
  apply list_lookup_fmap_Some in Hrj as ([[]|] & [=] & Hrj).
  rewrite <- (window_new window_seconds t0).
  eapply admit_run_spaced; eauto. rewrite window_new. unfold from_secs, nanos_per_sec. lia.
Qed.

Lemma replay_single_use_witness : 1 + from_secs 300 <= from_secs 301.
Proof.
  apply (replay_single_use 300 0
    [(1, (7%N, "d")); (2, (7%N, "d")); (from_secs 301, (7%N, "d"))] 0 2 1 _ (7%N, "d"));
    first [by vm_compute | reflexivity | lia].
Defined.

End Replay.
