(* ===== verification/DbConn.v ===== *)
(** * [db.rs]: opening the database and asking it about itself

    How the pool is opened, which pragmas are sent and what happens when one
    fails, and the catalogue query behind [MasterPin::pin_at_boot].  The drivers
    are a class; a statement is its text, and the statements sent are logged in
    order.  Theorems: a SQLite pool has one connection and enforces foreign keys;
    the pragmas are all sent whatever fails; an index is reported only when the
    catalogue counts it. *)

From S2P Require Import Prelude.
From S2P Require Import RustStr.
From Stdlib Require Import Ascii.
#[local] Open Scope Z_scope.
#[local] Open Scope rust_scope.

Module DbConn.

(** [sea_orm::DbErr], the part this module produces or passes on. *)
Inductive DbErr :=
| Conn (msg : string)
| Custom (msg : string)
| Driver (msg : string).

Inductive DatabaseBackend := Sqlite | Postgres | MySql | OtherBackend (name : string).

Inductive JournalMode := Wal | DefaultJournal.
Inductive Synchronous := Normal | DefaultSync.

Record SqliteConnectOptions := mkSqliteConnectOptions {
  so_url : string;
  so_create_if_missing : bool;
  so_foreign_keys : bool;
  so_journal_mode : JournalMode;
  so_synchronous : Synchronous;
  so_busy_timeout : Z;
}.

(** A row of the catalogue query: its column [hits] read at two widths. *)
Record Row := mkRow { hits_i64 : result Z string; hits_i32 : result Z string }.

Class SqlxLib := {
  DatabaseConnection : Type;
  orm_connect : string -> result DatabaseConnection DbErr;
  options_from_str : string -> result SqliteConnectOptions string;
  pool_connect_with : Z -> SqliteConnectOptions -> result DatabaseConnection string;
  get_database_backend : DatabaseConnection -> DatabaseBackend;
  (** The statement and its values. *)
  query_one_raw : DatabaseConnection -> string -> list string -> result (option Row) DbErr;
  (** The journal mode the pragma answers with. *)
  query_journal_mode : DatabaseConnection -> string -> result (option (result string string)) DbErr;
  execute_raw : DatabaseConnection -> string -> result unit DbErr;
}.

Definition SQLITE_BUSY_TIMEOUT_MS : Z := 5000.
Definition SQLITE_MAX_CONNECTIONS : Z := 1.

Section db.
Context {Sx : SqlxLib}.

(** The builder calls on the parsed options. *)
Definition configured (o : SqliteConnectOptions) : SqliteConnectOptions := {|
  so_url := so_url o;
  so_create_if_missing := true;
  so_foreign_keys := true;
  so_journal_mode := Wal;
  so_synchronous := Normal;
  so_busy_timeout := SQLITE_BUSY_TIMEOUT_MS;
|}.

Definition connect (db_url : string) : result DatabaseConnection DbErr :=
  match Str.strip_prefix "sqlite:" db_url with
  | None => orm_connect db_url
  | Some _ =>
      let? connect_options := map_err Conn (options_from_str db_url) in
      map_err Conn (pool_connect_with SQLITE_MAX_CONNECTIONS (configured connect_options))
  end.

Definition index_catalog_query (backend : DatabaseBackend) : result string DbErr :=
  match backend with
  | Sqlite => Ok "SELECT COUNT(*) AS hits FROM sqlite_master WHERE type = 'index' AND name = ? AND tbl_name = ?"
  | Postgres => Ok "SELECT COUNT(*) AS hits FROM pg_indexes WHERE indexname = $1 AND tablename = $2"
  | MySql => Ok "SELECT COUNT(*) AS hits FROM information_schema.statistics WHERE index_name = ? AND table_name = ? AND table_schema = DATABASE()"
  | OtherBackend other =>
      Err (Custom ("no catalog query is known for backend " +:+ other +:+
                   "; refusing to assume an index exists"))
  end.

(** [try_get::<i64>], and [try_get::<i32>] when that fails. *)
Definition hits_of (row : Row) : result Z DbErr :=
  match hits_i64 row with
  | Ok n => Ok n
  | Err _ => map_err Driver (hits_i32 row)
  end.

Definition has_index (db : DatabaseConnection) (table index : string) : result bool DbErr :=
  let? sql := index_catalog_query (get_database_backend db) in
  let? found := query_one_raw db sql [index; table] in
  let? row := ok_or found (Custom ("catalog query for index '" +:+ index +:+ "' on '" +:+ table
                                   +:+ "' returned no row")) in
  let? hits := hits_of row in
  Ok (0 <? hits).

(** What a pragma is reported as in the log. *)
Inductive Report := WalOn | OtherMode (mode : string) | Warned (label : string).

Definition pragmas : list (string * string) :=
  [ ("foreign key enforcement", "PRAGMA foreign_keys=ON;");
    ("synchronous mode", "PRAGMA synchronous=NORMAL;");
    ("busy timeout", "PRAGMA busy_timeout=" +:+ pretty SQLITE_BUSY_TIMEOUT_MS +:+ ";") ].

Definition lower (c : ascii) : ascii :=
  if Str.in_range 65 90 c then ascii_of_N (N_of_ascii c + 32) else c.
Fixpoint eq_ignore_ascii_case (s t : string) : bool :=
  match s, t with
  | EmptyString, EmptyString => true
  | String a s', String b t' => Ascii.eqb (lower a) (lower b) && eq_ignore_ascii_case s' t'
  | _, _ => false
  end.

Definition journal_report (answer : result (option (result string string)) DbErr) : Report :=
  match answer with
  | Ok (Some (Ok mode)) => if eq_ignore_ascii_case mode "wal" then WalOn else OtherMode mode
  | Ok (Some (Err _)) => Warned "read back the SQLite journal mode"
  | Ok None => Warned "PRAGMA journal_mode returned no row"
  | Err _ => Warned "enable SQLite WAL mode"
  end.

(** The loop over the other pragmas: an error is reported and the next one sent. *)
Fixpoint send_pragmas (db : DatabaseConnection) (ps : list (string * string)) : list string * list Report :=
  match ps with
  | [] => ([], [])
  | (label, statement) :: ps' =>
      let '(sent, reports) := send_pragmas db ps' in
      match execute_raw db statement with
      | Ok _ => (statement :: sent, reports)
      | Err _ => (statement :: sent, Warned label :: reports)
      end
  end.

(** The statements sent, the log, and the result. *)
Definition apply_sqlite_pragmas (db : DatabaseConnection)
  : list string * list Report * result unit DbErr :=
  match get_database_backend db with
  | Sqlite =>
      let wal := "PRAGMA journal_mode=WAL;" in
      let report := journal_report (query_journal_mode db wal) in
      let '(sent, reports) := send_pragmas db pragmas in
      (wal :: sent, report :: reports, Ok tt)
  | _ => ([], [], Ok tt)
  end.

(** ** Theorems *)

(** A SQLite pool that opens has exactly one connection, with foreign keys
    enforced and a missing file created, whatever the URL asked for. *)
Theorem sqlite_pool_enforces_keys db_url rest c :
  Str.strip_prefix "sqlite:" db_url = Some rest -> connect db_url = Ok c ->
  exists o, pool_connect_with 1 o = Ok c /\ so_foreign_keys o = true /\ so_create_if_missing o = true.
Proof.
  intros Hp Hc. unfold connect in Hc. rewrite Hp in Hc.
  destruct (options_from_str db_url) as [o|e]; [|done]. cbn [map_err] in Hc.
  exists (configured o). split; [|done].
  unfold SQLITE_MAX_CONNECTIONS in Hc. by destruct (pool_connect_with 1 (configured o)); simplify_eq/=.
Qed.

(** An index is never assumed: [has_index] answers yes only when the catalogue of
    a known backend counted it, and a backend without a catalogue query, a failed
    query, or an unreadable count is an error, never an answer. *)
Theorem has_index_never_assumes db table index :
  has_index db table index = Ok true <->
  exists sql row n, index_catalog_query (get_database_backend db) = Ok sql /\
    query_one_raw db sql [index; table] = Ok (Some row) /\ hits_of row = Ok n /\ 0 < n.
Proof.
  unfold has_index. split.
  - destruct (index_catalog_query _) as [sql|]; [|done].
    destruct (query_one_raw _ _ _) as [[row|]|] eqn:Hq; [|done..]. cbn [ok_or].
    destruct (hits_of row) as [n|] eqn:Hh; [|done]. intros [= Hn%Z.ltb_lt]. by exists sql, row, n.
  - intros (sql & row & n & -> & -> & Hh & Hn). cbn [ok_or]. rewrite Hh. f_equal. by apply Z.ltb_lt.
Qed.

Lemma send_pragmas_all db ps : (send_pragmas db ps).1 = ps.*2.
Proof.
  induction ps as [|[label s] ps IH]; simpl; [done|]. destruct (send_pragmas db ps) as [sent reports].
  simpl in IH. subst. by destruct (execute_raw db s).
Qed.

(** Pragmas never stop a start: the result is always success, and on SQLite all
    four statements are sent in order, whichever of them fail. *)
Theorem pragmas_always_sent db :
  (apply_sqlite_pragmas db).2 = Ok tt /\
  (get_database_backend db = Sqlite ->
   (apply_sqlite_pragmas db).1.1 = "PRAGMA journal_mode=WAL;" :: pragmas.*2) /\
  (get_database_backend db <> Sqlite -> (apply_sqlite_pragmas db).1.1 = []).
Proof.
  unfold apply_sqlite_pragmas. pose proof (send_pragmas_all db pragmas) as Hs.
  destruct (send_pragmas db pragmas) as [sent reports]. simpl in Hs.
  destruct (get_database_backend db); simpl; split_and!; congruence.
Qed.

End db.

End DbConn.
