(* ===== verification/Db.v ===== *)
(** * [entities/] and [migration/]: the configuration database

    The four tables with their columns, and the effect of the SQL statements the
    program issues, under the constraints the migrations declare: primary keys,
    unique [key_hash], [token_secret], [(api_key_id, vault_group_id)] and master
    marker, and the foreign keys with their [ON DELETE] actions.  A statement
    that would break a constraint fails and changes nothing. *)

From S2P Require Import Prelude.
#[local] Open Scope Z_scope.

Module Db.

(** ** Rows *)

(** [api_keys]. *)
Record ApiKey := mkApiKey {
  k_id : Uuid;
  k_name : string;
  k_prefix : string;
  k_key_hash : string;
  k_signing_secret : option string;
  k_bound_ips : option string;
  k_is_master : bool;
  k_can_manage_keys : bool;
  k_parent_key_id : option Uuid;
  k_owner_key_id : option Uuid;
  k_created_at : Z;
  k_updated_at : Z;
}.

(** [endpoints]. *)
Record Endpoint := mkEndpoint {
  e_id : Uuid;
  e_owner_key_id : option Uuid;
  e_name : string;
  e_description : option string;
  e_token_secret : string;
  e_vault_groups : string;
  e_ttl_seconds : Z;
  e_max_age_seconds : Z;
  e_bound_ips : option string;
  e_filter_rfc1918 : bool;
  e_filter_bogons : bool;
  e_filter_loopback : bool;
  e_last_synced_at : option Z;
  e_created_at : Z;
  e_updated_at : Z;
}.

(** [audit_logs]. *)
Record AuditLog := mkAuditLog {
  a_id : Uuid;
  a_api_key_id : option Uuid;
  a_api_key_name : string;
  a_api_key_prefix : string;
  a_client_ip : string;
  a_action : string;
  a_target_resource : option string;
  a_details : option string;
  a_timestamp : Z;
}.

(** [vault_group_permissions]. *)
Record VaultGroupPermission := mkVaultGroupPermission {
  g_id : Uuid;
  g_api_key_id : Uuid;
  g_vault_group_id : Uuid;
  g_vault_group_name : string;
  g_created_at : Z;
}.

Record Database := mkDatabase {
  api_keys : gmap Uuid ApiKey;
  endpoints : gmap Uuid Endpoint;
  audit_logs : gmap Uuid AuditLog;
  vault_group_permissions : gmap Uuid VaultGroupPermission;
}.

Definition empty_db : Database := mkDatabase ∅ ∅ ∅ ∅.

Inductive DbErr :=
| Fault | UniqueViolation | ForeignKeyViolation | RecordNotUpdated.

(** *** Table updates *)

Definition with_keys (d : Database) (m : gmap Uuid ApiKey) : Database :=
  mkDatabase m (endpoints d) (audit_logs d) (vault_group_permissions d).
Definition with_endpoints (d : Database) (m : gmap Uuid Endpoint) : Database :=
  mkDatabase (api_keys d) m (audit_logs d) (vault_group_permissions d).
Definition with_audit (d : Database) (m : gmap Uuid AuditLog) : Database :=
  mkDatabase (api_keys d) (endpoints d) m (vault_group_permissions d).
Definition with_grants (d : Database) (m : gmap Uuid VaultGroupPermission) : Database :=
  mkDatabase (api_keys d) (endpoints d) (audit_logs d) m.

(** *** Column assignments of an [ActiveModel] *)

Definition set_key_name (v : string) (k : ApiKey) : ApiKey :=
  mkApiKey (k_id k) v (k_prefix k) (k_key_hash k) (k_signing_secret k) (k_bound_ips k)
    (k_is_master k) (k_can_manage_keys k) (k_parent_key_id k) (k_owner_key_id k)
    (k_created_at k) (k_updated_at k).
Definition set_key_credentials (prefix hash : string) (k : ApiKey) : ApiKey :=
  mkApiKey (k_id k) (k_name k) prefix hash (k_signing_secret k) (k_bound_ips k)
    (k_is_master k) (k_can_manage_keys k) (k_parent_key_id k) (k_owner_key_id k)
    (k_created_at k) (k_updated_at k).
Definition set_key_signing_secret (v : option string) (k : ApiKey) : ApiKey :=
  mkApiKey (k_id k) (k_name k) (k_prefix k) (k_key_hash k) v (k_bound_ips k)
    (k_is_master k) (k_can_manage_keys k) (k_parent_key_id k) (k_owner_key_id k)
    (k_created_at k) (k_updated_at k).
Definition set_key_bound_ips (v : option string) (k : ApiKey) : ApiKey :=
  mkApiKey (k_id k) (k_name k) (k_prefix k) (k_key_hash k) (k_signing_secret k) v
    (k_is_master k) (k_can_manage_keys k) (k_parent_key_id k) (k_owner_key_id k)
    (k_created_at k) (k_updated_at k).
Definition set_key_is_master (v : bool) (k : ApiKey) : ApiKey :=
  mkApiKey (k_id k) (k_name k) (k_prefix k) (k_key_hash k) (k_signing_secret k) (k_bound_ips k)
    v (k_can_manage_keys k) (k_parent_key_id k) (k_owner_key_id k)
    (k_created_at k) (k_updated_at k).
Definition set_key_can_manage_keys (v : bool) (k : ApiKey) : ApiKey :=
  mkApiKey (k_id k) (k_name k) (k_prefix k) (k_key_hash k) (k_signing_secret k) (k_bound_ips k)
    (k_is_master k) v (k_parent_key_id k) (k_owner_key_id k)
    (k_created_at k) (k_updated_at k).
Definition set_key_updated_at (v : Z) (k : ApiKey) : ApiKey :=
  mkApiKey (k_id k) (k_name k) (k_prefix k) (k_key_hash k) (k_signing_secret k) (k_bound_ips k)
    (k_is_master k) (k_can_manage_keys k) (k_parent_key_id k) (k_owner_key_id k)
    (k_created_at k) v.

Definition set_ep_owner (v : option Uuid) (e : Endpoint) : Endpoint :=
  mkEndpoint (e_id e) v (e_name e) (e_description e) (e_token_secret e) (e_vault_groups e)
    (e_ttl_seconds e) (e_max_age_seconds e) (e_bound_ips e) (e_filter_rfc1918 e)
    (e_filter_bogons e) (e_filter_loopback e) (e_last_synced_at e) (e_created_at e) (e_updated_at e).
Definition set_ep_name (v : string) (e : Endpoint) : Endpoint :=
  mkEndpoint (e_id e) (e_owner_key_id e) v (e_description e) (e_token_secret e) (e_vault_groups e)
    (e_ttl_seconds e) (e_max_age_seconds e) (e_bound_ips e) (e_filter_rfc1918 e)
    (e_filter_bogons e) (e_filter_loopback e) (e_last_synced_at e) (e_created_at e) (e_updated_at e).
Definition set_ep_description (v : option string) (e : Endpoint) : Endpoint :=
  mkEndpoint (e_id e) (e_owner_key_id e) (e_name e) v (e_token_secret e) (e_vault_groups e)
    (e_ttl_seconds e) (e_max_age_seconds e) (e_bound_ips e) (e_filter_rfc1918 e)
    (e_filter_bogons e) (e_filter_loopback e) (e_last_synced_at e) (e_created_at e) (e_updated_at e).
Definition set_ep_vault_groups (v : string) (e : Endpoint) : Endpoint :=
  mkEndpoint (e_id e) (e_owner_key_id e) (e_name e) (e_description e) (e_token_secret e) v
    (e_ttl_seconds e) (e_max_age_seconds e) (e_bound_ips e) (e_filter_rfc1918 e)
    (e_filter_bogons e) (e_filter_loopback e) (e_last_synced_at e) (e_created_at e) (e_updated_at e).
Definition set_ep_ttl_seconds (v : Z) (e : Endpoint) : Endpoint :=
  mkEndpoint (e_id e) (e_owner_key_id e) (e_name e) (e_description e) (e_token_secret e)
    (e_vault_groups e) v (e_max_age_seconds e) (e_bound_ips e) (e_filter_rfc1918 e)
    (e_filter_bogons e) (e_filter_loopback e) (e_last_synced_at e) (e_created_at e) (e_updated_at e).
Definition set_ep_max_age_seconds (v : Z) (e : Endpoint) : Endpoint :=
  mkEndpoint (e_id e) (e_owner_key_id e) (e_name e) (e_description e) (e_token_secret e)
    (e_vault_groups e) (e_ttl_seconds e) v (e_bound_ips e) (e_filter_rfc1918 e)
    (e_filter_bogons e) (e_filter_loopback e) (e_last_synced_at e) (e_created_at e) (e_updated_at e).
Definition set_ep_bound_ips (v : option string) (e : Endpoint) : Endpoint :=
  mkEndpoint (e_id e) (e_owner_key_id e) (e_name e) (e_description e) (e_token_secret e)
    (e_vault_groups e) (e_ttl_seconds e) (e_max_age_seconds e) v (e_filter_rfc1918 e)
    (e_filter_bogons e) (e_filter_loopback e) (e_last_synced_at e) (e_created_at e) (e_updated_at e).
Definition set_ep_filters (rfc1918 bogons loopback : option bool) (e : Endpoint) : Endpoint :=
  mkEndpoint (e_id e) (e_owner_key_id e) (e_name e) (e_description e) (e_token_secret e)
    (e_vault_groups e) (e_ttl_seconds e) (e_max_age_seconds e) (e_bound_ips e)
    (default (e_filter_rfc1918 e) rfc1918) (default (e_filter_bogons e) bogons)
    (default (e_filter_loopback e) loopback) (e_last_synced_at e) (e_created_at e) (e_updated_at e).
Definition set_ep_last_synced_at (v : option Z) (e : Endpoint) : Endpoint :=
  mkEndpoint (e_id e) (e_owner_key_id e) (e_name e) (e_description e) (e_token_secret e)
    (e_vault_groups e) (e_ttl_seconds e) (e_max_age_seconds e) (e_bound_ips e) (e_filter_rfc1918 e)
    (e_filter_bogons e) (e_filter_loopback e) v (e_created_at e) (e_updated_at e).
Definition set_ep_updated_at (v : Z) (e : Endpoint) : Endpoint :=
  mkEndpoint (e_id e) (e_owner_key_id e) (e_name e) (e_description e) (e_token_secret e)
    (e_vault_groups e) (e_ttl_seconds e) (e_max_age_seconds e) (e_bound_ips e) (e_filter_rfc1918 e)
    (e_filter_bogons e) (e_filter_loopback e) (e_last_synced_at e) (e_created_at e) v.

Definition set_audit_key (v : option Uuid) (a : AuditLog) : AuditLog :=
  mkAuditLog (a_id a) v (a_api_key_name a) (a_api_key_prefix a) (a_client_ip a) (a_action a)
    (a_target_resource a) (a_details a) (a_timestamp a).

(** ** Queries *)

(** [find().filter(p).all()], in an unspecified order. *)
Definition rows {A} (m : gmap Uuid A) : list A := (map_to_list m).*2.

Definition find_all {A} (p : A -> bool) (m : gmap Uuid A) : list A := List.filter p (rows m).

(** [find().filter(p).one()]. *)
Definition find_one {A} (p : A -> bool) (m : gmap Uuid A) : option A := head (find_all p m).

(** ** Statements *)

(** Another row of the table satisfies [p]. *)
Definition other_row {A} (id : Uuid) (p : A -> bool) (m : gmap Uuid A) : bool :=
  existsb (fun kv => negb (bool_decide (kv.1 = id)) && p kv.2) (map_to_list m).

(** The unique constraints a row of [api_keys] must meet beside the others. *)
Definition key_conflicts (d : Database) (k : ApiKey) : bool :=
  other_row (k_id k)
    (fun k' => bool_decide (k_key_hash k' = k_key_hash k) || (k_is_master k' && k_is_master k))
    (api_keys d).

Definition key_exists (d : Database) (o : option Uuid) : bool :=
  match o with Some id => bool_decide (is_Some (api_keys d !! id)) | None => true end.

Definition insert_key (k : ApiKey) (d : Database) : result ApiKey DbErr * Database :=
  if bool_decide (is_Some (api_keys d !! k_id k)) || key_conflicts d k
  then (Err UniqueViolation, d)
  else (Ok k, with_keys d (<[k_id k := k]> (api_keys d))).

(** [active.update]: the assigned columns of the row that now has the id. *)
Definition update_key (id : Uuid) (set : ApiKey -> ApiKey) (d : Database)
  : result ApiKey DbErr * Database :=
  match api_keys d !! id with
  | None => (Err RecordNotUpdated, d)
  | Some k =>
      if key_conflicts d (set k) then (Err UniqueViolation, d)
      else (Ok (set k), with_keys d (<[id := set k]> (api_keys d)))
  end.

(** [delete_by_id] with the [ON DELETE] actions of the three referring tables;
    the answer is [rows_affected]. *)
Definition delete_key (id : Uuid) (d : Database) : result nat DbErr * Database :=
  match api_keys d !! id with
  | None => (Ok 0%nat, d)
  | Some _ =>
      (Ok 1%nat, mkDatabase
        (delete id (api_keys d))
        ((fun e => if bool_decide (e_owner_key_id e = Some id) then set_ep_owner None e else e)
           <$> endpoints d)
        ((fun a => if bool_decide (a_api_key_id a = Some id) then set_audit_key None a else a)
           <$> audit_logs d)
        (filter (fun kv => g_api_key_id kv.2 <> id) (vault_group_permissions d)))
  end.

Definition token_conflicts (d : Database) (e : Endpoint) : bool :=
  other_row (e_id e) (fun e' => bool_decide (e_token_secret e' = e_token_secret e)) (endpoints d).

Definition insert_endpoint (e : Endpoint) (d : Database) : result Endpoint DbErr * Database :=
  if bool_decide (is_Some (endpoints d !! e_id e)) || token_conflicts d e
  then (Err UniqueViolation, d)
  else if negb (key_exists d (e_owner_key_id e)) then (Err ForeignKeyViolation, d)
  else (Ok e, with_endpoints d (<[e_id e := e]> (endpoints d))).

Definition update_endpoint (id : Uuid) (set : Endpoint -> Endpoint) (d : Database)
  : result Endpoint DbErr * Database :=
  match endpoints d !! id with
  | None => (Err RecordNotUpdated, d)
  | Some e =>
      if token_conflicts d (set e) then (Err UniqueViolation, d)
      else if negb (key_exists d (e_owner_key_id (set e))) then (Err ForeignKeyViolation, d)
      else (Ok (set e), with_endpoints d (<[id := set e]> (endpoints d)))
  end.

Definition delete_endpoint (id : Uuid) (d : Database) : result nat DbErr * Database :=
  match endpoints d !! id with
  | None => (Ok 0%nat, d)
  | Some _ => (Ok 1%nat, with_endpoints d (delete id (endpoints d)))
  end.

(** [Endpoint::update_many] with a filter on the owner. *)
Definition reassign_endpoints (from to : Uuid) (now : Z) (d : Database)
  : result nat DbErr * Database :=
  if negb (key_exists d (Some to)) then (Err ForeignKeyViolation, d) else
  (Ok (length (find_all (fun e => bool_decide (e_owner_key_id e = Some from)) (endpoints d))),
   with_endpoints d
     ((fun e => if bool_decide (e_owner_key_id e = Some from)
                then set_ep_updated_at now (set_ep_owner (Some to) e) else e) <$> endpoints d)).

Definition insert_audit (a : AuditLog) (d : Database) : result AuditLog DbErr * Database :=
  if bool_decide (is_Some (audit_logs d !! a_id a)) then (Err UniqueViolation, d)
  else if negb (key_exists d (a_api_key_id a)) then (Err ForeignKeyViolation, d)
  else (Ok a, with_audit d (<[a_id a := a]> (audit_logs d))).

Definition insert_grant (g : VaultGroupPermission) (d : Database)
  : result VaultGroupPermission DbErr * Database :=
  if bool_decide (is_Some (vault_group_permissions d !! g_id g))
     || other_row (g_id g) (fun g' => bool_decide (g_api_key_id g' = g_api_key_id g)
                                      && bool_decide (g_vault_group_id g' = g_vault_group_id g))
          (vault_group_permissions d)
  then (Err UniqueViolation, d)
  else if negb (key_exists d (Some (g_api_key_id g))) then (Err ForeignKeyViolation, d)
  else (Ok g, with_grants d (<[g_id g := g]> (vault_group_permissions d))).

(** [delete_many] with a filter on the ids. *)
Definition delete_grants (ids : list Uuid) (d : Database) : result nat DbErr * Database :=
  (Ok (length (List.filter (fun i => bool_decide (is_Some (vault_group_permissions d !! i)))
                (remove_dups ids))),
   with_grants d (filter (fun kv => kv.1 ∉ ids) (vault_group_permissions d))).

(** *** What the queries answer *)

Lemma elem_of_rows {A} (m : gmap Uuid A) x : x ∈ rows m <-> exists id, m !! id = Some x.
Proof.
  unfold rows. rewrite list_elem_of_fmap. split.
  - intros ([id y] & -> & Hy%elem_of_map_to_list). eauto.
  - intros [id Hx]. exists (id, x). split; [done|by apply elem_of_map_to_list].
Qed.

Lemma elem_of_find_all {A} (p : A -> bool) (m : gmap Uuid A) x :
  x ∈ find_all p m <-> p x = true /\ exists id, m !! id = Some x.
Proof. unfold find_all. by rewrite elem_of_filter_bool, elem_of_rows. Qed.

Lemma find_one_Some {A} (p : A -> bool) (m : gmap Uuid A) x :
  find_one p m = Some x -> p x = true /\ exists id, m !! id = Some x.
Proof. intros [Hp Hx]%head_filter_bool. split; [done|by apply elem_of_rows]. Qed.

Lemma find_one_None {A} (p : A -> bool) (m : gmap Uuid A) :
  find_one p m = None -> forall id x, m !! id = Some x -> p x = false.
Proof.
  intros Hh id x Hx. destruct (p x) eqn:Hp; [|done].
  assert (x ∈ find_all p m) as Hin by (apply elem_of_find_all; eauto).
  unfold find_one in Hh. destruct (find_all p m); [by apply elem_of_nil in Hin|done].
Qed.

(** ** Integrity

    What the constraints guarantee of every state the statements can reach. *)

(** A column function is injective over a table. *)
Definition unique_on {A B} (col : A -> B) (sel : A -> bool) (m : gmap Uuid A) : Prop :=
  forall i j x y, m !! i = Some x -> m !! j = Some y -> sel x = true -> sel y = true ->
  col x = col y -> i = j.

Definition all {A} (_ : A) : bool := true.

Definition keyed {A} (idf : A -> Uuid) (m : gmap Uuid A) : Prop :=
  forall i x, m !! i = Some x -> idf x = i.

Definition refers {A} (ref : A -> option Uuid) (keys : gmap Uuid ApiKey) (m : gmap Uuid A) : Prop :=
  forall i x k, m !! i = Some x -> ref x = Some k -> is_Some (keys !! k).

Record db_wf (d : Database) : Prop := {
  wf_keys : keyed k_id (api_keys d);
  wf_hash : unique_on k_key_hash all (api_keys d);
  wf_master : unique_on (fun _ => tt) k_is_master (api_keys d);
  wf_endpoints : keyed e_id (endpoints d);
  wf_token : unique_on e_token_secret all (endpoints d);
  wf_owner : refers e_owner_key_id (api_keys d) (endpoints d);
  wf_audit : keyed a_id (audit_logs d);
  wf_audit_key : refers a_api_key_id (api_keys d) (audit_logs d);
  wf_grants : keyed g_id (vault_group_permissions d);
  wf_grant_key : refers (fun g => Some (g_api_key_id g)) (api_keys d) (vault_group_permissions d);
  wf_grant_pair : unique_on (fun g => (g_api_key_id g, g_vault_group_id g)) all
                    (vault_group_permissions d);
}.

Lemma empty_db_wf : db_wf empty_db.
Proof.
  split; unfold keyed, unique_on, refers; simpl; intros; simplify_map_eq.
Qed.

Lemma other_row_false {A} id (p : A -> bool) m :
  other_row id p m = false <-> forall j x, m !! j = Some x -> j <> id -> p x = false.
Proof.
  unfold other_row. rewrite <- not_true_iff_false, existsb_exists. split.
  - intros Hn j x Hj Hne. destruct (p x) eqn:Hp; [|done]. exfalso. apply Hn.
    exists (j, x). rewrite <- list_elem_of_In, elem_of_map_to_list. simpl.
    by rewrite bool_decide_false, Hp.
  - intros Hall ([j x] & Hin & Hp). rewrite <- list_elem_of_In, elem_of_map_to_list in Hin.
    simpl in Hp. apply andb_true_iff in Hp as [Hne Hp]. apply negb_true_iff, bool_decide_eq_false in Hne.
    specialize (Hall j x Hin Hne). congruence.
Qed.

Lemma keyed_insert {A} (idf : A -> Uuid) m i x :
  keyed idf m -> idf x = i -> keyed idf (<[i := x]> m).
Proof. intros Hk Hi j y [[<- <-]|[? Hy]]%lookup_insert_Some; [done|by apply Hk]. Qed.

Lemma keyed_delete {A} (idf : A -> Uuid) m i : keyed idf m -> keyed idf (delete i m).
Proof. intros Hk j y [_ Hy]%lookup_delete_Some. by apply Hk. Qed.

Lemma keyed_fmap {A} (idf : A -> Uuid) m (f : A -> A) :
  keyed idf m -> (forall x, idf (f x) = idf x) -> keyed idf (f <$> m).
Proof. intros Hk Hf j y. rewrite lookup_fmap_Some. intros (x & <- & Hx). rewrite Hf. by apply Hk. Qed.

Lemma keyed_filter {A} (idf : A -> Uuid) m (P : Uuid * A -> Prop) `{!forall x, Decision (P x)} :
  keyed idf m -> keyed idf (filter P m).
Proof. intros Hk j y [Hy _]%map_lookup_filter_Some. by apply Hk. Qed.

(** A row that conflicts with no other may be put in the table. *)
Lemma unique_insert {A B} `{EqDecision B} (col : A -> B) sel m i x :
  unique_on col sel m ->
  (forall j y, m !! j = Some y -> j <> i -> sel y = true -> sel x = true -> col y <> col x) ->
  unique_on col sel (<[i := x]> m).
Proof.
  intros Hu Hx a b y z Hy Hz Sy Sz Heq.
  apply lookup_insert_Some in Hy as [[<- <-]|[Ha Hy]];
    apply lookup_insert_Some in Hz as [[<- <-]|[Hb Hz]]; try done.
  - exfalso. by eapply (Hx b z).
  - exfalso. by eapply (Hx a y).
  - by eapply Hu.
Qed.

Lemma unique_delete {A B} (col : A -> B) sel m i : unique_on col sel m -> unique_on col sel (delete i m).
Proof.
  intros Hu a b y z [_ Hy]%lookup_delete_Some [_ Hz]%lookup_delete_Some. by eapply Hu.
Qed.

Lemma unique_filter {A B} (col : A -> B) sel m (P : Uuid * A -> Prop) `{!forall x, Decision (P x)} :
  unique_on col sel m -> unique_on col sel (filter P m).
Proof.
  intros Hu a b y z [Hy _]%map_lookup_filter_Some [Hz _]%map_lookup_filter_Some. by eapply Hu.
Qed.

Lemma unique_fmap {A B} (col : A -> B) sel m (f : A -> A) :
  unique_on col sel m -> (forall x, col (f x) = col x) -> (forall x, sel (f x) = sel x) ->
  unique_on col sel (f <$> m).
Proof.
  intros Hu Hc Hs a b y z. rewrite !lookup_fmap_Some. intros (y' & <- & Hy) (z' & <- & Hz).
  rewrite !Hs, !Hc. by eapply Hu.
Qed.

Lemma refers_insert {A} (ref : A -> option Uuid) keys m i x :
  refers ref keys m -> (forall k, ref x = Some k -> is_Some (keys !! k)) ->
  refers ref keys (<[i := x]> m).
Proof. intros Hr Hx j y k [[<- <-]|[_ Hy]]%lookup_insert_Some; [by apply Hx|by eapply Hr]. Qed.

Lemma refers_keys {A} (ref : A -> option Uuid) keys keys' m :
  refers ref keys m -> (forall k, is_Some (keys !! k) -> is_Some (keys' !! k)) -> refers ref keys' m.
Proof. intros Hr Hk j y k Hy Hrf. apply Hk. by eapply Hr. Qed.

Lemma refers_sub {A} (ref : A -> option Uuid) keys m m' :
  refers ref keys m -> (forall i x, m' !! i = Some x -> m !! i = Some x) -> refers ref keys m'.
Proof. intros Hr Hm j y k Hy Hrf. eapply Hr; eauto. Qed.

Lemma key_exists_true d o : key_exists d o = true <-> forall k, o = Some k -> is_Some (api_keys d !! k).
Proof. destruct o as [k|]; simpl; [rewrite bool_decide_eq_true|]; naive_solver. Qed.

Lemma insert_is_Some {A} (m : gmap Uuid A) i x k : is_Some (m !! k) -> is_Some (<[i := x]> m !! k).
Proof. intros [y Hy]. destruct (decide (i = k)) as [->|]; simplify_map_eq; eauto. Qed.

Lemma key_conflicts_false d k :
  key_conflicts d k = false ->
  forall j k', api_keys d !! j = Some k' -> j <> k_id k ->
    k_key_hash k' <> k_key_hash k /\ (k_is_master k' = true -> k_is_master k = true -> False).
Proof.
  intros Hc j k' Hj Hne. unfold key_conflicts in Hc. rewrite other_row_false in Hc.
  specialize (Hc j k' Hj Hne). apply orb_false_iff in Hc as [Hh%bool_decide_eq_false Hm].
  split; [done|]. intros H1 H2. by rewrite H1, H2 in Hm.
Qed.

(** Putting a key row, new or updated, that conflicts with no other. *)
Lemma put_key_wf d k :
  db_wf d -> key_conflicts d k = false -> db_wf (with_keys d (<[k_id k := k]> (api_keys d))).
Proof.
  intros [] Hc. pose proof (key_conflicts_false d k Hc) as Hnc.
  split; simpl; try done.
  - by apply keyed_insert.
  - apply unique_insert; [done|]. intros j y Hj Hne _ _. by apply (Hnc j).
  - apply unique_insert; [done|]. intros j y Hj Hne H1 H2. exfalso. by eapply (Hnc j).
  - eapply refers_keys; [done|]. intros. by apply insert_is_Some.
  - eapply refers_keys; [done|]. intros. by apply insert_is_Some.
  - eapply refers_keys; [done|]. intros. by apply insert_is_Some.
Qed.

Lemma insert_key_wf k d : db_wf d -> db_wf (insert_key k d).2.
Proof.
  intros Hd. unfold insert_key. destruct (_ || _) eqn:Hc; [done|].
  apply orb_false_iff in Hc as [_ Hc]. by apply put_key_wf.
Qed.

Lemma update_key_wf id set d :
  (forall k, k_id (set k) = k_id k) -> db_wf d -> db_wf (update_key id set d).2.
Proof.
  intros Hset Hd. unfold update_key. destruct (api_keys d !! id) as [k|] eqn:Hk; [|done].
  destruct (key_conflicts d (set k)) eqn:Hc; [done|]. simpl.
  assert (k_id (set k) = id) as Hid by (rewrite Hset; by eapply wf_keys).
  rewrite <- Hid at 1. by apply put_key_wf.
Qed.

Lemma delete_is_Some {A} (m : gmap Uuid A) i k : k <> i -> is_Some (m !! k) -> is_Some (delete i m !! k).
Proof. intros Hne [y Hy]. simplify_map_eq. eauto. Qed.

Lemma delete_key_wf id d : db_wf d -> db_wf (delete_key id d).2.
Proof.
  intros []. unfold delete_key. destruct (api_keys d !! id) as [k|]; [|done].
  split; simpl; eauto using keyed_delete, unique_delete, keyed_filter, unique_filter.
  - apply keyed_fmap; [done|]. intros e. by case_bool_decide.
  - apply unique_fmap; [done| |done]. intros e. by case_bool_decide.
  - intros i e o He Ho. apply lookup_fmap_Some in He as (e' & <- & He'). case_bool_decide as Hc; [done|].
    apply delete_is_Some; [congruence|]. by eapply wf_owner0.
  - apply keyed_fmap; [done|]. intros a. by case_bool_decide.
  - intros i a o Ha Ho. apply lookup_fmap_Some in Ha as (a' & <- & Ha'). case_bool_decide as Hc; [done|].
    apply delete_is_Some; [congruence|]. by eapply wf_audit_key0.
  - intros i g o [Hg Hf]%map_lookup_filter_Some [= <-]. simpl in Hf.
    apply delete_is_Some; [done|]. by eapply wf_grant_key0.
Qed.

Lemma put_endpoint_wf d e :
  db_wf d -> token_conflicts d e = false -> key_exists d (e_owner_key_id e) = true ->
  db_wf (with_endpoints d (<[e_id e := e]> (endpoints d))).
Proof.
  intros [] Hc Ho. unfold token_conflicts in Hc. rewrite other_row_false in Hc.
  rewrite key_exists_true in Ho. split; simpl; try done.
  - by apply keyed_insert.
  - apply unique_insert; [done|]. intros j y Hj Hne _ _.
    specialize (Hc j y Hj Hne). by apply bool_decide_eq_false in Hc.
  - by apply refers_insert.
Qed.

Lemma insert_endpoint_wf e d : db_wf d -> db_wf (insert_endpoint e d).2.
Proof.
  intros Hd. unfold insert_endpoint. destruct (_ || _) eqn:Hc; [done|].
  apply orb_false_iff in Hc as [_ Hc]. destruct (key_exists d _) eqn:Ho; [|done].
  by apply put_endpoint_wf.
Qed.

Lemma update_endpoint_wf id set d :
  (forall e, e_id (set e) = e_id e) -> db_wf d -> db_wf (update_endpoint id set d).2.
Proof.
  intros Hset Hd. unfold update_endpoint. destruct (endpoints d !! id) as [e|] eqn:He; [|done].
  destruct (token_conflicts d (set e)) eqn:Hc; [done|].
  destruct (key_exists d _) eqn:Ho; [|done]. simpl.
  assert (e_id (set e) = id) as Hid by (rewrite Hset; by eapply wf_endpoints).
  rewrite <- Hid at 1. by apply put_endpoint_wf.
Qed.

Lemma delete_endpoint_wf id d : db_wf d -> db_wf (delete_endpoint id d).2.
Proof.
  intros Hd. unfold delete_endpoint. destruct (endpoints d !! id); [|done]. destruct Hd.
  split; simpl; eauto using keyed_delete, unique_delete.
  eapply refers_sub; [done|]. intros i x [_ Hx]%lookup_delete_Some. done.
Qed.

Lemma reassign_endpoints_wf from to now d : db_wf d -> db_wf (reassign_endpoints from to now d).2.
Proof.
  intros Hd. unfold reassign_endpoints. destruct (key_exists d (Some to)) eqn:Hk; [|done].
  rewrite key_exists_true in Hk. destruct Hd. split; simpl; try done.
  - apply keyed_fmap; [done|]. intros e. by case_bool_decide.
  - apply unique_fmap; [done| |done]. intros e. by case_bool_decide.
  - intros i e o He Ho. apply lookup_fmap_Some in He as (e' & <- & He').
    case_bool_decide; simpl in Ho; [simplify_eq; by apply Hk|by eapply wf_owner0].
Qed.

Lemma insert_audit_wf a d : db_wf d -> db_wf (insert_audit a d).2.
Proof.
  intros Hd. unfold insert_audit. case_bool_decide; [done|].
  destruct (key_exists d _) eqn:Hk; [|done]. rewrite key_exists_true in Hk. destruct Hd.
  split; simpl; try done; [by apply keyed_insert|by apply refers_insert].
Qed.

Lemma insert_grant_wf g d : db_wf d -> db_wf (insert_grant g d).2.
Proof.
  intros Hd. unfold insert_grant. destruct (_ || _) eqn:Hc; [done|].
  apply orb_false_iff in Hc as [_ Hc]. destruct (key_exists d _) eqn:Hk; [|done].
  rewrite key_exists_true in Hk. rewrite other_row_false in Hc. destruct Hd.
  split; simpl; try done.
  - by apply keyed_insert.
  - by apply refers_insert.
  - apply unique_insert; [done|]. intros j y Hj Hne _ _ [= H1 H2].
    specialize (Hc j y Hj Hne). by rewrite !bool_decide_true in Hc.
Qed.

Lemma delete_grants_wf ids d : db_wf d -> db_wf (delete_grants ids d).2.
Proof.
  intros []. unfold delete_grants. split; simpl; eauto using keyed_filter, unique_filter.
  eapply refers_sub; [done|]. by intros i x [Hx _]%map_lookup_filter_Some.
Qed.

End Db.
