(* ===== verification/Migrations.v ===== *)
(** * [migration/]: the declared schema, and that [Db] is it

    The four migrations as the statements they send, the catalogue those build,
    and what its constraints mean on rows.  [Db] states the constraints by hand,
    as invariants of its maps and as checks of its statements: the theorems show
    that they are exactly the ones the migrations declare, column by column, that
    deletion follows the declared actions, and that each migration is undone by
    its [down]. *)

From S2P Require Import Prelude.
From S2P Require Import RustStr.
From S2P Require Import DbConn.
From S2P Require Import Db.
#[local] Open Scope Z_scope.
#[local] Open Scope rust_scope.

Module Migrations.

(** ** Statements and catalogues *)

Inductive ColType := uuid | string_ | text | boolean | integer | big_integer | date_time.

(** The expression of a generated column: [CASE WHEN c THEN n ELSE NULL END]. *)
Record Generated := mkGenerated { gen_when : string; gen_then : Z }.

Record ColumnDef := mkColumnDef {
  c_name : string;
  c_type : ColType;
  c_not_null : bool;
  c_primary_key : bool;
  c_unique_key : bool;
  c_default : option string;
  c_generated : option Generated;
}.

Inductive ForeignKeyAction := SetNull | Cascade | NoAction.

Record ForeignKey := mkForeignKey {
  fk_name : string;
  fk_col : string;
  fk_to : string;
  fk_to_col : string;
  fk_on_delete : ForeignKeyAction;
  fk_on_update : option ForeignKeyAction;
}.

Record TableDef := mkTableDef { t_cols : list ColumnDef; t_foreign_keys : list ForeignKey }.

Record IndexDef := mkIndexDef { i_name : string; i_table : string; i_cols : list string; i_unique : bool }.

Record Catalog := mkCatalog { tables : list (string * TableDef); indexes : list IndexDef }.

Definition empty_catalog : Catalog := mkCatalog [] [].

Inductive Ddl :=
| CreateTable (name : string) (if_not_exists : bool) (def : TableDef)
| CreateIndex (ix : IndexDef)
| AddColumn (table : string) (col : ColumnDef)
| DropTable (name : string)
| DropColumn (table col : string).

Definition find_table (c : Catalog) (name : string) : option TableDef :=
  snd <$> List.find (fun t => bool_decide (t.1 = name)) (tables c).

Definition has_column (def : TableDef) (col : string) : bool :=
  existsb (fun d => bool_decide (c_name d = col)) (t_cols def).

Definition set_table (c : Catalog) (name : string) (def : TableDef) : Catalog :=
  mkCatalog ((fun t => if bool_decide (t.1 = name) then (name, def) else t) <$> tables c) (indexes c).

(** What a statement does to the catalogue, or why the engine refuses it. *)
Definition exec_ddl (s : Ddl) (c : Catalog) : result Catalog string :=
  match s with
  | CreateTable name if_not_exists def =>
      match find_table c name with
      | Some _ => if if_not_exists then Ok c else Err "table already exists"
      | None => Ok (mkCatalog (tables c ++ [(name, def)]) (indexes c))
      end
  | CreateIndex ix =>
      match find_table c (i_table ix) with
      | None => Err "no such table"
      | Some def =>
          if existsb (fun i => bool_decide (i_name i = i_name ix)) (indexes c)
          then Err "index already exists"
          else if negb (forallb (has_column def) (i_cols ix)) then Err "no such column"
          else Ok (mkCatalog (tables c) (indexes c ++ [ix]))
      end
  | AddColumn table col =>
      match find_table c table with
      | None => Err "no such table"
      | Some def =>
          if has_column def (c_name col) then Err "duplicate column name"
          else Ok (set_table c table (mkTableDef (t_cols def ++ [col]) (t_foreign_keys def)))
      end
  | DropTable name =>
      match find_table c name with
      | None => Err "no such table"
      | Some _ =>
          Ok (mkCatalog (List.filter (fun t => negb (bool_decide (t.1 = name))) (tables c))
                (List.filter (fun i => negb (bool_decide (i_table i = name))) (indexes c)))
      end
  | DropColumn table col =>
      match find_table c table with
      | None => Err "no such table"
      | Some def =>
          if negb (has_column def col) then Err "no such column"
          else if existsb (fun i => bool_decide (i_table i = table) && existsb (String.eqb col) (i_cols i))
                    (indexes c)
          then Err "column is indexed"
          else Ok (set_table c table
                 (mkTableDef (List.filter (fun d => negb (bool_decide (c_name d = col))) (t_cols def))
                    (t_foreign_keys def)))
      end
  end.

(** [manager.step().await?] in sequence. *)
Fixpoint run_ddl (ss : list Ddl) (c : Catalog) : result Catalog string :=
  match ss with
  | [] => Ok c
  | s :: ss' => let? c' := exec_ddl s c in run_ddl ss' c'
  end.

(** ** The migrations *)

Definition column (name : string) (ty : ColType) : ColumnDef := mkColumnDef name ty false false false None None.
Definition not_null (c : ColumnDef) : ColumnDef :=
  mkColumnDef (c_name c) (c_type c) true (c_primary_key c) (c_unique_key c) (c_default c) (c_generated c).
Definition primary_key (c : ColumnDef) : ColumnDef :=
  mkColumnDef (c_name c) (c_type c) (c_not_null c) true (c_unique_key c) (c_default c) (c_generated c).
Definition unique_key (c : ColumnDef) : ColumnDef :=
  mkColumnDef (c_name c) (c_type c) (c_not_null c) (c_primary_key c) true (c_default c) (c_generated c).
Definition default_to (v : string) (c : ColumnDef) : ColumnDef :=
  mkColumnDef (c_name c) (c_type c) (c_not_null c) (c_primary_key c) (c_unique_key c) (Some v) (c_generated c).
Definition generated (g : Generated) (c : ColumnDef) : ColumnDef :=
  mkColumnDef (c_name c) (c_type c) (c_not_null c) (c_primary_key c) (c_unique_key c) (c_default c) (Some g).

Definition MARKER_COLUMN : string := "master_marker".
Definition MARKER_INDEX : string := "idx_api_keys_master_marker".

Definition marker_expression : Generated := mkGenerated "is_master" 1.

(** The text of the [ALTER TABLE] that adds the marker. *)
Definition add_marker_column (backend : DbConn.DatabaseBackend) : string :=
  let storage := match backend with DbConn.Postgres => "STORED" | _ => "VIRTUAL" end in
  "ALTER TABLE api_keys ADD COLUMN " +:+ MARKER_COLUMN +:+ " INTEGER GENERATED ALWAYS AS (CASE WHEN "
    +:+ gen_when marker_expression +:+ " THEN " +:+ pretty (gen_then marker_expression)
    +:+ " ELSE NULL END) " +:+ storage.

Definition api_keys_table : TableDef := mkTableDef
  [ primary_key (not_null (column "id" uuid));
    not_null (column "name" string_);
    not_null (column "prefix" string_);
    unique_key (not_null (column "key_hash" string_));
    column "signing_secret" text;
    column "bound_ips" text;
    default_to "false" (not_null (column "is_master" boolean));
    default_to "false" (not_null (column "can_manage_keys" boolean));
    column "parent_key_id" uuid;
    column "owner_key_id" uuid;
    not_null (column "created_at" date_time);
    not_null (column "updated_at" date_time) ] [].

Definition endpoints_table : TableDef := mkTableDef
  [ primary_key (not_null (column "id" uuid));
    column "owner_key_id" uuid;
    not_null (column "name" string_);
    column "description" text;
    unique_key (not_null (column "token_secret" string_));
    not_null (column "vault_groups" text);
    default_to "3600" (not_null (column "ttl_seconds" integer));
    column "bound_ips" text;
    default_to "false" (not_null (column "filter_rfc1918" boolean));
    default_to "false" (not_null (column "filter_bogons" boolean));
    default_to "false" (not_null (column "filter_loopback" boolean));
    column "last_synced_at" date_time;
    not_null (column "created_at" date_time);
    not_null (column "updated_at" date_time) ]
  [ mkForeignKey "fk_endpoints_owner_key_id" "owner_key_id" "api_keys" "id" SetNull None ].

Definition initial_schema_up : list Ddl :=
  [ CreateTable "api_keys" true api_keys_table;
    CreateIndex (mkIndexDef "idx_api_keys_prefix" "api_keys" ["prefix"] false);
    CreateIndex (mkIndexDef "idx_api_keys_parent_key_id" "api_keys" ["parent_key_id"] false);
    CreateIndex (mkIndexDef "idx_api_keys_owner_key_id" "api_keys" ["owner_key_id"] false);
    AddColumn "api_keys" (generated marker_expression (column MARKER_COLUMN integer));
    CreateIndex (mkIndexDef MARKER_INDEX "api_keys" [MARKER_COLUMN] true);
    CreateTable "endpoints" true endpoints_table;
    CreateIndex (mkIndexDef "idx_endpoints_owner_key_id" "endpoints" ["owner_key_id"] false);
    CreateIndex (mkIndexDef "idx_endpoints_token_secret" "endpoints" ["token_secret"] true) ].

Definition initial_schema_down : list Ddl := [ DropTable "endpoints"; DropTable "api_keys" ].

Definition audit_logs_table : TableDef := mkTableDef
  [ primary_key (not_null (column "id" uuid));
    column "api_key_id" uuid;
    not_null (column "api_key_name" string_);
    not_null (column "api_key_prefix" string_);
    not_null (column "client_ip" string_);
    not_null (column "action" string_);
    column "target_resource" string_;
    column "details" text;
    not_null (column "timestamp" date_time) ]
  [ mkForeignKey "fk_audit_logs_api_key_id" "api_key_id" "api_keys" "id" SetNull (Some NoAction) ].

Definition add_audit_logs_up : list Ddl :=
  [ CreateTable "audit_logs" true audit_logs_table;
    CreateIndex (mkIndexDef "idx_audit_logs_action" "audit_logs" ["action"] false);
    CreateIndex (mkIndexDef "idx_audit_logs_timestamp" "audit_logs" ["timestamp"] false);
    CreateIndex (mkIndexDef "idx_audit_logs_api_key_id" "audit_logs" ["api_key_id"] false) ].

Definition add_audit_logs_down : list Ddl := [ DropTable "audit_logs" ].

Definition vault_group_permissions_table : TableDef := mkTableDef
  [ primary_key (not_null (column "id" uuid));
    not_null (column "api_key_id" uuid);
    not_null (column "vault_group_id" uuid);
    not_null (column "vault_group_name" string_);
    not_null (column "created_at" date_time) ]
  [ mkForeignKey "fk_vault_group_permissions_api_key_id" "api_key_id" "api_keys" "id" Cascade (Some Cascade) ].

Definition add_vault_group_permissions_up : list Ddl :=
  [ CreateTable "vault_group_permissions" true vault_group_permissions_table;
    CreateIndex (mkIndexDef "idx_vault_group_permissions_key_group" "vault_group_permissions"
                   ["api_key_id"; "vault_group_id"] true) ].

Definition add_vault_group_permissions_down : list Ddl := [ DropTable "vault_group_permissions" ].

Definition add_endpoint_max_age_seconds_up : list Ddl :=
  [ AddColumn "endpoints" (default_to "0" (not_null (column "max_age_seconds" big_integer))) ].

Definition add_endpoint_max_age_seconds_down : list Ddl := [ DropColumn "endpoints" "max_age_seconds" ].

(** [Migrator::migrations], with the two directions of each. *)
Definition migrations : list (list Ddl * list Ddl) :=
  [ (initial_schema_up, initial_schema_down);
    (add_audit_logs_up, add_audit_logs_down);
    (add_vault_group_permissions_up, add_vault_group_permissions_down);
    (add_endpoint_max_age_seconds_up, add_endpoint_max_age_seconds_down) ].

(** The catalogue of a database on which all of them ran. *)
Definition schema : Catalog :=
  match run_ddl (concat migrations.*1) empty_catalog with Ok c => c | Err _ => empty_catalog end.

(** ** The relations the entities declare *)

Inductive RelationDef :=
| BelongsTo (from to to_col : string) (on_delete : ForeignKeyAction) (on_update : option ForeignKeyAction)
| HasMany (to : string).

Definition api_key_relations : list RelationDef := [ HasMany "endpoints"; HasMany "vault_group_permissions" ].
Definition endpoint_relations : list RelationDef := [ BelongsTo "owner_key_id" "api_keys" "id" SetNull None ].
Definition audit_log_relations : list RelationDef :=
  [ BelongsTo "api_key_id" "api_keys" "id" SetNull (Some NoAction) ].
Definition vault_group_permission_relations : list RelationDef :=
  [ BelongsTo "api_key_id" "api_keys" "id" Cascade (Some Cascade) ].

Definition relations : list (string * list RelationDef) :=
  [ ("api_keys", api_key_relations); ("endpoints", endpoint_relations); ("audit_logs", audit_log_relations);
    ("vault_group_permissions", vault_group_permission_relations) ].

(** What a foreign key of the schema is, seen as a relation. *)
Definition relation_of (fk : ForeignKey) : RelationDef :=
  BelongsTo (fk_col fk) (fk_to fk) (fk_to_col fk) (fk_on_delete fk) (fk_on_update fk).

Definition belongs (r : RelationDef) : bool := match r with BelongsTo _ _ _ _ _ => true | HasMany _ => false end.

(** ** What the constraints mean *)

Inductive Val := VUuid (u : Uuid) | VText (s : string) | VInt (z : Z) | VBool (b : bool) | VTime (z : Z) | VNull.

#[global] Instance val_eq_dec : EqDecision Val.
Proof. solve_decision. Defined.

Definition nullable {T} (inj : T -> Val) (o : option T) : Val :=
  match o with Some x => inj x | None => VNull end.

(** The stored columns of a row, as the entity of its table names them. *)
Definition key_row (k : Db.ApiKey) : list (string * Val) :=
  [ ("id", VUuid (Db.k_id k)); ("name", VText (Db.k_name k)); ("prefix", VText (Db.k_prefix k));
    ("key_hash", VText (Db.k_key_hash k)); ("signing_secret", nullable VText (Db.k_signing_secret k));
    ("bound_ips", nullable VText (Db.k_bound_ips k)); ("is_master", VBool (Db.k_is_master k));
    ("can_manage_keys", VBool (Db.k_can_manage_keys k));
    ("parent_key_id", nullable VUuid (Db.k_parent_key_id k));
    ("owner_key_id", nullable VUuid (Db.k_owner_key_id k));
    ("created_at", VTime (Db.k_created_at k)); ("updated_at", VTime (Db.k_updated_at k)) ].

Definition endpoint_row (e : Db.Endpoint) : list (string * Val) :=
  [ ("id", VUuid (Db.e_id e)); ("owner_key_id", nullable VUuid (Db.e_owner_key_id e));
    ("name", VText (Db.e_name e)); ("description", nullable VText (Db.e_description e));
    ("token_secret", VText (Db.e_token_secret e)); ("vault_groups", VText (Db.e_vault_groups e));
    ("ttl_seconds", VInt (Db.e_ttl_seconds e)); ("max_age_seconds", VInt (Db.e_max_age_seconds e));
    ("bound_ips", nullable VText (Db.e_bound_ips e)); ("filter_rfc1918", VBool (Db.e_filter_rfc1918 e));
    ("filter_bogons", VBool (Db.e_filter_bogons e)); ("filter_loopback", VBool (Db.e_filter_loopback e));
    ("last_synced_at", nullable VTime (Db.e_last_synced_at e));
    ("created_at", VTime (Db.e_created_at e)); ("updated_at", VTime (Db.e_updated_at e)) ].

Definition audit_row (a : Db.AuditLog) : list (string * Val) :=
  [ ("id", VUuid (Db.a_id a)); ("api_key_id", nullable VUuid (Db.a_api_key_id a));
    ("api_key_name", VText (Db.a_api_key_name a)); ("api_key_prefix", VText (Db.a_api_key_prefix a));
    ("client_ip", VText (Db.a_client_ip a)); ("action", VText (Db.a_action a));
    ("target_resource", nullable VText (Db.a_target_resource a));
    ("details", nullable VText (Db.a_details a)); ("timestamp", VTime (Db.a_timestamp a)) ].

Definition grant_row (g : Db.VaultGroupPermission) : list (string * Val) :=
  [ ("id", VUuid (Db.g_id g)); ("api_key_id", VUuid (Db.g_api_key_id g));
    ("vault_group_id", VUuid (Db.g_vault_group_id g));
    ("vault_group_name", VText (Db.g_vault_group_name g)); ("created_at", VTime (Db.g_created_at g)) ].

Definition get (r : list (string * Val)) (c : string) : Val :=
  default VNull (snd <$> List.find (fun m => bool_decide (m.1 = c)) r).

(** A row with the columns the engine computes. *)
Definition with_generated (def : TableDef) (r : list (string * Val)) : list (string * Val) :=
  r ++ omap (fun c => (fun g => (c_name c,
    if bool_decide (get r (gen_when g) = VBool true) then VInt (gen_then g) else VNull)) <$> c_generated c)
    (t_cols def).

Definition stored (d : Db.Database) (table : string) : list (list (string * Val)) :=
  if String.eqb table "api_keys" then key_row <$> Db.rows (Db.api_keys d)
  else if String.eqb table "endpoints" then endpoint_row <$> Db.rows (Db.endpoints d)
  else if String.eqb table "audit_logs" then audit_row <$> Db.rows (Db.audit_logs d)
  else if String.eqb table "vault_group_permissions" then grant_row <$> Db.rows (Db.vault_group_permissions d)
  else [].

Definition table_rows (d : Db.Database) (t : string * TableDef) : list (list (string * Val)) :=
  with_generated t.2 <$> stored d t.1.

(** No two rows agree on the columns; a row with a NULL among them is exempt. *)
Definition rows_unique (rows : list (list (string * Val))) (cols : list string) : Prop :=
  forall i j r s, rows !! i = Some r -> rows !! j = Some s ->
    Forall (fun c => get r c <> VNull) cols -> Forall (fun c => get r c = get s c) cols -> i = j.

(** The sets of columns a table declares unique. *)
Definition unique_sets (c : Catalog) (t : string * TableDef) : list (list string) :=
  ((fun d => [c_name d]) <$> List.filter (fun d => c_primary_key d || c_unique_key d) (t_cols t.2)) ++
  (i_cols <$> List.filter (fun i => bool_decide (i_table i = t.1) && i_unique i) (indexes c)).

Definition not_null_ok (d : Db.Database) (t : string * TableDef) : Prop :=
  Forall (fun r => Forall (fun c => c_not_null c = true -> get r (c_name c) <> VNull) (t_cols t.2))
    (table_rows d t).

Definition foreign_keys_ok (d : Db.Database) (t : string * TableDef) : Prop :=
  Forall (fun fk => forall r, r ∈ table_rows d t -> get r (fk_col fk) <> VNull ->
    exists s, s ∈ stored d (fk_to fk) /\ get s (fk_to_col fk) = get r (fk_col fk)) (t_foreign_keys t.2).

Definition satisfies (c : Catalog) (d : Db.Database) : Prop :=
  Forall (fun t => not_null_ok d t /\ Forall (rows_unique (table_rows d t)) (unique_sets c t) /\
                   foreign_keys_ok d t) (tables c).

(** *** What deleting a key does to the rows *)

Definition set_col (c : string) (v : Val) (r : list (string * Val)) : list (string * Val) :=
  (fun m => if bool_decide (m.1 = c) then (c, v) else m) <$> r.

(** One declared action on a row, when the row refers to the deleted key.  A
    reference without an action would refuse the deletion instead. *)
Definition on_delete (id : Uuid) (o : option (list (string * Val))) (fk : ForeignKey)
  : option (list (string * Val)) :=
  r ← o;
  if bool_decide (fk_to fk = "api_keys" /\ get r (fk_col fk) = VUuid id) then
    match fk_on_delete fk with
    | SetNull => Some (set_col (fk_col fk) VNull r)
    | Cascade => None
    | NoAction => Some r
    end
  else Some r.

(** What is left of a row of a table. *)
Definition after_delete (t : string * TableDef) (id : Uuid) (r : list (string * Val))
  : option (list (string * Val)) :=
  if bool_decide (t.1 = "api_keys" /\ get r "id" = VUuid id) then None
  else fold_left (on_delete id) (t_foreign_keys t.2) (Some r).

(** ** Theorems *)

(** Uniqueness by position is uniqueness by id. *)
Lemma rows_unique_on {T} (f : T -> list (string * Val)) (m : gmap Uuid T) cols :
  rows_unique (f <$> Db.rows m) cols <->
  forall i j x y, m !! i = Some x -> m !! j = Some y ->
    Forall (fun c => get (f x) c <> VNull) cols ->
    Forall (fun c => get (f x) c = get (f y) c) cols -> i = j.
Proof.
  unfold rows_unique, Db.rows. split.
  - intros H i j x y Hx Hy Hn He.
    apply elem_of_map_to_list, list_elem_of_lookup in Hx as [a Ha].
    apply elem_of_map_to_list, list_elem_of_lookup in Hy as [b Hb].
    assert (a = b) as <-; [|congruence].
    eapply (H a b (f x) (f y)); [by rewrite !list_lookup_fmap, Ha|by rewrite !list_lookup_fmap, Hb|done|done].
  - intros H a b r s Ha Hb Hn He. rewrite !list_lookup_fmap in Ha, Hb.
    destruct (map_to_list m !! a) as [[i x]|] eqn:Hx; [|done].
    destruct (map_to_list m !! b) as [[j y]|] eqn:Hy; [|done]. simplify_eq/=.
    assert (i = j) as <-.
    { eapply H; [..|exact Hn|exact He];
        (apply elem_of_map_to_list; eapply list_elem_of_lookup_2; eassumption). }
    pose proof (NoDup_fst_map_to_list m) as Hnd.
    eapply NoDup_lookup; [exact Hnd|..]; rewrite list_lookup_fmap; [by rewrite Hx|by rewrite Hy].
Qed.

Lemma unique_on_rows {T B} (f : T -> list (string * Val)) (col : T -> B) (sel : T -> bool) m cols :
  (forall x, Forall (fun c => get (f x) c <> VNull) cols <-> sel x = true) ->
  (forall x y, sel x = true -> sel y = true ->
     Forall (fun c => get (f x) c = get (f y) c) cols <-> col x = col y) ->
  (forall x y, sel x = true -> Forall (fun c => get (f x) c = get (f y) c) cols -> sel y = true) ->
  rows_unique (f <$> Db.rows m) cols <-> Db.unique_on col sel m.
Proof.
  intros Hn He Hs. rewrite rows_unique_on. unfold Db.unique_on. split.
  - intros H i j x y Hx Hy Sx Sy Hc. eapply H; eauto; [by apply Hn|by apply He].
  - intros H i j x y Hx Hy Nx Ex. apply Hn in Nx. pose proof (Hs x y Nx Ex) as Sy.
    eapply H; eauto. by apply He.
Qed.

Lemma refers_rows {T} (f : T -> list (string * Val)) (ref : T -> option Uuid) (keys : gmap Uuid Db.ApiKey)
    (m : gmap Uuid T) c :
  Db.keyed Db.k_id keys -> (forall x, get (f x) c = nullable VUuid (ref x)) ->
  (forall r, r ∈ f <$> Db.rows m -> get r c <> VNull ->
     exists s, s ∈ key_row <$> Db.rows keys /\ get s "id" = get r c) <-> Db.refers ref keys m.
Proof.
  intros Hk Hf. unfold Db.refers. split.
  - intros H i x k Hx Hr. destruct (H (f x)) as (s & Hs & Hid).
    { apply list_elem_of_fmap. exists x. split; [done|]. apply Db.elem_of_rows. eauto. }
    { rewrite Hf, Hr. done. }
    apply list_elem_of_fmap in Hs as (key & -> & [j Hj]%Db.elem_of_rows). rewrite Hf, Hr in Hid.
    assert (VUuid (Db.k_id key) = VUuid k) as [= <-] by exact Hid. rewrite (Hk _ _ Hj). eauto.
  - intros H r (x & -> & [i Hx]%Db.elem_of_rows)%list_elem_of_fmap Hn. rewrite Hf in *.
    destruct (ref x) as [k|] eqn:Hr; [|done]. destruct (H i x k Hx Hr) as [key Hkey].
    exists (key_row key). split; [apply list_elem_of_fmap; exists key; split; [done|]; apply Db.elem_of_rows; eauto|].
    simpl. by rewrite <- (Hk _ _ Hkey).
Qed.

(** The maps of [Db] store a row under its own id. *)
Definition stored_by_id (d : Db.Database) : Prop :=
  Db.keyed Db.k_id (Db.api_keys d) /\ Db.keyed Db.e_id (Db.endpoints d) /\
  Db.keyed Db.a_id (Db.audit_logs d) /\ Db.keyed Db.g_id (Db.vault_group_permissions d).

Lemma id_unique {T} (f : T -> list (string * Val)) (idf : T -> Uuid) m :
  Db.keyed idf m -> (forall x, get (f x) "id" = VUuid (idf x)) -> rows_unique (f <$> Db.rows m) ["id"].
Proof.
  intros Hk Hf. apply rows_unique_on. intros i j x y Hx Hy _ [He _]%Forall_cons.
  rewrite !Hf in He. injection He as He. by rewrite <- (Hk _ _ Hx), <- (Hk _ _ Hy).
Qed.

Lemma schema_tables :
  tables schema =
  [ ("api_keys", mkTableDef (t_cols api_keys_table ++
       [generated marker_expression (column MARKER_COLUMN integer)]) []);
    ("endpoints", mkTableDef (t_cols endpoints_table ++
       [default_to "0" (not_null (column "max_age_seconds" big_integer))]) (t_foreign_keys endpoints_table));
    ("audit_logs", audit_logs_table);
    ("vault_group_permissions", vault_group_permissions_table) ] /\
  unique_sets schema <$> tables schema =
  [ [["id"]; ["key_hash"]; ["master_marker"]]; [["id"]; ["token_secret"]; ["token_secret"]];
    [["id"]]; [["id"]; ["api_key_id"; "vault_group_id"]] ].
Proof. by vm_compute. Qed.

(** The constraints of one table of the schema. *)
Definition table_ok (d : Db.Database) (t : string * TableDef) : Prop :=
  not_null_ok d t /\ Forall (rows_unique (table_rows d t)) (unique_sets schema t) /\ foreign_keys_ok d t.

Lemma not_null_rows {T} (f : T -> list (string * Val)) def (m : gmap Uuid T) :
  (forall x, Forall (fun c => c_not_null c = true -> get (with_generated def (f x)) (c_name c) <> VNull)
     (t_cols def)) ->
  Forall (fun r => Forall (fun c => c_not_null c = true -> get r (c_name c) <> VNull) (t_cols def))
    (with_generated def <$> (f <$> Db.rows m)).
Proof.
  intros H. apply Forall_forall. intros r Hr.
  apply list_elem_of_fmap in Hr as (r' & -> & (x & -> & _)%list_elem_of_fmap). apply H.
Qed.

Ltac columns_tac := intros; repeat (constructor; [by intros ?|]); constructor.

(** The uniqueness of one text column, and what it says of the records. *)
Lemma unique_text {T} (f : T -> list (string * Val)) (col : T -> string) m c :
  (forall x, get (f x) c = VText (col x)) ->
  rows_unique (f <$> Db.rows m) [c] <-> Db.unique_on col Db.all m.
Proof.
  intros Hf. apply unique_on_rows; intros *; rewrite ?Forall_singleton, ?Hf; [by split| |done].
  intros _ _. split; [by intros [= ->]|by intros ->].
Qed.

Definition keys_def : TableDef :=
  mkTableDef (t_cols api_keys_table ++ [generated marker_expression (column MARKER_COLUMN integer)]) [].
Definition endpoints_def : TableDef :=
  mkTableDef (t_cols endpoints_table ++ [default_to "0" (not_null (column "max_age_seconds" big_integer))])
    (t_foreign_keys endpoints_table).

Lemma marker_unique m :
  rows_unique (with_generated keys_def ∘ key_row <$> Db.rows m) [MARKER_COLUMN] <->
  Db.unique_on (fun _ => tt) Db.k_is_master m.
Proof.
  assert (forall k, get (with_generated keys_def (key_row k)) MARKER_COLUMN
    = if Db.k_is_master k then VInt 1 else VNull) as Hmark by (intros k; by destruct k as [?????? [] ?????]).
  apply unique_on_rows; unfold compose.
  - intros k. rewrite Forall_singleton, Hmark. by destruct (Db.k_is_master k).
  - intros x y Hx Hy. by rewrite Forall_singleton, !Hmark, Hx, Hy.
  - intros x y Hx. rewrite Forall_singleton, !Hmark, Hx. by destruct (Db.k_is_master y).
Qed.

Lemma keys_ok d :
  Db.keyed Db.k_id (Db.api_keys d) ->
  table_ok d ("api_keys", keys_def) <->
  Db.unique_on Db.k_key_hash Db.all (Db.api_keys d) /\
  Db.unique_on (fun _ => tt) Db.k_is_master (Db.api_keys d).
Proof.
  intros Hk. unfold table_ok.
  change (unique_sets schema ("api_keys", keys_def)) with [["id"]; ["key_hash"]; [MARKER_COLUMN]].
  change (table_rows d ("api_keys", keys_def))
    with (with_generated keys_def <$> (key_row <$> Db.rows (Db.api_keys d))).
  rewrite <- list_fmap_compose, <- marker_unique,
    <- (unique_text (with_generated keys_def ∘ key_row) Db.k_key_hash _ "key_hash") by done.
  rewrite !Forall_cons, Forall_nil. split; [by intros (_ & (_ & H1 & H2 & _) & _)|].
  intros [H1 H2]. split_and!; try done.
  - apply (not_null_rows key_row). columns_tac.
  - by eapply id_unique.
  - constructor.
Qed.

Lemma endpoints_ok d :
  Db.keyed Db.k_id (Db.api_keys d) -> Db.keyed Db.e_id (Db.endpoints d) ->
  table_ok d ("endpoints", endpoints_def) <->
  Db.unique_on Db.e_token_secret Db.all (Db.endpoints d) /\
  Db.refers Db.e_owner_key_id (Db.api_keys d) (Db.endpoints d).
Proof.
  intros Hk He. unfold table_ok.
  change (unique_sets schema ("endpoints", endpoints_def)) with [["id"]; ["token_secret"]; ["token_secret"]].
  unfold foreign_keys_ok. simpl t_foreign_keys.
  change (table_rows d ("endpoints", endpoints_def))
    with (with_generated endpoints_def <$> (endpoint_row <$> Db.rows (Db.endpoints d))).
  rewrite <- list_fmap_compose,
    <- (unique_text (with_generated endpoints_def ∘ endpoint_row) Db.e_token_secret _ "token_secret") by done.
  rewrite Forall_singleton, !Forall_cons, Forall_nil. simpl fk_to. simpl fk_col. simpl fk_to_col.
  change (stored d "api_keys") with (key_row <$> Db.rows (Db.api_keys d)).
  rewrite (refers_rows (with_generated endpoints_def ∘ endpoint_row) Db.e_owner_key_id) by done.
  split; [by intros (_ & (_ & H1 & _) & H2)|].
  intros [H1 H2]. split_and!; try done.
  - apply (not_null_rows endpoint_row). columns_tac.
  - by eapply id_unique.
Qed.

Lemma audit_ok d :
  Db.keyed Db.k_id (Db.api_keys d) -> Db.keyed Db.a_id (Db.audit_logs d) ->
  table_ok d ("audit_logs", audit_logs_table) <->
  Db.refers Db.a_api_key_id (Db.api_keys d) (Db.audit_logs d).
Proof.
  intros Hk Ha. unfold table_ok.
  change (unique_sets schema ("audit_logs", audit_logs_table)) with [["id"]].
  unfold foreign_keys_ok. simpl t_foreign_keys.
  change (table_rows d ("audit_logs", audit_logs_table))
    with (with_generated audit_logs_table <$> (audit_row <$> Db.rows (Db.audit_logs d))).
  rewrite <- list_fmap_compose. rewrite !Forall_singleton. simpl fk_to. simpl fk_col. simpl fk_to_col.
  change (stored d "api_keys") with (key_row <$> Db.rows (Db.api_keys d)).
  rewrite (refers_rows (with_generated audit_logs_table ∘ audit_row) Db.a_api_key_id) by done.
  split; [by intros (_ & _ & H2)|]. intros H2. split_and!; try done.
  - apply (not_null_rows audit_row). columns_tac.
  - by eapply id_unique.
Qed.

Lemma grants_ok d :
  Db.keyed Db.k_id (Db.api_keys d) -> Db.keyed Db.g_id (Db.vault_group_permissions d) ->
  table_ok d ("vault_group_permissions", vault_group_permissions_table) <->
  Db.refers (fun g => Some (Db.g_api_key_id g)) (Db.api_keys d) (Db.vault_group_permissions d) /\
  Db.unique_on (fun g => (Db.g_api_key_id g, Db.g_vault_group_id g)) Db.all (Db.vault_group_permissions d).
Proof.
  intros Hk Hg. unfold table_ok.
  change (unique_sets schema ("vault_group_permissions", vault_group_permissions_table))
    with [["id"]; ["api_key_id"; "vault_group_id"]].
  unfold foreign_keys_ok. simpl t_foreign_keys.
  change (table_rows d ("vault_group_permissions", vault_group_permissions_table))
    with (with_generated vault_group_permissions_table <$> (grant_row <$> Db.rows (Db.vault_group_permissions d))).
  rewrite <- list_fmap_compose. rewrite Forall_singleton, !Forall_cons, Forall_nil.
  simpl fk_to. simpl fk_col. simpl fk_to_col.
  change (stored d "api_keys") with (key_row <$> Db.rows (Db.api_keys d)).
  rewrite (refers_rows (with_generated vault_group_permissions_table ∘ grant_row)
    (fun g => Some (Db.g_api_key_id g))) by done.
  rewrite (unique_on_rows (with_generated vault_group_permissions_table ∘ grant_row)
    (fun g => (Db.g_api_key_id g, Db.g_vault_group_id g)) Db.all _ ["api_key_id"; "vault_group_id"]).
  - split; [by intros (_ & (_ & H1 & _) & H2)|]. intros [H1 H2]. split_and!; try done.
    + apply (not_null_rows grant_row). columns_tac.
    + by eapply id_unique.
  - intros x. rewrite Forall_cons, Forall_singleton. by split.
  - intros x y _ _. rewrite Forall_cons, Forall_singleton.
    change (VUuid (Db.g_api_key_id x) = VUuid (Db.g_api_key_id y) /\
            VUuid (Db.g_vault_group_id x) = VUuid (Db.g_vault_group_id y) <->
            (Db.g_api_key_id x, Db.g_vault_group_id x) = (Db.g_api_key_id y, Db.g_vault_group_id y)).
    split; [intros [H1 H2]; congruence|by intros [= -> ->]].
  - done.
Qed.

Lemma satisfies_tables d :
  satisfies schema d <->
  table_ok d ("api_keys", keys_def) /\ table_ok d ("endpoints", endpoints_def) /\
  table_ok d ("audit_logs", audit_logs_table) /\
  table_ok d ("vault_group_permissions", vault_group_permissions_table).
Proof.
  unfold satisfies. rewrite (proj1 schema_tables). rewrite !Forall_cons, Forall_nil. unfold table_ok.
  intuition.
Qed.

(** *** Deletion, table by table *)

Lemma rows_left {T} (f : T -> list (string * Val)) (left : T -> option T) (m m' : gmap Uuid T) t id :
  (forall x, after_delete t id (f x) = f <$> left x) ->
  (forall i, m' !! i = m !! i ≫= left) ->
  forall r, r ∈ f <$> Db.rows m' <-> exists r0, r0 ∈ f <$> Db.rows m /\ after_delete t id r0 = Some r.
Proof.
  intros Hf Hm r. rewrite list_elem_of_fmap. split.
  - intros (y & -> & [i Hy]%Db.elem_of_rows). rewrite Hm in Hy. apply bind_Some in Hy as (x & Hx & Hl).
    exists (f x). rewrite Hf, Hl. split; [|done]. apply list_elem_of_fmap. exists x.
    split; [done|]. apply Db.elem_of_rows. eauto.
  - intros (r0 & (x & -> & [i Hx]%Db.elem_of_rows)%list_elem_of_fmap & Hr). rewrite Hf in Hr.
    apply fmap_Some in Hr as (y & Hl & ->). exists y. split; [done|]. apply Db.elem_of_rows.
    exists i. by rewrite Hm, Hx.
Qed.

(** When no key has the id, no row of a sound database is touched. *)
Lemma rows_kept {T} (f : T -> list (string * Val)) (left : T -> option T) (m : gmap Uuid T) t id :
  (forall x, after_delete t id (f x) = f <$> left x) ->
  (forall i x, m !! i = Some x -> left x = Some x) ->
  forall r, r ∈ f <$> Db.rows m <-> exists r0, r0 ∈ f <$> Db.rows m /\ after_delete t id r0 = Some r.
Proof.
  intros Hf Hl. apply (rows_left f left); [done|]. intros i.
  destruct (m !! i) as [x|] eqn:Hx; simpl; [by rewrite (Hl i x Hx)|done].
Qed.

Definition key_left (id : Uuid) (k : Db.ApiKey) : option Db.ApiKey :=
  if bool_decide (Db.k_id k = id) then None else Some k.
Definition endpoint_left (id : Uuid) (e : Db.Endpoint) : option Db.Endpoint :=
  Some (if bool_decide (Db.e_owner_key_id e = Some id) then Db.set_ep_owner None e else e).
Definition audit_left (id : Uuid) (a : Db.AuditLog) : option Db.AuditLog :=
  Some (if bool_decide (Db.a_api_key_id a = Some id) then Db.set_audit_key None a else a).
Definition grant_left (id : Uuid) (g : Db.VaultGroupPermission) : option Db.VaultGroupPermission :=
  if bool_decide (Db.g_api_key_id g = id) then None else Some g.

Lemma VUuid_eq (a b : Uuid) : VUuid a = VUuid b <-> a = b.
Proof. split; [by intros [= ->]|by intros ->]. Qed.

Lemma nullable_VUuid (o : option Uuid) (b : Uuid) : nullable VUuid o = VUuid b <-> o = Some b.
Proof. destruct o; simpl; [rewrite VUuid_eq|]; split; congruence. Qed.

Lemma key_after id k : after_delete ("api_keys", keys_def) id (key_row k) = key_row <$> key_left id k.
Proof.
  unfold after_delete, key_left. simpl.
  rewrite (bool_decide_ext _ (Db.k_id k = id)) by (rewrite <- VUuid_eq; tauto). by case_bool_decide.
Qed.

Lemma endpoint_after id e :
  after_delete ("endpoints", endpoints_def) id (endpoint_row e) = endpoint_row <$> endpoint_left id e.
Proof.
  unfold after_delete, endpoint_left. rewrite bool_decide_false by (by intros [? _]). simpl.
  rewrite (bool_decide_ext _ (Db.e_owner_key_id e = Some id)) by (rewrite <- nullable_VUuid; tauto).
  by case_bool_decide.
Qed.

Lemma audit_after id a :
  after_delete ("audit_logs", audit_logs_table) id (audit_row a) = audit_row <$> audit_left id a.
Proof.
  unfold after_delete, audit_left. rewrite bool_decide_false by (by intros [? _]). simpl.
  rewrite (bool_decide_ext _ (Db.a_api_key_id a = Some id)) by (rewrite <- nullable_VUuid; tauto).
  by case_bool_decide.
Qed.

Lemma grant_after id g :
  after_delete ("vault_group_permissions", vault_group_permissions_table) id (grant_row g)
  = grant_row <$> grant_left id g.
Proof.
  unfold after_delete, grant_left. rewrite bool_decide_false by (by intros [? _]). simpl.
  rewrite (bool_decide_ext _ (Db.g_api_key_id g = id)) by (rewrite <- VUuid_eq; tauto).
  by case_bool_decide.
Qed.

(** C39. The constraints the migrations declare are exactly the invariant [Db] keeps. *)
Theorem schema_is_db_wf d : stored_by_id d -> satisfies schema d <-> Db.db_wf d.
Proof.
  intros (Hk & He & Ha & Hg). rewrite satisfies_tables, keys_ok, endpoints_ok, audit_ok, grants_ok by done.
  split; [intros ([] & [] & ? & []); by split|intros []; by split_and!].
Qed.

Lemma dangling_none {T} (ref : T -> option Uuid) keys (m : gmap Uuid T) id :
  Db.refers ref keys m -> keys !! id = None -> forall i x, m !! i = Some x -> ref x <> Some id.
Proof. intros Hr Hk i x Hx Hid. destruct (Hr i x id Hx Hid). congruence. Qed.

Lemma absent_key_left d id :
  Db.db_wf d -> Db.api_keys d !! id = None ->
  (forall i k, Db.api_keys d !! i = Some k -> key_left id k = Some k) /\
  (forall i e, Db.endpoints d !! i = Some e -> endpoint_left id e = Some e) /\
  (forall i a, Db.audit_logs d !! i = Some a -> audit_left id a = Some a) /\
  (forall i g, Db.vault_group_permissions d !! i = Some g -> grant_left id g = Some g).
Proof.
  intros [] Hk. unfold key_left, endpoint_left, audit_left, grant_left. split_and!; intros i x Hx.
  - rewrite bool_decide_false; [done|]. intros <-. pose proof (wf_keys i x Hx). congruence.
  - by rewrite bool_decide_false by (by eapply dangling_none).
  - by rewrite bool_decide_false by (by eapply dangling_none).
  - rewrite bool_decide_false; [done|]. intros <-. by eapply (dangling_none (fun g => Some (Db.g_api_key_id g))).
Qed.

Lemma present_key_left d id k :
  Db.db_wf d -> Db.api_keys d !! id = Some k ->
  (forall i, Db.api_keys (Db.delete_key id d).2 !! i = Db.api_keys d !! i ≫= key_left id) /\
  (forall i, Db.endpoints (Db.delete_key id d).2 !! i = Db.endpoints d !! i ≫= endpoint_left id) /\
  (forall i, Db.audit_logs (Db.delete_key id d).2 !! i = Db.audit_logs d !! i ≫= audit_left id) /\
  (forall i, Db.vault_group_permissions (Db.delete_key id d).2 !! i
             = Db.vault_group_permissions d !! i ≫= grant_left id).
Proof.
  intros [] Hk. unfold Db.delete_key. rewrite Hk. simpl. split_and!; intros i.
  - destruct (decide (i = id)) as [->|Hne].
    + rewrite lookup_delete_eq, Hk. simpl. unfold key_left. by rewrite bool_decide_true by (by apply wf_keys).
    + rewrite lookup_delete_ne by done. destruct (Db.api_keys d !! i) as [x|] eqn:Hx; [|done]. simpl.
      unfold key_left. by rewrite bool_decide_false by (by rewrite (wf_keys i x Hx)).
  - rewrite lookup_fmap. by destruct (Db.endpoints d !! i).
  - rewrite lookup_fmap. by destruct (Db.audit_logs d !! i).
  - rewrite map_lookup_filter. destruct (Db.vault_group_permissions d !! i) as [g|]; [|done]. simpl.
    unfold grant_left. case_bool_decide as Hg; case_guard; naive_solver.
Qed.

Lemma delete_absent d id : Db.api_keys d !! id = None -> (Db.delete_key id d).2 = d.
Proof. unfold Db.delete_key. by intros ->. Qed.

(** Deleting a key leaves of every table exactly the rows the declared
    [ON DELETE] actions leave: owners and audit references are set to NULL,
    grants go with the key. *)
Theorem delete_key_follows_schema d id t r :
  Db.db_wf d -> t ∈ tables schema ->
  r ∈ stored (Db.delete_key id d).2 t.1 <->
  exists r0, r0 ∈ stored d t.1 /\ after_delete t id r0 = Some r.
Proof.
  intros Hd Ht. rewrite (proj1 schema_tables) in Ht. revert r.
  destruct (Db.api_keys d !! id) as [k|] eqn:Hk.
  - destruct (present_key_left d id k Hd Hk) as (H1 & H2 & H3 & H4).
    repeat apply elem_of_cons in Ht as [->|Ht]; [..|by apply elem_of_nil in Ht].
    + eapply rows_left; [apply key_after|done].
    + eapply rows_left; [apply endpoint_after|done].
    + eapply rows_left; [apply audit_after|done].
    + eapply rows_left; [apply grant_after|done].
  - destruct (absent_key_left d id Hd Hk) as (H1 & H2 & H3 & H4). rewrite delete_absent by done.
    repeat apply elem_of_cons in Ht as [->|Ht]; [..|by apply elem_of_nil in Ht].
    + eapply rows_kept; [apply key_after|done].
    + eapply rows_kept; [apply endpoint_after|done].
    + eapply rows_kept; [apply audit_after|done].
    + eapply rows_kept; [apply grant_after|done].
Qed.

(** *** The migrations themselves *)

(** Each migration applies to what the ones before it built, and its [down]
    takes the catalogue back there. *)
Theorem migrations_reversible n up down :
  migrations !! n = Some (up, down) ->
  exists c c', run_ddl (concat (take n migrations).*1) empty_catalog = Ok c /\
    run_ddl up c = Ok c' /\ run_ddl down c' = Ok c.
Proof.
  intros Hn. destruct (run_ddl (concat (take n migrations).*1) empty_catalog) as [c|] eqn:Hc.
  - destruct (run_ddl up c) as [c'|] eqn:Hu.
    + exists c, c'. split_and!; [done|done|].
      destruct n as [|[|[|[|n]]]]; [..|done]; injection Hn as <- <-;
        vm_compute in Hc; injection Hc as <-; vm_compute in Hu; injection Hu as <-; by vm_compute.
    + exfalso. destruct n as [|[|[|[|n]]]]; [..|done]; injection Hn as <- <-;
        vm_compute in Hc; injection Hc as <-; by vm_compute in Hu.
  - exfalso. destruct n as [|[|[|[|n]]]]; [..|done]; by vm_compute in Hc.
Qed.

(** The entities and the migrations agree: the relations by which rows of a table
    belong to others are exactly its foreign keys in the migrated schema, referential
    actions included, and every collection has such a foreign key on its other side. *)
Lemma relations_are_foreign_keys :
  (fun r => (r.1, List.filter belongs r.2)) <$> relations
    = (fun t => (t.1, relation_of <$> t_foreign_keys t.2)) <$> tables schema /\
  forall t rs to, (t, rs) ∈ relations -> HasMany to ∈ rs ->
    exists def fk, find_table schema to = Some def /\ fk ∈ t_foreign_keys def /\ fk_to fk = t.
Proof.
  split; [by vm_compute|]. intros t rs to Ht Hto. unfold relations, api_key_relations, endpoint_relations,
    audit_log_relations, vault_group_permission_relations in Ht. set_unfold in Ht.
  destruct_or! Ht; simplify_eq; set_unfold in Hto; destruct_or? Hto; simplify_eq;
    do 2 eexists; (split; [vm_compute; reflexivity|split; [by left|done]]).
Qed.

(** The index [MasterPin::pin_at_boot] looks for is one of the schema, and unique. *)
Lemma schema_has_marker :
  mkIndexDef MARKER_INDEX "api_keys" [MARKER_COLUMN] true ∈ indexes schema.
Proof. apply list_elem_of_lookup. by exists 3%nat. Qed.

(** ** Witnesses *)

Definition w_master : Db.ApiKey := Db.mkApiKey 1 "m" "p1" "h1" None None true true None None 0 0.
Definition w_daughter : Db.ApiKey := Db.mkApiKey 2 "d" "p2" "h2" None None false false (Some 1%N) (Some 1%N) 0 0.
Definition w_endpoint : Db.Endpoint :=
  Db.mkEndpoint 7 (Some 2%N) "e" None "t" "[]" 60 0 None false false false None 0 0.
Definition w_grant : Db.VaultGroupPermission := Db.mkVaultGroupPermission 9 2 5 "g" 0.

(** A master, a daughter, an endpoint of the daughter and a grant to it. *)
Definition w_db : Db.Database :=
  (Db.insert_grant w_grant (Db.insert_endpoint w_endpoint
    (Db.insert_key w_daughter (Db.insert_key w_master Db.empty_db).2).2).2).2.

Lemma w_db_wf : Db.db_wf w_db.
Proof.
  apply Db.insert_grant_wf, Db.insert_endpoint_wf, Db.insert_key_wf, Db.insert_key_wf, Db.empty_db_wf.
Qed.

Lemma w_db_stored : stored_by_id w_db.
Proof. destruct w_db_wf. by split_and!. Qed.

Lemma schema_is_db_wf_witness :
  Db.vault_group_permissions w_db !! 9%N = Some w_grant /\ satisfies schema w_db.
Proof. split; [by vm_compute|]. apply (schema_is_db_wf w_db w_db_stored), w_db_wf. Defined.

(** The endpoint of a deleted daughter stays, without an owner. *)
Lemma delete_key_follows_schema_witness :
  endpoint_row (Db.set_ep_owner None w_endpoint) ∈ stored (Db.delete_key 2 w_db).2 "endpoints".
Proof.
  apply (delete_key_follows_schema w_db 2 ("endpoints", endpoints_def)).
  - apply w_db_wf.
  - rewrite (proj1 schema_tables). set_solver.
  - exists (endpoint_row w_endpoint). split; [|by vm_compute].
    change (endpoint_row w_endpoint ∈ endpoint_row <$> Db.rows (Db.endpoints w_db)).
    apply list_elem_of_fmap. exists w_endpoint. split; [done|]. apply Db.elem_of_rows. exists 7%N. by vm_compute.
Defined.

Lemma migrations_reversible_witness :
  exists c c', run_ddl (concat (take 3 migrations).*1) empty_catalog = Ok c /\
    run_ddl add_endpoint_max_age_seconds_up c = Ok c' /\
    run_ddl add_endpoint_max_age_seconds_down c' = Ok c.
Proof. by apply (migrations_reversible 3). Defined.

End Migrations.
