(* ===== verification/App.v ===== *)
(** * [error.rs], [state.rs]: handlers as programs over the shared state

    [World] is everything the tasks of the process share: the database, the
    caches, the limiter, the replay guard, the pinned master, the DNS cache and
    the Vault client's clock.  A handler is a [prog]: a sequence of atomic steps
    on the world (one SQL statement or transaction, one operation under a lock),
    each meeting a [Tick] of the outside (the clocks, fresh identifiers and
    random bytes, a database fault, the name server, the network).  Programs run
    alone, or interleaved step by step. *)

From S2P Require Import Prelude.
From S2P Require Import RustStr.
From S2P Require Import Net.
From S2P Require Import Libs.
From S2P Require Import Cache.
From S2P Require Import Crypto.
From S2P Require Import VaultClient.
From S2P Require Import DnsCache.
From S2P Require Import Http.
From S2P Require Import Config.
From S2P Require Import RateLimit.
From S2P Require Import Replay.
From S2P Require Import Db.
#[local] Open Scope Z_scope.

Module App.

(** ** Errors *)

Inductive AppError :=
| DbError (e : Db.DbErr)
| InvalidInput (msg : string)
| Unauthorized (msg : string)
| Forbidden (msg : string)
| NotFound
| Conflict (msg : string)
| ConflictWithDetails (message : string) (owned_endpoints : list (Uuid * string))
| TooManyRequests (msg : string)
| BodyRejected (status : Z) (msg : string)
| Internal
| VaultNotConfigured
| VaultUnreachable.

(** The body of an error: the [error] field, and the merged inventory. *)
Record ErrorBody := mkErrorBody {
  error : string;
  owned_endpoints : option (list (Uuid * string));
}.

Definition into_response (e : AppError) : Z * ErrorBody :=
  let body msg := mkErrorBody msg None in
  match e with
  | ConflictWithDetails message details => (409, mkErrorBody message (Some details))
  | DbError _ => (500, body "Internal database error")
  | InvalidInput msg => (400, body msg)
  | Unauthorized msg => (401, body msg)
  | Forbidden msg => (403, body msg)
  | NotFound => (404, body "Resource not found")
  | Conflict msg => (409, body msg)
  | TooManyRequests msg => (429, body msg)
  | BodyRejected status msg => (status, body msg)
  | Internal => (500, body "An internal server error occurred")
  | VaultNotConfigured => (503, body "simply_ip_vault sync is not configured on this instance")
  | VaultUnreachable => (502, body "Could not reach simply_ip_vault")
  end.

Section app.
Context {L : IpNetLib}.

(** ** The shared state *)

Record World := mkWorld {
  db : Db.Database;
  ip_cache : Cache.IpCache;
  rate_limiter : RateLimit.RateLimiter;
  replay_guard : Replay.ReplayGuard;
  master_pin : option Uuid;
  dns_resolver : Dns.DnsResolver;
  vault_state : Vault.VaultSt;
}.

(** The part of [AppState] that never changes. *)
Record AppConfig := mkAppConfig {
  config : Config.RuntimeConfig;
  cipher : Crypto.SecretCipher;
  vault_client : option Vault.VaultClient;
}.

(** [AppState::new] at monotonic time [now]. *)
Definition initial_world (d : Db.Database) (cfg : Config.RuntimeConfig) (now : Z) : World := {|
  db := d;
  ip_cache := Cache.new;
  rate_limiter := RateLimit.new;
  replay_guard := Replay.new (Config.signature_max_age_seconds cfg) now;
  master_pin := None;
  dns_resolver := Dns.new;
  vault_state := Vault.mkVaultSt 0 [];
|}.

Definition app_config (cfg : Config.RuntimeConfig) (c : Crypto.SecretCipher) : AppConfig := {|
  config := cfg;
  cipher := c;
  vault_client := Vault.from_config (Config.vault_base_url cfg) (Config.vault_api_key cfg)
                    (Config.vault_signing_secret cfg);
|}.

Definition set_db (w : World) (d : Db.Database) : World :=
  mkWorld d (ip_cache w) (rate_limiter w) (replay_guard w) (master_pin w) (dns_resolver w)
    (vault_state w).
Definition set_cache (w : World) (c : Cache.IpCache) : World :=
  mkWorld (db w) c (rate_limiter w) (replay_guard w) (master_pin w) (dns_resolver w) (vault_state w).
Definition set_limiter (w : World) (l : RateLimit.RateLimiter) : World :=
  mkWorld (db w) (ip_cache w) l (replay_guard w) (master_pin w) (dns_resolver w) (vault_state w).
Definition set_replay (w : World) (g : Replay.ReplayGuard) : World :=
  mkWorld (db w) (ip_cache w) (rate_limiter w) g (master_pin w) (dns_resolver w) (vault_state w).
Definition set_pin (w : World) (p : option Uuid) : World :=
  mkWorld (db w) (ip_cache w) (rate_limiter w) (replay_guard w) p (dns_resolver w) (vault_state w).
Definition set_dns (w : World) (d : Dns.DnsResolver) : World :=
  mkWorld (db w) (ip_cache w) (rate_limiter w) (replay_guard w) (master_pin w) d (vault_state w).
Definition set_vault (w : World) (v : Vault.VaultSt) : World :=
  mkWorld (db w) (ip_cache w) (rate_limiter w) (replay_guard w) (master_pin w) (dns_resolver w) v.

(** ** The outside, as one step meets it *)

Record Tick := mkTick {
  wall : Z;                         (* [Utc::now] *)
  mono : Z;                         (* [Instant::now] *)
  db_faults : nat -> bool;          (* the [n]th statement of the step fails *)
  fresh_uuid : Uuid;                (* [Uuid::new_v4] *)
  random : nat -> Bytes;            (* [rand::rng().random] *)
  dns : nat -> Dns.DnsTick;
  vault : Vault.VaultEnv;
}.

(** ** Programs *)

Inductive prog (A : Type) : Type :=
| Ret (a : A)
| Step {B : Type} (f : Tick -> World -> B * World) (k : B -> prog A).
#[global] Arguments Ret {A} a.
#[global] Arguments Step {A B} f k.

Fixpoint bind {A B} (p : prog A) (f : A -> prog B) : prog B :=
  match p with
  | Ret a => f a
  | Step g k => Step g (fun b => bind (k b) f)
  end.

(** [?] on a program: an error ends the handler. *)
Definition bind_ok {A B} (p : prog (result A AppError)) (f : A -> prog (result B AppError))
  : prog (result B AppError) :=
  bind p (fun r => match r with Ok a => f a | Err e => Ret (Err e) end).

Definition lift {A} (r : result A AppError) : prog (result A AppError) := Ret r.

(** One step that reads the outside. *)
Definition read {A} (f : Tick -> A) : prog A := Step (fun t w => (f t, w)) Ret.

(** One SQL statement: it may fail, and then changes nothing. *)
Definition stmt {A} (f : Db.Database -> result A Db.DbErr * Db.Database)
  : prog (result A AppError) :=
  Step (fun t w =>
    if db_faults t 0 then (Err (DbError Db.Fault), w)
    else let '(r, d) := f (db w) in (map_err DbError r, set_db w d)) Ret.

(** The [i]th statement of a transaction. *)
Definition tstmt {A} (t : Tick) (i : nat) (f : Db.Database -> result A Db.DbErr * Db.Database)
    (d : Db.Database) : result A AppError * Db.Database :=
  if db_faults t i then (Err (DbError Db.Fault), d)
  else let '(r, d') := f d in (map_err DbError r, d').

(** [begin] (statement 0), the body, and [commit] (statement 1): an error on the
    way rolls everything back. *)
Definition txn {A} (body : Tick -> Db.Database -> result A AppError * Db.Database)
  : prog (result A AppError) :=
  Step (fun t w =>
    if db_faults t 0 then (Err (DbError Db.Fault), w) else
    match body t (db w) with
    | (Err e, _) => (Err e, w)
    | (Ok a, d) => if db_faults t 1 then (Err (DbError Db.Fault), w) else (Ok a, set_db w d)
    end) Ret.

(** A [SELECT]. *)
Definition query {A} (f : Db.Database -> A) : prog (result A AppError) :=
  stmt (fun d => (Ok (f d), d)).

(** *** Running a program alone, against a sequence of ticks *)

Fixpoint run {A} (env : nat -> Tick) (i : nat) (p : prog A) (w : World) : A * World * nat :=
  match p with
  | Ret a => (a, w, i)
  | Step f k => let '(b, w') := f (env i) w in run env (S i) (k b) w'
  end.

Definition outcome {A} (env : nat -> Tick) (p : prog A) (w : World) : A := (run env 0 p w).1.1.
Definition after {A} (env : nat -> Tick) (p : prog A) (w : World) : World := (run env 0 p w).1.2.

(** ** Interleaving *)

(** Tasks that have started and not finished, beside the world; a task may start
    at any moment if [start] admits it, and any task may take the next step. *)
Inductive sched (start : prog unit -> Prop) : World * list (prog unit) -> World * list (prog unit) -> Prop :=
| sched_start w ps p : start p -> sched start (w, ps) (w, p :: ps)
| sched_step w ps1 ps2 B (f : Tick -> World -> B * World) k t :
    sched start (w, ps1 ++ Step f k :: ps2)
                ((f t w).2, ps1 ++ k (f t w).1 :: ps2).

(** A program keeps to [G]: each of its steps, wherever the others have left the
    world by steps of [G], is again a step of [G]. *)
Fixpoint keeps {A} (G : World -> World -> Prop) (p : prog A) (w : World) : Prop :=
  match p with
  | Ret _ => True
  | Step f k =>
      forall w1 t, rtc G w w1 -> G w1 (f t w1).2 /\ keeps G (k (f t w1).1) (f t w1).2
  end.

Lemma keeps_mono {A} G (p : prog A) w w' : rtc G w w' -> keeps G p w -> keeps G p w'.
Proof.
  destruct p as [a|B f k]; simpl; [done|]. intros Hw Hk w1 t Hw1. apply Hk. by etrans.
Qed.

(** What tasks started along the way keep to, every interleaving keeps to. *)
Lemma sched_keeps (G : World -> World -> Prop) start w0 :
  (forall p w, start p -> rtc G w0 w -> keeps G p w) ->
  forall c c', rtc (sched start) c c' ->
  rtc G w0 c.1 -> Forall (fun p => keeps G p c.1) c.2 ->
  rtc G w0 c'.1 /\ Forall (fun p => keeps G p c'.1) c'.2.
Proof.
  intros Hstart c c' Hr. induction Hr as [c|c c1 c' Hstep Hr IH]; intros Hw Hps; [done|].
  apply IH; clear IH Hr.
  - destruct Hstep as [w ps p Hp|w ps1 ps2 B f k t]; simpl in *; [done|].
    apply Forall_app in Hps as [_ [H2 _]%Forall_cons]. destruct (H2 w t) as [HG _]; [done|].
    etrans; [exact Hw|]. by apply rtc_once.
  - destruct Hstep as [w ps p Hp|w ps1 ps2 B f k t]; simpl in *; [constructor; eauto|].
    apply Forall_app in Hps as [H1 [H2 H3]%Forall_cons]. destruct (H2 w t) as [HG Hk]; [done|].
    assert (rtc G w (f t w).2) by by apply rtc_once.
    apply Forall_app. split; [|constructor; [done|]];
      (eapply Forall_impl; [eassumption|]); intros; by eapply keeps_mono.
Qed.

Lemma keeps_bind {A B} G (p : prog A) (f : A -> prog B) w :
  keeps G p w -> (forall a w', rtc G w w' -> keeps G (f a) w') -> keeps G (bind p f) w.
Proof.
  revert w. induction p as [a|C g k IH]; intros w Hp Hf; simpl in *.
  - by apply Hf.
  - intros w1 t Hw1. destruct (Hp w1 t Hw1) as [HG Hk]. split; [done|].
    apply IH; [done|]. intros a w' Hw'. apply Hf.
    etrans; [exact Hw1|]. etrans; [by apply rtc_once|done].
Qed.

Lemma keeps_bind_ok {A B} G (p : prog (result A AppError)) (f : A -> prog (result B AppError)) w :
  keeps G p w -> (forall a w', rtc G w w' -> keeps G (f a) w') -> keeps G (bind_ok p f) w.
Proof. intros Hp Hf. apply keeps_bind; [done|]. intros [a|e] w' Hw'; [by apply Hf|done]. Qed.

(** Every result the program can return satisfies [Q]. *)
Fixpoint returns {A} (Q : A -> Prop) (p : prog A) : Prop :=
  match p with
  | Ret a => Q a
  | Step f k => forall b, returns Q (k b)
  end.

Lemma keeps_bind_returns {A B} G (Q : A -> Prop) (p : prog A) (f : A -> prog B) w :
  keeps G p w -> returns Q p -> (forall a w', Q a -> rtc G w w' -> keeps G (f a) w') ->
  keeps G (bind p f) w.
Proof.
  revert w. induction p as [a|C g k IH]; intros w Hp HQ Hf; simpl in *.
  - by apply Hf.
  - intros w1 t Hw1. destruct (Hp w1 t Hw1) as [HG Hk]. split; [done|].
    apply IH; [done|done|]. intros a w' Ha Hw'. apply Hf; [done|].
    etrans; [exact Hw1|]. etrans; [by apply rtc_once|done].
Qed.

Lemma keeps_read {A} (G : World -> World -> Prop) (f : Tick -> A) w :
  (forall w, G w w) -> keeps G (read f) w.
Proof. intros Hrefl w1 t _. by split. Qed.

(** *** Traces: the steps of one program, whatever the others do in between *)

Fixpoint exec {A} (p : prog A) (tr : list (Tick * World * World)) (a : A) : Prop :=
  match p, tr with
  | Ret b, [] => a = b
  | Step f k, (t, w, w') :: tr' => w' = (f t w).2 /\ exec (k (f t w).1) tr' a
  | _, _ => False
  end.

Lemma exec_bind {A B} (p : prog A) (f : A -> prog B) tr b :
  exec (bind p f) tr b <->
  exists tr1 a tr2, tr = tr1 ++ tr2 /\ exec p tr1 a /\ exec (f a) tr2 b.
Proof.
  revert tr. induction p as [a|C g k IH]; intros tr; simpl.
  - split.
    + intros He. by exists [], a, tr.
    + intros ([|] & a' & tr2 & -> & Ha & He); [by subst|done].
  - destruct tr as [|[[t w] w'] tr].
    + split; [done|]. intros ([|] & a & tr2 & Heq & Hp & _); done.
    + rewrite IH. split.
      * intros (-> & tr1 & a & tr2 & -> & Hp & Hf). by exists ((t, w, (g t w).2) :: tr1), a, tr2.
      * intros ([|[[t' w0] w1] tr1] & a & tr2 & Heq & Hp & Hf); [done|]. simplify_eq/=.
        destruct Hp as [-> Hp]. split; [done|]. by exists tr1, a, tr2.
Qed.

Lemma exec_bind_ok {A B} (p : prog (result A AppError)) (f : A -> prog (result B AppError)) tr b :
  exec (bind_ok p f) tr (Ok b) ->
  exists tr1 a tr2, tr = tr1 ++ tr2 /\ exec p tr1 (Ok a) /\ exec (f a) tr2 (Ok b).
Proof.
  intros (tr1 & [a|e] & tr2 & -> & Hp & Hf)%exec_bind; [by exists tr1, a, tr2|].
  destruct tr2; [|done]. by simpl in Hf.
Qed.

Lemma exec_bind_err {A B} (p : prog (result A AppError)) (f : A -> prog (result B AppError)) tr e :
  exec (bind_ok p f) tr (Err e) ->
  exec p tr (Err e) \/
  exists tr1 a tr2, tr = tr1 ++ tr2 /\ exec p tr1 (Ok a) /\ exec (f a) tr2 (Err e).
Proof.
  intros (tr1 & [a|e'] & tr2 & -> & Hp & Hf)%exec_bind; [right; by exists tr1, a, tr2|left].
  destruct tr2; [|done]. simpl in Hf. simplify_eq. by rewrite app_nil_r.
Qed.

Lemma exec_ret {A} (a b : A) tr : exec (Ret a) tr b <-> tr = [] /\ b = a.
Proof. destruct tr; simpl; naive_solver. Qed.

Lemma exec_step1 {A} (f : Tick -> World -> A * World) tr a :
  exec (Step f Ret) tr a <-> exists t w, tr = [(t, w, (f t w).2)] /\ a = (f t w).1.
Proof.
  destruct tr as [|[[t w] w'] [|]]; simpl; split.
  - done.
  - by intros (? & ? & ? & _).
  - intros [-> ->]. eauto.
  - intros (t' & w0 & ? & ?). by simplify_eq.
  - by intros [_ ?].
  - intros (t' & w0 & ? & ?). by simplify_eq.
Qed.

Lemma exec_read {A} (f : Tick -> A) tr a :
  exec (read f) tr a <-> exists t w, tr = [(t, w, w)] /\ a = f t.
Proof. apply exec_step1. Qed.

Lemma exec_stmt_ok {A} (f : Db.Database -> result A Db.DbErr * Db.Database) tr a :
  exec (stmt f) tr (Ok a) -> exists t w d, tr = [(t, w, set_db w d)] /\ f (db w) = (Ok a, d).
Proof.
  intros (t & w & -> & Ha)%exec_step1. destruct (db_faults t 0); [done|].
  destruct (f (db w)) as [[x|e] d] eqn:Hf; simpl in *; simplify_eq. by exists t, w, d.
Qed.

Lemma exec_query_ok {A} (f : Db.Database -> A) tr a :
  exec (query f) tr (Ok a) -> exists t w, tr = [(t, w, set_db w (db w))] /\ a = f (db w).
Proof. intros (t & w & d & -> & Hf)%exec_stmt_ok. simplify_eq. eauto. Qed.

Lemma run_exec {A} env (p : prog A) : forall i w,
  exists tr, exec p tr (run env i p w).1.1 /\
    last (w :: tr.*2) = Some (run env i p w).1.2.
Proof.
  induction p as [a|B f k IH]; intros i w; simpl; [by exists []|].
  destruct (f (env i) w) as [b w'] eqn:Hf. destruct (IH b (S i) w') as (tr & He & Hl).
  exists ((env i, w, w') :: tr). rewrite Hf. simpl in *. split; [done|].
  destruct (run env (S i) (k b) w') as [[a w1] i']. simpl in *. by rewrite <- Hl.
Qed.

(** The trace of a program that runs alone. *)
Fixpoint trace {A} (env : nat -> Tick) (i : nat) (p : prog A) (w : World)
  : list (Tick * World * World) :=
  match p with
  | Ret _ => []
  | Step f k => let '(b, w') := f (env i) w in (env i, w, w') :: trace env (S i) (k b) w'
  end.

Lemma trace_exec {A} env (p : prog A) : forall i w, exec p (trace env i p w) (run env i p w).1.1.
Proof.
  induction p as [a|B f k IH]; intros i w; simpl; [done|].
  destruct (f (env i) w) as [b w'] eqn:Hf. rewrite Hf. split; [done|]. apply IH.
Qed.

Lemma outcome_exec {A} env (p : prog A) w a :
  outcome env p w = a -> exec p (trace env 0 p w) a.
Proof. intros <-. apply trace_exec. Qed.

(** Every step of the program, in every execution of it, is in [R]. *)
Definition always_at {A} (R : Tick -> World -> World -> Prop) (p : prog A) : Prop :=
  forall tr a, exec p tr a -> Forall (fun s => R s.1.1 s.1.2 s.2) tr.

Lemma always_at_ret {A} R (a : A) : always_at R (Ret a).
Proof. intros [|] b He; [constructor|done]. Qed.

Lemma always_at_step {A B} (R : Tick -> World -> World -> Prop) (f : Tick -> World -> B * World)
    (k : B -> prog A) :
  (forall t w, R t w (f t w).2) -> (forall b, always_at R (k b)) -> always_at R (Step f k).
Proof.
  intros Hf Hk [|[[t w] w'] tr] a He; [done|]. destruct He as [-> He].
  constructor; [apply Hf|by eapply Hk].
Qed.

Lemma always_at_bind {A B} R (p : prog A) (f : A -> prog B) :
  always_at R p -> (forall a, always_at R (f a)) -> always_at R (bind p f).
Proof.
  intros Hp Hf tr b (tr1 & a & tr2 & -> & H1 & H2)%exec_bind. apply Forall_app.
  split; [by eapply Hp|by eapply Hf].
Qed.

Lemma always_at_bind_ok {A B} R (p : prog (result A AppError)) (f : A -> prog (result B AppError)) :
  always_at R p -> (forall a, always_at R (f a)) -> always_at R (bind_ok p f).
Proof. intros Hp Hf. apply always_at_bind; [done|]. intros [a|e]; [done|apply always_at_ret]. Qed.

Lemma always_at_inv {A B} (R : Tick -> World -> World -> Prop) (f : Tick -> World -> B * World)
    (k : B -> prog A) t w :
  always_at R (Step f k) -> R t w (f t w).2 /\ always_at R (k (f t w).1).
Proof.
  intros Ha. split.
  - destruct (run_exec (fun _ => t) (k (f t w).1) 0 (f t w).2) as (tr & He & _).
    assert (exec (Step f k) ((t, w, (f t w).2) :: tr) (run (fun _ => t) 0 (k (f t w).1) (f t w).2).1.1)
      as [H _]%Ha%Forall_cons by done. done.
  - intros tr a He. assert (exec (Step f k) ((t, w, (f t w).2) :: tr) a) as [_ H]%Ha%Forall_cons by done.
    done.
Qed.

(** The same when the relation does not look at the tick. *)
Definition always {A} (R : World -> World -> Prop) (p : prog A) : Prop := always_at (fun _ => R) p.

Lemma always_ret {A} R (a : A) : always R (Ret a).
Proof. apply always_at_ret. Qed.

Lemma always_step {A B} (R : World -> World -> Prop) (f : Tick -> World -> B * World)
    (k : B -> prog A) :
  (forall t w, R w (f t w).2) -> (forall b, always R (k b)) -> always R (Step f k).
Proof. apply always_at_step. Qed.

Lemma always_bind {A B} R (p : prog A) (f : A -> prog B) :
  always R p -> (forall a, always R (f a)) -> always R (bind p f).
Proof. apply always_at_bind. Qed.

Lemma always_bind_ok {A B} R (p : prog (result A AppError)) (f : A -> prog (result B AppError)) :
  always R p -> (forall a, always R (f a)) -> always R (bind_ok p f).
Proof. apply always_at_bind_ok. Qed.

(** ** Histories

    The steps of all tasks in the order they were taken. *)
Inductive history (start : prog unit -> Prop)
  : World * list (prog unit) -> list (Tick * World * World) -> World * list (prog unit) -> Prop :=
| history_nil c : history start c [] c
| history_start w ps p h c : start p -> history start (w, p :: ps) h c -> history start (w, ps) h c
| history_step w ps1 ps2 B (f : Tick -> World -> B * World) k t h c :
    history start ((f t w).2, ps1 ++ k (f t w).1 :: ps2) h c ->
    history start (w, ps1 ++ Step f k :: ps2) ((t, w, (f t w).2) :: h) c.

(** Each step starts where the one before it ended. *)
Fixpoint linked (w : World) (h : list (Tick * World * World)) (w' : World) : Prop :=
  match h with
  | [] => w' = w
  | (_, w1, w2) :: h' => w1 = w /\ linked w2 h' w'
  end.

(** Every interleaving has a history. *)
Lemma sched_history start c c' : rtc (sched start) c c' -> exists h, history start c h c'.
Proof.
  induction 1 as [c|c c1 c' Hstep _ [h Hh]]; [exists []; constructor|].
  destruct Hstep as [w ps p Hp|w ps1 ps2 B f k t].
  - exists h. by econstructor.
  - eexists. by constructor.
Qed.

(** What every step of the tasks is in, every history is made of. *)
Lemma history_always (R : Tick -> World -> World -> Prop) (start : prog unit -> Prop) c h c' :
  (forall p, start p -> always_at R p) -> history start c h c' -> Forall (always_at R) c.2 ->
  linked c.1 h c'.1 /\ Forall (fun s => R s.1.1 s.1.2 s.2) h.
Proof.
  intros Hstart Hh. induction Hh as [c|w ps p h c Hp _ IH|w ps1 ps2 B f k t h c _ IH]; intros Hps; simpl in *.
  - by split.
  - apply IH. constructor; [by apply Hstart|done].
  - apply Forall_app in Hps as [H1 [H2 H3]%Forall_cons].
    apply (always_at_inv R f k t w) in H2 as [HR Hk].
    destruct IH as [Hl HF]; [apply Forall_app; split; [done|]; by constructor|].
    split; [done|by constructor].
Qed.

(** A property a step cannot break holds along a history. *)
Lemma linked_inv (I : World -> Prop) w h w' :
  linked w h w' -> Forall (fun s => I s.1.2 -> I s.2) h -> I w -> I w' /\ Forall (fun s => I s.1.2) h.
Proof.
  revert w. induction h as [|[[t w1] w2] h IH]; simpl; intros w Hl HF Hw; [by subst|].
  destruct Hl as [-> Hl]. apply Forall_cons in HF as [H1 HF].
  destruct (IH w2 Hl HF (H1 Hw)). split; [done|by constructor].
Qed.

Lemma run_bind {A B} env i (p : prog A) (f : A -> prog B) w :
  run env i (bind p f) w =
  let '(a, w', i') := run env i p w in run env i' (f a) w'.
Proof.
  revert i w. induction p as [a|C g k IH]; intros i w; simpl; [done|].
  destruct (g (env i) w) as [b w']. apply IH.
Qed.

Lemma trace_bind {A B} env i (p : prog A) (f : A -> prog B) w :
  trace env i (bind p f) w =
  trace env i p w ++ (let '(a, w', i') := run env i p w in trace env i' (f a) w').
Proof.
  revert i w. induction p as [a|C g k IH]; intros i w; simpl; [done|].
  destruct (g (env i) w) as [b w']. by rewrite IH.
Qed.

Lemma run_length {A} env (p : prog A) : forall i w, (run env i p w).2 = (i + length (trace env i p w))%nat.
Proof.
  induction p as [a|C g k IH]; intros i w; simpl; [lia|].
  destruct (g (env i) w) as [b w']. simpl. rewrite IH. lia.
Qed.

Lemma trace_ticks {A} env (p : prog A) : forall i w n s,
  trace env i p w !! n = Some s -> s.1.1 = env (i + n)%nat.
Proof.
  induction p as [a|C g k IH]; intros i w n s; simpl; [done|].
  destruct (g (env i) w) as [b w']. destruct n as [|n]; simpl.
  - intros [= <-]. by rewrite Nat.add_0_r.
  - intros Hs. rewrite (IH _ _ _ _ _ Hs). f_equal. lia.
Qed.

Lemma history_app start c1 h1 c2 h2 c3 :
  history start c1 h1 c2 -> history start c2 h2 c3 -> history start c1 (h1 ++ h2) c3.
Proof.
  induction 1 as [c|w ps p h c Hp _ IH|w ps1 ps2 B f k t h c _ IH]; intros H2; simpl; [done| |].
  - eapply history_start; [exact Hp|by apply IH].
  - by apply history_step, IH.
Qed.

(** The world before a step of a history is one that is reached. *)
Lemma history_at start c h c' i s :
  history start c h c' -> h !! i = Some s -> exists ps, rtc (sched start) c (s.1.2, ps).
Proof.
  intros Hh. revert i. induction Hh as [c|w ps p h c Hp _ IH|w ps1 ps2 B f k t h c _ IH]; intros i Hi; [done| |].
  - destruct (IH i Hi) as [ps' Hr]. exists ps'. eapply rtc_l; [by apply sched_start|done].
  - destruct i as [|i]; [injection Hi as <-; by eexists|]. destruct (IH i Hi) as [ps' Hr]. exists ps'.
    eapply rtc_l; [by apply sched_step|done].
Qed.

(** A task that starts and runs to its end while the others wait. *)
Lemma history_alone start env (p : prog unit) i w ps :
  start p -> exists a, history start (w, ps) (trace env i p w) ((run env i p w).1.2, Ret a :: ps).
Proof.
  intros Hp. assert (exists a, history start (w, p :: ps) (trace env i p w) ((run env i p w).1.2, Ret a :: ps))
    as [a Ha]; [|exists a; by eapply history_start]. clear Hp.
  revert i w. induction p as [a|C g k IH]; intros i w; simpl; [exists a; constructor|].
  destruct (g (env i) w) as [b w'] eqn:Hg. destruct (IH b (S i) w') as [a Ha]. exists a.
  pose proof (history_step start w [] ps C g k (env i)) as Hs. rewrite Hg in Hs. by apply Hs.
Qed.

End app.
#[global] Arguments prog {L} A.
#[global] Arguments World {L}.
#[global] Arguments Tick : clear implicits.

(** A step belongs to a trace given in pieces. *)
Ltac in_trace := rewrite ?elem_of_app, ?elem_of_cons, ?list_elem_of_singleton; solve [eauto 25].

(** [always] along a program: [close] proves the leaves. *)
Ltac walk close :=
  repeat first
    [ progress cbv beta zeta
    | solve [close]
    | lazymatch goal with
      | |- always_at _ (bind_ok _ _) => apply always_at_bind_ok; [|intros ?]
      | |- always_at _ (bind _ _) => apply always_at_bind; [|intros ?]
      | |- always_at _ (lift _) => apply always_at_ret
      | |- always_at _ (Ret _) => apply always_at_ret
      | |- always_at _ (if ?b then _ else _) => destruct b eqn:?
      | |- always_at _ (match ?b with _ => _ end) => destruct b eqn:?
      | |- always _ (bind_ok _ _) => apply always_bind_ok; [|intros ?]
      | |- always _ (bind _ _) => apply always_bind; [|intros ?]
      | |- always _ (lift _) => apply always_ret
      | |- always _ (Ret _) => apply always_ret
      | |- always _ (if ?b then _ else _) => destruct b eqn:?
      | |- always _ (match ?b with _ => _ end) => destruct b eqn:?
      end ].

(** Which of the pieces of a trace a step is; the steps that contradict the rest
    of the context are dismissed. *)
Ltac case_trace H :=
  rewrite ?elem_of_app, ?elem_of_cons, ?elem_of_nil in H;
  destruct_or? H; simplify_eq; try done.

Declare Scope prog_scope.
Delimit Scope prog_scope with prog.

(** [let! x := p in k]: [x] is the value of [p?]. *)
Notation "'let!' x := p 'in' k" := (bind_ok p (fun x => k))
  (at level 10, x binder, p at level 100, k at level 200) : prog_scope.

(** [let* x := p in k]: [x] is the value of [p]. *)
Notation "'let*' x := p 'in' k" := (bind p (fun x => k))
  (at level 10, x binder, p at level 100, k at level 200) : prog_scope.

End App.
