(* ===== verification/Logic.v ===== *)
(** * A program logic for handlers

    [spec W R p Q]: whenever a step of [p] meets a tick and a world in [W], it takes
    the world along [R], and [p] ends with a value in [Q].  The world may change
    between two steps in any way that keeps to [W], so the rules are
    rely-guarantee rules; [history_invariant] turns the specifications of the tasks
    into an invariant of every history, and [spec_exec] into a statement about one
    execution inside it. *)

From S2P Require Import Prelude.
From S2P Require Import Libs.
From S2P Require Import Db.
From S2P Require Import App.
Import App.
#[local] Open Scope prog_scope.

Module Logic.

Section logic.
Context {L : IpNetLib}.
Implicit Types (W : Tick -> World -> Prop) (R : World -> World -> Prop).

Fixpoint spec {A} W R (p : prog A) (Q : A -> Prop) : Prop :=
  match p with
  | Ret a => Q a
  | Step f k => forall t w, W t w -> R w (f t w).2 /\ spec W R (k (f t w).1) Q
  end.

Lemma spec_mono {A} W R (p : prog A) (Q Q' : A -> Prop) :
  spec W R p Q -> (forall a, Q a -> Q' a) -> spec W R p Q'.
Proof.
  intros Hp HQ. induction p as [a|B f k IH]; simpl in *; [by apply HQ|].
  intros t w Hw. destruct (Hp t w Hw). eauto.
Qed.

Lemma spec_bind {A B} W R (p : prog A) (f : A -> prog B) (Q : A -> Prop) (Q' : B -> Prop) :
  spec W R p Q -> (forall a, Q a -> spec W R (f a) Q') -> spec W R (bind p f) Q'.
Proof.
  intros Hp Hf. induction p as [a|C g k IH]; simpl in *; [by apply Hf|].
  intros t w Hw. destruct (Hp t w Hw). eauto.
Qed.

Lemma spec_bind_ok {A B} W R (p : prog (result A AppError)) (f : A -> prog (result B AppError))
    (Q : result A AppError -> Prop) (Q' : result B AppError -> Prop) :
  spec W R p Q -> (forall a, Q (Ok a) -> spec W R (f a) Q') -> (forall e, Q (Err e) -> Q' (Err e)) ->
  spec W R (bind_ok p f) Q'.
Proof. intros Hp Hf He. eapply spec_bind; [exact Hp|]. intros [a|e] Ha; [by apply Hf|by apply He]. Qed.

Lemma spec_lift {A B} W R (r : result A AppError) (f : A -> prog (result B AppError))
    (Q : result B AppError -> Prop) :
  (forall a, r = Ok a -> spec W R (f a) Q) -> (forall e, r = Err e -> Q (Err e)) ->
  spec W R (bind_ok (lift r) f) Q.
Proof. intros Hf He. destruct r as [a|e]; [by apply Hf|by apply He]. Qed.

Lemma spec_step {A} W R (f : Tick -> World -> A * World) (Q : A -> Prop) :
  (forall t w, W t w -> R w (f t w).2 /\ Q (f t w).1) -> spec W R (Step f Ret) Q.
Proof. done. Qed.

(** One execution whose worlds are all in [W]. *)
Lemma spec_exec {A} W R (p : prog A) (Q : A -> Prop) : forall tr a,
  spec W R p Q -> exec p tr a -> Forall (fun s => W s.1.1 s.1.2) tr ->
  Forall (fun s => R s.1.2 s.2) tr /\ Q a.
Proof.
  induction p as [b|B f k IH]; intros [|[[t w] w'] tr] a Hp He HW; simpl in He; try done.
  { subst. split; [constructor|done]. }
  destruct He as [-> He]. apply Forall_cons in HW as [Hw HW]. destruct (Hp t w Hw) as [HR Hk].
  destruct (IH _ tr a Hk He HW). split; [by constructor|done].
Qed.

(** ** Two executions side by side *)

Section relational.
Context (R : World -> World -> Prop).

(** The steps of [p] answer the same in worlds related by [R] and keep them related,
    and [p] ends with a value in [Q]. *)
Fixpoint respects {A} (p : prog A) (Q : A -> Prop) : Prop :=
  match p with
  | Ret a => Q a
  | Step f k => forall t w1 w2, R w1 w2 ->
      (f t w1).1 = (f t w2).1 /\ R (f t w1).2 (f t w2).2 /\ respects (k (f t w1).1) Q
  end.

Lemma respects_bind {A B} (p : prog A) (f : A -> prog B) (Q : A -> Prop) (Q' : B -> Prop) :
  respects p Q -> (forall a, Q a -> respects (f a) Q') -> respects (bind p f) Q'.
Proof.
  intros Hp Hf. induction p as [a|T g k IH]; simpl in *; [by apply Hf|]. intros t w1 w2 Hw.
  destruct (Hp t w1 w2 Hw) as (? & ? & ?). eauto.
Qed.

Lemma respects_step {A} (f : Tick -> World -> A * World) (Q : A -> Prop) :
  (forall t w1 w2, R w1 w2 -> (f t w1).1 = (f t w2).1 /\ R (f t w1).2 (f t w2).2 /\ Q (f t w1).1) ->
  respects (Step f Ret) Q.
Proof. done. Qed.

(** Two executions whose steps meet the same ticks and related worlds, place by
    place, take the same number of steps and return the same. *)
Lemma respects_exec {A} (p : prog A) (Q : A -> Prop) : forall tr1 tr2 a1 a2,
  respects p Q -> exec p tr1 a1 -> exec p tr2 a2 ->
  (forall i s1 s2, tr1 !! i = Some s1 -> tr2 !! i = Some s2 -> s1.1.1 = s2.1.1 /\ R s1.1.2 s2.1.2) ->
  a1 = a2 /\ Forall2 (fun s1 s2 => R s1.2 s2.2) tr1 tr2.
Proof.
  induction p as [a|B f k IH]; intros [|[[t1 w1] v1] tr1] [|[[t2 w2] v2] tr2] a1 a2 Hp H1 H2 Hrel;
    simpl in H1, H2; try done.
  { subst. by split; [|constructor]. }
  destruct H1 as [-> H1], H2 as [-> H2]. destruct (Hrel 0%nat _ _ eq_refl eq_refl) as [Ht Hw].
  cbn [fst snd] in Ht, Hw. subst t2. destruct (Hp t1 w1 w2 Hw) as (Heq & Hv & Hk).
  rewrite <- Heq in H2. destruct (IH _ tr1 tr2 a1 a2 Hk H1 H2) as [-> HF].
  { intros i s1 s2. apply (Hrel (S i)). }
  split; [done|]. by constructor.
Qed.

(** Alone, from related worlds, that is what happens. *)
Lemma respects_trace {A} (p : prog A) (Q : A -> Prop) env : forall n w1 w2 i s1 s2,
  respects p Q -> R w1 w2 -> trace env n p w1 !! i = Some s1 -> trace env n p w2 !! i = Some s2 ->
  s1.1.1 = s2.1.1 /\ R s1.1.2 s2.1.2.
Proof.
  induction p as [a|B f k IH]; intros n w1 w2 i s1 s2 Hp Hw; cbn [trace]; [done|].
  destruct (Hp (env n) w1 w2 Hw) as (Heq & Hw' & Hk).
  destruct (f (env n) w1) as [b1 v1], (f (env n) w2) as [b2 v2]. cbn [fst snd] in *. subst b2.
  destruct i as [|i]; [by intros [= <-] [= <-]|]. by apply IH.
Qed.

End relational.

(** ** What every step does, along histories *)

Section obeys.
Context (T : Tick -> Prop) (R : World -> World -> Prop).

(** Under ticks in [T] every step of [p] follows [R], in whatever world it is taken. *)
Definition obeys {A} (p : prog A) (Q : A -> Prop) : Prop := spec (fun t _ => T t) R p Q.

Lemma obeys_bind_any {A B} (p : prog A) (f : A -> prog B) (Q : B -> Prop) :
  obeys p (fun _ => True) -> (forall a, obeys (f a) Q) -> obeys (bind p f) Q.
Proof. intros Hp Hf. eapply spec_bind; [exact Hp|]. intros a _. apply Hf. Qed.

Lemma obeys_bind_ok_any {A B} (p : prog (result A AppError)) (f : A -> prog (result B AppError)) :
  obeys p (fun _ => True) -> (forall a, obeys (f a) (fun _ => True)) -> obeys (bind_ok p f) (fun _ => True).
Proof. intros Hp Hf. eapply spec_bind_ok; [exact Hp|intros a _; apply Hf|done]. Qed.

Lemma obeys_step {A} (f : Tick -> World -> A * World) :
  (forall t w, R w (f t w).2) -> obeys (Step f Ret) (fun _ => True).
Proof. intros Hf. by apply spec_step. Qed.

Lemma history_obeys start w h w' ps :
  (forall p, start p -> obeys p (fun _ => True)) -> history start (w, []) h (w', ps) ->
  Forall (fun s => T s.1.1) h -> linked w h w' /\ Forall (fun s => R s.1.2 s.2) h.
Proof.
  intros Hstart Hh. remember (w, []) as c eqn:Hc. remember (w', ps) as c' eqn:Hc'.
  replace w with c.1 by by subst. replace w' with c'.1 by by subst.
  assert (Forall (fun p => obeys p (fun _ => True)) c.2) as Hps by (subst; constructor). clear Hc Hc' w w' ps.
  induction Hh as [c|w ps p h c Hp _ IH|w ps1 ps2 B f k t h c _ IH]; intros HT; simpl in *.
  - by split.
  - apply IH; [constructor; [by apply Hstart|done]|done].
  - apply Forall_cons in HT as [Ht HT]. apply Forall_app in Hps as [H1 [H2 H3]%Forall_cons].
    destruct (H2 t w Ht) as [HR Hk].
    destruct IH as [Hl HF]; [apply Forall_app; split; [done|by constructor]|done|].
    split; [done|by constructor].
Qed.

End obeys.

(** ** Invariants *)

Section invariant.
Context (T : Tick -> Prop) (I : World -> Prop).

(** [p] keeps [I] at every step, under ticks in [T]. *)
Definition inv {A} (p : prog A) (Q : A -> Prop) : Prop :=
  spec (fun t w => T t /\ I w) (fun _ w' => I w') p Q.

Definition any {A} (_ : A) : Prop := True.

Lemma inv_any {A} (p : prog A) (Q : A -> Prop) : inv p Q -> inv p any.
Proof. intros Hp. eapply spec_mono; [exact Hp|done]. Qed.

Lemma inv_ret {A} (a : A) (Q : A -> Prop) : Q a -> inv (Ret a) Q.
Proof. done. Qed.

Lemma inv_bind_any {A B} (p : prog A) (f : A -> prog B) (Q : B -> Prop) :
  inv p any -> (forall a, inv (f a) Q) -> inv (bind p f) Q.
Proof. intros Hp Hf. eapply spec_bind; [exact Hp|]. intros a _. apply Hf. Qed.

Lemma inv_bind_ok_any {A B} (p : prog (result A AppError)) (f : A -> prog (result B AppError)) :
  inv p any -> (forall a, inv (f a) any) -> inv (bind_ok p f) any.
Proof. intros Hp Hf. eapply spec_bind_ok; [exact Hp|intros a _; apply Hf|done]. Qed.

Lemma inv_read {A} (f : Tick -> A) (Q : A -> Prop) : (forall t, T t -> Q (f t)) -> inv (read f) Q.
Proof. intros HQ. apply spec_step. intros t w [Ht Hw]. split; [done|by apply HQ]. Qed.

Lemma inv_step_any {A} (f : Tick -> World -> A * World) :
  (forall t w, T t -> I w -> I (f t w).2) -> inv (Step f Ret) any.
Proof. intros Hf. apply spec_step. intros t w [Ht Hw]. split; [by apply Hf|done]. Qed.

Lemma history_invariant start w h w' ps :
  (forall p, start p -> inv p any) -> history start (w, []) h (w', ps) ->
  Forall (fun s => T s.1.1) h -> I w -> I w' /\ Forall (fun s => I s.1.2) h.
Proof.
  intros Hstart Hh. remember (w, []) as c eqn:Hc. remember (w', ps) as c' eqn:Hc'.
  replace w with c.1 by by subst. replace w' with c'.1 by by subst.
  assert (Forall (fun p => inv p any) c.2) as Hps by (subst; constructor). clear Hc Hc' w w' ps.
  induction Hh as [c|w ps p h c Hp _ IH|w ps1 ps2 B f k t h c _ IH]; intros HT Hw; simpl in *.
  - by split.
  - apply IH; [constructor; [by apply Hstart|done]|done|done].
  - apply Forall_cons in HT as [Ht HT]. apply Forall_app in Hps as [H1 [H2 H3]%Forall_cons].
    destruct (H2 t w (conj Ht Hw)) as [Hw' Hk].
    destruct IH as [Hc HF]; [apply Forall_app; split; [done|by constructor]|done..|].
    split; [done|by constructor].
Qed.

End invariant.
End logic.

(** Walk along a program whose values do not matter: [close] proves the leaves. *)
Ltac inv_walk close :=
  repeat first
    [ progress cbv beta zeta
    | solve [close]
    | lazymatch goal with
      | |- inv _ _ (bind_ok (lift _) _) _ => apply spec_lift; [intros ? ?|done]
      | |- inv _ _ (bind_ok _ _) any => apply inv_bind_ok_any; [|intros ?]
      | |- inv _ _ (bind _ _) _ => apply inv_bind_any; [|intros ?]
      | |- inv _ _ (lift _) any => exact I
      | |- inv _ _ (Ret _) any => exact I
      | |- spec _ _ _ _ => lazymatch goal with |- spec (fun t w => ?T t /\ ?J w) _ ?p ?Q => change (inv T J p Q) end
      | |- inv _ _ (if ?b then _ else _) _ => destruct b eqn:?
      | |- inv _ _ (match ?b with _ => _ end) _ => destruct b eqn:?
      end ].

(** The same for [obeys]. *)
Ltac obeys_walk close :=
  repeat first
    [ progress cbv beta zeta
    | solve [close]
    | lazymatch goal with
      | |- obeys _ _ (bind_ok (lift _) _) _ => apply spec_lift; [intros ? ?|done]
      | |- obeys _ _ (bind_ok _ _) _ => apply obeys_bind_ok_any; [|intros ?]
      | |- obeys _ _ (bind _ _) _ => apply obeys_bind_any; [|intros ?]
      | |- obeys _ _ (lift _) _ => exact I
      | |- obeys _ _ (Ret _) _ => exact I
      | |- spec _ _ _ _ => lazymatch goal with |- spec (fun t _ => ?T t) ?R ?p ?Q => change (obeys T R p Q) end
      | |- obeys _ _ (if ?b then _ else _) _ => destruct b eqn:?
      | |- obeys _ _ (match ?b with _ => _ end) _ => destruct b eqn:?
      end ].

End Logic.
