(* ===== verification/Demo.v ===== *)
(** * A small service to evaluate the theorems on

    A database with the master, one Daughter key that owns a feed on two granted
    groups, a cache, and an environment in which nothing fails. *)

From S2P Require Import Prelude.
From S2P Require Import RustStr.
From S2P Require Import Net.
From S2P Require Import Libs.
From S2P Require Import LibsRef.
From S2P Require Import Cache.
From S2P Require Import Crypto.
From S2P Require Import VaultClient.
From S2P Require Import DnsCache.
From S2P Require Import Http.
From S2P Require Import Config.
From S2P Require Import RateLimit.
From S2P Require Import Replay.
From S2P Require Import Db.
From S2P Require Import App.
Import App.
#[local] Open Scope Z_scope.

Module Demo.
Import Ref.

Definition master : Db.ApiKey := {|
  Db.k_id := 1; Db.k_name := "System Master"; Db.k_prefix := "mkey";
  Db.k_key_hash := hex_encode (sha256 "mkey");
  Db.k_signing_secret := Some ("v1.plain." +:+ hex_encode "msecret");
  Db.k_bound_ips := None; Db.k_is_master := true; Db.k_can_manage_keys := true;
  Db.k_parent_key_id := None; Db.k_owner_key_id := None; Db.k_created_at := 0; Db.k_updated_at := 0;
|}.

Definition daughter : Db.ApiKey := {|
  Db.k_id := 2; Db.k_name := "team"; Db.k_prefix := "dkey";
  Db.k_key_hash := hex_encode (sha256 "dkey");
  Db.k_signing_secret := Some ("v1.plain." +:+ hex_encode "dsecret");
  Db.k_bound_ips := Some "203.0.113.0/24"; Db.k_is_master := false; Db.k_can_manage_keys := false;
  Db.k_parent_key_id := Some 1%N; Db.k_owner_key_id := Some 1%N; Db.k_created_at := 0; Db.k_updated_at := 0;
|}.

Definition feed : Db.Endpoint := {|
  Db.e_id := 10; Db.e_owner_key_id := Some 2%N; Db.e_name := "edge"; Db.e_description := None;
  Db.e_token_secret := "tok"; Db.e_vault_groups := "malware,scanners"; Db.e_ttl_seconds := 60;
  Db.e_max_age_seconds := 0; Db.e_bound_ips := None; Db.e_filter_rfc1918 := true;
  Db.e_filter_bogons := true; Db.e_filter_loopback := true; Db.e_last_synced_at := None;
  Db.e_created_at := 0; Db.e_updated_at := 0;
|}.

Definition grant1 : Db.VaultGroupPermission := Db.mkVaultGroupPermission 20 2 100 "malware" 0.
Definition grant2 : Db.VaultGroupPermission := Db.mkVaultGroupPermission 21 2 101 "scanners" 0.

Definition database : Db.Database := {|
  Db.api_keys := {[1%N := master; 2%N := daughter]};
  Db.endpoints := {[10%N := feed]};
  Db.audit_logs := ∅;
  Db.vault_group_permissions := {[20%N := grant1; 21%N := grant2]};
|}.

Definition settings : Config.RuntimeConfig :=
  Config.mkRuntimeConfig (Config.mkTrustedProxies [] [] []) 300 (Some "http://vault") (Some "key")
    (Some "secret").

Definition service : AppConfig := mkAppConfig settings Crypto.Plaintext (Some Vault.w_client).

Definition start : World :=
  set_cache (initial_world database settings 0) (Cache.apply_full 0 Cache.new 10%N
    [Cache.mkVaultRecord "8.8.8.8" 0 false; Cache.mkVaultRecord "10.0.0.1" 0 false]).

Fixpoint filler (n : nat) : string :=
  match n with O => "" | S n1 => "a" +:+ filler n1 end.

Definition tick (j : nat) : Tick := {|
  wall := from_secs (1000 + Z.of_nat j);
  mono := from_secs (Z.of_nat j);
  db_faults _ := false;
  fresh_uuid := 1000 + N.of_nat j;
  random := filler;
  dns _ := Dns.mkDnsTick 0 0 0 (fun _ => None);
  vault := Vault.w_env;
|}.

(** The client of the demonstration. *)
Definition client : IpAddr := V4 3405803785.

Lemma database_wf : Db.db_wf database.
Proof.
  split; unfold Db.keyed, Db.unique_on, Db.refers, database; cbn [Db.api_keys Db.endpoints
    Db.audit_logs Db.vault_group_permissions]; intros.
  all: repeat match goal with
    | H : _ !! _ = Some _ |- _ => rewrite ?lookup_insert_Some, ?lookup_singleton_Some in H
    | H : ∅ !! _ = Some _ |- _ => rewrite lookup_empty in H; done
    end.
  all: naive_solver.
Qed.

End Demo.
