(* ===== verification/Auth.v ===== *)
(** * [master.rs], [middleware.rs], [api/guards.rs], [api/support.rs]

    The pinned master, the authentication of a signed request, the guards every
    mutating key route applies, and the audit entry a mutation writes. *)

From S2P Require Import Prelude.
From S2P Require Import RustStr.
From S2P Require Import Net.
From S2P Require Import Libs.
From S2P Require Import LibsRef.
From S2P Require Import Crypto.
From S2P Require Import DnsCache.
From S2P Require Import Http.
From S2P Require Import Config.
From S2P Require Import Replay.
From S2P Require Import DbConn.
From S2P Require Import Db.
From S2P Require Import App.
From S2P Require Import Demo.
Import App.
#[local] Open Scope Z_scope.
#[local] Open Scope prog_scope.

(** ** [master.rs] *)

Module Master.

Section master.
Context {L : IpNetLib}.

Inductive MasterPinError :=
| NoMaster
| Duplicates (ids : list Uuid)
| MissingConstraint
| PinDb (e : Db.DbErr).

(** The result of [resolve_inner] from the rows flagged [is_master]. *)
Definition the_master (masters : list Db.ApiKey) : result Uuid MasterPinError :=
  match masters with
  | [] => Err NoMaster
  | [k] => Ok (Db.k_id k)
  | _ => Err (Duplicates (Db.k_id <$> masters))
  end.

Definition resolve_inner : prog (result Uuid MasterPinError) :=
  let* masters := query (fun d => Db.find_all Db.k_is_master (Db.api_keys d)) in
  Ret match masters with
      | Ok ms => the_master ms
      | Err (DbError e) => Err (PinDb e)
      | Err _ => Err (PinDb Db.Fault)
      end.

Definition get : prog (option Uuid) := Step (fun _ w => (master_pin w, w)) Ret.

(** [cell.set(id)] succeeds only on an empty cell; then [cell.get()]. *)
Definition set_and_get (id : Uuid) : prog (option Uuid) :=
  Step (fun _ w =>
    match master_pin w with
    | Some p => (Some p, w)
    | None => (Some id, set_pin w (Some id))
    end) Ret.

Definition MASTER_MARKER_INDEX : string := "idx_api_keys_master_marker".
Definition API_KEYS_TABLE : string := "api_keys".

(** [has_index] is the answer of [db::has_index] for the master marker. *)
Definition pin_at_boot (has_index : result bool DbConn.DbErr) : prog (result Uuid MasterPinError) :=
  match has_index with
  | Err _ => Ret (Err (PinDb Db.Fault))
  | Ok false => Ret (Err MissingConstraint)
  | Ok true =>
      let* r := resolve_inner in
      match r with
      | Err e => Ret (Err e)
      | Ok id => let* pinned := set_and_get id in Ret (Ok (default id pinned))
      end
  end.

Definition resolve : prog (option Uuid) :=
  let* pin := get in
  match pin with
  | Some id => Ret (Some id)
  | None =>
      let* r := resolve_inner in
      match r with
      | Ok id => set_and_get id
      | Err _ => Ret None
      end
  end.

Definition authenticate (key : Db.ApiKey) : prog Db.ApiKey :=
  if negb (Db.k_is_master key) then Ret key else
  let* pinned := resolve in
  Ret match pinned with
      | Some p => if bool_decide (p = Db.k_id key) then key else Db.set_key_is_master false key
      | None => Db.set_key_is_master false key
      end.

End master.
End Master.

(** ** [api/guards.rs] *)

Module Guards.

Definition require_master (caller : Db.ApiKey) : result unit AppError :=
  if Db.k_is_master caller then Ok tt
  else Err (Forbidden "Only the Master key can manage API keys").

Definition guard_master_delete_or_rotate (target : Db.ApiKey) (operation : string)
  : result unit AppError :=
  if Db.k_is_master target
  then Err (Forbidden ("The Master key cannot be " +:+ operation +:+ " through the API"))
  else Ok tt.

Definition guard_master_update (target : Db.ApiKey) (name_present can_manage_keys_present : bool)
  : result unit AppError :=
  if Db.k_is_master target && (name_present || can_manage_keys_present)
  then Err (Forbidden "The Master key is immutable through the API except for its own bound_ips")
  else Ok tt.

End Guards.

(** ** [api/support.rs] *)

Module Support.

Section support.
Context {L : IpNetLib} {C : CryptoLib} {U : UuidLib}.

Definition generate_random_key : prog string := read (fun t => hex_encode (random t 32)).

Definition hash_key (key : string) : string := hex_encode (sha256 key).

Definition describe_resource (kind : string) (id : Uuid) (name : string) : string :=
  kind +:+ ":" +:+ uuid_show id +:+ " (" +:+ name +:+ ")".

Definition audit_row (key : Db.ApiKey) (client_ip : IpAddr) (action : string)
    (target_resource details : option string) (t : Tick) : Db.AuditLog := {|
  Db.a_id := fresh_uuid t;
  Db.a_api_key_id := Some (Db.k_id key);
  Db.a_api_key_name := Db.k_name key;
  Db.a_api_key_prefix := Db.k_prefix key;
  Db.a_client_ip := ip_show client_ip;
  Db.a_action := action;
  Db.a_target_resource := target_resource;
  Db.a_details := details;
  Db.a_timestamp := wall t;
|}.

Definition create_audit_log (key : Db.ApiKey) (client_ip : IpAddr) (action : string)
    (target_resource details : option string) : prog (result unit AppError) :=
  let* row := read (audit_row key client_ip action target_resource details) in
  let! _ := stmt (Db.insert_audit row) in
  Ret (Ok tt).

(** [Utc::now().naive_utc()] and [Uuid::new_v4()]. *)
Definition now_utc : prog Z := read wall.
Definition new_v4 : prog Uuid := read fresh_uuid.

Definition generate_signing_secret : prog string :=
  read (fun t => Crypto.generate_signing_secret (random t 32)).

(** [state.cipher.seal(secret).map_err(|_| Internal)]. *)
Definition seal_secret (app : AppConfig) (secret : string) : prog (result string AppError) :=
  let* nonce := read (fun t => random t Crypto.NONCE_LEN) in
  Ret (map_err (fun _ => Internal) (Crypto.seal (cipher app) nonce secret)).

Definition bool_show (b : bool) : string := if b then "true" else "false".

(** The audit detail of an update. *)
Definition changed_detail (changed : list string) : string :=
  "changed: " +:+ (if Nat.eqb (length changed) 0 then "(none)" else Str.join ", " changed).

End support.
End Support.

(** ** [middleware.rs] *)

Module Middleware.

Section middleware.
Context {L : IpNetLib} {C : CryptoLib}.

Definition API_KEY_HEADER : string := "X-API-Key".
Definition SIGNATURE_HEADER : string := "X-Signature-256".
Definition TIMESTAMP_HEADER : string := "X-Timestamp".
Definition MAX_REQUEST_BODY_BYTES : Z := 3 * 1024 * 1024.
Definition MAX_SIGNED_BODY_BYTES : Z := MAX_REQUEST_BODY_BYTES.

(** A request: the peer, the headers, the method, the original path and query,
    and the body ([None]: the stream failed). *)
Record Request := mkRequest {
  rq_peer : IpAddr;
  rq_headers : Http.HeaderMap;
  rq_method : string;
  rq_target : string;
  rq_body : option Bytes;
}.

(** [now] is [Utc::now().timestamp()]; the arithmetic is [i64]'s. *)
Definition validate_timestamp (now : Z) (raw : string) (max_age_seconds : Z)
  : result unit AppError :=
  match Str.parse_i64 (Str.trim raw) with
  | None => Err (Unauthorized (TIMESTAMP_HEADER +:+ " must be a Unix timestamp"))
  | Some presented =>
      let skew := wrap_i64 (Z.abs (wrap_i64 (now - presented))) in
      if max_age_seconds <? skew then
        Err (Unauthorized ("Request timestamp is outside the permitted "
               +:+ pretty max_age_seconds +:+ "s window (off by " +:+ pretty skew +:+ "s)"))
      else Ok tt
  end.

Definition reject_signature (rejection : Crypto.SignatureRejection) : AppError :=
  match rejection with
  | Crypto.MissingPrefix => Unauthorized "Signature must be formatted as sha256=<hex>"
  | Crypto.MalformedHex => Unauthorized "Signature is not valid hexadecimal"
  | Crypto.Mismatch => Unauthorized "Invalid request signature"
  | Crypto.KeyUnusable => Internal
  end.

Definition recover_signing_secret (app : AppConfig) (key_record : Db.ApiKey)
  : result string AppError :=
  match Db.k_signing_secret key_record with
  | None => Err (Unauthorized "This API key has no signing secret; rotate it to obtain one")
  | Some stored => map_err (fun _ => Internal) (Crypto.open (cipher app) stored)
  end.

Definition too_large : AppError :=
  BodyRejected 413 "Request body exceeds the maximum allowed size".

(** [to_bytes(body, MAX_SIGNED_BODY_BYTES)]. *)
Definition to_bytes (body : option Bytes) : result Bytes AppError :=
  match body with
  | Some b => if MAX_SIGNED_BODY_BYTES <? Z.of_nat (String.length b) then Err too_large else Ok b
  | None => Err too_large
  end.

Definition declared_too_large (headers : Http.HeaderMap) : bool :=
  match Http.get_str headers "Content-Length" with
  | Some s => match Str.parse_usize s with
              | Some declared => MAX_SIGNED_BODY_BYTES <? declared
              | None => false
              end
  | None => false
  end.

(** [trusted_proxies.resolved()] and [resolve_client_ip]. *)
Definition client_ip_of (app : AppConfig) (peer : IpAddr) (headers : Http.HeaderMap) : prog IpAddr :=
  Step (fun t w =>
    let '(trusted, d) := Config.resolved (dns t) (Config.trusted_proxies (config app))
                           (dns_resolver w) in
    (Config.resolve_client_ip peer headers trusted, set_dns w d)) Ret.

(** [replay_guard.check_and_record]. *)
Definition check_replay (key_id : Uuid) (digest : Bytes) : prog bool :=
  Step (fun t w =>
    let '(ok, g) := Replay.check_and_record (replay_guard w) (mono t) key_id digest in
    (ok, set_replay w g)) Ret.

(** [bound_ips::is_allowed]. *)
Definition check_bound_ips (entries : list Dns.BoundIpEntry) (ip : IpAddr) : prog bool :=
  Step (fun t w =>
    let '(ok, d) := Dns.is_allowed (dns t) entries ip (dns_resolver w) in (ok, set_dns w d)) Ret.

(** Up to the replay guard: who sent the request, and that the request is theirs. *)
Definition verify_request (app : AppConfig) (req : Request)
  : prog (result (IpAddr * Db.ApiKey) AppError) :=
  let headers := rq_headers req in
  let* client_ip := client_ip_of app (rq_peer req) headers in
  let! presented_key := lift (ok_or (Http.get_str headers API_KEY_HEADER)
    (Unauthorized ("Missing credentials: provide an " +:+ API_KEY_HEADER +:+ " header"))) in
  let! timestamp_header := lift (ok_or (Http.get_str headers TIMESTAMP_HEADER)
    (Unauthorized ("A signed request must include " +:+ TIMESTAMP_HEADER))) in
  let* now := read wall in
  let! _ := lift (validate_timestamp (now `div` nanos_per_sec) timestamp_header
                    (Config.signature_max_age_seconds (config app))) in
  let! signature := lift (ok_or (Http.get_str headers SIGNATURE_HEADER)
    (Unauthorized ("A signed request must include " +:+ SIGNATURE_HEADER))) in
  let key_hash := hex_encode (sha256 presented_key) in
  let! found := query (fun d =>
    Db.find_one (fun k => bool_decide (Db.k_key_hash k = key_hash)) (Db.api_keys d)) in
  let! key_record := lift (ok_or found (Unauthorized "Invalid API Key")) in
  let* key_record := Master.authenticate key_record in
  let! secret := lift (recover_signing_secret app key_record) in
  if declared_too_large headers then Ret (Err too_large) else
  let! bytes := lift (to_bytes (rq_body req)) in
  let payload := Crypto.canonical_v1_payload (rq_method req) (rq_target req) timestamp_header bytes in
  let! digest := lift (map_err reject_signature (Crypto.verify_signature secret payload signature)) in
  let* fresh := check_replay (Db.k_id key_record) digest in
  if negb fresh then
    Ret (Err (Unauthorized "This signature has already been used; sign a fresh request")) else
  Ret (Ok (client_ip, key_record)).

(** From there to the handler: the network binding of the key. *)
Definition check_binding (client_ip : IpAddr) (key_record : Db.ApiKey)
  : prog (result (IpAddr * Db.ApiKey) AppError) :=
  let! entries := lift (map_err (fun _ => Internal)
    (Dns.parse_bound_ips (default "" (Db.k_bound_ips key_record)))) in
  let* is_allowed :=
    if Nat.eqb (length entries) 0 then Ret true else check_bound_ips entries client_ip in
  if negb is_allowed then Ret (Err (Forbidden "Client IP not allowed")) else
  Ret (Ok (client_ip, key_record)).

(** The client address and the authenticated key the handler is given. *)
Definition auth_middleware (app : AppConfig) (req : Request)
  : prog (result (IpAddr * Db.ApiKey) AppError) :=
  let! who := verify_request app req in
  check_binding who.1 who.2.

End middleware.
(** ** Theorems *)

(** *** The freshness of a request *)

Lemma timestamp_window now raw presented max_age :
  Str.parse_i64 (Str.trim raw) = Some presented -> Z.abs (now - presented) < 2 ^ 63 ->
  validate_timestamp now raw max_age = Ok tt <-> Z.abs (now - presented) <= max_age.
Proof.
  intros Hp Hd. unfold validate_timestamp. rewrite Hp.
  assert (forall z, Z.abs z < 2 ^ 63 -> wrap_i64 z = z) as Hw.
  { intros z Hz. unfold wrap_i64. rewrite Z.mod_small; lia. }
  rewrite (Hw (now - presented)), Hw by lia.
  destruct (Z.ltb_spec max_age (Z.abs (now - presented))); split; try done; lia.
Qed.

Lemma parse_i64_range s z : Str.parse_i64 s = Some z -> - 2 ^ 63 <= z < 2 ^ 63.
Proof.
  unfold Str.parse_i64, Str.bounded, i64_min, i64_max. intros H. case_match; [|done].
  destruct (_ && _) eqn:Hb; [|done]. apply andb_true_iff in Hb as [?%Z.leb_le ?%Z.leb_le].
  simplify_eq. lia.
Qed.

(** C35. The clock check in full, overflow included: a timestamp is accepted
    precisely when it is an [i64] at most the configured window away from the
    clock, in either direction, or when it lies exactly [2^63] seconds before the
    clock.  The last case is a hole: the difference wraps to [i64::MIN], whose
    absolute value wraps to itself and is below every window. *)
Theorem validate_timestamp_exact now raw max_age :
  0 <= now -> 0 <= max_age -> now + max_age < 2 ^ 63 ->
  validate_timestamp now raw max_age = Ok tt <->
  exists presented, Str.parse_i64 (Str.trim raw) = Some presented /\
    (Z.abs (now - presented) <= max_age \/ now - presented = 2 ^ 63).
Proof.
  intros Hn Hm Hs. destruct (Str.parse_i64 (Str.trim raw)) as [p|] eqn:Hp.
  2:{ unfold validate_timestamp. rewrite Hp. naive_solver. }
  pose proof (parse_i64_range _ _ Hp) as Hr.
  assert (forall Q : Z -> Prop, (exists presented, Some p = Some presented /\ Q presented) <-> Q p) as ->
    by naive_solver.
  destruct (Z.lt_ge_cases (Z.abs (now - p)) (2 ^ 63)) as [Hd|Hd].
  { rewrite (timestamp_window now raw p max_age Hp Hd). lia. }
  unfold validate_timestamp. rewrite Hp.
  assert (wrap_i64 (now - p) = now - p - 2 ^ 64) as ->.
  { unfold wrap_i64. replace (now - p + 2 ^ 63) with (now - p - 2 ^ 63 + 1 * 2 ^ 64) by lia.
    rewrite Z.mod_add, Z.mod_small; lia. }
  destruct (Z.eq_dec (now - p) (2 ^ 63)) as [He|He].
  - rewrite He. change (wrap_i64 (Z.abs (2 ^ 63 - 2 ^ 64))) with (- 2 ^ 63).
    destruct (Z.ltb_spec max_age (- 2 ^ 63)); [lia|]. split; [by right|done].
  - assert (wrap_i64 (Z.abs (now - p - 2 ^ 64)) = 2 ^ 64 - (now - p)) as ->.
    { unfold wrap_i64. rewrite Z.mod_small; lia. }
    destruct (Z.ltb_spec max_age (2 ^ 64 - (now - p))); split; try done; lia.
Qed.

(** C33. Single use does not last as long as the signature does: a request stamped
    one window ahead of the clock is accepted, and accepted again when the window
    has passed, for by then the guard has forgotten it while its timestamp is
    still fresh. *)
Theorem future_signature_replayable now instant raw key digest max_age :
  0 < max_age <= 3600 -> 0 <= now <= 2 ^ 40 ->
  Str.parse_i64 (Str.trim raw) = Some (now + max_age) ->
  let g := Replay.new max_age instant in
  let later := instant + from_secs max_age in
  validate_timestamp now raw max_age = Ok tt /\
  (Replay.check_and_record g instant key digest).1 = true /\
  validate_timestamp (now + max_age) raw max_age = Ok tt /\
  (Replay.check_and_record (Replay.check_and_record g instant key digest).2 later key digest).1 = true.
Proof.
  intros Hm Hn Hp g later.
  assert (instant + Replay.window (Replay.new max_age instant) <= later) as Hl.
  { rewrite Replay.window_new. unfold later. rewrite Z.max_r, Z.min_r by lia. lia. }
  split_and!.
  - eapply timestamp_window; [exact Hp|lia|lia].
  - by apply (Replay.accepted_twice max_age instant later).
  - eapply timestamp_window; [exact Hp|lia|lia].
  - by apply (Replay.accepted_twice max_age instant later).
Qed.

(** *** What authentication establishes *)

Section soundness.
Context {L : IpNetLib} {C : CryptoLib}.

Lemma authenticate_exec row tr key :
  exec (Master.authenticate row) tr key ->
  (key = row \/ key = Db.set_key_is_master false row) /\
  (Db.k_is_master key = true -> key = row /\
     exists t w w', (t, w, w') ∈ tr /\ master_pin w' = Some (Db.k_id row)).
Proof.
  unfold Master.authenticate. destruct (Db.k_is_master row) eqn:Hm; cbn [negb].
  2:{ intros [-> ->]%exec_ret. split; [by left|]. congruence. }
  intros (tr1 & pinned & tr2 & -> & Hr & [-> ->]%exec_ret)%exec_bind. rewrite app_nil_r.
  assert (forall p, pinned = Some p -> exists t w w', (t, w, w') ∈ tr1 /\ master_pin w' = Some p) as Hpin.
  { intros p ->. unfold Master.resolve, Master.get in Hr.
    apply exec_bind in Hr as (ta & cell & tb & -> & Hg & Hr).
    apply exec_step1 in Hg as (t & w & -> & ->). cbn [fst snd] in *.
    destruct (master_pin w) as [q|] eqn:Hq.
    - apply exec_ret in Hr as [-> [= ->]]. exists t, w, w. split; [in_trace|done].
    - apply exec_bind in Hr as (tc & r & td & -> & _ & Hr). destruct r as [id|e].
      + apply exec_step1 in Hr as (t' & w2 & -> & Hs). exists t', w2.
        destruct (master_pin w2) as [q|] eqn:Hq2; simpl in Hs; simplify_eq;
          eexists; (split; [in_trace|]); done.
      + by apply exec_ret in Hr as [_ ?]. }
  destruct pinned as [p|]; [|by split; [right|]].
  case_bool_decide as Hp; [|by split; [right|]]. subst.
  split; [by left|]. intros _. split; [done|]. by apply Hpin.
Qed.

(** What an accepted request has shown: [row] is the key its secret hashes to, as
    some read of the database found it; the timestamp was in the window; the
    signature covers the method, the target, the timestamp and the body under the
    key's secret; the guard had not seen it; and the key's binding admits the
    client.  [key] is [row], stripped of the master flag unless the process has
    pinned that very key. *)
Record signed (app : AppConfig) (req : Request) (tr : list (Tick * World * World))
    (row key : Db.ApiKey) (digest : Bytes) : Prop := {
  sg_secret : exists pk t w w', Http.get_str (rq_headers req) API_KEY_HEADER = Some pk /\
    (t, w, w') ∈ tr /\
    Db.find_one (fun k => bool_decide (Db.k_key_hash k = hex_encode (sha256 pk))) (Db.api_keys (db w))
      = Some row;
  sg_signature : exists ts t w w' sig secret body,
    Http.get_str (rq_headers req) TIMESTAMP_HEADER = Some ts /\ (t, w, w') ∈ tr /\
    validate_timestamp (wall t `div` nanos_per_sec) ts
      (Config.signature_max_age_seconds (config app)) = Ok tt /\
    Http.get_str (rq_headers req) SIGNATURE_HEADER = Some sig /\
    recover_signing_secret app key = Ok secret /\ rq_body req = Some body /\
    Z.of_nat (String.length body) <= MAX_SIGNED_BODY_BYTES /\
    Crypto.verify_signature secret
      (Crypto.canonical_v1_payload (rq_method req) (rq_target req) ts body) sig = Ok digest;
  sg_unused : exists t w w', (t, w, w') ∈ tr /\
    Replay.check_and_record (replay_guard w) (mono t) (Db.k_id key) digest = (true, replay_guard w');
  sg_key : key = row \/ key = Db.set_key_is_master false row;
  sg_master : Db.k_is_master key = true ->
    exists t w w', (t, w, w') ∈ tr /\ master_pin w' = Some (Db.k_id key);
}.

Lemma query_err {A} (f : Db.Database -> A) tr e : exec (query f) tr (Err e) -> e = DbError Db.Fault.
Proof. intros (t & w & _ & He)%exec_step1. destruct (db_faults t 0); simpl in He; by simplify_eq. Qed.

Lemma verify_sound app req tr ip key :
  exec (verify_request app req) tr (Ok (ip, key)) ->
  exists row digest, signed app req tr row key digest.
Proof.
  unfold verify_request. intros (tr0 & ip0 & tr1 & -> & _ & He)%exec_bind.
  apply exec_bind_ok in He as (? & pk & tr2 & -> & [-> Hpk]%exec_ret & He).
  apply exec_bind_ok in He as (? & ts & tr3 & -> & [-> Hts]%exec_ret & He).
  apply exec_bind in He as (? & now & tr4 & -> & (t1 & w1 & -> & ->)%exec_read & He).
  apply exec_bind_ok in He as (? & [] & tr5 & -> & [-> Hval]%exec_ret & He).
  apply exec_bind_ok in He as (? & sig & tr6 & -> & [-> Hsig]%exec_ret & He).
  cbv zeta in He.
  apply exec_bind_ok in He as (? & found & tr7 & -> & (t2 & w2 & -> & Hfound)%exec_query_ok & He).
  apply exec_bind_ok in He as (? & row & tr8 & -> & [-> Hrow]%exec_ret & He).
  apply exec_bind in He as (tra & key' & tr9 & -> & Hauth & He).
  apply exec_bind_ok in He as (? & secret & tr10 & -> & [-> Hsec]%exec_ret & He).
  destruct (declared_too_large _); [by apply exec_ret in He as [_ ?]|].
  apply exec_bind_ok in He as (? & body & tr11 & -> & [-> Hbody]%exec_ret & He).
  apply exec_bind_ok in He as (? & digest & tr12 & -> & [-> Hdig]%exec_ret & He).
  apply exec_bind in He as (? & fresh & tr13 & -> & (t3 & w3 & -> & Hfresh)%exec_step1 & He).
  destruct fresh; [|by apply exec_ret in He as [_ ?]].
  apply exec_ret in He as [-> [= -> ->]].
  destruct (authenticate_exec _ _ _ Hauth) as [Hkey Hmaster].
  exists row, digest. split.
  - exists pk, t2, w2, (set_db w2 (db w2)). split_and!; [by destruct (Http.get_str _ _); simplify_eq/=|in_trace|].
    rewrite <- Hfound. by destruct found; simplify_eq/=.
  - exists ts, t1, w1, w1, sig, secret, body. split_and!.
    + by destruct (Http.get_str (rq_headers req) TIMESTAMP_HEADER); simplify_eq/=.
    + in_trace.
    + done.
    + by destruct (Http.get_str (rq_headers req) SIGNATURE_HEADER); simplify_eq/=.
    + done.
    + unfold to_bytes in Hbody. by repeat case_match; simplify_eq.
    + unfold to_bytes in Hbody. destruct (rq_body req) as [b|]; [|done].
      destruct (Z.ltb_spec MAX_SIGNED_BODY_BYTES (Z.of_nat (String.length b))); [done|].
      by injection Hbody as ->.
    + by destruct (Crypto.verify_signature _ _ _); simplify_eq/=.
  - exists t3, w3. eexists. split; [in_trace|].
    by destruct (Replay.check_and_record _ _ _ _) as [[] ?]; simplify_eq/=.
  - done.
  - intros Hm. destruct (Hmaster Hm) as [-> (t & w & w' & Hin & Hp)]. exists t, w, w'.
    split; [in_trace|done].
Qed.

(** What the middleware accepts has passed the checks of [verify_request]. *)
Lemma auth_verified app req tr ip key :
  exec (auth_middleware app req) tr (Ok (ip, key)) ->
  exists tr1 tr2, tr = tr1 ++ tr2 /\ exec (verify_request app req) tr1 (Ok (ip, key)) /\
    exec (check_binding ip key) tr2 (Ok (ip, key)).
Proof.
  unfold auth_middleware. intros (tr1 & [ip0 key0] & tr2 & -> & Hv & He)%exec_bind_ok.
  cbn [fst snd] in He. assert (ip0 = ip /\ key0 = key) as [-> ->]; [|eauto].
  unfold check_binding in He.
  apply exec_bind_ok in He as (? & entries & tr3 & -> & _ & He).
  apply exec_bind in He as (tr4 & ok & tr5 & -> & _ & He).
  destruct ok; apply exec_ret in He as [_ ?]; by simplify_eq/=.
Qed.

(** An accepted body is one the router's limit admits. *)
Lemma accepted_body_bounded app req tr ip key body :
  exec (auth_middleware app req) tr (Ok (ip, key)) -> rq_body req = Some body ->
  Z.of_nat (String.length body) <= MAX_REQUEST_BODY_BYTES.
Proof.
  intros (tr1 & tr2 & -> & Hv & _)%auth_verified Hb.
  destruct (verify_sound _ _ _ _ _ Hv) as (row & digest & [_ Hs _ _ _]).
  destruct Hs as (? & ? & ? & ? & ? & ? & body' & _ & _ & _ & _ & _ & Hb' & Hl & _). by simplify_eq.
Qed.

(** C4. Authentication is sound under any interleaving: a handler runs only for a
    request whose secret hashes to a stored key, whose timestamp was in the
    window, whose signature covers exactly its method, target, timestamp and body
    under that key's secret and had not been used, and whose client address the
    key's binding admits; and the handler sees the master flag only on the key
    this process has pinned. *)
Theorem auth_sound app req tr ip key :
  exec (auth_middleware app req) tr (Ok (ip, key)) ->
  (exists row digest, signed app req tr row key digest) /\
  exists entries, Dns.parse_bound_ips (default "" (Db.k_bound_ips key)) = Ok entries /\
    (entries = [] \/
     exists t w w', (t, w, w') ∈ tr /\ (Dns.is_allowed (dns t) entries ip (dns_resolver w)).1 = true).
Proof.
  intros (tr1 & tr2 & -> & Hv & He)%auth_verified. unfold check_binding in He.
  apply exec_bind_ok in He as (? & entries & tr3 & -> & [-> Hent]%exec_ret & He).
  apply exec_bind in He as (tr4 & ok & tr5 & -> & Hok & He).
  destruct ok; [|by apply exec_ret in He as [_ ?]]. apply exec_ret in He as [-> _].
  apply verify_sound in Hv as (row & digest & []). split.
  - exists row, digest. split; [..|done| ].
    + destruct sg_secret0 as (? & t & w & w' & ? & ? & ?). exists x, t, w, w'. split_and!; [done|in_trace|done].
    + destruct sg_signature0 as (ts & t & w & w' & sig & sec & b & ? & ? & ?).
      exists ts, t, w, w', sig, sec, b. split_and!; [done|in_trace|naive_solver..].
    + destruct sg_unused0 as (t & w & w' & ? & ?). exists t, w, w'. split; [in_trace|done].
    + intros Hm. destruct (sg_master0 Hm) as (t & w & w' & ? & ?). exists t, w, w'. split; [in_trace|done].
  - exists entries. split; [by destruct (Dns.parse_bound_ips _); simplify_eq/=|].
    destruct (Nat.eqb_spec (length entries) 0) as [H0|H0]; [left; by apply nil_length_inv|right].
    apply exec_step1 in Hok as (t & w & -> & Hok). exists t, w. eexists. split; [in_trace|].
    by destruct (Dns.is_allowed _ _ _ _).
Qed.

(** A request is never refused with [Forbidden] before its signature is verified. *)
Lemma verify_not_forbidden app req tr m :
  ~ exec (verify_request app req) tr (Err (Forbidden m)).
Proof.
  unfold verify_request. intros (? & ip0 & tr1 & -> & _ & He)%exec_bind.
  apply exec_bind_err in He as [[_ He]%exec_ret|(? & pk & ? & -> & _ & He)];
    [by destruct (Http.get_str _ _)|].
  apply exec_bind_err in He as [[_ He]%exec_ret|(? & ts & ? & -> & _ & He)];
    [by destruct (Http.get_str _ _)|].
  apply exec_bind in He as (? & now & ? & -> & _ & He).
  apply exec_bind_err in He as [[_ He]%exec_ret|(? & [] & ? & -> & _ & He)];
    [unfold validate_timestamp in He; by repeat case_match|].
  apply exec_bind_err in He as [[_ He]%exec_ret|(? & sig & ? & -> & _ & He)];
    [by destruct (Http.get_str _ _)|].
  cbv zeta in He. apply exec_bind_err in He as [He|(? & found & ? & -> & _ & He)];
    [by apply query_err in He|].
  apply exec_bind_err in He as [[_ He]%exec_ret|(? & row & ? & -> & _ & He)]; [by destruct found|].
  apply exec_bind in He as (? & key & ? & -> & _ & He).
  apply exec_bind_err in He as [[_ He]%exec_ret|(? & secret & ? & -> & _ & He)];
    [unfold recover_signing_secret in He; repeat case_match; try done;
     by destruct (Crypto.open _ _)|].
  destruct (declared_too_large _); [by apply exec_ret in He as [_ ?]|].
  apply exec_bind_err in He as [[_ He]%exec_ret|(? & body & ? & -> & _ & He)];
    [unfold to_bytes in He; by repeat case_match|].
  apply exec_bind_err in He as [[_ He]%exec_ret|(? & digest & ? & -> & _ & He)];
    [by destruct (Crypto.verify_signature _ _ _) as [|[]]|].
  apply exec_bind in He as (? & fresh & ? & -> & _ & He). destruct fresh; by apply exec_ret in He as [_ ?].
Qed.

(** A key's network binding cannot be probed without its secret: a request is
    answered [403] only after its signature has verified and been spent. *)
Theorem forbidden_only_after_signature app req tr m :
  exec (auth_middleware app req) tr (Err (Forbidden m)) ->
  exists tr1 ip key row digest tr2, tr = tr1 ++ tr2 /\
    exec (verify_request app req) tr1 (Ok (ip, key)) /\ signed app req tr1 row key digest.
Proof.
  unfold auth_middleware. intros [He|(tr1 & [ip key] & tr2 & -> & Hv & _)]%exec_bind_err.
  - by apply verify_not_forbidden in He.
  - destruct (verify_sound _ _ _ _ _ Hv) as (row & digest & Hs). eauto 10.
Qed.

(** An unauthenticated caller with a stale or malformed timestamp costs no
    database access: the request ends after the address and the clock are read. *)
Theorem stale_timestamp_stops_early app req tr r :
  exec (auth_middleware app req) tr r ->
  (forall ts now, Http.get_str (rq_headers req) TIMESTAMP_HEADER = Some ts ->
     validate_timestamp now ts (Config.signature_max_age_seconds (config app)) <> Ok tt) ->
  (length tr <= 2)%nat /\ exists msg, r = Err (Unauthorized msg).
Proof.
  unfold auth_middleware, verify_request. intros He Hts.
  apply exec_bind in He as (trv & rv & tre & -> & Hv & He).
  apply exec_bind in Hv as (? & ip & trw & -> & (t & w & -> & ->)%exec_step1 & Hv).
  enough ((length trw <= 1)%nat /\ exists msg, rv = Err (Unauthorized msg)) as [Hl [msg ->]].
  { apply exec_ret in He as [-> ->]. rewrite app_nil_r. simpl. split; [lia|eauto]. }
  clear He. unfold bind_ok in Hv. simpl in Hv.
  destruct (Http.get_str (rq_headers req) API_KEY_HEADER) as [pk|]; simpl in Hv.
  2:{ apply exec_ret in Hv as [-> ->]. simpl. split; [lia|eauto]. }
  destruct (Http.get_str (rq_headers req) TIMESTAMP_HEADER) as [ts|]; simpl in Hv.
  2:{ apply exec_ret in Hv as [-> ->]. simpl. split; [lia|eauto]. }
  destruct trw as [|[[t1 w1] w1'] trx]; [done|]. destruct Hv as [-> Hv].
  specialize (Hts ts (wall t1 `div` nanos_per_sec) eq_refl).
  destruct (validate_timestamp _ _ _) as [[]|e] eqn:Hval; [done|].
  apply exec_ret in Hv as [-> ->]. simpl. split; [lia|].
  unfold validate_timestamp in Hval. repeat case_match; simplify_eq; eauto.
Qed.

End soundness.

(** ** Witnesses *)

Section witnesses.
Import Ref.

(** A request of the Daughter key, signed at second 1001. *)
Definition w_signature : string :=
  default "" (Crypto.compute_signature "dsecret"
    (Crypto.canonical_v1_payload "GET" "/api/endpoints" "1001" "")).

Definition w_request (peer : IpAddr) : Request := {|
  rq_peer := peer;
  rq_headers := fun name =>
    if String.eqb name API_KEY_HEADER then Some "dkey"
    else if String.eqb name TIMESTAMP_HEADER then Some "1001"
    else if String.eqb name SIGNATURE_HEADER then Some w_signature else None;
  rq_method := "GET"; rq_target := "/api/endpoints"; rq_body := Some "";
|}.

Definition w_outcome (peer : IpAddr) : result (IpAddr * Db.ApiKey) AppError :=
  outcome Demo.tick (auth_middleware Demo.service (w_request peer)) Demo.start.

Definition w_trace (peer : IpAddr) : list (Tick * World * World) :=
  trace Demo.tick 0 (auth_middleware Demo.service (w_request peer)) Demo.start.

Lemma auth_sound_witness :
  exists row digest, signed Demo.service (w_request Demo.client) (w_trace Demo.client) row
    Demo.daughter digest.
Proof.
  refine (proj1 (auth_sound Demo.service (w_request Demo.client) (w_trace Demo.client)
    Demo.client Demo.daughter _)).
  apply outcome_exec. by vm_compute.
Defined.

Lemma forbidden_only_after_signature_witness :
  exists tr1 ip key row digest tr2, w_trace (V4 134744072) = tr1 ++ tr2 /\
    exec (verify_request Demo.service (w_request (V4 134744072))) tr1 (Ok (ip, key)) /\
    signed Demo.service (w_request (V4 134744072)) tr1 row key digest.
Proof.
  apply (forbidden_only_after_signature Demo.service (w_request (V4 134744072))
    (w_trace (V4 134744072)) "Client IP not allowed").
  apply outcome_exec. by vm_compute.
Defined.

(** At second 1000 the header [-9223372036854774808] passes the check. *)
Lemma validate_timestamp_exact_witness : validate_timestamp 1000 "-9223372036854774808" 300 = Ok tt.
Proof.
  apply (validate_timestamp_exact 1000 "-9223372036854774808" 300); [lia|lia|lia|].
  exists (-9223372036854774808). split; [by vm_compute|]. by right.
Defined.

Lemma future_signature_replayable_witness :
  (Replay.check_and_record
     (Replay.check_and_record (Replay.new 300 0) 0 2%N "digest").2 (0 + from_secs 300) 2%N "digest").1
  = true.
Proof.
  refine (proj2 (proj2 (proj2 (future_signature_replayable 1000 0 "1300" 2%N "digest" 300 _ _ _))));
    [lia|lia|by vm_compute].
Defined.

End witnesses.
End Middleware.
