(* ===== verification/ApiKeys.v ===== *)
(** * [api/keys.rs]: the key routes

    Every handler of [/api/keys], from the authenticated caller on: guards, the
    statements in the order the code issues them, the audit entry and the
    response. *)

From S2P Require Import Prelude.
From S2P Require Import RustStr.
From S2P Require Import Net.
From S2P Require Import Libs.
From S2P Require Import Crypto.
From S2P Require Import DnsCache.
From S2P Require Import Http.
From S2P Require Import Config.
From S2P Require Import Db.
From S2P Require Import App.
From S2P Require Import Auth.
Import App.
#[local] Open Scope Z_scope.
#[local] Open Scope rust_scope.
#[local] Open Scope prog_scope.

Module Keys.

(** ** Payloads and responses *)

Record KeyResponse := mkKeyResponse {
  kr_id : Uuid;
  kr_name : string;
  kr_prefix : string;
  kr_bound_ips : option string;
  kr_is_master : bool;
  kr_can_manage_keys : bool;
  kr_parent_key_id : option Uuid;
  kr_owner_key_id : option Uuid;
  kr_created_at : Z;
  kr_updated_at : Z;
}.

Definition key_response (m : Db.ApiKey) : KeyResponse := {|
  kr_id := Db.k_id m;
  kr_name := Db.k_name m;
  kr_prefix := Db.k_prefix m;
  kr_bound_ips := Db.k_bound_ips m;
  kr_is_master := Db.k_is_master m;
  kr_can_manage_keys := Db.k_can_manage_keys m;
  kr_parent_key_id := Db.k_parent_key_id m;
  kr_owner_key_id := Db.k_owner_key_id m;
  kr_created_at := Db.k_created_at m;
  kr_updated_at := Db.k_updated_at m;
|}.

Record MintedKeyResponse := mkMintedKeyResponse {
  mk_key : KeyResponse;
  mk_api_key : string;
  mk_signing_secret : string;
}.

Record CreateKeyPayload := mkCreateKeyPayload {
  ck_name : string;
  ck_bound_ips : option string;
  ck_can_manage_keys : bool;
}.

Record UpdateKeyPayload := mkUpdateKeyPayload {
  uk_name : option string;
  uk_bound_ips : option string;
  uk_can_manage_keys : option bool;
}.

Record DeleteKeyQuery := mkDeleteKeyQuery { reassign_to : option Uuid }.

Record RotateSigningSecretResponse := mkRotateSigningSecretResponse {
  rs_id : Uuid;
  rs_name : string;
  rs_signing_secret : string;
}.

Section handlers.
Context {L : IpNetLib} {C : CryptoLib} {U : UuidLib} (app : AppConfig).

Definition quote : string := String (Ascii.ascii_of_nat 34) "".

(** A refusal of [bound_ips] as the [400] it becomes; the entry is quoted, without
    the escapes [Debug] would add inside it. *)
Definition bound_ips_error (r : string * string) : AppError :=
  InvalidInput ("Invalid entry in bound_ips: " +:+ quote +:+ r.1 +:+ quote +:+
    " is not a CIDR range, IP address, or valid hostname (" +:+ r.2 +:+ ")").

Definition name_empty : AppError := InvalidInput "name must not be empty".

(** [payload.bound_ips.filter(|s| !s.trim().is_empty())]. *)
Definition non_blank (o : option string) : option string :=
  match o with Some s => if Str.is_empty (Str.trim s) then None else Some s | None => None end.

Definition validate_opt (o : option string) : result unit AppError :=
  match o with
  | Some raw => map_err bound_ips_error (Dns.validate_bound_ips raw)
  | None => Ok tt
  end.

(** [ApiKey::find_by_id(id).one().await?.ok_or(NotFound)]. *)
Definition find_key (id : Uuid) : prog (result Db.ApiKey AppError) :=
  let! row := query (fun d => Db.api_keys d !! id) in
  lift (ok_or row NotFound).

Definition create_api_key (caller : Db.ApiKey) (client_ip : IpAddr) (payload : CreateKeyPayload)
  : prog (result MintedKeyResponse AppError) :=
  let! _ := lift (Guards.require_master caller) in
  if Str.is_empty (Str.trim (ck_name payload)) then Ret (Err name_empty) else
  let bound_ips := non_blank (ck_bound_ips payload) in
  let! _ := lift (validate_opt bound_ips) in
  let* plaintext_key := Support.generate_random_key in
  let* signing_secret := Support.generate_signing_secret in
  let* now := Support.now_utc in
  let* id := Support.new_v4 in
  let! sealed := Support.seal_secret app signing_secret in
  let model := {|
    Db.k_id := id;
    Db.k_name := ck_name payload;
    Db.k_prefix := Str.take 8 plaintext_key;
    Db.k_key_hash := Support.hash_key plaintext_key;
    Db.k_signing_secret := Some sealed;
    Db.k_bound_ips := bound_ips;
    Db.k_is_master := false;
    Db.k_can_manage_keys := ck_can_manage_keys payload;
    Db.k_parent_key_id := Some (Db.k_id caller);
    Db.k_owner_key_id := Some (Db.k_id caller);
    Db.k_created_at := now;
    Db.k_updated_at := now;
  |} in
  let! created := stmt (Db.insert_key model) in
  let! _ := Support.create_audit_log caller client_ip "KEY_CREATE"
    (Some (Support.describe_resource "api_key" (Db.k_id created) (Db.k_name created)))
    (Some ("can_manage_keys=" +:+ Support.bool_show (Db.k_can_manage_keys created))) in
  Ret (Ok (mkMintedKeyResponse (key_response created) plaintext_key signing_secret)).

Definition list_api_keys (caller : Db.ApiKey) : prog (result (list KeyResponse) AppError) :=
  let! _ := lift (Guards.require_master caller) in
  let! keys := query (fun d => Db.rows (Db.api_keys d)) in
  Ret (Ok (key_response <$> keys)).

(** The three optional fields of an update, in the order the code handles them:
    the column assignments and the names of the changed fields. *)
Definition key_changes (payload : UpdateKeyPayload)
  : result ((Db.ApiKey -> Db.ApiKey) * list string) AppError :=
  let? named :=
    match uk_name payload with
    | Some name =>
        if Str.is_empty (Str.trim name) then Err name_empty
        else Ok (Db.set_key_name name, ["name"])
    | None => Ok (fun k => k, [])
    end in
  let? bound :=
    match uk_bound_ips payload with
    | Some bound_ips =>
        let trimmed := Str.trim bound_ips in
        let? _ := (if Str.is_empty trimmed then Ok tt
                   else map_err bound_ips_error (Dns.validate_bound_ips trimmed)) in
        Ok (Db.set_key_bound_ips (if Str.is_empty trimmed then None else Some trimmed),
            ["bound_ips"])
    | None => Ok (fun k => k, [])
    end in
  let managed :=
    match uk_can_manage_keys payload with
    | Some v => (Db.set_key_can_manage_keys v, ["can_manage_keys"])
    | None => (fun k => k, [])
    end in
  Ok (fun k => managed.1 (bound.1 (named.1 k)), named.2 ++ bound.2 ++ managed.2).

Definition update_api_key (caller : Db.ApiKey) (client_ip : IpAddr) (id : Uuid)
    (payload : UpdateKeyPayload) : prog (result KeyResponse AppError) :=
  let! _ := lift (Guards.require_master caller) in
  let! existing := find_key id in
  let! _ := lift (Guards.guard_master_update existing
    (bool_decide (is_Some (uk_name payload))) (bool_decide (is_Some (uk_can_manage_keys payload)))) in
  let! changes := lift (key_changes payload) in
  let* now := Support.now_utc in
  let! updated := stmt (Db.update_key (Db.k_id existing)
    (fun k => Db.set_key_updated_at now (changes.1 k))) in
  let! _ := Support.create_audit_log caller client_ip "KEY_UPDATE"
    (Some (Support.describe_resource "api_key" (Db.k_id updated) (Db.k_name updated)))
    (Some (Support.changed_detail changes.2)) in
  Ret (Ok (key_response updated)).

(** The transaction of [delete_api_key]; [t] and the statement numbers locate its
    faults. *)
Definition delete_key_txn (caller : Db.ApiKey) (client_ip : IpAddr) (id : Uuid)
    (q : DeleteKeyQuery) (target_resource : string) (now : Z) (t : Tick) (d : Db.Database)
  : result unit AppError * Db.Database :=
  match tstmt t 2 (fun d => (Ok (Db.find_all (fun e => bool_decide (Db.e_owner_key_id e = Some id))
                               (Db.endpoints d)), d)) d with
  | (Err e, d) => (Err e, d)
  | (Ok owned_endpoints, d) =>
    match
      match reassign_to q with
      | Some target_id =>
          match tstmt t 3 (fun d => (Ok (Db.api_keys d !! target_id), d)) d with
          | (Err e, _) => Err e
          | (Ok None, _) => Err (InvalidInput "reassign_to does not name an existing key")
          | (Ok (Some target), _) => Ok (Some target)
          end
      | None =>
          if negb (Nat.eqb (length owned_endpoints) 0) then
            Err (ConflictWithDetails
              ("this key still owns " +:+ pretty (length owned_endpoints) +:+
               " endpoint(s); reassign or delete them first, or retry with ?reassign_to=<key id>")
              ((fun e => (Db.e_id e, Db.e_name e)) <$> owned_endpoints))
          else Ok None
      end
    with
    | Err e => (Err e, d)
    | Ok reassign_target =>
      match
        match reassign_target with
        | Some target => tstmt t 4 (Db.reassign_endpoints id (Db.k_id target) now) d
        | None => (Ok 0%nat, d)
        end
      with
      | (Err e, d) => (Err e, d)
      | (Ok _, d) =>
        match tstmt t 5 (Db.delete_key id) d with
        | (Err e, d) => (Err e, d)
        | (Ok rows_affected, d) =>
          if Nat.eqb rows_affected 0 then (Err NotFound, d) else
          let details := (fun target =>
            "reassigned " +:+ pretty (length owned_endpoints) +:+ " endpoint(s) to "
            +:+ Db.k_name target +:+ " (" +:+ uuid_show (Db.k_id target) +:+ "); key deleted")
            <$> reassign_target in
          match tstmt t 6 (Db.insert_audit (Support.audit_row caller client_ip "KEY_DELETE"
                             (Some target_resource) details t)) d with
          | (Err e, d) => (Err e, d)
          | (Ok _, d) => (Ok tt, d)
          end
        end
      end
    end
  end.

Definition delete_api_key (caller : Db.ApiKey) (client_ip : IpAddr) (id : Uuid)
    (q : DeleteKeyQuery) : prog (result unit AppError) :=
  let! _ := lift (Guards.require_master caller) in
  let! existing := find_key id in
  let! _ := lift (Guards.guard_master_delete_or_rotate existing "deleted") in
  if bool_decide (reassign_to q = Some id) then
    Ret (Err (InvalidInput "reassign_to cannot name the key being deleted")) else
  let target_resource := Support.describe_resource "api_key" (Db.k_id existing) (Db.k_name existing) in
  let* now := Support.now_utc in
  txn (delete_key_txn caller client_ip id q target_resource now).

Definition rotate_api_key (caller : Db.ApiKey) (client_ip : IpAddr) (id : Uuid)
  : prog (result MintedKeyResponse AppError) :=
  let! _ := lift (Guards.require_master caller) in
  let! existing := find_key id in
  let! _ := lift (Guards.guard_master_delete_or_rotate existing "rotated") in
  let* plaintext_key := Support.generate_random_key in
  let* signing_secret := Support.generate_signing_secret in
  let! sealed := Support.seal_secret app signing_secret in
  let* now := Support.now_utc in
  let! updated := stmt (Db.update_key (Db.k_id existing) (fun k =>
    Db.set_key_updated_at now (Db.set_key_signing_secret (Some sealed)
      (Db.set_key_credentials (Str.take 8 plaintext_key) (Support.hash_key plaintext_key) k)))) in
  let! _ := Support.create_audit_log caller client_ip "KEY_ROTATE"
    (Some (Support.describe_resource "api_key" (Db.k_id updated) (Db.k_name updated)))
    (Some "credentials rotated") in
  Ret (Ok (mkMintedKeyResponse (key_response updated) plaintext_key signing_secret)).

Definition rotate_signing_secret (caller : Db.ApiKey) (client_ip : IpAddr) (id : Uuid)
  : prog (result RotateSigningSecretResponse AppError) :=
  let! _ := lift (Guards.require_master caller) in
  let! existing := find_key id in
  let! _ := lift (Guards.guard_master_delete_or_rotate existing "rotated") in
  let* signing_secret := Support.generate_signing_secret in
  let! sealed := Support.seal_secret app signing_secret in
  let* now := Support.now_utc in
  let! updated := stmt (Db.update_key (Db.k_id existing) (fun k =>
    Db.set_key_updated_at now (Db.set_key_signing_secret (Some sealed) k))) in
  let! _ := Support.create_audit_log caller client_ip "KEY_SECRET_ROTATE"
    (Some (Support.describe_resource "api_key" (Db.k_id updated) (Db.k_name updated)))
    (Some "signing secret rotated") in
  Ret (Ok (mkRotateSigningSecretResponse (Db.k_id updated) (Db.k_name existing) signing_secret)).

End handlers.

End Keys.
