(* ===== verification/ApiEndpoints.v ===== *)
(** * [api/endpoints.rs] and [api/groups.rs]: feeds and the groups behind them

    The endpoint routes and the Vault-group grants a Daughter key needs before it
    may name a group. *)

From S2P Require Import Prelude.
From S2P Require Import RustStr.
From S2P Require Import Net.
From S2P Require Import Libs.
From S2P Require Import Cache.
From S2P Require Import Crypto.
From S2P Require Import VaultClient.
From S2P Require Import DnsCache.
From S2P Require Import Http.
From S2P Require Import Config.
From S2P Require Import Db.
From S2P Require Import App.
From S2P Require Import Auth.
From S2P Require Import ApiKeys.
Import App.
From Stdlib Require Import Ascii.
#[local] Open Scope Z_scope.
#[local] Open Scope rust_scope.
#[local] Open Scope prog_scope.

(** ** [api/groups.rs] *)

Module Groups.

Section groups.
Context {L : IpNetLib} {C : CryptoLib} {U : UuidLib} {J : Vault.JsonLib} (app : AppConfig).

Definition FORBIDDEN : Z := 403.

(** [client.list_groups()]. *)
Definition vault_list_groups (client : Vault.VaultClient)
  : prog (result (list Vault.VaultGroup) Vault.VaultError) :=
  Step (fun t w =>
    let '(r, st) := Vault.list_groups client (vault t) (vault_state w) in (r, set_vault w st)) Ret.

(** The listing as the routes use it: a [403] of Vault is an empty list. *)
Definition live_groups (client : Vault.VaultClient) : prog (result (list Vault.VaultGroup) AppError) :=
  let* r := vault_list_groups client in
  Ret match r with
      | Ok groups => Ok groups
      | Err (Vault.Status s) => if s =? FORBIDDEN then Ok [] else Err VaultUnreachable
      | Err _ => Err VaultUnreachable
      end.

Definition list_vault_groups (caller : Db.ApiKey)
  : prog (result (list (Uuid * string)) AppError) :=
  let! _ := lift (Guards.require_master caller) in
  let! client := lift (ok_or (vault_client app) VaultNotConfigured) in
  let! groups := live_groups client in
  Ret (Ok ((fun g => (Vault.vg_id g, Vault.vg_name g)) <$> groups)).

Definition list_key_groups (caller : Db.ApiKey) (id : Uuid)
  : prog (result (list Db.VaultGroupPermission) AppError) :=
  if negb (Db.k_is_master caller) && negb (bool_decide (Db.k_id caller = id))
  then Ret (Err (Forbidden "You may only view your own group grants")) else
  let! grants := query (fun d => Db.find_all (fun g => bool_decide (Db.g_api_key_id g = id))
                                   (Db.vault_group_permissions d)) in
  Ret (Ok grants).

Definition grant_key_group (caller : Db.ApiKey) (client_ip : IpAddr) (id vault_group_id : Uuid)
  : prog (result Db.VaultGroupPermission AppError) :=
  let! _ := lift (Guards.require_master caller) in
  let! target := Keys.find_key id in
  let! client := lift (ok_or (vault_client app) VaultNotConfigured) in
  let! groups := live_groups client in
  let! group := lift (ok_or (List.find (fun g => bool_decide (Vault.vg_id g = vault_group_id)) groups)
                        (InvalidInput "No such Vault group")) in
  let! existing := query (fun d =>
    Db.find_one (fun g => bool_decide (Db.g_api_key_id g = id)
                          && bool_decide (Db.g_vault_group_id g = Vault.vg_id group))
      (Db.vault_group_permissions d)) in
  match existing with
  | Some g => Ret (Ok g)
  | None =>
      let* now := Support.now_utc in
      let* grant_id := Support.new_v4 in
      let! created := stmt (Db.insert_grant {|
        Db.g_id := grant_id;
        Db.g_api_key_id := id;
        Db.g_vault_group_id := Vault.vg_id group;
        Db.g_vault_group_name := Vault.vg_name group;
        Db.g_created_at := now;
      |}) in
      let! _ := Support.create_audit_log caller client_ip "KEY_GROUP_GRANT"
        (Some (Support.describe_resource "api_key" (Db.k_id target) (Db.k_name target)))
        (Some ("granted read on Vault group " +:+ Vault.vg_name group +:+ " ("
               +:+ uuid_show (Vault.vg_id group) +:+ ")")) in
      Ret (Ok created)
  end.

(** The two path segments are already parsed; a malformed one is [InvalidInput]. *)
Definition revoke_key_group (caller : Db.ApiKey) (client_ip : IpAddr)
    (path : result (Uuid * Uuid) string) : prog (result unit AppError) :=
  let! ids := lift (map_err InvalidInput path) in
  let id := ids.1 in
  let permission_id := ids.2 in
  let! _ := lift (Guards.require_master caller) in
  let! target := Keys.find_key id in
  let! found := query (fun d => Db.vault_group_permissions d !! permission_id) in
  let! grant := lift (ok_or found NotFound) in
  if negb (bool_decide (Db.g_api_key_id grant = id)) then Ret (Err NotFound) else
  let! _ := stmt (Db.delete_grants [permission_id]) in
  let! _ := Support.create_audit_log caller client_ip "KEY_GROUP_REVOKE"
    (Some (Support.describe_resource "api_key" (Db.k_id target) (Db.k_name target)))
    (Some ("revoked read on Vault group " +:+ Db.g_vault_group_name grant +:+ " ("
           +:+ uuid_show (Db.g_vault_group_id grant) +:+ ")")) in
  Ret (Ok tt).

(** The names the grants of a key record. *)
Definition granted_names (d : Db.Database) (api_key_id : Uuid) : list string :=
  Db.g_vault_group_name <$>
    Db.find_all (fun g => bool_decide (Db.g_api_key_id g = api_key_id)) (Db.vault_group_permissions d).

Definition granted_group_names (api_key_id : Uuid) : prog (result (list string) AppError) :=
  query (fun d => granted_names d api_key_id).

End groups.
End Groups.

(** ** [api/endpoints.rs] *)

Module Endpoints.

Record CreateEndpointPayload := mkCreateEndpointPayload {
  ce_name : string;
  ce_description : option string;
  ce_vault_groups : string;
  ce_ttl_seconds : option Z;
  ce_max_age_seconds : option Z;
  ce_bound_ips : option string;
  ce_filter_rfc1918 : bool;
  ce_filter_bogons : bool;
  ce_filter_loopback : bool;
}.

Record UpdateEndpointPayload := mkUpdateEndpointPayload {
  ue_name : option string;
  ue_description : option string;
  ue_vault_groups : option string;
  ue_ttl_seconds : option Z;
  ue_max_age_seconds : option Z;
  ue_bound_ips : option string;
  ue_filter_rfc1918 : option bool;
  ue_filter_bogons : option bool;
  ue_filter_loopback : option bool;
}.

Record ReassignOwnerPayload := mkReassignOwnerPayload { ro_owner_key_id : option Uuid }.

Record EndpointResponse := mkEndpointResponse {
  er_id : Uuid;
  er_owner_key_id : option Uuid;
  er_name : string;
  er_description : option string;
  er_token_secret : string;
  er_feed_path : string;
  er_vault_groups : string;
  er_ttl_seconds : Z;
  er_max_age_seconds : Z;
  er_bound_ips : option string;
  er_filter_rfc1918 : bool;
  er_filter_bogons : bool;
  er_filter_loopback : bool;
  er_last_synced_at : option Z;
  er_created_at : Z;
  er_updated_at : Z;
}.

Definition endpoint_response (m : Db.Endpoint) : EndpointResponse := {|
  er_id := Db.e_id m;
  er_owner_key_id := Db.e_owner_key_id m;
  er_name := Db.e_name m;
  er_description := Db.e_description m;
  er_token_secret := Db.e_token_secret m;
  er_feed_path := "/feed/v1/" +:+ Db.e_token_secret m +:+ "/list.txt";
  er_vault_groups := Db.e_vault_groups m;
  er_ttl_seconds := Db.e_ttl_seconds m;
  er_max_age_seconds := Db.e_max_age_seconds m;
  er_bound_ips := Db.e_bound_ips m;
  er_filter_rfc1918 := Db.e_filter_rfc1918 m;
  er_filter_bogons := Db.e_filter_bogons m;
  er_filter_loopback := Db.e_filter_loopback m;
  er_last_synced_at := Db.e_last_synced_at m;
  er_created_at := Db.e_created_at m;
  er_updated_at := Db.e_updated_at m;
|}.

Definition may_manage (caller : Db.ApiKey) (ep : Db.Endpoint) : bool :=
  Db.k_is_master caller || bool_decide (Db.e_owner_key_id ep = Some (Db.k_id caller)).

Definition validate_groups (raw : string) : result unit AppError :=
  if forallb Str.is_empty (Str.trim <$> Str.split "," raw)
  then Err (InvalidInput "vault_groups must name at least one group")
  else Ok tt.

Definition validate_max_age (max_age_seconds : Z) : result unit AppError :=
  if max_age_seconds <? 0
  then Err (InvalidInput "max_age_seconds must be zero (unlimited) or a positive number of seconds")
  else Ok tt.

Section handlers.
Context {L : IpNetLib} {C : CryptoLib} {U : UuidLib}.

Definition generate_token_secret : prog string := read (fun t => hex_encode (random t 16)).

(** The named groups that are not granted. *)
Definition ungranted (granted : list string) (vault_groups : string) : list string :=
  filter (fun g => g ∉ granted) (Str.comma_entries vault_groups).

Definition validate_group_access (caller : Db.ApiKey) (vault_groups : string)
  : prog (result unit AppError) :=
  if Db.k_is_master caller then Ret (Ok tt) else
  let! granted := Groups.granted_group_names (Db.k_id caller) in
  let missing := ungranted granted vault_groups in
  if Nat.eqb (length missing) 0 then Ret (Ok tt)
  else Ret (Err (Forbidden ("You do not have read access to Vault group(s): "
    +:+ Str.join ", " missing
    +:+ " — ask the Master to grant it via POST /api/keys/{id}/groups"))).

Definition create_endpoint (caller : Db.ApiKey) (client_ip : IpAddr)
    (payload : CreateEndpointPayload) : prog (result EndpointResponse AppError) :=
  if Str.is_empty (Str.trim (ce_name payload)) then Ret (Err Keys.name_empty) else
  let! _ := lift (validate_groups (ce_vault_groups payload)) in
  let! _ := validate_group_access caller (ce_vault_groups payload) in
  let bound_ips := Keys.non_blank (ce_bound_ips payload) in
  let! _ := lift (Keys.validate_opt bound_ips) in
  let ttl_seconds := default 3600 (ce_ttl_seconds payload) in
  if ttl_seconds <=? 0 then Ret (Err (InvalidInput "ttl_seconds must be positive")) else
  let max_age_seconds := default 0 (ce_max_age_seconds payload) in
  let! _ := lift (validate_max_age max_age_seconds) in
  let* now := Support.now_utc in
  let* id := Support.new_v4 in
  let* token := generate_token_secret in
  let! created := stmt (Db.insert_endpoint {|
    Db.e_id := id;
    Db.e_owner_key_id := Some (Db.k_id caller);
    Db.e_name := ce_name payload;
    Db.e_description := ce_description payload;
    Db.e_token_secret := token;
    Db.e_vault_groups := ce_vault_groups payload;
    Db.e_ttl_seconds := ttl_seconds;
    Db.e_max_age_seconds := max_age_seconds;
    Db.e_bound_ips := bound_ips;
    Db.e_filter_rfc1918 := ce_filter_rfc1918 payload;
    Db.e_filter_bogons := ce_filter_bogons payload;
    Db.e_filter_loopback := ce_filter_loopback payload;
    Db.e_last_synced_at := None;
    Db.e_created_at := now;
    Db.e_updated_at := now;
  |}) in
  let! _ := Support.create_audit_log caller client_ip "ENDPOINT_CREATE"
    (Some (Support.describe_resource "endpoint" (Db.e_id created) (Db.e_name created)))
    (Some ("vault_groups=" +:+ Db.e_vault_groups created)) in
  Ret (Ok (endpoint_response created)).

Definition list_endpoints (caller : Db.ApiKey) : prog (result (list EndpointResponse) AppError) :=
  let! rows :=
    (if Db.k_is_master caller then query (fun d => Db.rows (Db.endpoints d))
     else query (fun d => Db.find_all
            (fun e => bool_decide (Db.e_owner_key_id e = Some (Db.k_id caller))) (Db.endpoints d))) in
  Ret (Ok (endpoint_response <$> rows)).

(** [Endpoint::find_by_id(id).one().await?.ok_or(NotFound)]. *)
Definition find_endpoint (id : Uuid) : prog (result Db.Endpoint AppError) :=
  let! row := query (fun d => Db.endpoints d !! id) in
  lift (ok_or row NotFound).

Definition no_rights : AppError :=
  Forbidden "You do not have management rights over this endpoint".

(** What an optional field contributes: its assignment and its name. *)
Definition Change : Type := (Db.Endpoint -> Db.Endpoint) * list string.

Definition no_change : Change := (fun e => e, []).

(** The fields before [vault_groups]. *)
Definition text_changes (payload : UpdateEndpointPayload) : result Change AppError :=
  let? named :=
    match ue_name payload with
    | Some name => if Str.is_empty (Str.trim name) then Err Keys.name_empty
                   else Ok (Db.set_ep_name name, ["name"])
    | None => Ok no_change
    end in
  let described :=
    match ue_description payload with
    | Some d => (Db.set_ep_description (if Str.is_empty (Str.trim d) then None else Some d),
                 ["description"])
    | None => no_change
    end in
  Ok (fun e => described.1 (named.1 e), named.2 ++ described.2).

Definition group_changes (caller : Db.ApiKey) (payload : UpdateEndpointPayload)
  : prog (result Change AppError) :=
  match ue_vault_groups payload with
  | Some vault_groups =>
      let! _ := lift (validate_groups vault_groups) in
      let! _ := validate_group_access caller vault_groups in
      Ret (Ok (Db.set_ep_vault_groups vault_groups, ["vault_groups"]))
  | None => Ret (Ok no_change)
  end.

(** The fields after [vault_groups]. *)
Definition policy_changes (payload : UpdateEndpointPayload) : result Change AppError :=
  let? ttl :=
    match ue_ttl_seconds payload with
    | Some v => if v <=? 0 then Err (InvalidInput "ttl_seconds must be positive")
                else Ok (Db.set_ep_ttl_seconds v, ["ttl_seconds"])
    | None => Ok no_change
    end in
  let? age :=
    match ue_max_age_seconds payload with
    | Some v => let? _ := validate_max_age v in Ok (Db.set_ep_max_age_seconds v, ["max_age_seconds"])
    | None => Ok no_change
    end in
  let? bound :=
    match ue_bound_ips payload with
    | Some b =>
        let trimmed := Str.trim b in
        let? _ := (if Str.is_empty trimmed then Ok tt
                   else map_err Keys.bound_ips_error (Dns.validate_bound_ips trimmed)) in
        Ok (Db.set_ep_bound_ips (if Str.is_empty trimmed then None else Some trimmed), ["bound_ips"])
    | None => Ok no_change
    end in
  let flag (o : option bool) (name : string) := match o with Some _ => [name] | None => [] end in
  Ok (fun e => Db.set_ep_filters (ue_filter_rfc1918 payload) (ue_filter_bogons payload)
                 (ue_filter_loopback payload) (bound.1 (age.1 (ttl.1 e))),
      ttl.2 ++ age.2 ++ bound.2 ++ flag (ue_filter_rfc1918 payload) "filter_rfc1918"
      ++ flag (ue_filter_bogons payload) "filter_bogons"
      ++ flag (ue_filter_loopback payload) "filter_loopback").

Definition update_endpoint (caller : Db.ApiKey) (client_ip : IpAddr) (id : Uuid)
    (payload : UpdateEndpointPayload) : prog (result EndpointResponse AppError) :=
  let! existing := find_endpoint id in
  if negb (may_manage caller existing) then Ret (Err no_rights) else
  let! text := lift (text_changes payload) in
  let! groups := group_changes caller payload in
  let! policy := lift (policy_changes payload) in
  let* now := Support.now_utc in
  let! updated := stmt (Db.update_endpoint (Db.e_id existing)
    (fun e => Db.set_ep_updated_at now (policy.1 (groups.1 (text.1 e))))) in
  let! _ := Support.create_audit_log caller client_ip "ENDPOINT_UPDATE"
    (Some (Support.describe_resource "endpoint" (Db.e_id updated) (Db.e_name updated)))
    (Some (Support.changed_detail (text.2 ++ groups.2 ++ policy.2))) in
  Ret (Ok (endpoint_response updated)).

(** [state.ip_cache.evict(id)]. *)
Definition evict_cache (id : Uuid) : prog unit :=
  Step (fun _ w => (tt, set_cache w (Cache.evict (ip_cache w) id))) Ret.

Definition delete_endpoint (caller : Db.ApiKey) (client_ip : IpAddr) (id : Uuid)
  : prog (result unit AppError) :=
  let! existing := find_endpoint id in
  if negb (may_manage caller existing) then Ret (Err no_rights) else
  let target_resource := Support.describe_resource "endpoint" (Db.e_id existing) (Db.e_name existing) in
  let! rows_affected := stmt (Db.delete_endpoint id) in
  if Nat.eqb rows_affected 0 then Ret (Err NotFound) else
  let* _ := evict_cache id in
  let! _ := Support.create_audit_log caller client_ip "ENDPOINT_DELETE" (Some target_resource) None in
  Ret (Ok tt).

Definition reassign_endpoint_owner (caller : Db.ApiKey) (client_ip : IpAddr) (id : Uuid)
    (payload : ReassignOwnerPayload) : prog (result EndpointResponse AppError) :=
  if negb (Db.k_is_master caller)
  then Ret (Err (Forbidden "Only the Master key can reassign endpoint ownership")) else
  let! existing := find_endpoint id in
  let! _ :=
    match ro_owner_key_id payload with
    | Some new_owner =>
        let! row := query (fun d => Db.api_keys d !! new_owner) in
        let! _ := lift (ok_or row (InvalidInput "owner_key_id does not name an existing key")) in
        Ret (Ok tt)
    | None => Ret (Ok tt)
    end in
  let* now := Support.now_utc in
  let! updated := stmt (Db.update_endpoint (Db.e_id existing)
    (fun e => Db.set_ep_updated_at now (Db.set_ep_owner (ro_owner_key_id payload) e))) in
  let! _ := Support.create_audit_log caller client_ip "ENDPOINT_OWNER_REASSIGN"
    (Some (Support.describe_resource "endpoint" (Db.e_id updated) (Db.e_name updated)))
    (Some ("owner_key_id -> " +:+
       match ro_owner_key_id payload with Some o => uuid_show o | None => "(none)" end)) in
  Ret (Ok (endpoint_response updated)).

End handlers.

End Endpoints.

(** ** [api/audit.rs], [api/auth.rs], [api/health.rs] *)

Module ReadOnly.

Section handlers.
Context {L : IpNetLib}.

Record AuditLogQuery := mkAuditLogQuery {
  q_action : option string;
  q_limit : option Z;
  q_offset : option Z;
}.

Definition later (a b : Db.AuditLog) : Prop := Db.a_timestamp b <= Db.a_timestamp a.
#[global] Instance later_dec a b : Decision (later a b).
Proof. unfold later. apply _. Defined.

(** [ORDER BY timestamp DESC LIMIT limit OFFSET offset]. *)
Definition audit_page (q : AuditLogQuery) (d : Db.Database) : list Db.AuditLog :=
  let matching :=
    match q_action q with
    | Some action =>
        if Str.is_empty action then Db.rows (Db.audit_logs d)
        else Db.find_all (fun a => bool_decide (Db.a_action a = action)) (Db.audit_logs d)
    | None => Db.rows (Db.audit_logs d)
    end in
  let limit := Z.min 500 (default 50 (q_limit q)) in
  let offset := default 0 (q_offset q) in
  take (Z.to_nat limit) (drop (Z.to_nat offset) (merge_sort later matching)).

Definition list_audit_logs (caller : Db.ApiKey) (q : AuditLogQuery)
  : prog (result (list Db.AuditLog) AppError) :=
  if negb (Db.k_is_master caller)
  then Ret (Err (Forbidden "Only the Master key can view audit logs"))
  else query (audit_page q).

Record MeResponse := mkMeResponse {
  me_id : Uuid;
  me_name : string;
  me_prefix : string;
  me_is_master : bool;
  me_can_manage_keys : bool;
  me_bound_ips : option string;
}.

Definition get_me (key : Db.ApiKey) : MeResponse :=
  mkMeResponse (Db.k_id key) (Db.k_name key) (Db.k_prefix key) (Db.k_is_master key)
    (Db.k_can_manage_keys key) (Db.k_bound_ips key).

(** [200], or [503] with what is missing. *)
Definition readiness_check : prog (Z * bool * bool) :=
  let* counted := query (fun d => size (Db.api_keys d)) in
  let* pin := Master.get in
  let db_ok := is_ok counted in
  let master_pinned := bool_decide (is_Some pin) in
  Ret (if db_ok && master_pinned then 200 else 503, db_ok, master_pinned).

End handlers.
End ReadOnly.
