(* ===== verification/Extract.v ===== *)
(** * [extract.rs]: from a request to the arguments of a handler

    The three extractors, and the structs they fill.  axum reads the request and
    serde_json the text: what they answer is the class [AxumLib], with the
    documented behaviour the service relies on in [AxumLaws].  What the
    [Deserialize] derivations of the payload structs accept is written out from
    their declarations: every one denies unknown fields, an [Option] may be left
    out, a [serde(default)] field has its default. *)

From S2P Require Import Prelude.
From S2P Require Import RustStr.
From S2P Require Import Libs.
From S2P Require Import LibsRef.
From S2P Require Import Http.
From S2P Require Import Db.
From S2P Require Import App.
From S2P Require Import Auth.
From S2P Require Import ApiKeys.
From S2P Require Import ApiEndpoints.
Import App.
From Stdlib Require Import Ascii.
#[local] Open Scope Z_scope.
#[local] Open Scope rust_scope.

Module Extract.

(** ** JSON values as serde reads them

    Members of an object in their order, duplicates included; a number that is
    not an integer of 64 bits is a [JFloat]. *)
Inductive Json :=
| JNull
| JBool (b : bool)
| JInt (z : Z)
| JFloat (text : string)
| JString (s : string)
| JArray (elements : list Json)
| JObject (members : list (string * Json)).

(** ** The framework *)

(** [axum::extract::rejection::JsonRejection], with its status and its text. *)
Inductive JsonRejection :=
| JsonDataError (text : string)
| JsonSyntaxError (text : string)
| MissingJsonContentType (text : string)
| BytesRejection (status : Z) (text : string).

Definition rejection_status (r : JsonRejection) : Z :=
  match r with
  | JsonDataError _ => 422
  | JsonSyntaxError _ => 400
  | MissingJsonContentType _ => 415
  | BytesRejection status _ => status
  end.

Definition rejection_text (r : JsonRejection) : string :=
  match r with
  | JsonDataError t | JsonSyntaxError t | MissingJsonContentType t | BytesRejection _ t => t
  end.

(** A segment of a route: literal text, or a parameter. *)
Inductive Seg := Lit (s : string) | Var.

#[global] Instance seg_eq_dec : EqDecision Seg.
Proof. solve_decision. Defined.

(** The segments of a path against a pattern: a parameter takes one segment that
    is not empty. *)
Fixpoint fit (pattern : list Seg) (segments : list string) : option (list string) :=
  match pattern, segments with
  | [], [] => Some []
  | Lit l :: pattern', s :: segments' =>
      if bool_decide (s = l) then fit pattern' segments' else None
  | Var :: pattern', s :: segments' =>
      if Str.is_empty s then None else cons s <$> fit pattern' segments'
  | _, _ => None
  end.

Class AxumLib := {
  (** [Json::<T>::from_request], with the derivation of [T]. *)
  axum_json : forall {T}, (Json -> option T) -> Http.HeaderMap -> Bytes -> result T JsonRejection;
  json_content_type : Http.HeaderMap -> bool;
  json_from_slice : Bytes -> option Json;
  (** [Query::<T>::try_from_uri] on the text after the [?]. *)
  axum_query : forall {T}, (list (string * string) -> option T) -> string -> result T string;
  query_pairs : string -> list (string * string);
  (** [Path] of one captured segment, of two, and as text. *)
  path_uuid : string -> result Uuid string;
  path_uuids : string -> string -> result (Uuid * Uuid) string;
  path_string : string -> result string string;
  uuid_parse : string -> option Uuid;
  match_route : list Seg -> string -> option (list string);
}.

Class AxumLaws (A : AxumLib) : Prop := {
  (** A body is accepted when it is declared as JSON, parses, and fits [T]; one
      that parses and does not fit is a data error (or, for what follows the last
      field of an array, a syntax error). *)
  json_accepts {T} (decode : Json -> option T) h b t :
    axum_json decode h b = Ok t -> exists v, json_from_slice b = Some v /\ decode v = Some t;
  json_extracts {T} (decode : Json -> option T) h b v t :
    Z.of_nat (String.length b) <= Middleware.MAX_REQUEST_BODY_BYTES -> json_content_type h = true ->
    json_from_slice b = Some v -> decode v = Some t -> axum_json decode h b = Ok t;
  json_misfit {T} (decode : Json -> option T) h b v :
    Z.of_nat (String.length b) <= Middleware.MAX_REQUEST_BODY_BYTES -> json_content_type h = true ->
    json_from_slice b = Some v -> decode v = None ->
    exists text, axum_json decode h b = Err (JsonDataError text) \/
      axum_json decode h b = Err (JsonSyntaxError text);
  query_extracts {T} (decode : list (string * string) -> option T) q t :
    axum_query decode q = Ok t <-> decode (query_pairs q) = Some t;
  match_route_spec pattern path :
    match_route pattern path =
      match Str.strip_prefix "/" path with
      | Some rest => fit pattern (Str.split "/" rest)
      | None => None
      end;
}.

(** ** The extractors *)

Section extractors.
Context {A : AxumLib}.

Definition StrictJson {T} (decode : Json -> option T) (h : Http.HeaderMap) (body : Bytes)
  : result T AppError :=
  match axum_json decode h body with
  | Ok value => Ok value
  | Err (JsonDataError _ as rejection | JsonSyntaxError _ as rejection) =>
      Err (InvalidInput (rejection_text rejection))
  | Err other => Err (BodyRejected (rejection_status other) (rejection_text other))
  end.

Definition StrictPath (segment : string) : result Uuid AppError := map_err InvalidInput (path_uuid segment).

Definition StrictQuery {T} (decode : list (string * string) -> option T) (query : string)
  : result T AppError :=
  map_err InvalidInput (axum_query decode query).

End extractors.

(** ** The derived decoders *)

(** What a struct finds for a field: a value, nothing in an object, or the end of
    an array (serde also reads a struct from its fields in order). *)
Inductive Slot := Given (v : Json) | Absent | Short.

Definition member {V} (ms : list (string * V)) (name : string) : option V :=
  snd <$> List.find (fun m => bool_decide (m.1 = name)) ms.

(** [deny_unknown_fields], and no field twice. *)
Definition fields_ok {V} (names : list string) (ms : list (string * V)) : bool :=
  bool_decide (NoDup ms.*1) && forallb (fun k => bool_decide (k ∈ names)) ms.*1.

Fixpoint positional (names : list string) (vs : list Json) : option (list Slot) :=
  match names, vs with
  | [], [] => Some []
  | [], _ :: _ => None
  | _ :: names', [] => cons Short <$> positional names' []
  | _ :: names', v :: vs' => cons (Given v) <$> positional names' vs'
  end.

Definition slots (names : list string) (v : Json) : option (list Slot) :=
  match v with
  | JObject ms =>
      if fields_ok names ms
      then Some ((fun n => match member ms n with Some v => Given v | None => Absent end) <$> names)
      else None
  | JArray vs => positional names vs
  | _ => None
  end.

Definition required {T} (decode : Json -> option T) (s : Slot) : option T :=
  match s with Given v => decode v | _ => None end.

Definition optional {T} (decode : Json -> option T) (s : Slot) : option (option T) :=
  match s with
  | Given JNull => Some None
  | Given v => Some <$> decode v
  | Absent => Some None
  | Short => None
  end.

Definition defaulted {T} (d : T) (decode : Json -> option T) (s : Slot) : option T :=
  match s with Given v => decode v | _ => Some d end.

Definition as_string (v : Json) : option string := match v with JString s => Some s | _ => None end.
Definition as_bool (v : Json) : option bool := match v with JBool b => Some b | _ => None end.
Definition as_int (lo hi : Z) (v : Json) : option Z :=
  match v with JInt z => if (lo <=? z) && (z <=? hi) then Some z else None | _ => None end.
Definition as_i32 : Json -> option Z := as_int (- 2 ^ 31) (2 ^ 31 - 1).
Definition as_i64 : Json -> option Z := as_int i64_min i64_max.

Section payloads.
Context {A : AxumLib}.

Definition as_uuid (v : Json) : option Uuid := match v with JString s => uuid_parse s | _ => None end.

Definition CreateKeyPayload_fields : list string := ["name"; "bound_ips"; "can_manage_keys"].
Definition CreateKeyPayload_deserialize (v : Json) : option Keys.CreateKeyPayload :=
  match slots CreateKeyPayload_fields v with
  | Some [s1; s2; s3] =>
      name ← required as_string s1; bound_ips ← optional as_string s2;
      can_manage_keys ← defaulted false as_bool s3;
      Some (Keys.mkCreateKeyPayload name bound_ips can_manage_keys)
  | _ => None
  end.

Definition UpdateKeyPayload_fields : list string := ["name"; "bound_ips"; "can_manage_keys"].
Definition UpdateKeyPayload_deserialize (v : Json) : option Keys.UpdateKeyPayload :=
  match slots UpdateKeyPayload_fields v with
  | Some [s1; s2; s3] =>
      name ← optional as_string s1; bound_ips ← optional as_string s2;
      can_manage_keys ← optional as_bool s3;
      Some (Keys.mkUpdateKeyPayload name bound_ips can_manage_keys)
  | _ => None
  end.

Definition CreateEndpointPayload_fields : list string :=
  ["name"; "description"; "vault_groups"; "ttl_seconds"; "max_age_seconds"; "bound_ips";
   "filter_rfc1918"; "filter_bogons"; "filter_loopback"].
Definition CreateEndpointPayload_deserialize (v : Json) : option Endpoints.CreateEndpointPayload :=
  match slots CreateEndpointPayload_fields v with
  | Some [s1; s2; s3; s4; s5; s6; s7; s8; s9] =>
      name ← required as_string s1; description ← optional as_string s2;
      vault_groups ← required as_string s3; ttl_seconds ← optional as_i32 s4;
      max_age_seconds ← optional as_i64 s5; bound_ips ← optional as_string s6;
      filter_rfc1918 ← defaulted false as_bool s7; filter_bogons ← defaulted false as_bool s8;
      filter_loopback ← defaulted false as_bool s9;
      Some (Endpoints.mkCreateEndpointPayload name description vault_groups ttl_seconds
              max_age_seconds bound_ips filter_rfc1918 filter_bogons filter_loopback)
  | _ => None
  end.

Definition UpdateEndpointPayload_fields : list string :=
  ["name"; "description"; "vault_groups"; "ttl_seconds"; "max_age_seconds"; "bound_ips";
   "filter_rfc1918"; "filter_bogons"; "filter_loopback"].
Definition UpdateEndpointPayload_deserialize (v : Json) : option Endpoints.UpdateEndpointPayload :=
  match slots UpdateEndpointPayload_fields v with
  | Some [s1; s2; s3; s4; s5; s6; s7; s8; s9] =>
      name ← optional as_string s1; description ← optional as_string s2;
      vault_groups ← optional as_string s3; ttl_seconds ← optional as_i32 s4;
      max_age_seconds ← optional as_i64 s5; bound_ips ← optional as_string s6;
      filter_rfc1918 ← optional as_bool s7; filter_bogons ← optional as_bool s8;
      filter_loopback ← optional as_bool s9;
      Some (Endpoints.mkUpdateEndpointPayload name description vault_groups ttl_seconds
              max_age_seconds bound_ips filter_rfc1918 filter_bogons filter_loopback)
  | _ => None
  end.

Definition ReassignOwnerPayload_fields : list string := ["owner_key_id"].
Definition ReassignOwnerPayload_deserialize (v : Json) : option Endpoints.ReassignOwnerPayload :=
  match slots ReassignOwnerPayload_fields v with
  | Some [s1] => owner_key_id ← optional as_uuid s1; Some (Endpoints.mkReassignOwnerPayload owner_key_id)
  | _ => None
  end.

Definition GrantGroupPayload_fields : list string := ["vault_group_id"].
Definition GrantGroupPayload_deserialize (v : Json) : option Uuid :=
  match slots GrantGroupPayload_fields v with
  | Some [s1] => required as_uuid s1
  | _ => None
  end.

(** *** Query strings: the pairs after the [?] *)

(** An [Option] parameter: absent, or a text that parses. *)
Definition param {T} (parse : string -> option T) (ps : list (string * string)) (name : string)
  : option (option T) :=
  match member ps name with
  | None => Some None
  | Some v => Some <$> parse v
  end.

Definition DeleteKeyQuery_fields : list string := ["reassign_to"].
Definition DeleteKeyQuery_deserialize (ps : list (string * string)) : option Keys.DeleteKeyQuery :=
  if negb (fields_ok DeleteKeyQuery_fields ps) then None else
  reassign_to ← param uuid_parse ps "reassign_to";
  Some (Keys.mkDeleteKeyQuery reassign_to).

Definition AuditLogQuery_fields : list string := ["action"; "limit"; "offset"].
Definition AuditLogQuery_deserialize (ps : list (string * string)) : option ReadOnly.AuditLogQuery :=
  if negb (fields_ok AuditLogQuery_fields ps) then None else
  action ← param Some ps "action";
  limit ← param Str.parse_u64 ps "limit";
  offset ← param Str.parse_u64 ps "offset";
  Some (ReadOnly.mkAuditLogQuery action limit offset).

End payloads.

(** ** What a body must look like *)

Lemma member_Some {V} (ms : list (string * V)) n v :
  NoDup ms.*1 -> member ms n = Some v <-> (n, v) ∈ ms.
Proof.
  intros Hnd. unfold member. induction ms as [|[k x] ms IH]; simpl in *.
  { split; [done|]. by intros ?%elem_of_nil. }
  apply NoDup_cons in Hnd as [Hk Hnd]. rewrite elem_of_cons. case_bool_decide as He; simpl.
  - subst. split; [intros [= ->]; by left|]. intros [[= ->]|Hin]; [done|].
    destruct Hk. apply list_elem_of_fmap. by exists (n, v).
  - rewrite IH by done. split; [by right|]. intros [[= -> ->]|Hin]; done.
Qed.

Lemma member_None {V} (ms : list (string * V)) n : member ms n = None <-> n ∉ ms.*1.
Proof.
  unfold member. induction ms as [|[k x] ms IH]; simpl; [split; [intros _ ?%elem_of_nil|]; done|].
  rewrite not_elem_of_cons. case_bool_decide as He; simpl; [naive_solver|].
  rewrite IH. naive_solver.
Qed.

Lemma fields_ok_true {V} names (ms : list (string * V)) :
  fields_ok names ms = true <-> NoDup ms.*1 /\ forall k, k ∈ ms.*1 -> k ∈ names.
Proof.
  unfold fields_ok. rewrite andb_true_iff, bool_decide_eq_true, forallb_forall.
  split; (intros [H1 H2]; split; [done|]); intros k Hk.
  - by apply list_elem_of_In, H2, bool_decide_eq_true in Hk.
  - apply bool_decide_eq_true, H2. by apply list_elem_of_In.
Qed.

Lemma as_string_Some v s : as_string v = Some s <-> v = JString s.
Proof. destruct v; simpl; naive_solver. Qed.
Lemma as_bool_Some v b : as_bool v = Some b <-> v = JBool b.
Proof. destruct v; simpl; naive_solver. Qed.

(** The slot of a field of an object. *)
Definition slot (ms : list (string * Json)) (n : string) : Slot :=
  match member ms n with Some v => Given v | None => Absent end.

Lemma slots_object names ms ss :
  slots names (JObject ms) = Some ss <-> fields_ok names ms = true /\ ss = slot ms <$> names.
Proof. cbn [slots]. destruct (fields_ok names ms); naive_solver. Qed.

(** An optional member: present with the value, or null, or absent. *)
Definition carries {T} (inj : T -> Json) (ms : list (string * Json)) (n : string) (o : option T) : Prop :=
  match o with
  | Some x => (n, inj x) ∈ ms
  | None => forall v, (n, v) ∈ ms -> v = JNull
  end.

Lemma optional_slot {T} (decode : Json -> option T) inj ms n o :
  NoDup ms.*1 -> (forall v x, decode v = Some x <-> v = inj x) -> (forall x, inj x <> JNull) ->
  optional decode (slot ms n) = Some o <-> carries inj ms n o.
Proof.
  intros Hnd Hd Hi. unfold slot. destruct (member ms n) as [v|] eqn:Hm.
  - assert ((n, v) ∈ ms) as Hin by by apply member_Some.
    assert (forall v', (n, v') ∈ ms -> v' = v) as Huniq.
    { intros v' Hv'%member_Some; [|done]. congruence. }
    assert (v = JNull \/ v <> JNull /\ optional decode (Given v) = Some <$> decode v) as [->|[Hv ->]].
    { destruct v; by auto. }
    + destruct o as [x|]; simpl.
      * split; [done|]. intros Hx%Huniq. by destruct (Hi x).
      * split; [|done]. by intros _ v' ?%Huniq.
    + destruct o as [x|]; simpl.
      * split; [|intros Hx%Huniq; by rewrite (proj2 (Hd v x) (eq_sym Hx))].
        intros Hx. destruct (decode v) as [y|] eqn:Hy; [|done]. apply Hd in Hy. by simplify_eq/=.
      * split; [by destruct (decode v)|]. intros Hall. by destruct Hv; apply Hall.
  - apply member_None in Hm. simpl. split.
    + intros [= <-] v Hin. destruct Hm. apply list_elem_of_fmap. by exists (n, v).
    + destruct o as [x|]; simpl; [|done]. intros Hin. destruct Hm. apply list_elem_of_fmap. by exists (n, inj x).
Qed.

Lemma required_slot {T} (decode : Json -> option T) inj ms n x :
  NoDup ms.*1 -> (forall v x, decode v = Some x <-> v = inj x) ->
  required decode (slot ms n) = Some x <-> (n, inj x) ∈ ms.
Proof.
  intros Hnd Hd. rewrite <- (member_Some ms n (inj x)) by done. unfold slot.
  destruct (member ms n) as [v|]; simpl; [|done]. rewrite Hd. split; congruence.
Qed.

Lemma defaulted_slot {T} (d : T) (decode : Json -> option T) inj ms n x :
  NoDup ms.*1 -> (forall v x, decode v = Some x <-> v = inj x) ->
  defaulted d decode (slot ms n) = Some x <-> (n, inj x) ∈ ms \/ (n ∉ ms.*1) /\ x = d.
Proof.
  intros Hnd Hd. rewrite <- (member_Some ms n (inj x)), <- member_None by done. unfold slot.
  destruct (member ms n) as [v|]; simpl; [rewrite Hd|]; naive_solver.
Qed.

(** The body of a key creation is accepted exactly when it names each of
    its members once, all of them declared, with a text for [name], a text or
    null for [bound_ips] if at all, and a truth value for [can_manage_keys] if at
    all, and it means those values; the order of the members does not matter, and
    there is no way to write a key that is a master. *)
Theorem create_key_body_exact ms p :
  CreateKeyPayload_deserialize (JObject ms) = Some p <->
  NoDup ms.*1 /\ (forall k, k ∈ ms.*1 -> k ∈ CreateKeyPayload_fields) /\
  ("name", JString (Keys.ck_name p)) ∈ ms /\
  carries JString ms "bound_ips" (Keys.ck_bound_ips p) /\
  (("can_manage_keys", JBool (Keys.ck_can_manage_keys p)) ∈ ms \/
   ("can_manage_keys" ∉ ms.*1) /\ Keys.ck_can_manage_keys p = false).
Proof.
  unfold CreateKeyPayload_deserialize.
  destruct (slots CreateKeyPayload_fields (JObject ms)) as [ss|] eqn:Hs.
  2:{ split; [done|]. intros (H1 & H2 & _). cbn [slots] in Hs.
      by rewrite (proj2 (fields_ok_true _ _) (conj H1 H2)) in Hs. }
  apply slots_object in Hs as [[Hnd Hf]%fields_ok_true ->]. cbn [fmap list_fmap CreateKeyPayload_fields].
  destruct p as [name bound can]. cbn [Keys.ck_name Keys.ck_bound_ips Keys.ck_can_manage_keys].
  rewrite <- (required_slot as_string JString), <- (optional_slot as_string JString),
    <- (defaulted_slot false as_bool JBool) by (done || apply as_string_Some || apply as_bool_Some).
  destruct (required _ _); simpl; [|naive_solver]. destruct (optional _ _); simpl; [|naive_solver].
  destruct (defaulted _ _ _); simpl; naive_solver.
Qed.

(** Witness data: a creation with the members out of order. *)
Lemma create_key_body_exact_witness :
  CreateKeyPayload_deserialize (JObject [("can_manage_keys", JBool true); ("name", JString "ops")])
  = Some (Keys.mkCreateKeyPayload "ops" None true).
Proof.
  apply (create_key_body_exact [("can_manage_keys", JBool true); ("name", JString "ops")]
    (Keys.mkCreateKeyPayload "ops" None true)).
  simpl. split_and!; [apply (bool_decide_unpack _); by vm_compute|set_solver|set_solver| |set_solver].
  intros v Hv. set_solver.
Defined.

End Extract.
