(* ===== verification/Feed.v ===== *)
(** * [feed.rs], [sync.rs] and [groups.rs]: the public feed and the workers

    The feed request, the synchronisation of one endpoint and of all of them, and
    the monthly removal of stale grants. *)

From S2P Require Import Prelude.
From S2P Require Import RustStr.
From S2P Require Import Net.
From S2P Require Import Libs.
From S2P Require Import IpFilter.
From S2P Require Import Cache.
From S2P Require Import Crypto.
From S2P Require Import VaultClient.
From S2P Require Import DnsCache.
From S2P Require Import Http.
From S2P Require Import Config.
From S2P Require Import RateLimit.
From S2P Require Import Db.
From S2P Require Import App.
From S2P Require Import Auth.
From S2P Require Import ApiKeys.
From S2P Require Import ApiEndpoints.
Import App.
#[local] Open Scope Z_scope.
#[local] Open Scope prog_scope.

Module Feed.

(** The response: status, headers and body. *)
Record Response := mkResponse {
  status : Z;
  headers : list (string * string);
  body : string;
}.

(** [lines.sort()]: byte order. *)
Fixpoint str_le (s t : string) : bool :=
  match s, t with
  | EmptyString, _ => true
  | String _ _, EmptyString => false
  | String c s', String d t' =>
      if Ascii.eqb c d then str_le s' t' else Str.code c <? Str.code d
  end.

Definition line_le (s t : string) : Prop := str_le s t = true.
#[global] Instance line_le_dec s t : Decision (line_le s t).
Proof. unfold line_le. apply _. Defined.

Definition newline_str : string := String Crypto.newline "".

Section feed.
Context {L : IpNetLib} {C : CryptoLib} {Ch : ChronoLib} (app : AppConfig).

Definition sort_lines (lines : list string) : list string :=
  merge_sort line_le lines.

(** The text of a feed, from the blocks to publish. *)
Definition render (aggregated : list IpNet) : string :=
  let lines := sort_lines (net_show <$> aggregated) in
  if Nat.eqb (length lines) 0 then "" else Str.join newline_str lines +:+ newline_str.

Definition etag_of (text : string) : string :=
  Keys.quote +:+ hex_encode (sha256 text) +:+ Keys.quote.

(** The blocks an endpoint publishes now; [None] is a panic. *)
Definition published (ep : Db.Endpoint) (now : Z) (c : Cache.IpCache) : option (list IpNet) :=
  match Cache.snapshot_within c (Db.e_id ep) (Db.e_max_age_seconds ep) now with
  | Some raw => Some (IpFilter.filter_and_aggregate raw (Db.e_filter_rfc1918 ep)
                        (Db.e_filter_bogons ep) (Db.e_filter_loopback ep))
  | None => None
  end.

(** [rate_limiter.check_and_record]. *)
Definition limit (ip : IpAddr) : prog (result unit Z) :=
  Step (fun t w =>
    let '(r, l) := RateLimit.check_and_record (rate_limiter w) (mono t) ip in
    (r, set_limiter w l)) Ret.

(** [ep.bound_ips.filter(|s| !s.trim().is_empty())], parsed and matched. *)
Definition check_access (ep : Db.Endpoint) (client_ip : IpAddr) : prog (result unit AppError) :=
  match Keys.non_blank (Db.e_bound_ips ep) with
  | None => Ret (Ok tt)
  | Some raw =>
      let! entries := lift (map_err (fun _ => Internal) (Dns.parse_bound_ips raw)) in
      let* allowed := Middleware.check_bound_ips entries client_ip in
      if negb allowed then Ret (Err (Forbidden "Client IP not allowed for this endpoint"))
      else Ret (Ok tt)
  end.

(** From the text on: the conditional answer, the limiter, the body. *)
Definition respond (hdrs : Http.HeaderMap) (client_ip : IpAddr) (text : string)
  : prog (result Response AppError) :=
  let etag := etag_of text in
  let matches :=
    match Http.get_str hdrs "If-None-Match" with
    | Some inm => String.eqb (Str.trim inm) etag
    | None => false
    end in
  if matches then Ret (Ok (mkResponse 304 [("ETag", etag)] "")) else
  let* r := limit client_ip in
  match r with
  | Err remaining =>
      Ret (Ok (mkResponse 429 [("Retry-After", pretty (remaining `div` nanos_per_sec))]
        ("Rate limit exceeded: at most one request per source IP every 2 minutes" +:+ newline_str)))
  | Ok _ =>
      Ret (Ok (mkResponse 200
        [("Content-Type", "text/plain; charset=utf-8"); ("ETag", etag)] text))
  end.

(** [None] is a panic of the task. *)
Definition serve_feed (token_secret : string) (peer : IpAddr) (hdrs : Http.HeaderMap)
  : prog (option (result Response AppError)) :=
  let* client_ip := Middleware.client_ip_of app peer hdrs in
  let* found := query (fun d => Db.find_one
    (fun e => bool_decide (Db.e_token_secret e = token_secret)) (Db.endpoints d)) in
  match found with
  | Err e => Ret (Some (Err e))
  | Ok None => Ret (Some (Err NotFound))
  | Ok (Some ep) =>
      let* access := check_access ep client_ip in
      match access with
      | Err e => Ret (Some (Err e))
      | Ok _ =>
          let* blocks := Step (fun t w => (published ep (wall t) (ip_cache w), w)) Ret in
          match blocks with
          | None => Ret None
          | Some aggregated =>
              let* r := respond hdrs client_ip (render aggregated) in Ret (Some r)
          end
      end
  end.

End feed.
End Feed.

(** ** [sync.rs] *)

Module Sync.

Section sync.
Context {L : IpNetLib} {C : CryptoLib} {J : Vault.JsonLib} (app : AppConfig).

Definition FULL_SYNC_INTERVAL : Z := from_secs (24 * 3600).
Definition TICK_INTERVAL : Z := from_secs 15.
Definition BOOT_SYNC_BUDGET : Z := from_secs 30.

Definition map_records (records : list Vault.VaultApiRecord) : list Cache.VaultRecord :=
  (fun r => Cache.mkVaultRecord (Vault.api_target_address r) (Vault.api_last_seen_at r)
              (Vault.api_is_deleted r)) <$> records.

(** [client.fetch_ips]; [None] is a panic, which ends the task it happens in. *)
Definition fetch (client : Vault.VaultClient) (groups : string) (since : option Z)
  : prog Vault.Fetched :=
  Step (fun t w =>
    let '(r, st) := Vault.fetch_ips client (vault t) groups since (vault_state w) in
    (r, set_vault w st)) Ret.

Definition apply_full (id : Uuid) (rs : list Cache.VaultRecord) : prog unit :=
  Step (fun t w => (tt, set_cache w (Cache.apply_full (mono t) (ip_cache w) id rs))) Ret.

Definition apply_diff (id : Uuid) (rs : list Cache.VaultRecord) : prog unit :=
  Step (fun t w => (tt, set_cache w (Cache.apply_diff (ip_cache w) id rs))) Ret.

Definition full_sync_due (id : Uuid) : prog bool :=
  Step (fun t w => (Cache.full_sync_due (mono t) (ip_cache w) id FULL_SYNC_INTERVAL, w)) Ret.

(** A failure to persist the time is logged and dropped. *)
Definition mark_synced (ep : Db.Endpoint) : prog unit :=
  let* now := Support.now_utc in
  let* _ := stmt (Db.update_endpoint (Db.e_id ep) (Db.set_ep_last_synced_at (Some now))) in
  Ret tt.

(** A differential sync is due [max(ttl, 1)] seconds after the last one. *)
Definition diff_due (ep : Db.Endpoint) (now : Z) : bool :=
  match Db.e_last_synced_at ep with
  | None => true
  | Some last => from_secs (Z.max 1 (Db.e_ttl_seconds ep)) <=? now - last
  end.

(** [None] when the fetch panicked, here and in the loops over it. *)
Definition sync_endpoint (client : Vault.VaultClient) (ep : Db.Endpoint) : prog (option unit) :=
  let* full_due := full_sync_due (Db.e_id ep) in
  if full_due then
    let* r := fetch client (Db.e_vault_groups ep) None in
    match r with
    | Some (Ok records) =>
        let* _ := apply_full (Db.e_id ep) (map_records records) in
        let* _ := mark_synced ep in
        Ret (Some tt)
    | Some (Err _) => Ret (Some tt)
    | None => Ret None
    end
  else
    let* now := Support.now_utc in
    if negb (diff_due ep now) then Ret (Some tt) else
    let* r := fetch client (Db.e_vault_groups ep) (Db.e_last_synced_at ep) in
    match r with
    | Some (Ok records) =>
        let* _ := apply_diff (Db.e_id ep) (map_records records) in
        let* _ := mark_synced ep in
        Ret (Some tt)
    | Some (Err _) => Ret (Some tt)
    | None => Ret None
    end.

Fixpoint sync_each (client : Vault.VaultClient) (eps : list Db.Endpoint) : prog (option unit) :=
  match eps with
  | [] => Ret (Some tt)
  | ep :: rest =>
      let* done := sync_endpoint client ep in
      match done with Some _ => sync_each client rest | None => Ret None end
  end.

Definition sync_all_endpoints : prog (option unit) :=
  match vault_client app with
  | None => Ret (Some tt)
  | Some client =>
      let* found := query (fun d => Db.rows (Db.endpoints d)) in
      match found with
      | Err _ => Ret (Some tt)
      | Ok eps => sync_each client eps
      end
  end.

(** The first [n] passes of [spawn_sync_worker]'s loop (the sleeps between them
    are time that passes between two ticks).  A panic ends the spawned task, and
    nothing starts it again. *)
Fixpoint sync_worker (n : nat) : prog unit :=
  match n with
  | O => Ret tt
  | S n' =>
      let* done := sync_all_endpoints in
      match done with Some _ => sync_worker n' | None => Ret tt end
  end.

(** A program cut short after [n] steps, as a timeout cuts it. *)
Fixpoint cut {A} (n : nat) (p : prog A) : prog (option A) :=
  match p, n with
  | Ret a, _ => Ret (Some a)
  | Step _ _, O => Ret None
  | Step f k, S n' => Step f (fun b => cut n' (k b))
  end.

(** [run_boot_sync]: one pass, cut when its budget is spent after [n] steps. *)
Definition run_boot_sync (n : nat) : prog (option unit) :=
  match vault_client app with
  | None => Ret (Some tt)
  | Some _ =>
      let* ended := cut n sync_all_endpoints in
      Ret match ended with Some None => None | _ => Some tt end
  end.

(** ** [groups.rs] *)

Definition CLEANUP_INTERVAL : Z := from_secs (30 * 24 * 60 * 60).

(** The grants whose group is not in Vault's listing. *)
Definition stale_ids (live : list Vault.VaultGroup) (grants : list Db.VaultGroupPermission)
  : list Uuid :=
  Db.g_id <$> List.filter
    (fun g => negb (existsb (fun v => bool_decide (Vault.vg_id v = Db.g_vault_group_id g)) live)) grants.

Definition cleanup_stale_group_permissions : prog unit :=
  match vault_client app with
  | None => Ret tt
  | Some client =>
      let* r := Groups.vault_list_groups client in
      match r with
      | Err _ => Ret tt
      | Ok live =>
          let* found := query (fun d => Db.rows (Db.vault_group_permissions d)) in
          match found with
          | Err _ => Ret tt
          | Ok grants =>
              let stale := stale_ids live grants in
              if Nat.eqb (length stale) 0 then Ret tt else
              let* _ := stmt (Db.delete_grants stale) in Ret tt
          end
      end
  end.

(** The first [n] passes of [spawn_group_permission_cleanup_worker]'s loop. *)
Fixpoint cleanup_worker (n : nat) : prog unit :=
  match n with
  | O => Ret tt
  | S n' => let* _ := cleanup_stale_group_permissions in cleanup_worker n'
  end.

End sync.
End Sync.
