(* ===== verification/FeedProps.v ===== *)
(** * What the public feed and the workers guarantee

    The feed: what a client is given, that the text does not depend on the order
    of a hash map, and what costs a client its slot in the rate limiter.  The
    workers: a synchronisation mirrors Vault or changes nothing, and the cleanup
    removes only grants Vault no longer backs. *)

From S2P Require Import Prelude.
From S2P Require Import RustStr.
From S2P Require Import Net.
From S2P Require Import Libs.
From S2P Require Import LibsRef.
From S2P Require Import IpFilter.
From S2P Require Import Cache.
From S2P Require Import Crypto.
From S2P Require Import VaultClient.
From S2P Require Import DnsCache.
From S2P Require Import Http.
From S2P Require Import Config.
From S2P Require Import RateLimit.
From S2P Require Import Replay.
From S2P Require Import Db.
From S2P Require Import App.
From S2P Require Import Demo.
From S2P Require Import Auth.
From S2P Require Import ApiKeys.
From S2P Require Import ApiEndpoints.
From S2P Require Import Feed.
Import App.
#[local] Open Scope Z_scope.
#[local] Open Scope prog_scope.

Module FeedProps.

(** ** The order of lines *)

#[global] Instance line_le_trans : Transitive Feed.line_le.
Proof.
  unfold Feed.line_le. intros s. induction s as [|c s IH]; intros [|d t] [|e u]; simpl; try done.
  destruct (Ascii.eqb_spec c d) as [<-|Hcd].
  - destruct (Ascii.eqb_spec c e); [apply IH|done].
  - destruct (Ascii.eqb_spec d e) as [<-|Hde].
    + destruct (Ascii.eqb_spec c d); done.
    + rewrite !Z.ltb_lt. destruct (Ascii.eqb_spec c e) as [<-|]; rewrite ?Z.ltb_lt; lia.
Qed.

#[global] Instance line_le_total : Total Feed.line_le.
Proof.
  unfold Feed.line_le. intros s. induction s as [|c s IH]; intros [|d t]; simpl; auto.
  rewrite (Ascii.eqb_sym d c). destruct (Ascii.eqb_spec c d) as [|Hne]; [apply IH|].
  rewrite !Z.ltb_lt. destruct (Z.lt_trichotomy (Str.code c) (Str.code d)) as [|[H|]]; auto.
  by apply Str.code_inj in H.
Qed.

#[global] Instance line_le_anti : AntiSymm (=) Feed.line_le.
Proof.
  unfold Feed.line_le. intros s. induction s as [|c s IH]; intros [|d t]; simpl; try done.
  rewrite (Ascii.eqb_sym d c). destruct (Ascii.eqb_spec c d) as [<-|Hne].
  - intros. f_equal. by apply IH.
  - rewrite !Z.ltb_lt. lia.
Qed.

(** The sorted text is a function of the set of lines with their multiplicities. *)
Lemma sort_lines_perm ls ls' : ls ≡ₚ ls' -> Feed.sort_lines ls = Feed.sort_lines ls'.
Proof.
  intros Hp. apply (StronglySorted_unique Feed.line_le);
    [apply StronglySorted_merge_sort; apply _..|].
  unfold Feed.sort_lines.
  etrans; [apply merge_sort_Permutation|]. etrans; [exact Hp|]. symmetry. apply merge_sort_Permutation.
Qed.

Section feed.
Context {L : IpNetLib} {LL : IpNetLaws L} {C : CryptoLib} {Ch : ChronoLib} {CL : ChronoLaws Ch}.
Context (app : AppConfig).

(** The text of a feed, and with it its ETag, does not depend on the order in
    which the hash map of the cache is iterated. *)
Theorem feed_text_canonical raw raw' r b l :
  raw ≡ₚ raw' ->
  Feed.render (IpFilter.filter_and_aggregate raw r b l)
  = Feed.render (IpFilter.filter_and_aggregate raw' r b l) /\
  Feed.etag_of (Feed.render (IpFilter.filter_and_aggregate raw r b l))
  = Feed.etag_of (Feed.render (IpFilter.filter_and_aggregate raw' r b l)).
Proof.
  intros Hp. enough (Feed.render (IpFilter.filter_and_aggregate raw r b l)
    = Feed.render (IpFilter.filter_and_aggregate raw' r b l)) as -> by done.
  unfold Feed.render. rewrite !IpFilter.filtered_eq.
  erewrite sort_lines_perm; [done|]. apply fmap_Permutation, aggregate_perm.
  induction Hp; simpl; repeat case_match; eauto using Permutation.
Qed.

(** The addresses an endpoint may publish at [now]: those of a cached record seen
    within the retention window whose whole block lies outside the ranges the
    endpoint withholds. *)
Definition publishable (ep : Db.Endpoint) (now : Z) (c : Cache.IpCache) (a : IpAddr) : Prop :=
  exists k r, Cache.cached c (Db.e_id ep) !! k = Some r /\
    net_contains (Cache.cr_network r) a = true /\
    (0 < Db.e_max_age_seconds ep ->
     now - from_secs (Db.e_max_age_seconds ep) <= Cache.cr_last_seen_at r) /\
    forall a', ip_wf a' -> net_contains (Cache.cr_network r) a' = true ->
      IpFilter.withheld (Db.e_filter_rfc1918 ep) (Db.e_filter_bogons ep) (Db.e_filter_loopback ep) a'
      = false.

Lemma published_covers ep now c blocks a :
  Feed.published ep now c = Some blocks -> ip_wf a ->
  covered blocks a = true <-> publishable ep now c a.
Proof.
  unfold Feed.published. destruct (Cache.snapshot_within _ _ _ _) as [raw|] eqn:Hs; [|done].
  intros [= <-] Ha. rewrite IpFilter.filter_exact by done. unfold publishable.
  pose proof (Cache.snapshot_Some _ _ _ _ _ Hs) as Hraw. split.
  - intros (n & (k & r & Hk & <- & Hage)%Hraw & Hc & Hw). by exists k, r.
  - intros (k & r & Hk & Hc & Hage & Hw). exists (Cache.cr_network r).
    split_and!; [apply Hraw; eauto|done..].
Qed.

(** The client address a request is served for: at the first step, what the peer
    and the headers say in view of the proxies trusted then. *)
Definition client_seen (peer : IpAddr) (hdrs : Http.HeaderMap) (tr : list (Tick * World * World))
  (ip : IpAddr) : Prop :=
  exists t w w' rest, tr = (t, w, w') :: rest /\
    ip = Config.resolve_client_ip peer hdrs
           (Config.resolved (dns t) (Config.trusted_proxies (config app)) (dns_resolver w)).1.

Lemma client_ip_seen peer hdrs tr ip rest :
  exec (Middleware.client_ip_of app peer hdrs) tr ip -> client_seen peer hdrs (tr ++ rest) ip.
Proof.
  intros (t & w & -> & ->)%exec_step1. destruct (Config.resolved _ _ _) as [trusted d] eqn:Hr.
  exists t, w. do 2 eexists. split; [reflexivity|]. by rewrite Hr.
Qed.

Lemma client_seen_app peer hdrs tr tr' ip : client_seen peer hdrs tr ip -> client_seen peer hdrs (tr ++ tr') ip.
Proof. intros (t & w & w' & rest & -> & Hip). by exists t, w, w', (rest ++ tr'). Qed.

Lemma client_seen_det peer hdrs tr ip ip' :
  client_seen peer hdrs tr ip -> client_seen peer hdrs tr ip' -> ip' = ip.
Proof. intros (t & w & w1 & rest & -> & ->) (t' & w' & w1' & rest' & [= -> -> _ _] & ->). done. Qed.

(** What an answered request has gone through, step by step. *)
Lemma serve_feed_exec token peer hdrs tr r :
  exec (Feed.serve_feed app token peer hdrs) tr (Some (Ok r)) ->
  exists ip t1 w1 w1' ep id t2 w2 w2' blocks tr1 tr2,
    tr = tr1 ++ tr2 /\ client_seen peer hdrs tr1 ip /\ (t1, w1, w1') ∈ tr1 /\ (t2, w2, w2') ∈ tr1 /\
    Db.endpoints (db w1) !! id = Some ep /\ Db.e_token_secret ep = token /\
    (Keys.non_blank (Db.e_bound_ips ep) = None \/
     exists raw entries t w w', Keys.non_blank (Db.e_bound_ips ep) = Some raw /\
       Dns.parse_bound_ips raw = Ok entries /\ (t, w, w') ∈ tr1 /\
       (Dns.is_allowed (dns t) entries ip (dns_resolver w)).1 = true) /\
    Feed.published ep (wall t2) (ip_cache w2) = Some blocks /\
    exec (Feed.respond hdrs ip (Feed.render blocks)) tr2 (Ok r).
Proof.
  unfold Feed.serve_feed. intros (tra & ip & trb & -> & Hip & He)%exec_bind.
  apply exec_bind in He as (trc & found & trd & -> & Hq & He).
  destruct found as [[ep|]|e]; [|by apply exec_ret in He as [_ ?]..].
  apply exec_query_ok in Hq as (t1 & w1 & -> & Hep). symmetry in Hep.
  apply Db.find_one_Some in Hep as (Htok%bool_decide_eq_true & id & Hid).
  apply exec_bind in He as (tre & acc & trf & -> & Hacc & He).
  destruct acc as [[]|e]; [|by apply exec_ret in He as [_ ?]].
  apply exec_bind in He as (trg & blocks & trh & -> & (t2 & w2 & -> & Hb)%exec_step1 & He).
  cbn [fst] in Hb. destruct blocks as [blocks|]; [|by apply exec_ret in He as [_ ?]].
  apply exec_bind in He as (tri & r' & trj & -> & Hr & [-> [= <-]]%exec_ret).
  exists ip, t1, w1, (set_db w1 (db w1)), ep, id, t2, w2, w2, blocks,
    (tra ++ [(t1, w1, set_db w1 (db w1))] ++ tre ++ [(t2, w2, w2)]), tri.
  split_and!; [by rewrite app_nil_r, <- !app_assoc|by apply client_ip_seen|in_trace..|done|done| |done|done].
  unfold Feed.check_access in Hacc. destruct (Keys.non_blank _) as [raw|]; [right|by left].
  apply exec_bind_ok in Hacc as (? & entries & tr3 & -> & [-> Hp]%exec_ret & Hacc).
  apply exec_bind in Hacc as (? & ok & tr4 & -> & (t & w & -> & Hok)%exec_step1 & Hacc).
  destruct ok; [|by apply exec_ret in Hacc as [_ ?]]. apply exec_ret in Hacc as [-> _].
  exists raw, entries, t, w. eexists. split_and!; [done|by destruct (Dns.parse_bound_ips _); simplify_eq/=|in_trace|].
  by destruct (Dns.is_allowed _ _ _ _).
Qed.

(** The three answers. *)
Lemma respond_exec hdrs ip text tr r :
  exec (Feed.respond hdrs ip text) tr (Ok r) ->
  (tr = [] /\ r = Feed.mkResponse 304 [("ETag", Feed.etag_of text)] "" /\
   exists inm, Http.get_str hdrs "If-None-Match" = Some inm /\ Str.trim inm = Feed.etag_of text) \/
  exists t w w', tr = [(t, w, w')] /\
    let d := (RateLimit.check_and_record (rate_limiter w) (mono t) ip).1 in
    w' = set_limiter w (RateLimit.check_and_record (rate_limiter w) (mono t) ip).2 /\
    match d with
    | Ok _ => Feed.status r = 200 /\ Feed.body r = text
    | Err remaining => Feed.status r = 429 /\
        Feed.headers r = [("Retry-After", pretty (remaining `div` nanos_per_sec))]
    end.
Proof.
  unfold Feed.respond. cbv zeta. intros He.
  destruct (match Http.get_str hdrs "If-None-Match" with Some _ => _ | None => _ end) eqn:Hm.
  - apply exec_ret in He as [-> [= ->]]. left. split_and!; [done..|].
    destruct (Http.get_str _ _) as [inm|]; [|done]. exists inm. split; [done|]. by apply String.eqb_eq.
  - right. apply exec_bind in He as (tr1 & d & tr2 & -> & (t & w & -> & Hd)%exec_step1 & He).
    exists t, w. destruct (RateLimit.check_and_record _ _ _) as [d' l]. cbn [fst snd] in *. subst d'.
    destruct d as [[]|rem]; apply exec_ret in He as [-> [= ->]]; eexists; split_and!; done.
Qed.

(** C11. What a feed hands out is exactly what its endpoint may publish: a [200]
    is given for the endpoint that holds the token, and only where its binding
    admits the client, which is the address resolved from the peer, the headers
    and the proxies trusted at the first step; its text lists blocks that cover
    precisely the addresses of the cached, recent records outside the withheld
    ranges. *)
Theorem feed_publishes_exactly token peer hdrs tr r :
  exec (Feed.serve_feed app token peer hdrs) tr (Some (Ok r)) -> Feed.status r = 200 ->
  exists ip ep id t1 w1 w1' t2 w2 w2' blocks, client_seen peer hdrs tr ip /\
    (t1, w1, w1') ∈ tr /\ Db.endpoints (db w1) !! id = Some ep /\ Db.e_token_secret ep = token /\
    (Keys.non_blank (Db.e_bound_ips ep) = None \/
     exists raw entries t w w', Keys.non_blank (Db.e_bound_ips ep) = Some raw /\
       Dns.parse_bound_ips raw = Ok entries /\ (t, w, w') ∈ tr /\
       (Dns.is_allowed (dns t) entries ip (dns_resolver w)).1 = true) /\
    (t2, w2, w2') ∈ tr /\ Feed.body r = Feed.render blocks /\
    forall a, ip_wf a -> covered blocks a = true <-> publishable ep (wall t2) (ip_cache w2) a.
Proof.
  intros (ip & t1 & w1 & w1' & ep & id & t2 & w2 & w2' & blocks & tr1 & tr2 &
    -> & Hip & H1 & H2 & Hep & Htok & Hacc & Hpub & Hr)%serve_feed_exec Hst.
  exists ip, ep, id, t1, w1, w1', t2, w2, w2', blocks.
  split_and!; [by apply client_seen_app|in_trace|done|done| |in_trace| |intros; by apply published_covers].
  - destruct Hacc as [|(raw & en & t & w & w' & ? & ? & ? & ?)]; [by left|right].
    exists raw, en, t, w, w'. split_and!; [done..|in_trace|done].
  - apply respond_exec in Hr as [(_ & -> & _)|(t & w & w' & _ & _ & Hd)]; [done|].
    destruct (RateLimit.check_and_record _ _ _) as [[[]|rem] l]; cbn [fst] in Hd; [by apply Hd|].
    destruct Hd; congruence.
Qed.

(** The limiter lets a body for [ip] pass at this step. *)
Definition admits (s : Tick * World * World) (ip : IpAddr) : Prop :=
  RateLimit.check_and_record (rate_limiter s.1.2) (mono s.1.1) ip = (Ok tt, rate_limiter s.2).

(** The last thing before a body is sent is that the limiter admits the client. *)
Lemma feed_body_charged token peer hdrs tr r :
  exec (Feed.serve_feed app token peer hdrs) tr (Some (Ok r)) -> Feed.status r = 200 ->
  exists ip s, client_seen peer hdrs tr ip /\ last tr = Some s /\ admits s ip.
Proof.
  intros (ip & t1 & w1 & w1' & ep & id & t2 & w2 & w2' & blocks & tr1 & tr2 &
    -> & Hip & _ & _ & _ & _ & _ & _ & Hr)%serve_feed_exec Hst.
  apply respond_exec in Hr as [(_ & -> & _)|(t & w & w' & -> & -> & Hd)]; [done|].
  exists ip. eexists. split_and!; [by apply client_seen_app|by rewrite last_snoc|].
  unfold admits. simpl. destruct (RateLimit.check_and_record _ _ _) as [[[]|rem] l]; [done|]. destruct Hd. congruence.
Qed.

(** A step that leaves the limiter alone. *)
Definition limiter_same (w w' : World) : Prop := rate_limiter w' = rate_limiter w.

Lemma check_access_limiter ep ip : always limiter_same (Feed.check_access ep ip).
Proof.
  unfold Feed.check_access. case_match; [|apply always_ret].
  apply always_bind_ok; [apply always_ret|]. intros entries.
  apply always_bind; [|intros ok; case_match; apply always_ret].
  apply always_step; [|intros; apply always_ret]. intros t w. by destruct (Dns.is_allowed _ _ _ _).
Qed.

(** Only a body, or the refusal of one, costs a client its slot: if a request
    to a feed changes the rate limiter then its answer is a [200] or a [429].
    Unknown tokens, refused clients and conditional requests answered [304] are
    free. *)
Theorem only_bodies_are_charged token peer hdrs tr r :
  exec (Feed.serve_feed app token peer hdrs) tr r ->
  Forall (fun s => limiter_same s.1.2 s.2) tr \/
  exists resp, r = Some (Ok resp) /\ (Feed.status resp = 200 \/ Feed.status resp = 429).
Proof.
  intros He. unfold Feed.serve_feed in He.
  assert (forall A (f : Tick -> World -> A * World), (forall t w, limiter_same w (f t w).2) ->
    always limiter_same (Step f Ret)) as Hstep.
  { intros A f Hf. apply always_step; [done|]. intros; apply always_ret. }
  apply exec_bind in He as (tra & ip & trb & -> & Ha & He).
  apply Hstep in Ha; [|intros t w; by destruct (Config.resolved _ _ _)].
  apply exec_bind in He as (trc & found & trd & -> & Hq & He).
  apply Hstep in Hq; [|intros t w; by destruct (db_faults t 0)].
  destruct found as [[ep|]|e].
  2,3: apply exec_ret in He as [-> _]; left; by rewrite app_nil_r, Forall_app.
  apply exec_bind in He as (tre & acc & trf & -> & Hacc & He). apply check_access_limiter in Hacc.
  destruct acc as [[]|e].
  2: apply exec_ret in He as [-> _]; left; by rewrite app_nil_r, !Forall_app.
  apply exec_bind in He as (trg & blocks & trh & -> & Hb & He). apply Hstep in Hb; [|done].
  destruct blocks as [blocks|].
  2: apply exec_ret in He as [-> _]; left; by rewrite app_nil_r, !Forall_app.
  apply exec_bind in He as (tri & r' & trj & -> & Hr & [-> ->]%exec_ret).
  destruct r' as [r'|e].
  - apply respond_exec in Hr as [(-> & _)|(t & w & w' & -> & _ & Hd)].
    + left. by rewrite !app_nil_r, !Forall_app.
    + right. exists r'. split; [done|].
      destruct (RateLimit.check_and_record _ _ _) as [[[]|rem] l]; cbn [fst] in Hd; naive_solver.
  - unfold Feed.respond in Hr. cbv zeta in Hr. exfalso.
    destruct (match Http.get_str _ _ with Some _ => _ | None => _ end);
      [by apply exec_ret in Hr as [_ ?]|].
    apply exec_bind in Hr as (? & [?|?] & ? & _ & _ & [_ ?]%exec_ret); done.
Qed.

End feed.

(** ** Synchronisation *)

Section workers.
Context {L : IpNetLib} {C : CryptoLib} {J : Vault.JsonLib} (app : AppConfig).

Lemma lists_perm V P rs rs' : rs ≡ₚ rs' -> Cache.lists V P rs -> Cache.lists V P rs'.
Proof. intros Hp Hl r. by rewrite <- Hp. Qed.

(** The marking at the end of a sync leaves the cache alone. *)
Lemma mark_synced_cache env ep i w : ip_cache (run env i (Sync.mark_synced ep) w).1.2 = ip_cache w.
Proof.
  simpl. destruct (db_faults _ _); [done|]. by destruct (Db.update_endpoint _ _ _) as [[]].
Qed.

(** One endpoint: its own entry is replaced, in five steps. *)
Lemma sync_endpoint_full env i client ep V R w :
  Cache.full_sync_due (mono (env i)) (ip_cache w) (Db.e_id ep) Sync.FULL_SYNC_INTERVAL = true ->
  Vault.serves client (vault (env (S i))) (Vault.ips_base (Db.e_vault_groups ep) None) R ->
  Z.of_nat (length R) < Vault.MAX_PAGES * Vault.page_size client ->
  Cache.lists V (fun r => Cache.is_deleted r = false) (Sync.map_records R) ->
  exists w', run env i (Sync.sync_endpoint client ep) w = (Some tt, w', 5 + i)%nat /\
    Cache.mirrors (ip_cache w') (Db.e_id ep) V /\
    forall id, id <> Db.e_id ep -> ip_cache w' !! id = ip_cache w !! id.
Proof.
  intros Hdue Hs HR Hl.
  destruct (Vault.fetch_complete client (vault (env (S i))) (Db.e_vault_groups ep) None R
              (vault_state w) Hs HR) as (all & st & Hf & Hp).
  unfold Sync.sync_endpoint, Sync.full_sync_due, Sync.fetch. cbn [bind run].
  rewrite Hdue. cbn [bind run]. rewrite Hf. unfold Sync.apply_full. cbn [bind run fst snd]. rewrite run_bind.
  destruct (run env (S (S (S i))) (Sync.mark_synced ep) _) as [[[] w'] i'] eqn:Hm.
  pose proof (mark_synced_cache env ep (S (S (S i))) (set_cache (set_vault w st)
    (Cache.apply_full (mono (env (S (S i)))) (ip_cache (set_vault w st)) (Db.e_id ep) (Sync.map_records all))))
    as Hc. rewrite Hm in Hc. cbn [fst snd ip_cache set_cache set_vault] in Hc.
  assert (i' = 5 + i)%nat as ->.
  { revert Hm. simpl. destruct (db_faults _ _); [by intros [= _ <-]|].
    destruct (Db.update_endpoint _ _ _) as [[]]; by intros [= _ <-]. }
  exists w'. split; [done|]. rewrite Hc. split.
  - apply Cache.mirrors_full. eapply lists_perm; [|exact Hl]. unfold Sync.map_records. by apply fmap_Permutation.
  - intros id Hid. unfold Cache.apply_full. destruct (foldl _ _ _). by rewrite lookup_insert_ne.
Qed.

Lemma mirrors_lookup c c' id V : c !! id = c' !! id -> Cache.mirrors c id V -> Cache.mirrors c' id V.
Proof. unfold Cache.mirrors, Cache.faithful, Cache.cached, Cache.entry_of. by intros ->. Qed.

(** What a pass needs of an endpoint: its full synchronisation is due throughout,
    and Vault serves the live part of [V]. *)
Definition due_and_served (env : nat -> Tick) (client : Vault.VaultClient) (c : Cache.IpCache)
    (ep : Db.Endpoint) (V : Cache.VaultState) : Prop :=
  (forall j, Cache.full_sync_due (mono (env j)) c (Db.e_id ep) Sync.FULL_SYNC_INTERVAL = true) /\
  exists R, (forall j, Vault.serves client (vault (env j)) (Vault.ips_base (Db.e_vault_groups ep) None) R) /\
    Z.of_nat (length R) < Vault.MAX_PAGES * Vault.page_size client /\
    Cache.lists V (fun r => Cache.is_deleted r = false) (Sync.map_records R).

Lemma sync_each_full (env : nat -> Tick) (client : Vault.VaultClient) (V : Uuid -> Cache.VaultState) eps : forall i w,
  NoDup (Db.e_id <$> eps) ->
  (forall ep, ep ∈ eps -> due_and_served env client (ip_cache w) ep (V (Db.e_id ep))) ->
  exists w', run env i (Sync.sync_each client eps) w = (Some tt, w', 5 * length eps + i)%nat /\
    (forall ep, ep ∈ eps -> Cache.mirrors (ip_cache w') (Db.e_id ep) (V (Db.e_id ep))) /\
    forall id, id ∉ Db.e_id <$> eps -> ip_cache w' !! id = ip_cache w !! id.
Proof.
  induction eps as [|ep eps IH]; intros i w Hnd Hok; cbn [Sync.sync_each].
  { exists w. split_and!; [done|by intros ? ?%elem_of_nil|done]. }
  apply NoDup_cons in Hnd as [Hnew Hnd].
  destruct (Hok ep) as [Hdue (R & Hs & HR & Hl)]; [by left|].
  destruct (sync_endpoint_full env i client ep _ R w (Hdue i) (Hs (S i)) HR Hl) as (w1 & H1 & Hm & Hne).
  rewrite run_bind, H1.
  destruct (IH (5 + i)%nat w1 Hnd) as (w2 & H2 & Hall & Hrest).
  { intros ep' Hep'. assert (Db.e_id ep' <> Db.e_id ep) as Hd.
    { intros He. apply Hnew. apply list_elem_of_fmap. by exists ep'. }
    destruct (Hok ep') as [Hdue' Hsv]; [by right|]. split; [|done]. intros j.
    specialize (Hdue' j). unfold Cache.full_sync_due in *. by rewrite (Hne _ Hd). }
  exists w2. rewrite H2. split_and!; [f_equal; cbn [length]; lia| |].
  - intros ep' [->|Hep']%elem_of_cons; [|by apply Hall].
    eapply mirrors_lookup; [|exact Hm]. symmetry. by apply Hrest.
  - intros id [Hid Hid']%not_elem_of_cons. rewrite Hrest by done. by apply Hne.
Qed.

(** A budget that is not spent cuts nothing. *)
Lemma run_cut {A} env (p : prog A) : forall n i w a w' i',
  run env i p w = (a, w', i') -> (i' <= n + i)%nat -> run env i (Sync.cut n p) w = (Some a, w', i').
Proof.
  assert (forall (p : prog A) i w, (i <= (run env i p w).2)%nat) as Hmono.
  { clear. induction p as [a|B f k IH]; intros i w; cbn [run]; [done|].
    destruct (f (env i) w) as [b w1]. specialize (IH b (S i) w1). lia. }
  induction p as [a|B f k IH]; intros [|n] i w x w' i' Hr Hn; cbn [Sync.cut run] in *; try by simplify_eq.
  - destruct (f (env i) w) as [b w1]. specialize (Hmono (k b) (S i) w1). rewrite Hr in Hmono. simpl in *. lia.
  - destruct (f (env i) w) as [b w1]. eapply IH; [exact Hr|]. lia.
Qed.

(** The budgeted pass, from any step on. *)
Lemma boot_sync_full env i client n w V :
  vault_client app = Some client -> Db.db_wf (db w) -> db_faults (env i) 0 = false ->
  (forall id ep, Db.endpoints (db w) !! id = Some ep -> due_and_served env client (ip_cache w) ep (V id)) ->
  (1 + 5 * size (Db.endpoints (db w)) <= n)%nat ->
  forall id, is_Some (Db.endpoints (db w) !! id) ->
    Cache.mirrors (ip_cache (run env i (Sync.run_boot_sync app n) w).1.2) id (V id).
Proof.
  intros Happ Hwf Hdb Hok Hn id [ep Hep]. unfold Sync.run_boot_sync. rewrite Happ.
  pose proof (Db.wf_endpoints _ Hwf) as Hkeyed.
  assert (Db.e_id <$> Db.rows (Db.endpoints (db w)) = (map_to_list (Db.endpoints (db w))).*1) as Hids.
  { unfold Db.rows. rewrite <- list_fmap_compose. apply list_fmap_ext. intros j [k e] Hj.
    apply (Hkeyed k e), elem_of_map_to_list. by eapply list_elem_of_lookup_2. }
  destruct (sync_each_full env client V (Db.rows (Db.endpoints (db w))) (S i) (set_db w (db w)))
    as (w' & Hrun & Hall & _).
  { rewrite Hids. apply NoDup_fst_map_to_list. }
  { intros e [k Hk]%Db.elem_of_rows. rewrite (Hkeyed k e Hk). cbn [ip_cache set_db]. by apply Hok. }
  assert (run env i (Sync.sync_all_endpoints app) w
    = (Some tt, w', 5 * length (Db.rows (Db.endpoints (db w))) + S i)%nat) as Hpass.
  { unfold Sync.sync_all_endpoints. rewrite Happ, run_bind. unfold query, stmt. cbn [run]. rewrite Hdb.
    cbn [run map_err]. exact Hrun. }
  rewrite run_bind, (run_cut env _ n i w (Some tt) w' _ Hpass).
  - rewrite <- (Hkeyed id ep Hep). apply Hall, Db.elem_of_rows. eauto.
  - unfold Db.rows. rewrite length_fmap. rewrite length_map_to_list. lia.
Qed.

(** The startup synchronisation does what it is there for: on a database with
    any number of endpoints whose full synchronisation is due (after a restart,
    all of them), against a Vault that serves its live entries, however paginated
    and in whatever completion order, a pass that is given the time for its
    steps leaves every endpoint's cache right about every address ([Cache.mirrors]),
    whatever it held before. *)
Theorem boot_sync_fills_every_feed env client n w V :
  vault_client app = Some client -> Db.db_wf (db w) -> db_faults (env 0%nat) 0 = false ->
  (forall id ep, Db.endpoints (db w) !! id = Some ep -> due_and_served env client (ip_cache w) ep (V id)) ->
  (1 + 5 * size (Db.endpoints (db w)) <= n)%nat ->
  forall id, is_Some (Db.endpoints (db w) !! id) ->
    Cache.mirrors (ip_cache (after env (Sync.run_boot_sync app n) w)) id (V id).
Proof. apply boot_sync_full. Qed.

(** A failed fetch changes nothing: if Vault cannot be reached, refuses or
    answers rubbish on any page, the endpoint keeps serving the cache it had, and
    no row of the database is touched. *)
Theorem failed_sync_keeps_everything env client ep w :
  (forall i since e, i = 1%nat \/ i = 2%nat ->
     exists e', (Vault.fetch_ips client (vault (env i)) (Db.e_vault_groups ep) since e).1 = Some (Err e')) ->
  ip_cache (after env (Sync.sync_endpoint client ep) w) = ip_cache w /\
  db (after env (Sync.sync_endpoint client ep) w) = db w.
Proof.
  intros Hfail. unfold after, Sync.sync_endpoint, Sync.full_sync_due, Sync.fetch, Support.now_utc, read.
  cbn [bind run]. destruct (Cache.full_sync_due _ _ _ _); cbn [bind run].
  - destruct (Hfail 1%nat None (vault_state w)) as [e He]; [by left|].
    destruct (Vault.fetch_ips _ _ _ _ _) as [r st]. simpl in He. by subst r.
  - destruct (Sync.diff_due _ _); cbn [negb bind run]; [|done].
    destruct (Hfail 2%nat (Db.e_last_synced_at ep) (vault_state w)) as [e He]; [by right|].
    destruct (Vault.fetch_ips _ _ _ _ _) as [r st]. simpl in He. by subst r.
Qed.

(** What the synchronisation of [ep] may change in one step: its own cache entry
    and its own [last_synced_at]. *)
Definition sync_frame (ep : Db.Endpoint) (w w' : World) : Prop :=
  Db.api_keys (db w') = Db.api_keys (db w) /\
  Db.audit_logs (db w') = Db.audit_logs (db w) /\
  Db.vault_group_permissions (db w') = Db.vault_group_permissions (db w) /\
  rate_limiter w' = rate_limiter w /\ replay_guard w' = replay_guard w /\
  master_pin w' = master_pin w /\
  (forall id, id <> Db.e_id ep ->
     Cache.cached (ip_cache w') id = Cache.cached (ip_cache w) id /\
     Db.endpoints (db w') !! id = Db.endpoints (db w) !! id) /\
  (Db.endpoints (db w') !! Db.e_id ep = Db.endpoints (db w) !! Db.e_id ep \/
   exists e t, Db.endpoints (db w) !! Db.e_id ep = Some e /\
     Db.endpoints (db w') !! Db.e_id ep = Some (Db.set_ep_last_synced_at t e)).

Lemma sync_frame_same ep w w' :
  db w' = db w -> rate_limiter w' = rate_limiter w -> replay_guard w' = replay_guard w ->
  master_pin w' = master_pin w ->
  (forall id, id <> Db.e_id ep -> Cache.cached (ip_cache w') id = Cache.cached (ip_cache w) id) ->
  sync_frame ep w w'.
Proof. intros Hd Hl Hr Hm Hc. unfold sync_frame. rewrite Hd, Hl, Hr, Hm. split_and!; auto. Qed.

Lemma mark_synced_frame ep : always (sync_frame ep) (Sync.mark_synced ep).
Proof.
  apply always_bind; [apply always_step; [|intros; apply always_ret]; intros; by apply sync_frame_same|].
  intros now. apply always_bind; [|intros; apply always_ret].
  apply always_step; [|intros; apply always_ret]. intros t w.
  destruct (db_faults t 0); [by apply sync_frame_same|]. unfold Db.update_endpoint.
  destruct (Db.endpoints (db w) !! Db.e_id ep) as [e|] eqn:He; [|by apply sync_frame_same].
  destruct (Db.token_conflicts _ _); [by apply sync_frame_same|].
  destruct (negb _); [by apply sync_frame_same|]. unfold sync_frame. simpl. split_and!; try done.
  - intros id Hid. by rewrite lookup_insert_ne.
  - right. rewrite lookup_insert_eq. eauto.
Qed.

(** Synchronising an endpoint is confined to it: under any interleaving its
    steps change no key, grant or audit row, no other endpoint's row or cache
    entry, and of its own row only [last_synced_at]. *)
Theorem sync_is_confined client ep : always (sync_frame ep) (Sync.sync_endpoint client ep).
Proof.
  assert (forall g s, always (sync_frame ep) (Sync.fetch client g s)) as Hfetch.
  { intros. apply always_step; [|intros; apply always_ret]. intros t w.
    destruct (Vault.fetch_ips _ _ _ _ _). by apply sync_frame_same. }
  unfold Sync.sync_endpoint, Support.now_utc, read.
  apply always_bind; [apply always_step; [|intros; apply always_ret]; intros; by apply sync_frame_same|].
  intros due. destruct due.
  - apply always_bind; [done|]. intros [[rs|e]|]; [|apply always_ret..].
    apply always_bind; [|intros; apply always_bind; [apply mark_synced_frame|intros; apply always_ret]].
    apply always_step; [|intros; apply always_ret]. intros t w. apply sync_frame_same; try done.
    intros id Hid. by apply Cache.apply_full_other.
  - apply always_bind; [apply always_step; [|intros; apply always_ret]; intros; by apply sync_frame_same|].
    intros now. destruct (negb _); [apply always_ret|]. apply always_bind; [done|].
    intros [[rs|e]|]; [|apply always_ret..].
    apply always_bind; [|intros; apply always_bind; [apply mark_synced_frame|intros; apply always_ret]].
    apply always_step; [|intros; apply always_ret]. intros t w. apply sync_frame_same; try done.
    intros id Hid. by apply Cache.apply_diff_other.
Qed.

(** ** The cleanup of grants *)

Lemma elem_of_stale live grants id :
  id ∈ Sync.stale_ids live grants <->
  exists g, g ∈ grants /\ Db.g_id g = id /\ forall v, v ∈ live -> Vault.vg_id v <> Db.g_vault_group_id g.
Proof.
  unfold Sync.stale_ids. rewrite list_elem_of_fmap. setoid_rewrite elem_of_filter_bool.
  assert (forall g, negb (existsb (fun v => bool_decide (Vault.vg_id v = Db.g_vault_group_id g)) live) = true
    <-> forall v, v ∈ live -> Vault.vg_id v <> Db.g_vault_group_id g) as Hx; [|naive_solver].
  intros g. rewrite negb_true_iff, <- not_true_iff_false, existsb_exists.
  setoid_rewrite bool_decide_eq_true. setoid_rewrite <- list_elem_of_In. naive_solver.
Qed.

(** The cleanup removes only what Vault no longer backs: a step of it that
    changes the database follows a successful listing of Vault's groups and only
    removes grants, each of them read beforehand and of a group absent from that
    listing; if Vault does not answer, nothing is removed. *)
Theorem cleanup_removes_only_stale tr :
  exec (Sync.cleanup_stale_group_permissions app) tr tt ->
  forall t w w', (t, w, w') ∈ tr -> db w' <> db w ->
  exists client t0 w0 w0' live t1 w1 w1',
    vault_client app = Some client /\ (t0, w0, w0') ∈ tr /\ (t1, w1, w1') ∈ tr /\
    (Vault.list_groups client (vault t0) (vault_state w0)).1 = Ok live /\
    Db.api_keys (db w') = Db.api_keys (db w) /\ Db.endpoints (db w') = Db.endpoints (db w) /\
    Db.audit_logs (db w') = Db.audit_logs (db w) /\
    forall id, Db.vault_group_permissions (db w') !! id = Db.vault_group_permissions (db w) !! id \/
      Db.vault_group_permissions (db w') !! id = None /\
      exists id' g, Db.vault_group_permissions (db w1) !! id' = Some g /\ Db.g_id g = id /\
        forall v, v ∈ live -> Vault.vg_id v <> Db.g_vault_group_id g.
Proof.
  unfold Sync.cleanup_stale_group_permissions. destruct (vault_client app) as [client|];
    [|by intros [-> _]%exec_ret ??? ?%elem_of_nil].
  intros (tr0 & live & tr1 & -> & (t0 & w0 & -> & Hl)%exec_step1 & He)%exec_bind t w w' Hin Hne.
  assert ((Vault.list_groups client (vault t0) (vault_state w0)).1 = live) as Hlive
    by (rewrite Hl; by destruct (Vault.list_groups _ _ _)).
  assert (db (let '(r, st) := Vault.list_groups client (vault t0) (vault_state w0) in
                (r, set_vault w0 st)).2 = db w0) as Hd0 by by destruct (Vault.list_groups _ _ _).
  destruct live as [live|e].
  2:{ apply exec_ret in He as [-> _]. case_trace Hin. }
  apply exec_bind in He as (tra & found & trb & -> & Hq & He). destruct found as [grants|e].
  2:{ apply exec_step1 in Hq as (t1 & w1 & -> & Hq). apply exec_ret in He as [-> _].
      destruct (db_faults t1 0); [|done]. case_trace Hin. }
  apply exec_query_ok in Hq as (t1 & w1 & -> & ->). cbv zeta in He.
  destruct (Nat.eqb _ 0).
  { apply exec_ret in He as [-> _]. case_trace Hin. }
  apply exec_bind in He as (trc & r & trd & -> & (t2 & w2 & -> & _)%exec_step1 & [-> _]%exec_ret).
  case_trace Hin.
  eexists client, t0, w0, _, live, t1, w1, _. split_and!; [done|in_trace|in_trace|done|..];
    destruct (db_faults t2 0); try done. intros id. simpl.
  destruct (decide (id ∈ Sync.stale_ids live (Db.rows (Db.vault_group_permissions (db w1))))) as [Hs|Hs].
  - right. split.
    + apply map_lookup_filter_None. right. simpl. naive_solver.
    + apply elem_of_stale in Hs as (g & Hg & Hid & Hx).
      apply Db.elem_of_rows in Hg as [id' Hg]. eauto.
  - left. apply option_eq. intros g. rewrite map_lookup_filter_Some. simpl. naive_solver.
Qed.

End workers.

(** ** Witnesses *)

Section witnesses.
Import Ref.

Definition no_headers : Http.HeaderMap := fun _ => None.

Definition w_nets : list IpNet := default [] (mapM net_parse ["8.8.8.0/24"; "1.1.1.1/32"]).

Lemma feed_text_canonical_witness :
  Feed.render (IpFilter.filter_and_aggregate w_nets true true true)
  = Feed.render (IpFilter.filter_and_aggregate (rev w_nets) true true true).
Proof.
  refine (proj1 (feed_text_canonical w_nets (rev w_nets) true true true _)). apply Permutation_rev.
Defined.

Definition w_feed : prog (option (result Feed.Response AppError)) :=
  Feed.serve_feed Demo.service "tok" Demo.client no_headers.
Definition w_feed_trace : list (Tick * World * World) := trace Demo.tick 0 w_feed Demo.start.

Definition w_text : string := "8.8.8.8/32" +:+ Feed.newline_str.
Definition w_response : Feed.Response :=
  Feed.mkResponse 200 [("Content-Type", "text/plain; charset=utf-8"); ("ETag", Feed.etag_of w_text)] w_text.

Lemma w_feed_exec : exec w_feed w_feed_trace (Some (Ok w_response)).
Proof. apply outcome_exec. by vm_compute. Qed.

Lemma feed_publishes_exactly_witness :
  exists ep blocks t2 w2 w2', Db.e_token_secret ep = "tok" /\ (t2, w2, w2') ∈ w_feed_trace /\
    w_text = Feed.render blocks /\
    forall a, ip_wf a -> covered blocks a = true <-> publishable ep (wall t2) (ip_cache w2) a.
Proof.
  destruct (feed_publishes_exactly Demo.service "tok" Demo.client no_headers w_feed_trace w_response
    w_feed_exec eq_refl)
    as (ip & ep & id & t1 & w1 & w1' & t2 & w2 & w2' & blocks & _ & _ & _ & Htok & _ & Hin & Hb & Hc).
  by exists ep, blocks, t2, w2, w2'.
Defined.

Lemma only_bodies_are_charged_witness :
  Forall (fun s => limiter_same s.1.2 s.2) w_feed_trace \/
  exists resp, Some (Ok w_response : result Feed.Response AppError) = Some (Ok resp) /\ (Feed.status resp = 200 \/ Feed.status resp = 429).
Proof.
  exact (only_bodies_are_charged Demo.service "tok" Demo.client no_headers w_feed_trace
    (Some (Ok w_response)) w_feed_exec).
Defined.

Definition w_vault : Cache.VaultState :=
  {[("1.1.1.1", "malware") := (0, false); ("1.1.1.1", "scanners") := (0, false);
    ("2.2.2.2", "malware") := (0, false); ("3.3.3.3", "scanners") := (0, false)]}.

Lemma w_vault_lists :
  Cache.lists w_vault (fun r => Cache.is_deleted r = false) (Sync.map_records Vault.w_listing).
Proof. apply (Cache.lists_concrete w_vault (fun r => Cache.is_deleted r = false)). by vm_compute. Qed.

(** A day after the last full sync, the cache is replaced by Vault's listing. *)
Definition next_day (j : nat) : Tick :=
  mkTick (from_secs 90000) (from_secs 90000) (fun _ => false) 0 Demo.filler
    (fun _ => Dns.mkDnsTick 0 0 0 (fun _ => None)) Vault.w_env.

Lemma boot_sync_fills_every_feed_witness :
  Cache.mirrors (ip_cache (after next_day (Sync.run_boot_sync Demo.service 6) Demo.start)) 10%N w_vault.
Proof.
  apply (boot_sync_fills_every_feed Demo.service next_day Vault.w_client 6 Demo.start (fun _ => w_vault));
    [reflexivity|apply Demo.database_wf|reflexivity| |by apply Nat.leb_le|by eexists].
  intros id ep Hep. change (({[10%N := Demo.feed]} : gmap Uuid Db.Endpoint) !! id = Some ep) in Hep.
  apply lookup_singleton_Some in Hep as [<- <-].
  split; [reflexivity|]. exists Vault.w_listing. split_and!; [intros; apply Vault.w_serves|by vm_compute|].
  apply w_vault_lists.
Defined.

(** A Vault that cannot be reached. *)
Definition offline (j : nat) : Tick :=
  mkTick (from_secs 90000) (from_secs 90000) (fun _ => false) 0 Demo.filler
    (fun _ => Dns.mkDnsTick 0 0 0 (fun _ => None))
    (Vault.mkVaultEnv (fun _ => 0) (fun _ _ => Vault.Failed) (fun _ => 0%nat) (fun _ => true)).

Lemma failed_sync_keeps_everything_witness :
  ip_cache (after offline (Sync.sync_endpoint Vault.w_client Demo.feed) Demo.start)
  = ip_cache Demo.start.
Proof.
  refine (proj1 (failed_sync_keeps_everything offline Vault.w_client Demo.feed Demo.start _)).
  intros i since e _. eexists. reflexivity.
Defined.

Definition w_cleanup : list (Tick * World * World) :=
  trace Demo.tick 0 (Sync.cleanup_stale_group_permissions Demo.service) Demo.start.

Lemma w_cleanup_exec : exec (Sync.cleanup_stale_group_permissions Demo.service) w_cleanup tt.
Proof. apply outcome_exec. by destruct (outcome _ _ _). Qed.

(** The step that deletes the grant on the group Vault no longer lists. *)
Definition w_removal : Tick * World * World :=
  default (Demo.tick 0, Demo.start, Demo.start) (w_cleanup !! 2%nat).

Lemma w_removal_changes : db w_removal.2 <> db w_removal.1.2.
Proof.
  intros H. apply (f_equal (fun d => bool_decide (Db.vault_group_permissions d !! 21%N = None))) in H.
  by vm_compute in H.
Qed.

Lemma cleanup_removes_only_stale_witness :
  exists client t0 w0 w0' live, vault_client Demo.service = Some client /\
    (t0, w0, w0') ∈ w_cleanup /\
    (Vault.list_groups client (vault t0) (vault_state w0)).1 = Ok live /\
    Db.api_keys (db w_removal.2) = Db.api_keys (db w_removal.1.2).
Proof.
  destruct (cleanup_removes_only_stale Demo.service w_cleanup
    w_cleanup_exec w_removal.1.1 w_removal.1.2 w_removal.2)
    as (client & t0 & w0 & w0' & live & t1 & w1 & w1' & Hc & Hin0 & _ & Hl & Hk & _).
  - apply (list_elem_of_lookup_2 w_cleanup 2). reflexivity.
  - exact w_removal_changes.
  - by exists client, t0, w0, w0', live.
Defined.

End witnesses.

End FeedProps.
