(* ===== verification/SyncProps.v ===== *)
(** * Differential synchronisation: what it carries over and what it misses

    Between two full synchronisations an endpoint asks Vault only for what was
    touched since its cursor, [last_synced_at] cut to whole seconds.  Vault answers
    with memberships, an address within one group of the endpoint, so an address
    can come several times.  The first theorem says what such an answer makes of
    each address and when the cache is right about Vault after it; two more show
    what is lost until the next full synchronisation: a change that reaches Vault
    after the fetch and is stamped before the cursor written behind it, and an
    address deleted in one group while it is live in another.  The last says that
    the full synchronisation comes every day. *)

From S2P Require Import Prelude.
From S2P Require Import RustStr.
From S2P Require Import Net.
From S2P Require Import Libs.
From S2P Require Import LibsRef.
From S2P Require Import Cache.
From S2P Require Import Crypto.
From S2P Require Import VaultClient.
From S2P Require Import DnsCache.
From S2P Require Import Http.
From S2P Require Import Config.
From S2P Require Import Db.
From S2P Require Import App.
From S2P Require Import Logic.
From S2P Require Import Demo.
From S2P Require Import Auth.
From S2P Require Import Feed.
From S2P Require Import FeedProps.
Import App Logic.
#[local] Open Scope Z_scope.
#[local] Open Scope rust_scope.
#[local] Open Scope prog_scope.

Module SyncProps.

(** The time a [since=] parameter names: the cursor, cut to the second. *)
Definition whole (t : Z) : Z := from_secs (t `div` nanos_per_sec).

(** ** One differential pass *)

Section pass.
Context {L : IpNetLib} {C : CryptoLib} {J : Vault.JsonLib}.

(** The pass applies what Vault serves for the cursor, in some order. *)
Lemma diff_pass (env : nat -> Tick) (client : Vault.VaultClient) (ep : Db.Endpoint) (s : Z)
    (R : list Vault.VaultApiRecord) (w : World) :
  Cache.full_sync_due (mono (env 0%nat)) (ip_cache w) (Db.e_id ep) Sync.FULL_SYNC_INTERVAL = false ->
  Db.e_last_synced_at ep = Some s -> Sync.diff_due ep (wall (env 1%nat)) = true ->
  Vault.serves client (vault (env 2%nat)) (Vault.ips_base (Db.e_vault_groups ep) (Some s)) R ->
  Z.of_nat (length R) < Vault.MAX_PAGES * Vault.page_size client ->
  exists all st, all ≡ₚ R /\ run env 0 (Sync.sync_endpoint client ep) w
    = run env 4 (let* _ := Sync.mark_synced ep in Ret (Some tt))
        (set_cache (set_vault w st) (Cache.apply_diff (ip_cache w) (Db.e_id ep) (Sync.map_records all))).
Proof.
  intros Hfull Hcur Hdue Hs HR.
  destruct (Vault.fetch_complete client (vault (env 2%nat)) (Db.e_vault_groups ep) (Some s) R
              (vault_state w) Hs HR) as (all & st & Hf & Hp).
  exists all, st. split; [done|].
  unfold Sync.sync_endpoint, Sync.full_sync_due, Support.now_utc, read. cbn [bind run].
  rewrite Hfull. cbn [bind run]. rewrite Hdue, Hcur. unfold Sync.fetch. cbn [negb bind run]. rewrite Hf. done.
Qed.

Lemma selects_served Lst V (all R : list Vault.VaultApiRecord) :
  all ≡ₚ R -> Cache.selects Lst V (Sync.map_records R) -> Cache.selects Lst V (Sync.map_records all).
Proof. intros Hp Hl r. unfold Sync.map_records. rewrite Hp. apply Hl. Qed.

(** C14. What a differential synchronisation makes of every address of its endpoint,
    when Vault answers the query for the cursor with the memberships in [Lst],
    tombstones included, in any order and whatever it counts as touched since: an
    address without one keeps exactly what the cache had; one that has only
    tombstones there is withdrawn, live in another group or not; one that has only
    live ones gets the time of one of them (if it can be read as an address at
    all); with both, either.  So the cache stays right about Vault if every
    membership that changed is listed and no address has a listed tombstone in one
    group while it is live in another.  No other endpoint is affected. *)
Theorem differential_sync_exact (env : nat -> Tick) (client : Vault.VaultClient) (ep : Db.Endpoint) (s : Z)
    (Lst : string * string -> Prop) (V' : Cache.VaultState) (R : list Vault.VaultApiRecord) (w : World) :
  Cache.full_sync_due (mono (env 0%nat)) (ip_cache w) (Db.e_id ep) Sync.FULL_SYNC_INTERVAL = false ->
  Db.e_last_synced_at ep = Some s -> Sync.diff_due ep (wall (env 1%nat)) = true ->
  Vault.serves client (vault (env 2%nat)) (Vault.ips_base (Db.e_vault_groups ep) (Some s)) R ->
  Z.of_nat (length R) < Vault.MAX_PAGES * Vault.page_size client ->
  Cache.selects Lst V' (Sync.map_records R) -> Cache.cache_wf (ip_cache w) ->
  let c' := ip_cache (after env (Sync.sync_endpoint client ep) w) in
  (forall k, Cache.carried V' Lst k (Cache.cached (ip_cache w) (Db.e_id ep) !! k)
               (Cache.cached c' (Db.e_id ep) !! k)) /\
  (forall V : Cache.VaultState, Cache.mirrors (ip_cache w) (Db.e_id ep) V ->
     Cache.changed_within Lst V V' -> Cache.undisputed Lst V' -> Cache.mirrors c' (Db.e_id ep) V') /\
  forall id, id <> Db.e_id ep -> c' !! id = ip_cache w !! id.
Proof.
  intros Hfull Hcur Hdue Hs HR Hl Hwf c'.
  destruct (diff_pass env client ep s R w Hfull Hcur Hdue Hs HR) as (all & st & Hp & Hrun).
  apply (selects_served _ _ all R Hp) in Hl.
  assert (c' = Cache.apply_diff (ip_cache w) (Db.e_id ep) (Sync.map_records all)) as ->.
  { unfold c', after. rewrite Hrun, run_bind.
    destruct (run env 4 (Sync.mark_synced ep) _) as [[[] w'] i'] eqn:Hm.
    pose proof (FeedProps.mark_synced_cache env ep 4) as Hc. specialize (Hc (set_cache (set_vault w st)
      (Cache.apply_diff (ip_cache w) (Db.e_id ep) (Sync.map_records all)))). by rewrite Hm in Hc. }
  split_and!.
  - intros k. apply Cache.diff_carried; [by apply Cache.wf_readable|done].
  - intros V Hm Hch Hun. by eapply Cache.mirrors_diff.
  - intros id Hid. unfold Cache.apply_diff. destruct (foldl _ _ _). by rewrite lookup_insert_ne.
Qed.

End pass.

(** ** A change that is missed *)

Section missed.
Context {L : IpNetLib} {C : CryptoLib} {J : Vault.JsonLib} (app : AppConfig).
Context (client : Vault.VaultClient) (ep : Db.Endpoint) (k : string) (stamp full_at : Z).

(** The addresses of a listing. *)
Definition addresses (rs : list Vault.VaultApiRecord) : list string := Vault.api_target_address <$> rs.

(** The clock is past [stamp], the next full synchronisation is not due yet, and
    Vault, which holds [k] stamped [stamp], does not list it to a query for a later time. *)
Definition unaware (t : Tick) : Prop :=
  stamp < whole (wall t) /\ mono t < full_at + Sync.FULL_SYNC_INTERVAL /\
  forall s st rs, stamp < whole s ->
    (Vault.fetch_ips client (vault t) (Db.e_vault_groups ep) (Some s) st).1 = Some (Ok rs) -> k ∉ addresses rs.

(** The cache lacks [k], and the cursor of the endpoint is past [stamp]. *)
Definition behind (w : World) : Prop :=
  Db.keyed Db.e_id (Db.endpoints (db w)) /\
  (exists s, Db.endpoints (db w) !! Db.e_id ep = Some (Db.set_ep_last_synced_at (Some s) ep) /\ stamp < whole s) /\
  exists en, ip_cache w !! Db.e_id ep = Some en /\
    Cache.last_full_sync_at en = Some full_at /\ Cache.records en !! k = None.

#[local] Abbreviation stays p Q := (inv unaware behind p Q).

(** A row of the endpoint, as a pass reads it. *)
Definition own_row (e : Db.Endpoint) : Prop :=
  Db.e_id e = Db.e_id ep -> Db.e_vault_groups e = Db.e_vault_groups ep /\
    exists s, Db.e_last_synced_at e = Some s /\ stamp < whole s.

Lemma behind_other c w id :
  id <> Db.e_id ep -> (forall j, j <> id -> c !! j = ip_cache w !! j) -> behind w -> behind (set_cache w c).
Proof. intros Hid Hc (Hk & Hrow & en & He & Hen). split_and!; [done..|]. exists en. by rewrite Hc. Qed.

(** A batch without [k] does not bring it. *)
Lemma apply_diff_behind w rs :
  k ∉ addresses rs -> behind w ->
  behind (set_cache w (Cache.apply_diff (ip_cache w) (Db.e_id ep) (Sync.map_records rs))).
Proof.
  intros Hnot (Hk & Hrow & en & He & Hf & Hn). split_and!; [done..|]. cbn [ip_cache set_cache].
  unfold Cache.apply_diff, Cache.entry_of. rewrite He. cbn [default].
  destruct (foldl _ _ _) as [recs mx] eqn:Hfold. eexists. rewrite lookup_insert_eq. split_and!; [done..|].
  cbn [Cache.records]. pose proof (Cache.fold_absent Cache.diff_step (Sync.map_records rs) k) as Habs.
  rewrite <- Hn. replace recs with (recs, mx).1 by done. rewrite <- Hfold. apply Habs.
  - intros; by apply Cache.diff_step_ne.
  - unfold Sync.map_records. rewrite <- list_fmap_compose. done.
Qed.

Lemma stays_mark e : stays (Sync.mark_synced e) any.
Proof.
  eapply spec_bind; [apply (inv_read _ _ _ (fun now => stamp < whole now)); by intros t [Ht _]|].
  intros now Hnow. apply inv_bind_any; [|done]. apply inv_step_any. intros t w _ Hw.
  destruct (db_faults t 0); [done|]. unfold Db.update_endpoint.
  destruct (Db.endpoints (db w) !! Db.e_id e) as [old|] eqn:Hold; [|done].
  destruct (Db.token_conflicts _ _); [done|]. destruct (negb _); [done|].
  destruct Hw as (Hk & (s & Hrow & Hs) & Hc). split_and!; [| |done]; cbn [snd db set_db Db.with_endpoints Db.endpoints].
  - intros id e'. rewrite lookup_insert_Some. intros [[<- <-]|[_ ?]]; [|by apply Hk].
    change (Db.e_id old = Db.e_id e). by apply Hk.
  - destruct (decide (Db.e_id e = Db.e_id ep)) as [He|Hne].
    + exists now. rewrite He in *. rewrite lookup_insert_eq. split; [|done]. by simplify_eq.
    + exists s. by rewrite lookup_insert_ne.
Qed.

Lemma stays_fetch g s (Q : Vault.Fetched -> Prop) :
  (forall t st, unaware t -> Q (Vault.fetch_ips client (vault t) g s st).1) -> stays (Sync.fetch client g s) Q.
Proof.
  intros HQ. apply spec_step. intros t w [Ht Hw]. specialize (HQ t (vault_state w) Ht).
  by destruct (Vault.fetch_ips _ _ _ _ _).
Qed.

(** The synchronisation of the endpoint itself: the full branch is not taken, and
    the differential one asks for a time at which [k] is not listed. *)
Lemma stays_sync_own e : Db.e_id e = Db.e_id ep -> own_row e -> stays (Sync.sync_endpoint client e) any.
Proof.
  intros He Hown. destruct (Hown He) as (Hg & s & Hcur & Hs). unfold Sync.sync_endpoint.
  eapply (spec_bind _ _ _ _ (fun due => due = false)).
  { apply spec_step. intros t w [(_ & Hm & _) Hw]. split; [done|]. destruct Hw as (_ & _ & en & Hen & Hf & _).
    unfold Cache.full_sync_due. cbn [fst]. rewrite He, Hen, Hf. apply Z.leb_gt.
    unfold Sync.FULL_SYNC_INTERVAL, from_secs, nanos_per_sec in *. lia. }
  intros due ->. apply inv_bind_any; [by apply inv_read|]. intros now. destruct (negb _); [done|].
  eapply spec_bind.
  { apply (stays_fetch _ _ (fun r => forall rs, r = Some (Ok rs) -> k ∉ addresses rs)).
    intros t st (_ & _ & Hv) rs Hr. rewrite Hg, Hcur in Hr. by eapply Hv. }
  intros [[rs|err]|] Hr; [|done..]. apply inv_bind_any; [|intros; apply inv_bind_any; [apply stays_mark|done]].
  apply inv_step_any. intros t w _ Hw. rewrite He. apply apply_diff_behind; [by apply Hr|done].
Qed.

Lemma stays_sync_other e : Db.e_id e <> Db.e_id ep -> stays (Sync.sync_endpoint client e) any.
Proof.
  intros He. unfold Sync.sync_endpoint. apply inv_bind_any; [by apply inv_step_any|].
  intros due. destruct due.
  - apply inv_bind_any; [by apply stays_fetch|]. intros [[rs|err]|]; [|done..].
    apply inv_bind_any; [|intros; apply inv_bind_any; [apply stays_mark|done]]. apply inv_step_any. intros t w _ Hw. cbn [snd].
    eapply behind_other; [exact He| |done]. intros j Hj. unfold Cache.apply_full.
    destruct (foldl _ _ _). by rewrite lookup_insert_ne.
  - apply inv_bind_any; [by apply inv_read|]. intros now. destruct (negb _); [done|].
    apply inv_bind_any; [by apply stays_fetch|]. intros [[rs|err]|]; [|done..].
    apply inv_bind_any; [|intros; apply inv_bind_any; [apply stays_mark|done]]. apply inv_step_any. intros t w _ Hw. cbn [snd].
    eapply behind_other; [exact He| |done]. intros j Hj. unfold Cache.apply_diff.
    destruct (foldl _ _ _). by rewrite lookup_insert_ne.
Qed.

Lemma stays_sync_each eps : Forall own_row eps -> stays (Sync.sync_each client eps) any.
Proof.
  induction 1 as [|e eps He _ IH]; cbn [Sync.sync_each]; [done|]. apply inv_bind_any; [|by intros [[]|]].
  destruct (decide (Db.e_id e = Db.e_id ep)); [by apply stays_sync_own|by apply stays_sync_other].
Qed.

Lemma stays_worker n : vault_client app = Some client -> stays (Sync.sync_worker app n) any.
Proof.
  intros Happ. induction n as [|n IH]; cbn [Sync.sync_worker]; [done|]. apply inv_bind_any; [|by intros [[]|]].
  unfold Sync.sync_all_endpoints. rewrite Happ.
  eapply (spec_bind _ _ _ _ (fun found => forall eps, found = Ok eps -> Forall own_row eps)).
  2:{ intros [eps|e] Heps; [|done]. by apply stays_sync_each, Heps. }
  apply spec_step. intros t w [_ Hw]. destruct (db_faults t 0); [done|]. split; [done|].
  intros eps [= <-]. apply Forall_forall. intros e (id & Hid)%Db.elem_of_rows He.
  destruct Hw as (Hk & (s & Hrow & Hs) & _). rewrite <- (Hk id e Hid), He, Hrow in Hid. simplify_eq.
  split; [done|]. by exists s.
Qed.

Lemma inv_run {A} T (I : World -> Prop) (p : prog A) (Q : A -> Prop) env : forall i w,
  inv T I p Q -> (forall j, (i <= j)%nat -> T (env j)) -> I w -> I (run env i p w).1.2.
Proof.
  induction p as [a|B f g IH]; intros i w Hp HT Hw; cbn [run]; [done|].
  destruct (Hp (env i) w (conj (HT i (le_n i)) Hw)) as [Hw' Hg]. destruct (f (env i) w) as [b w1].
  apply IH; [done|intros; apply HT; lia|done].
Qed.

End missed.

(** Marking writes the time after the fetch as the cursor. *)
Lemma mark_sets {L : IpNetLib} (env : nat -> Tick) ep i w :
  Db.db_wf (db w) -> Db.endpoints (db w) !! Db.e_id ep = Some ep -> db_faults (env (S i)) 0 = false ->
  exists w', run env i (Sync.mark_synced ep) w = (tt, w', S (S i)) /\ ip_cache w' = ip_cache w /\
    Db.keyed Db.e_id (Db.endpoints (db w')) /\
    Db.endpoints (db w') !! Db.e_id ep = Some (Db.set_ep_last_synced_at (Some (wall (env i))) ep).
Proof.
  intros Hwf Hrow Hdb. unfold Sync.mark_synced, Support.now_utc, read, stmt. cbn [bind run].
  rewrite Hdb. unfold Db.update_endpoint. rewrite Hrow.
  assert (Db.token_conflicts (db w) (Db.set_ep_last_synced_at (Some (wall (env i))) ep) = false) as ->.
  { apply Db.other_row_false. intros j e' Hj Hne. apply bool_decide_eq_false. intros Ht.
    apply Hne. by eapply (Db.wf_token _ Hwf). }
  assert (Db.key_exists (db w) (Db.e_owner_key_id (Db.set_ep_last_synced_at (Some (wall (env i))) ep)) = true) as ->.
  { apply Db.key_exists_true. intros o Ho. by eapply (Db.wf_owner _ Hwf). }
  eexists. split_and!; [reflexivity|done| |]; cbn [db set_db Db.with_endpoints Db.endpoints].
  - intros id e. rewrite lookup_insert_Some. intros [[<- <-]|[_ ?]]; [done|by apply (Db.wf_endpoints _ Hwf)].
  - by rewrite lookup_insert_eq.
Qed.

(** A synchronisation that leaves [k] out of the cache and marks a time past its
    stamp sets the stage. *)
Lemma marked_behind {L : IpNetLib} (env : nat -> Tick) ep k stamp full_at i w :
  Db.db_wf (db w) -> Db.endpoints (db w) !! Db.e_id ep = Some ep -> db_faults (env (S i)) 0 = false ->
  stamp < whole (wall (env i)) ->
  (exists en, ip_cache w !! Db.e_id ep = Some en /\ Cache.last_full_sync_at en = Some full_at /\
     Cache.records en !! k = None) ->
  exists w', run env i (let* _ := Sync.mark_synced ep in Ret (Some tt)) w = (Some tt, w', S (S i)) /\
    ip_cache w' = ip_cache w /\ behind ep k stamp full_at w'.
Proof.
  intros Hwf Hrow Hdb Hst Hen. destruct (mark_sets env ep i w Hwf Hrow Hdb) as (w' & Hrun & Hc & Hk & Hr).
  exists w'. rewrite run_bind, Hrun. split_and!; [done..|]. split_and!; [done|by eexists|by rewrite Hc].
Qed.

Lemma full_sync_behind {L : IpNetLib} {C : CryptoLib} {J : Vault.JsonLib} env client ep k stamp w R :
  Db.db_wf (db w) -> Db.endpoints (db w) !! Db.e_id ep = Some ep ->
  Cache.full_sync_due (mono (env 0%nat)) (ip_cache w) (Db.e_id ep) Sync.FULL_SYNC_INTERVAL = true ->
  (Vault.fetch_ips client (vault (env 1%nat)) (Db.e_vault_groups ep) None (vault_state w)).1 = Some (Ok R) ->
  k ∉ addresses R -> db_faults (env 4%nat) 0 = false -> stamp < whole (wall (env 3%nat)) ->
  exists w', run env 0 (Sync.sync_endpoint client ep) w = (Some tt, w', 5%nat) /\
    behind ep k stamp (mono (env 2%nat)) w'.
Proof.
  intros Hwf Hrow Hdue Hf Hnot Hdb Hst. destruct (Vault.fetch_ips _ _ _ _ _) as [r st] eqn:Hfe.
  cbn [fst] in Hf. subst r.
  unfold Sync.sync_endpoint, Sync.full_sync_due, Sync.fetch. cbn [bind run]. rewrite Hdue. cbn [bind run].
  rewrite Hfe. unfold Sync.apply_full. cbn [bind run].
  match goal with |- context [run env 3 _ ?w1] =>
    destruct (marked_behind env ep k stamp (mono (env 2%nat)) 3 w1) as (w' & Hrun & _ & Hb); [done..| |]
  end.
  - cbn [ip_cache set_cache set_vault]. unfold Cache.apply_full. destruct (foldl _ _ _) as [recs mx] eqn:Hfold.
    eexists. rewrite lookup_insert_eq. split_and!; [done..|]. cbn [Cache.records].
    replace recs with (recs, mx).1 by done. rewrite <- Hfold.
    rewrite (Cache.fold_absent Cache.full_step _ k); [done|intros; by apply Cache.full_step_ne|].
    unfold Sync.map_records. rewrite <- list_fmap_compose. done.
  - by exists w'.
Qed.

(** From there on no pass of the worker brings [k]. *)
Lemma worker_behind {L : IpNetLib} {C : CryptoLib} {J : Vault.JsonLib} app env client ep k stamp full_at i w n :
  vault_client app = Some client -> behind ep k stamp full_at w ->
  (forall j, (i <= j)%nat -> unaware client ep k stamp full_at (env j)) ->
  Cache.cached (ip_cache (run env i (Sync.sync_worker app n) w).1.2) (Db.e_id ep) !! k = None.
Proof.
  intros Happ Hb Hlater.
  destruct (inv_run _ _ _ _ env i w (stays_worker app client ep k stamp _ n Happ) Hlater Hb)
    as (_ & _ & en & Hen & _ & Hn).
  unfold Cache.cached, Cache.entry_of. by rewrite Hen.
Qed.

(** C16. The cursor is the time after the fetch, so a change can fall between the two:
    if [k] was not in the listing a full synchronisation read, and Vault then holds
    it stamped before the (whole second of the) time at which the synchronisation
    is marked, then no pass of the worker brings it into the cache, however many
    there are, until the next full synchronisation is due. *)
Theorem late_change_missed {L : IpNetLib} {C : CryptoLib} {J : Vault.JsonLib} app env client ep k stamp w R n :
  vault_client app = Some client -> Db.db_wf (db w) -> Db.endpoints (db w) !! Db.e_id ep = Some ep ->
  Cache.full_sync_due (mono (env 0%nat)) (ip_cache w) (Db.e_id ep) Sync.FULL_SYNC_INTERVAL = true ->
  (Vault.fetch_ips client (vault (env 1%nat)) (Db.e_vault_groups ep) None (vault_state w)).1 = Some (Ok R) ->
  k ∉ addresses R -> db_faults (env 4%nat) 0 = false -> stamp < whole (wall (env 3%nat)) ->
  (forall j, (5 <= j)%nat -> unaware client ep k stamp (mono (env 2%nat)) (env j)) ->
  Cache.cached (ip_cache (after env (let* _ := Sync.sync_endpoint client ep in Sync.sync_worker app n) w))
    (Db.e_id ep) !! k = None.
Proof.
  intros Happ Hwf Hrow Hdue Hf Hnot Hdb Hst Hlater.
  destruct (full_sync_behind env client ep k stamp w R) as (w' & Hrun & Hb); try done.
  unfold after. rewrite run_bind, Hrun. by eapply worker_behind.
Qed.

(** C17. A deletion in one group withdraws an address that is live in another: if the
    endpoint names both groups and Vault lists the tombstone to the query for the
    cursor but not the live membership, which has not changed, the differential pass
    removes the address from the feed, and no later pass brings it back until the
    next full synchronisation is due, though Vault holds it live. *)
Theorem live_address_withdrawn {L : IpNetLib} {C : CryptoLib} {J : Vault.JsonLib} (app : AppConfig) (env : nat -> Tick)
    (client : Vault.VaultClient) (ep : Db.Endpoint) (k : string) (s : Z) (Lst : string * string -> Prop) (V' : Cache.VaultState)
    (R : list Vault.VaultApiRecord) (w : World) (n : nat) (en : Cache.EndpointCache) (full_at stamp t : Z) :
  vault_client app = Some client -> Db.db_wf (db w) -> Db.endpoints (db w) !! Db.e_id ep = Some ep ->
  ip_cache w !! Db.e_id ep = Some en -> Cache.last_full_sync_at en = Some full_at ->
  mono (env 0%nat) < full_at + Sync.FULL_SYNC_INTERVAL ->
  Db.e_last_synced_at ep = Some s -> Sync.diff_due ep (wall (env 1%nat)) = true ->
  Vault.serves client (vault (env 2%nat)) (Vault.ips_base (Db.e_vault_groups ep) (Some s)) R ->
  Z.of_nat (length R) < Vault.MAX_PAGES * Vault.page_size client ->
  Cache.selects Lst V' (Sync.map_records R) ->
  is_Some (Cache.parse_target_address k) -> Cache.seen V' k t false ->
  Cache.touched V' Lst k true -> ~ Cache.touched V' Lst k false ->
  db_faults (env 5%nat) 0 = false -> stamp < whole (wall (env 4%nat)) ->
  (forall j, (6 <= j)%nat -> unaware client ep k stamp full_at (env j)) ->
  let c' := ip_cache (after env (let* _ := Sync.sync_endpoint client ep in Sync.sync_worker app n) w) in
  Cache.cached c' (Db.e_id ep) !! k = None /\ ~ Cache.mirrors c' (Db.e_id ep) V'.
Proof.
  intros Happ Hwf Hrow Hen Hf Hday Hcur Hdue Hs HR Hl Hk Hlive Hdel Hno Hdb Hst Hlater c'.
  assert (Cache.cached c' (Db.e_id ep) !! k = None) as Hgone.
  2:{ split; [done|]. intros Hm. specialize (Hm k). unfold Cache.faithful in Hm. rewrite Hgone in Hm.
      destruct Hk as [net Hk]. destruct Hm as [Hm|Hm]; [congruence|by apply (Hm t)]. }
  destruct (diff_pass env client ep s R w) as (all & st & Hp & Hrun); [|done..|].
  { unfold Cache.full_sync_due. rewrite Hen, Hf. apply Z.leb_gt.
    unfold Sync.FULL_SYNC_INTERVAL, from_secs, nanos_per_sec in *. lia. }
  apply (selects_served _ _ all R Hp) in Hl.
  assert (Cache.cached (Cache.apply_diff (ip_cache w) (Db.e_id ep) (Sync.map_records all)) (Db.e_id ep) !! k = None) as Hc.
  { pose proof (Cache.diff_carried (ip_cache w) (Db.e_id ep) V' Lst _ k (or_introl Hk) Hl) as Hc.
    inversion Hc as [Hn|Hd|net g t' Hp' Hs' Ht'|Hp']; [by destruct (Hn true)|done| |done].
    exfalso. apply Hno. by exists g, t'. }
  match type of Hrun with _ = run env 4 _ ?w1 =>
    destruct (marked_behind env ep k stamp full_at 4 w1) as (w' & Hrun' & _ & Hb); [done..| |]
  end.
  - cbn [ip_cache set_cache set_vault]. unfold Cache.cached, Cache.entry_of in Hc. revert Hc.
    unfold Cache.apply_diff, Cache.entry_of. rewrite Hen. cbn [default]. destruct (foldl _ _ _) as [recs mx].
    rewrite lookup_insert_eq. cbn [default]. intros Hc. eexists. split_and!; [done|exact Hf|done].
  - unfold c', after. rewrite run_bind, Hrun, Hrun'. by eapply worker_behind.
Qed.

(** ** The day between two full synchronisations *)

Section daily.
Context {L : IpNetLib} {C : CryptoLib} {J : Vault.JsonLib} (app : AppConfig).

(** The last full synchronisation of [id] was less than the interval before [a]. *)
Definition fully_synced (a : Z) (c : Cache.IpCache) (id : Uuid) : Prop :=
  exists en f, c !! id = Some en /\ Cache.last_full_sync_at en = Some f /\ a < f + Sync.FULL_SYNC_INTERVAL.

(** Vault answers a full query for the groups of [ep] at every step, and no query
    for them ends in a panic. *)
Definition answers (env : nat -> Tick) (client : Vault.VaultClient) (ep : Db.Endpoint) : Prop :=
  forall j st,
    (exists rs st', Vault.fetch_ips client (vault (env j)) (Db.e_vault_groups ep) None st = (Some (Ok rs), st')) /\
    forall since, (Vault.fetch_ips client (vault (env j)) (Db.e_vault_groups ep) since st).1 <> None.

Lemma apply_diff_full_at c id rs en f :
  c !! id = Some en -> Cache.last_full_sync_at en = Some f ->
  exists en', Cache.apply_diff c id rs !! id = Some en' /\ Cache.last_full_sync_at en' = Some f.
Proof.
  intros He Hf. unfold Cache.apply_diff, Cache.entry_of. rewrite He. cbn [default].
  destruct (foldl _ _ _). eexists. by rewrite lookup_insert_eq.
Qed.

Lemma marked_cache env ep i w :
  exists w' i', run env i (let* _ := Sync.mark_synced ep in Ret (Some tt)) w = (Some tt, w', i') /\
    ip_cache w' = ip_cache w.
Proof.
  rewrite run_bind. pose proof (FeedProps.mark_synced_cache env ep i w) as Hc.
  destruct (run env i (Sync.mark_synced ep) w) as [[[] w'] i']. by exists w', i'.
Qed.

(** Whatever the differential branch does, it keeps the time of the full one. *)
Lemma sync_endpoint_daily env i client ep a w :
  answers env client ep -> (forall j, a <= mono (env j)) ->
  exists w' i', run env i (Sync.sync_endpoint client ep) w = (Some tt, w', i') /\
    fully_synced a (ip_cache w') (Db.e_id ep) /\
    forall id, id <> Db.e_id ep -> ip_cache w' !! id = ip_cache w !! id.
Proof.
  intros Hans Ha. unfold Sync.sync_endpoint, Sync.full_sync_due, Support.now_utc, read. cbn [bind run].
  destruct (Cache.full_sync_due _ _ _ _) eqn:Hdue; cbn [bind run].
  - unfold Sync.fetch. cbn [bind run]. destruct (Hans (S i) (vault_state w)) as [(rs & st & ->) _].
    unfold Sync.apply_full. cbn [bind run].
    match goal with |- context [run env ?j _ ?w1] => destruct (marked_cache env ep j w1) as (w' & i' & -> & Hc) end.
    exists w', i'. split; [done|]. rewrite Hc. cbn [ip_cache set_cache set_vault].
    unfold Cache.apply_full. destruct (foldl _ _ _) as [recs mx]. split.
    + eexists _, _. rewrite lookup_insert_eq. split_and!; [done..|]. specialize (Ha (S (S i))).
      unfold Sync.FULL_SYNC_INTERVAL, from_secs, nanos_per_sec. lia.
    + intros id Hid. by rewrite lookup_insert_ne.
  - assert (exists en f, ip_cache w !! Db.e_id ep = Some en /\ Cache.last_full_sync_at en = Some f /\
      a < f + Sync.FULL_SYNC_INTERVAL) as (en & f & Hen & Hf & Hlt).
    { unfold Cache.full_sync_due in Hdue. destruct (ip_cache w !! Db.e_id ep) as [en|]; [|done].
      destruct (Cache.last_full_sync_at en) as [f|] eqn:Hf; [|done]. apply Z.leb_gt in Hdue.
      specialize (Ha i). exists en, f. split_and!; [done..|]. lia. }
    destruct (negb _); cbn [run]; [eexists w, _; split_and!; [done|by exists en, f|done]|].
    unfold Sync.fetch. cbn [bind run]. destruct (Hans (S (S i)) (vault_state w)) as [_ Hpanic].
    specialize (Hpanic (Db.e_last_synced_at ep)).
    destruct (Vault.fetch_ips _ _ _ _ _) as [[[rs|e]|] st]; [| |done]; cbn [run].
    2:{ eexists _, _. split_and!; [done|by exists en, f|done]. }
    unfold Sync.apply_diff. cbn [bind run].
    match goal with |- context [run env ?j _ ?w1] => destruct (marked_cache env ep j w1) as (w' & i' & -> & Hc) end.
    exists w', i'. split; [done|]. rewrite Hc. cbn [ip_cache set_cache set_vault].
    destruct (apply_diff_full_at (ip_cache w) (Db.e_id ep) (Sync.map_records rs) en f Hen Hf) as (en' & Hen' & Hf').
    split; [by exists en', f|]. intros id Hid. unfold Cache.apply_diff. destruct (foldl _ _ _).
    by rewrite lookup_insert_ne.
Qed.

Lemma sync_each_daily env client a eps : forall i w,
  (forall ep, ep ∈ eps -> answers env client ep) -> (forall j, a <= mono (env j)) ->
  let c' := ip_cache (run env i (Sync.sync_each client eps) w).1.2 in
  forall id, id ∈ Db.e_id <$> eps \/ fully_synced a (ip_cache w) id -> fully_synced a c' id.
Proof.
  induction eps as [|ep eps IH]; intros i w Hans Ha c' id Hid; subst c'; cbn [Sync.sync_each].
  { destruct Hid as [?%elem_of_nil|?]; done. }
  rewrite run_bind. destruct (sync_endpoint_daily env i client ep a w) as (w1 & i1 & -> & Hown & Hrest);
    [apply Hans; by left|done|].
  apply IH; [intros ep' Hep'; apply Hans; by right|done|]. destruct (decide (id = Db.e_id ep)) as [->|Hne]; [by right|].
  destruct Hid as [[?|?]%elem_of_cons|(en & f & Hen & Hf)]; [done|by left|right; exists en, f; by rewrite Hrest].
Qed.

(** C15. Each endpoint is fully synchronised at least once a day: after any pass of the
    worker that could list the endpoints and to which Vault answered, whatever
    the state it found, every endpoint has had a full synchronisation less than
    [FULL_SYNC_INTERVAL] before the pass began. *)
Theorem full_sync_every_day env client a w :
  vault_client app = Some client -> Db.db_wf (db w) -> db_faults (env 0%nat) 0 = false ->
  (forall id ep, Db.endpoints (db w) !! id = Some ep -> answers env client ep) ->
  (forall j, a <= mono (env j)) ->
  forall id, is_Some (Db.endpoints (db w) !! id) ->
    fully_synced a (ip_cache (after env (Sync.sync_all_endpoints app) w)) id.
Proof.
  intros Happ Hwf Hdb Hans Ha id [ep Hep]. unfold after, Sync.sync_all_endpoints. rewrite Happ, run_bind.
  unfold query, stmt. cbn [run]. rewrite Hdb. cbn [run map_err].
  apply sync_each_daily; [|done|left].
  - intros e (k & Hk)%Db.elem_of_rows. by eapply Hans.
  - rewrite <- (Db.wf_endpoints _ Hwf id ep Hep). apply list_elem_of_fmap_2, Db.elem_of_rows. eauto.
Qed.

End daily.

(** ** Witnesses *)

Section witnesses.
Import Ref.

(** A Vault whose listings have at most one entry. *)
Definition w_recs (body : string) : list Vault.VaultApiRecord :=
  if String.eqb body "full" then [Vault.mkVaultApiRecord "1.1.1.1" 0 false]
  else if String.eqb body "gone" then [Vault.mkVaultApiRecord "8.8.8.8" (from_secs 1000) true]
  else [].

#[local] Instance w_json : Vault.JsonLib := {|
  Vault.de_ips b := Some (Vault.Legacy (w_recs b));
  Vault.de_records b := Some (w_recs b);
  Vault.de_groups b := Some [];
|}.

Definition w_vault_env (client : Vault.VaultClient) (base body : string) : Vault.VaultEnv := {|
  Vault.clock n := 100;
  Vault.transport n rq :=
    Vault.Responded 200
      (if decide (Vault.rq_url rq = Vault.base_url client +:+ Vault.first_path client base) then body
       else if decide (Vault.rq_url rq = Vault.base_url client +:+ Vault.page_path client base 0) then body
       else "[]");
  Vault.choice n := 0%nat;
  Vault.allocates _ := true;
|}.

Lemma w_recs_short body : (length (w_recs body) <= 1)%nat.
Proof. unfold w_recs. repeat case_match; simpl; lia. Qed.

Lemma w_one_page client body k :
  0 < Vault.page_size client ->
  Vault.page client (w_recs body) k = match k with O => w_recs body | S _ => [] end.
Proof.
  intros Hsize. unfold Vault.page, Vault.page_len. pose proof (w_recs_short body).
  destruct k as [|k]; [by rewrite drop_0, take_ge by lia|]. by rewrite drop_ge, take_nil by lia.
Qed.

Lemma w_one_page_serves client base body :
  0 < Vault.page_size client /\ Vault.MAX_PAGES * Vault.page_size client < 2 ^ 64 ->
  Vault.serves client (w_vault_env client base body) base (w_recs body).
Proof.
  intros Hsize. split; [intros m; simpl; eauto|done| | |done].
  - intros n rq Hrq. cbn [Vault.transport w_vault_env]. rewrite decide_True by done.
    apply Vault.ReplyLegacy. rewrite w_one_page; [done|lia].
  - intros n rq k Hrq. cbn [Vault.transport w_vault_env]. eexists. split; [done|]. rewrite w_one_page by lia.
    cbn [Vault.de_records w_json]. rewrite Hrq. rewrite decide_False.
    2:{ unfold Vault.page_path, Vault.first_path. by intros ?%Str.app_inv_head%Str.app_inv_head. }
    destruct k as [|k]; [by rewrite decide_True|]. rewrite decide_False; [done|]. unfold Vault.page_path.
    intros H%Str.app_inv_head%Str.app_inv_head%Str.app_inv_head%Str.app_inv_head%Str.app_inv_head.
    apply (inj pretty) in H. nia.
Qed.

Lemma w_fetch env groups since body st :
  Vault.serves Vault.w_client env (Vault.ips_base groups since) (w_recs body) ->
  (Vault.fetch_ips Vault.w_client env groups since st).1 = Some (Ok (w_recs body)).
Proof.
  intros Hs. pose proof (w_recs_short body).
  destruct (Vault.fetch_complete Vault.w_client env groups since (w_recs body) st Hs) as (all & st' & -> & Hp).
  { change (Vault.MAX_PAGES * Vault.page_size Vault.w_client) with 2000. lia. }
  cbn [fst]. do 2 f_equal. destruct (w_recs body) as [|r [|]]; simpl in *; [by apply Permutation_nil_r in Hp| |lia].
  by apply Permutation_singleton_r in Hp.
Qed.

Lemma w_client_size : 0 < Vault.page_size Vault.w_client /\ Vault.MAX_PAGES * Vault.page_size Vault.w_client < 2 ^ 64.
Proof. by vm_compute. Qed.

(** A Vault with nothing new. *)
Definition w_quiet : Vault.VaultEnv :=
  Vault.mkVaultEnv (fun _ => 100) (fun _ _ => Vault.Responded 200 "[]") (fun _ => 0%nat) (fun _ => true).

Lemma w_quiet_serves base : Vault.serves Vault.w_client w_quiet base (w_recs "[]").
Proof.
  split; [intros m; simpl; eauto|by vm_compute| | |done].
  - intros n rq _. by apply Vault.ReplyLegacy.
  - intros n rq k _. eexists. split; [done|]. rewrite w_one_page by done. by destruct k.
Qed.

(** The next day, beside such a Vault. *)
Definition w_tick (v : Vault.VaultEnv) (j : nat) : Tick :=
  mkTick (wall (Demo.tick (min j 5))) (from_secs 90000 + mono (Demo.tick (min j 5))) (fun _ => false) 0 Demo.filler
    (fun _ => Dns.mkDnsTick 0 0 0 (fun _ => None)) v.

(** *** A tombstone arrives *)

Definition w_cursor : Z := from_secs 500 + 7.
Definition w_ep : Db.Endpoint := Db.set_ep_last_synced_at (Some w_cursor) Demo.feed.
Definition w_before : Cache.VaultState :=
  {[("8.8.8.8", "malware") := (0, false); ("10.0.0.1", "malware") := (0, false)]}.
Definition w_after : Cache.VaultState := <[("8.8.8.8", "malware") := (from_secs 1000, true)]> w_before.

Lemma w_start_mirrors : Cache.mirrors (ip_cache Demo.start) 10%N w_before.
Proof. apply Cache.mirrors_full, (Cache.lists_concrete w_before (fun r => Cache.is_deleted r = false)). by vm_compute. Qed.

Lemma w_start_wf : Cache.cache_wf (ip_cache Demo.start).
Proof. apply Cache.apply_full_wf, Cache.new_wf. Qed.

(** Vault lists what was observed since the whole second of the cursor. *)
Definition w_listed (V : Cache.VaultState) : string * string -> Prop := Cache.stamped V (whole w_cursor).

Lemma w_after_lists : Cache.selects (w_listed w_after) w_after (Sync.map_records (w_recs "gone")).
Proof.
  apply Cache.lists_selects, (Cache.lists_concrete w_after (fun r => whole w_cursor <= Cache.last_seen_at r)).
  by vm_compute.
Qed.

(** What the two states say of an address, one membership at a time. *)
Lemma w_after_seen k t d : Cache.seen w_after k t d ->
  k = "8.8.8.8" /\ t = from_secs 1000 /\ d = true \/ k = "10.0.0.1" /\ t = 0 /\ d = false.
Proof.
  intros [g Hg]. unfold w_after, w_before in Hg.
  rewrite !lookup_insert_Some, lookup_singleton_Some in Hg. naive_solver.
Qed.

Definition w_same_day (j : nat) : Tick :=
  mkTick (wall (Demo.tick (min j 6))) 0 (fun _ => false) 0 Demo.filler (fun _ => Dns.mkDnsTick 0 0 0 (fun _ => None))
    (if decide (j < 6)%nat then w_vault_env Vault.w_client (Vault.ips_base "malware,scanners" (Some w_cursor)) "gone"
     else w_quiet).

Lemma differential_sync_exact_witness :
  Cache.mirrors (ip_cache (after w_same_day (Sync.sync_endpoint Vault.w_client w_ep) Demo.start)) 10%N w_after.
Proof.
  apply (proj1 (proj2 (differential_sync_exact w_same_day Vault.w_client w_ep w_cursor (w_listed w_after) w_after (w_recs "gone") Demo.start
    eq_refl eq_refl eq_refl (w_one_page_serves _ _ _ w_client_size) eq_refl w_after_lists w_start_wf))
    w_before w_start_mirrors).
  - intros m. unfold w_after. destruct (decide (m = ("8.8.8.8", "malware"))) as [->|Hne].
    + intros _. split; [by rewrite lookup_insert_eq|]. exists (from_secs 1000), true. by vm_compute.
    + by rewrite lookup_insert_ne.
  - intros k (g & t & Ht & _) t' Ht'%w_after_seen. assert (Cache.seen w_after k t true) as ?%w_after_seen by by exists g.
    naive_solver.
Defined.

(** *** A record that comes too late for the listing and too early for the cursor *)

Definition w_late (j : nat) : Tick :=
  w_tick (if decide (j < 5)%nat then w_vault_env Vault.w_client (Vault.ips_base "malware,scanners" None) "full" else w_quiet) j.

Lemma late_change_missed_witness :
  Cache.cached (ip_cache (after w_late
    (let* _ := Sync.sync_endpoint Vault.w_client Demo.feed in Sync.sync_worker Demo.service 100) Demo.start))
    10%N !! "9.9.9.9" = None.
Proof.
  apply (late_change_missed Demo.service w_late Vault.w_client Demo.feed "9.9.9.9" (from_secs 1002) Demo.start
    (w_recs "full") 100 eq_refl Demo.database_wf eq_refl eq_refl).
  - apply w_fetch, w_one_page_serves, w_client_size.
  - change ("9.9.9.9" ∉ ["1.1.1.1"]). by rewrite list_elem_of_singleton.
  - done.
  - by vm_compute.
  - intros j Hj. assert (w_late j = w_tick w_quiet 5) as ->.
    { unfold w_late, w_tick. destruct (decide (j < 5)%nat); [lia|]. by rewrite Nat.min_r. }
    split_and!; [by vm_compute..|]. intros s st rs _. cbn [vault w_tick]. rewrite (w_fetch _ _ _ "[]") by apply w_quiet_serves.
    intros [= <-]. apply not_elem_of_nil.
Defined.

(** *** A tombstone in one group, live in another *)

Definition w_overlap : Cache.VaultState := <[("8.8.8.8", "scanners") := (0, false)]> w_after.

Lemma w_overlap_seen k t d : Cache.seen w_overlap k t d ->
  k = "8.8.8.8" /\ t = 0 /\ d = false \/ Cache.seen w_after k t d.
Proof.
  intros [g Hg]. unfold w_overlap in Hg. apply lookup_insert_Some in Hg as [[[= <- <-] [= <- <-]]|[_ Hg]];
    [by left|right; by exists g].
Qed.

Definition w_world : World := set_db Demo.start (Db.with_endpoints Demo.database {[10%N := w_ep]}).

Lemma w_world_wf : Db.db_wf (db w_world).
Proof.
  destruct Demo.database_wf as []. split; try done; cbn [db w_world set_db Db.endpoints Db.with_endpoints].
  - intros id e [<- <-]%lookup_singleton_Some. done.
  - intros i j x y [<- <-]%lookup_singleton_Some [<- <-]%lookup_singleton_Some. done.
  - intros id e o [<- <-]%lookup_singleton_Some. cbn. intros [= <-]. by eexists.
Qed.

Lemma live_address_withdrawn_witness :
  Cache.cached (ip_cache (after w_same_day
    (let* _ := Sync.sync_endpoint Vault.w_client w_ep in Sync.sync_worker Demo.service 100) w_world))
    10%N !! "8.8.8.8" = None.
Proof.
  refine (proj1 (live_address_withdrawn Demo.service w_same_day Vault.w_client w_ep "8.8.8.8" w_cursor (w_listed w_overlap) w_overlap
    (w_recs "gone") w_world 100 _ 0 (from_secs 1000) 0 eq_refl w_world_wf eq_refl eq_refl eq_refl eq_refl eq_refl eq_refl
    (w_one_page_serves _ _ _ w_client_size) eq_refl _ _ _ _ _ _ _ _)).
  - apply Cache.lists_selects, (Cache.lists_concrete w_overlap (fun r => whole w_cursor <= Cache.last_seen_at r)).
    by vm_compute.
  - by eexists.
  - by exists "scanners".
  - exists "malware", (from_secs 1000). split; [by vm_compute|]. exists (from_secs 1000), true. by vm_compute.
  - intros (g & t & Ht & t' & d & Hm & Hle). rewrite Ht in Hm. injection Hm as <- <-.
    assert (Cache.seen w_overlap "8.8.8.8" t false) as [(_ & -> & _)|[(_ & _ & ?)|(? & _)]%w_after_seen]%w_overlap_seen
      by (by exists g); [by vm_compute in Hle|done..].
  - done.
  - by vm_compute.
  - intros j Hj. assert (w_same_day j = mkTick (wall (Demo.tick 6)) 0 (fun _ => false) 0 Demo.filler
      (fun _ => Dns.mkDnsTick 0 0 0 (fun _ => None)) w_quiet) as ->.
    { unfold w_same_day. destruct (decide (j < 6)%nat); [lia|]. by rewrite Nat.min_r. }
    split_and!; [by vm_compute..|]. intros s st rs _. cbn [vault]. rewrite (w_fetch _ _ _ "[]") by apply w_quiet_serves.
    intros [= <-]. apply not_elem_of_nil.
Defined.

(** *** A day later *)

Lemma w_no_panic env groups since st : (Vault.fetch_ips Vault.w_client env groups since st).1 <> None.
Proof.
  destruct (Vault.fetch_ips_total_fuel Vault.w_client env groups since st) as (r & st' & Hf & _ & Hr).
  unfold Vault.fetch_ips. rewrite Hf. cbn [default fst]. intros (e & st1 & Hget & _)%Hr.
  unfold Vault.signed_get in Hget. repeat case_match; by simplify_eq.
Qed.

Lemma full_sync_every_day_witness :
  fully_synced (from_secs 90000) (ip_cache (after w_late (Sync.sync_all_endpoints Demo.service) Demo.start)) 10%N.
Proof.
  apply (full_sync_every_day Demo.service w_late Vault.w_client (from_secs 90000) Demo.start eq_refl
    Demo.database_wf eq_refl); [| |by eexists].
  - intros id ep Hep. change (({[10%N := Demo.feed]} : gmap Uuid Db.Endpoint) !! id = Some ep) in Hep.
    apply lookup_singleton_Some in Hep as [_ <-]. intros j st. split; [|intros since; apply w_no_panic].
    unfold w_late. cbn [vault w_tick].
    destruct (decide (j < 5)%nat).
    + pose proof (w_fetch _ _ _ "full" st (w_one_page_serves Vault.w_client
        (Vault.ips_base "malware,scanners" None) "full" w_client_size)) as Hf.
      destruct (Vault.fetch_ips _ _ _ _ _) as [r st']. cbn [fst] in Hf. subst r. eauto.
    + pose proof (w_fetch _ (Db.e_vault_groups Demo.feed) None "[]" st (w_quiet_serves _)) as Hf.
      destruct (Vault.fetch_ips _ _ _ _ _) as [r st']. cbn [fst] in Hf. subst r. eauto.
  - intros j. unfold w_late, w_tick, Demo.tick, from_secs, nanos_per_sec. cbn [mono]. lia.
Defined.

End witnesses.

End SyncProps.
