(* ===== verification/Isolation.v ===== *)
(** * What a feed depends on

    A feed is public to whoever holds its token.  Its answers are a function of
    the row that has the token, of the cache of that endpoint, of the limiter and
    of the resolver: nothing else the service holds, no key, grant, audit entry or
    other endpoint, shows in a body, an [ETag], a status or a delay. *)

From S2P Require Import Prelude.
From S2P Require Import RustStr.
From S2P Require Import Net.
From S2P Require Import Libs.
From S2P Require Import LibsRef.
From S2P Require Import Cache.
From S2P Require Import Crypto.
From S2P Require Import VaultClient.
From S2P Require Import DnsCache.
From S2P Require Import Http.
From S2P Require Import Config.
From S2P Require Import RateLimit.
From S2P Require Import Db.
From S2P Require Import App.
From S2P Require Import Logic.
From S2P Require Import Demo.
From S2P Require Import Auth.
From S2P Require Import ApiKeys.
From S2P Require Import ApiEndpoints.
From S2P Require Import Feed.
From S2P Require Import FeedProps.
Import App Logic.
#[local] Open Scope Z_scope.
#[local] Open Scope prog_scope.

Module Isolation.

Section isolation.
Context {L : IpNetLib} {C : CryptoLib} {Ch : ChronoLib} (app : AppConfig) (token : string) (id : Uuid).

(** The row [e] is the endpoint [id], reached by the token. *)
Definition row_of (w : World) (i : Uuid) (e : Db.Endpoint) : Prop :=
  Db.endpoints (db w) !! i = Some e /\ Db.e_token_secret e = token.

(** The two worlds agree on all that belongs to the feed: its row (the token, if it
    is anyone's, is that of [id]), its cache, the limiter and the resolver. *)
Record same_feed (w1 w2 : World) : Prop := {
  sf_row : forall i e, row_of w1 i e <-> row_of w2 i e;
  sf_id : forall i e, row_of w1 i e -> i = id /\ Db.e_id e = id;
  sf_cache : ip_cache w1 !! id = ip_cache w2 !! id;
  sf_dns : dns_resolver w1 = dns_resolver w2;
  sf_limiter : rate_limiter w1 = rate_limiter w2;
}.

Definition by_token (w : World) : option Db.Endpoint :=
  Db.find_one (fun e => bool_decide (Db.e_token_secret e = token)) (Db.endpoints (db w)).

Lemma by_token_Some w e : by_token w = Some e -> exists i, row_of w i e.
Proof. intros [Ht%bool_decide_eq_true [i Hi]]%Db.find_one_Some. by exists i. Qed.

Lemma by_token_None w i e : by_token w = None -> ~ row_of w i e.
Proof.
  intros Hn [Hi Ht]. pose proof (Db.find_one_None _ _ Hn i e Hi) as Hf. by apply bool_decide_eq_false in Hf.
Qed.

Lemma same_by_token w1 w2 : same_feed w1 w2 -> by_token w1 = by_token w2.
Proof.
  intros [Hrow Hid _ _ _]. destruct (by_token w1) as [e1|] eqn:H1, (by_token w2) as [e2|] eqn:H2; [| | |done].
  - apply by_token_Some in H1 as [i Hi], H2 as [j Hj]. apply Hrow in Hj. pose proof (Hid _ _ Hi) as [-> _].
    pose proof (Hid _ _ Hj) as [-> _]. destruct Hi, Hj. congruence.
  - apply by_token_Some in H1 as [i Hi%Hrow]. by destruct (by_token_None w2 i e1 H2).
  - apply by_token_Some in H2 as [i Hi%Hrow]. by destruct (by_token_None w1 i e2 H1).
Qed.

#[local] Abbreviation isolated p Q := (respects same_feed p Q).

Lemma same_set_dns w1 w2 d : same_feed w1 w2 -> same_feed (set_dns w1 d) (set_dns w2 d).
Proof. intros []. by split. Qed.

Lemma same_set_limiter w1 w2 l : same_feed w1 w2 -> same_feed (set_limiter w1 l) (set_limiter w2 l).
Proof. intros []. by split. Qed.

Lemma isolated_client_ip peer hdrs : isolated (Middleware.client_ip_of app peer hdrs) any.
Proof.
  apply respects_step. intros t w1 w2 Hw. rewrite (sf_dns _ _ Hw). destruct (Config.resolved _ _ _) as [trusted d].
  split_and!; [done|by apply same_set_dns|done].
Qed.

(** The lookup by token finds the same row, and that row is [id]'s. *)
Lemma isolated_lookup :
  isolated (query (fun d => Db.find_one (fun e => bool_decide (Db.e_token_secret e = token)) (Db.endpoints d)))
    (fun found => forall ep, found = Ok (Some ep) -> Db.e_id ep = id).
Proof.
  apply respects_step. intros t w1 w2 Hw. destruct (db_faults t 0); [by split_and!|]. cbn [fst snd map_err].
  pose proof (same_by_token w1 w2 Hw) as Heq. unfold by_token in Heq. rewrite Heq. split_and!; [done|by destruct Hw|].
  intros ep [= Hep]. rewrite <- Heq in Hep. apply by_token_Some in Hep as [i Hi]. by apply (sf_id _ _ Hw) in Hi as [_ ?].
Qed.

Lemma isolated_access ep ip : isolated (Feed.check_access ep ip) any.
Proof.
  unfold Feed.check_access. destruct (Keys.non_blank _) as [raw|]; [|done].
  destruct (Dns.parse_bound_ips raw) as [entries|]; [|done]. cbn [lift map_err bind_ok bind].
  eapply respects_bind; [|intros [] _; done]. apply (respects_step _ _ any). intros t w1 w2 Hw. rewrite (sf_dns _ _ Hw).
  destruct (Dns.is_allowed _ _ _ _) as [ok d]. split_and!; [done|by apply same_set_dns|done].
Qed.

Lemma isolated_published ep :
  Db.e_id ep = id -> isolated (Step (fun t w => (Feed.published ep (wall t) (ip_cache w), w)) Ret) any.
Proof.
  intros Hid. apply respects_step. intros t w1 w2 Hw. split_and!; [|done|done]. cbn [fst].
  unfold Feed.published, Cache.snapshot_within. by rewrite Hid, (sf_cache _ _ Hw).
Qed.

Lemma isolated_respond hdrs ip text : isolated (Feed.respond hdrs ip text) any.
Proof.
  unfold Feed.respond. destruct (match Http.get_str _ _ with Some _ => _ | None => _ end); [done|].
  eapply respects_bind; [|intros [] _; done]. apply (respects_step _ _ any). intros t w1 w2 Hw.
  rewrite (sf_limiter _ _ Hw). destruct (RateLimit.check_and_record _ _ _) as [r l].
  split_and!; [done|by apply same_set_limiter|done].
Qed.

Lemma isolated_feed peer hdrs : isolated (Feed.serve_feed app token peer hdrs) any.
Proof.
  unfold Feed.serve_feed. eapply respects_bind; [apply isolated_client_ip|intros ip _].
  eapply respects_bind; [apply isolated_lookup|]. intros [[ep|]|e] Hep; [|done|done].
  eapply respects_bind; [apply isolated_access|]. intros [[]|e] _; [|done].
  eapply respects_bind; [apply isolated_published; by apply Hep|]. intros [blocks|] _; [|done].
  eapply respects_bind; [apply isolated_respond|done].
Qed.

(** C12. A feed shows nothing but itself: two executions of a request for the same
    token, whatever runs between their steps, give the same answer in the same
    number of steps if at each of these the row with the token, the cache of its
    endpoint, the limiter and the resolver are the same; keys, grants, the audit
    log, the other endpoints and their records may differ in any way. *)
Theorem feed_shows_only_itself peer hdrs tr1 tr2 r1 r2 :
  exec (Feed.serve_feed app token peer hdrs) tr1 r1 -> exec (Feed.serve_feed app token peer hdrs) tr2 r2 ->
  (forall i s1 s2, tr1 !! i = Some s1 -> tr2 !! i = Some s2 -> s1.1.1 = s2.1.1 /\ same_feed s1.1.2 s2.1.2) ->
  r1 = r2 /\ length tr1 = length tr2 /\ Forall2 (fun s1 s2 => same_feed s1.2 s2.2) tr1 tr2.
Proof.
  intros H1 H2 Hrel. destruct (respects_exec _ _ _ _ _ _ _ (isolated_feed peer hdrs) H1 H2 Hrel) as [Hr HF].
  split_and!; [done|by apply Forall2_length in HF|done].
Qed.

End isolation.

(** ** Witness *)

Section witnesses.
Import Ref.

(** The demonstration without its keys and grants, and with another feed. *)
Definition w_neighbour : Db.Endpoint := Db.mkEndpoint 11 None "other" None "other token" "scanners" 60 0 None
  false false false None 0 0.

Definition w_elsewhere : World :=
  set_cache (set_db Demo.start (Db.mkDatabase ∅ {[10%N := Demo.feed; 11%N := w_neighbour]} ∅ ∅))
    (Cache.apply_full 0 (ip_cache Demo.start) 11%N [Cache.mkVaultRecord "9.9.9.9" 0 false]).

Lemma w_same : same_feed "tok" 10%N Demo.start w_elsewhere.
Proof.
  split; [| |done..].
  - intros i e. unfold row_of. change (Db.endpoints (db Demo.start)) with ({[10%N := Demo.feed]} : gmap Uuid Db.Endpoint).
    change (Db.endpoints (db w_elsewhere)) with ({[10%N := Demo.feed; 11%N := w_neighbour]} : gmap Uuid Db.Endpoint).
    rewrite lookup_insert_Some, !lookup_singleton_Some. split.
    + intros [[<- <-] Ht]. split; [by left|done].
    + intros [[[<- <-]|[_ [<- <-]]] Ht]; [done|discriminate Ht].
  - intros i e [Hi _]. change (({[10%N := Demo.feed]} : gmap Uuid Db.Endpoint) !! i = Some e) in Hi.
    by apply lookup_singleton_Some in Hi as [<- <-].
Qed.

Definition w_feed : prog (option (result Feed.Response AppError)) :=
  Feed.serve_feed Demo.service "tok" Demo.client FeedProps.no_headers.

Lemma feed_shows_only_itself_witness :
  outcome Demo.tick w_feed Demo.start = outcome Demo.tick w_feed w_elsewhere.
Proof.
  refine (proj1 (feed_shows_only_itself Demo.service "tok" 10%N Demo.client FeedProps.no_headers
    (trace Demo.tick 0 w_feed Demo.start) (trace Demo.tick 0 w_feed w_elsewhere) _ _ _ _ _)); [apply trace_exec..|].
  intros i s1 s2. apply (respects_trace _ _ any); [apply isolated_feed|apply w_same].
Defined.

End witnesses.

End Isolation.
