(* ===== verification/Router.v ===== *)
(** * [lib.rs]: the router

    The table of [create_app], the arguments each handler extracts, and the
    answer to a request.  Everything under [/api] is behind the authentication
    layer, a request with a wrong method included; the probes and the feed are
    not.  Theorems: a path and a method reach one handler; no request changes
    the database or the cache before it is authenticated; a body with a field
    its struct does not declare changes nothing; the order of the members of a
    body does not matter. *)

From S2P Require Import Prelude.
From S2P Require Import RustStr.
From S2P Require Import Net.
From S2P Require Import Libs.
From S2P Require Import LibsRef.
From S2P Require Import Cache.
From S2P Require Import Crypto.
From S2P Require Import VaultClient.
From S2P Require Import DnsCache.
From S2P Require Import Http.
From S2P Require Import Config.
From S2P Require Import RateLimit.
From S2P Require Import Replay.
From S2P Require Import Db.
From S2P Require Import App.
From S2P Require Import Demo.
From S2P Require Import Auth.
From S2P Require Import ApiKeys.
From S2P Require Import ApiEndpoints.
From S2P Require Import Extract.
From S2P Require Import Feed.
Import App Extract.
From Stdlib Require Import Ascii.
#[local] Open Scope Z_scope.
#[local] Open Scope rust_scope.
#[local] Open Scope prog_scope.

Module Router.

(** ** The routes *)

Inductive Route :=
| get_me | create_api_key | list_api_keys | update_api_key | delete_api_key
| rotate_api_key | rotate_signing_secret
| create_endpoint | list_endpoints | update_endpoint | delete_endpoint | reassign_endpoint_owner
| list_audit_logs | list_vault_groups | list_key_groups | grant_key_group | revoke_key_group.

Inductive PublicRoute := health_check | readiness_check | serve_feed.

(** The nested router: every pattern below [/api]. *)
Definition api_routes : list (list Seg * string * Route) :=
  [ ([Lit "api"; Lit "auth"; Lit "me"], "GET", get_me);
    ([Lit "api"; Lit "keys"], "POST", create_api_key);
    ([Lit "api"; Lit "keys"], "GET", list_api_keys);
    ([Lit "api"; Lit "keys"; Var], "PUT", update_api_key);
    ([Lit "api"; Lit "keys"; Var], "DELETE", delete_api_key);
    ([Lit "api"; Lit "keys"; Var; Lit "rotate"], "POST", rotate_api_key);
    ([Lit "api"; Lit "keys"; Var; Lit "rotate-secret"], "POST", rotate_signing_secret);
    ([Lit "api"; Lit "endpoints"], "POST", create_endpoint);
    ([Lit "api"; Lit "endpoints"], "GET", list_endpoints);
    ([Lit "api"; Lit "endpoints"; Var], "PUT", update_endpoint);
    ([Lit "api"; Lit "endpoints"; Var], "DELETE", delete_endpoint);
    ([Lit "api"; Lit "endpoints"; Var; Lit "owner"], "PUT", reassign_endpoint_owner);
    ([Lit "api"; Lit "audit-logs"], "GET", list_audit_logs);
    ([Lit "api"; Lit "vault-groups"], "GET", list_vault_groups);
    ([Lit "api"; Lit "keys"; Var; Lit "groups"], "GET", list_key_groups);
    ([Lit "api"; Lit "keys"; Var; Lit "groups"], "POST", grant_key_group);
    ([Lit "api"; Lit "keys"; Var; Lit "groups"; Var], "DELETE", revoke_key_group) ].

Definition public_routes : list (list Seg * string * PublicRoute) :=
  [ ([Lit "health"], "GET", health_check);
    ([Lit "healthz"], "GET", health_check);
    ([Lit "ready"], "GET", readiness_check);
    ([Lit "readyz"], "GET", readiness_check);
    ([Lit "feed"; Lit "v1"; Var; Lit "list.txt"], "GET", serve_feed) ].

(** A [get] handler also answers [HEAD]. *)
Definition answers (registered method : string) : bool :=
  bool_decide (method = registered) || (bool_decide (method = "HEAD") && bool_decide (registered = "GET")).

Inductive Routed (R : Type) := Found (params : list string) (r : R) | WrongMethod | NoRoute.
#[global] Arguments Found {R} params r.
#[global] Arguments WrongMethod {R}.
#[global] Arguments NoRoute {R}.

(** The routes of [/api], with their parsed arguments. *)
Inductive ApiCall :=
| GetMe
| CreateKey (p : Keys.CreateKeyPayload)
| ListKeys
| UpdateKey (id : Uuid) (p : Keys.UpdateKeyPayload)
| DeleteKey (id : Uuid) (q : Keys.DeleteKeyQuery)
| RotateKey (id : Uuid)
| RotateSecret (id : Uuid)
| CreateEndpoint (p : Endpoints.CreateEndpointPayload)
| ListEndpoints
| UpdateEndpoint (id : Uuid) (p : Endpoints.UpdateEndpointPayload)
| DeleteEndpoint (id : Uuid)
| ReassignOwner (id : Uuid) (p : Endpoints.ReassignOwnerPayload)
| AuditLogs (q : ReadOnly.AuditLogQuery)
| VaultGroups
| KeyGroups (id : Uuid)
| GrantGroup (id vault_group_id : Uuid)
| RevokeGroup (path : result (Uuid * Uuid) string).

(** What a handler sends back: a JSON body with [200], or [204]. *)
Inductive ApiResponse :=
| Me (r : ReadOnly.MeResponse)
| Minted (r : Keys.MintedKeyResponse)
| KeyList (rs : list Keys.KeyResponse)
| Key (r : Keys.KeyResponse)
| Secret (r : Keys.RotateSigningSecretResponse)
| EndpointBody (r : Endpoints.EndpointResponse)
| EndpointList (rs : list Endpoints.EndpointResponse)
| AuditEntries (rs : list Db.AuditLog)
| VaultGroupList (rs : list (Uuid * string))
| Grants (rs : list Db.VaultGroupPermission)
| Grant (r : Db.VaultGroupPermission)
| NoContent.

Inductive Reply :=
| Success (r : ApiResponse)
| Failure (e : AppError)
| FeedReply (r : Feed.Response)
| Panicked
| Healthy
| Readiness (status : Z) (db_ok master_pinned : bool)
| PathRefused (text : string)
| MethodNotAllowed
| StaticFile.

Section router.
Context {L : IpNetLib} {C : CryptoLib} {Ch : ChronoLib} {U : UuidLib} {J : Vault.JsonLib} {A : AxumLib}.
Context (app : AppConfig).

(** ** Arguments *)

Definition with_id {T} (params : list string) (f : Uuid -> result T AppError) : result T AppError :=
  match params with
  | [segment] => let? id := StrictPath segment in f id
  | _ => Err Internal
  end.

(** The arguments of a handler, in the order it extracts them: the path, then the
    query or the body. *)
Definition extract (route : Route) (params : list string) (query : string) (h : Http.HeaderMap)
    (body : Bytes) : result ApiCall AppError :=
  match route with
  | get_me => Ok GetMe
  | create_api_key => let? p := StrictJson CreateKeyPayload_deserialize h body in Ok (CreateKey p)
  | list_api_keys => Ok ListKeys
  | update_api_key => with_id params (fun id =>
      let? p := StrictJson UpdateKeyPayload_deserialize h body in Ok (UpdateKey id p))
  | delete_api_key => with_id params (fun id =>
      let? q := StrictQuery DeleteKeyQuery_deserialize query in Ok (DeleteKey id q))
  | rotate_api_key => with_id params (fun id => Ok (RotateKey id))
  | rotate_signing_secret => with_id params (fun id => Ok (RotateSecret id))
  | create_endpoint => let? p := StrictJson CreateEndpointPayload_deserialize h body in Ok (CreateEndpoint p)
  | list_endpoints => Ok ListEndpoints
  | update_endpoint => with_id params (fun id =>
      let? p := StrictJson UpdateEndpointPayload_deserialize h body in Ok (UpdateEndpoint id p))
  | delete_endpoint => with_id params (fun id => Ok (DeleteEndpoint id))
  | reassign_endpoint_owner => with_id params (fun id =>
      let? p := StrictJson ReassignOwnerPayload_deserialize h body in Ok (ReassignOwner id p))
  | list_audit_logs => let? q := StrictQuery AuditLogQuery_deserialize query in Ok (AuditLogs q)
  | list_vault_groups => Ok VaultGroups
  | list_key_groups => with_id params (fun id => Ok (KeyGroups id))
  | grant_key_group => with_id params (fun id =>
      let? g := StrictJson GrantGroupPayload_deserialize h body in Ok (GrantGroup id g))
  | revoke_key_group =>
      match params with
      | [s1; s2] => Ok (RevokeGroup (path_uuids s1 s2))
      | _ => Err Internal
      end
  end.

(** ** Handlers *)

Definition answer {T} (f : T -> ApiResponse) (p : prog (result T AppError))
  : prog (result ApiResponse AppError) :=
  let! a := p in Ret (Ok (f a)).

(** The handler behind the authentication layer. *)
Definition dispatch (call : ApiCall) (caller : Db.ApiKey) (ip : IpAddr)
  : prog (result ApiResponse AppError) :=
  match call with
  | GetMe => Ret (Ok (Me (ReadOnly.get_me caller)))
  | CreateKey p => answer Minted (Keys.create_api_key app caller ip p)
  | ListKeys => answer KeyList (Keys.list_api_keys caller)
  | UpdateKey id p => answer Key (Keys.update_api_key caller ip id p)
  | DeleteKey id q => answer (fun _ => NoContent) (Keys.delete_api_key caller ip id q)
  | RotateKey id => answer Minted (Keys.rotate_api_key app caller ip id)
  | RotateSecret id => answer Secret (Keys.rotate_signing_secret app caller ip id)
  | CreateEndpoint p => answer EndpointBody (Endpoints.create_endpoint caller ip p)
  | ListEndpoints => answer EndpointList (Endpoints.list_endpoints caller)
  | UpdateEndpoint id p => answer EndpointBody (Endpoints.update_endpoint caller ip id p)
  | DeleteEndpoint id => answer (fun _ => NoContent) (Endpoints.delete_endpoint caller ip id)
  | ReassignOwner id p => answer EndpointBody (Endpoints.reassign_endpoint_owner caller ip id p)
  | AuditLogs q => answer AuditEntries (ReadOnly.list_audit_logs caller q)
  | VaultGroups => answer VaultGroupList (Groups.list_vault_groups app caller)
  | KeyGroups id => answer Grants (Groups.list_key_groups caller id)
  | GrantGroup id g => answer Grant (Groups.grant_key_group app caller ip id g)
  | RevokeGroup path => answer (fun _ => NoContent) (Groups.revoke_key_group caller ip path)
  end.

(** ** Requests *)

Definition route {R} (table : list (list Seg * string * R)) (method path : string) : Routed R :=
  let rows := omap (fun row => (fun params => (params, row.1.2, row.2)) <$> match_route row.1.1 path) table in
  match rows with
  | [] => NoRoute
  | _ :: _ =>
      match List.find (fun row => answers row.1.2 method) rows with
      | Some row => Found row.1.1 row.2
      | None => WrongMethod
      end
  end.

(** The path and the query of a request target. *)
Definition path_of (target : string) : string * string :=
  default (target, "") (Str.split_once "?" target).

(** A handler under [/api], from the authenticated caller on. *)
Definition serve_api (req : Middleware.Request) (routed : Routed Route) (ip : IpAddr) (key : Db.ApiKey)
  : prog Reply :=
  match routed with
  | Found params r =>
      match extract r params (path_of (Middleware.rq_target req)).2 (Middleware.rq_headers req)
              (default "" (Middleware.rq_body req)) with
      | Err e => Ret (Failure e)
      | Ok call =>
          let* r := dispatch call key ip in
          Ret match r with Ok resp => Success resp | Err e => Failure e end
      end
  | _ => Ret MethodNotAllowed
  end.

(** The rest: the probes, the feed, the static files. *)
Definition serve_public (req : Middleware.Request) (routed : Routed PublicRoute) : prog Reply :=
  match routed with
  | Found _ health_check => Ret Healthy
  | Found _ readiness_check =>
      let* r := ReadOnly.readiness_check in Ret (Readiness r.1.1 r.1.2 r.2)
  | Found params serve_feed =>
      match params with
      | [segment] =>
          match path_string segment with
          | Err text => Ret (PathRefused text)
          | Ok token_secret =>
              let* r := Feed.serve_feed app token_secret (Middleware.rq_peer req)
                          (Middleware.rq_headers req) in
              Ret match r with
                  | Some (Ok resp) => FeedReply resp
                  | Some (Err e) => Failure e
                  | None => Panicked
                  end
          end
      | _ => Ret (Failure Internal)
      end
  | WrongMethod => Ret MethodNotAllowed
  | NoRoute => Ret StaticFile
  end.

Definition handle (req : Middleware.Request) : prog Reply :=
  let path := (path_of (Middleware.rq_target req)).1 in
  match route api_routes (Middleware.rq_method req) path with
  | NoRoute => serve_public req (route public_routes (Middleware.rq_method req) path)
  | routed =>
      let* auth := Middleware.auth_middleware app req in
      match auth with
      | Err e => Ret (Failure e)
      | Ok (ip, key) => serve_api req routed ip key
      end
  end.

End router.

(** The status line; a panic closes the connection, and static files answer for
    themselves. *)
Definition reply_status (r : Reply) : option Z :=
  match r with
  | Success NoContent => Some 204
  | Success _ | Healthy => Some 200
  | Failure e => Some (into_response e).1
  | FeedReply resp => Some (Feed.status resp)
  | Readiness status _ _ => Some status
  | PathRefused _ => Some 400
  | MethodNotAllowed => Some 405
  | Panicked | StaticFile => None
  end.

(** ** One handler per request *)

Section table.
Context {A : AxumLib} {AL : AxumLaws A}.

(** Two patterns some path fits both of. *)
Fixpoint overlap (p q : list Seg) : bool :=
  match p, q with
  | [], [] => true
  | Lit s :: p', Lit t :: q' => bool_decide (s = t) && overlap p' q'
  | _ :: p', _ :: q' => overlap p' q'
  | _, _ => false
  end.

Lemma fit_overlap p : forall q ss ps qs, fit p ss = Some ps -> fit q ss = Some qs -> overlap p q = true.
Proof.
  induction p as [|[l|] p IH]; intros [|[l'|] q] [|s ss] ps qs; cbn [fit overlap]; try done;
    repeat case_bool_decide; try done; subst;
    repeat match goal with |- context [Str.is_empty ?x] => destruct (Str.is_empty x); try done end;
    intros Hp Hq; repeat match goal with H : _ <$> fit ?a ?b = Some _ |- _ =>
      destruct (fit a b) eqn:?; [|done] end; simpl; eauto.
Qed.

Lemma match_overlap p q path ps qs :
  match_route p path = Some ps -> match_route q path = Some qs -> overlap p q = true.
Proof. rewrite !match_route_spec. destruct (Str.strip_prefix _ _); [apply fit_overlap|done]. Qed.

Lemma overlap_sym p : forall q, overlap p q = overlap q p.
Proof.
  induction p as [|[s|] p IH]; intros [|[t|] q]; cbn [overlap]; try done.
  rewrite IH. f_equal. by apply bool_decide_ext.
Qed.

(** No row clashes with a later one. *)
Fixpoint rows_distinct {R} (rows : list (list Seg * string * R)) : bool :=
  match rows with
  | [] => true
  | r :: rows' =>
      forallb (fun r' => negb (overlap r.1.1 r'.1.1 && bool_decide (r.1.2 = r'.1.2))) rows'
      && rows_distinct rows'
  end.

Lemma rows_distinct_eq {R} (rows : list (list Seg * string * R)) r r' :
  rows_distinct rows = true -> r ∈ rows -> r' ∈ rows ->
  overlap r.1.1 r'.1.1 = true -> r.1.2 = r'.1.2 -> r = r'.
Proof.
  induction rows as [|r0 rows IH]; cbn [rows_distinct]; [by intros _ ?%elem_of_nil|].
  rewrite andb_true_iff, forallb_forall. intros [Hall Hd].
  assert (forall x, x ∈ rows -> overlap r0.1.1 x.1.1 = true -> r0.1.2 = x.1.2 -> False) as Hno.
  { intros x Hx Ho Hm. apply list_elem_of_In, Hall in Hx. by rewrite Ho, bool_decide_true in Hx. }
  intros [->|Hr]%elem_of_cons [->|Hr']%elem_of_cons Ho Hm; [done| | |by apply IH].
  - by destruct (Hno r').
  - rewrite overlap_sym in Ho. by destruct (Hno r).
Qed.

Lemma tables_distinct : rows_distinct api_routes = true /\ rows_distinct public_routes = true.
Proof. by vm_compute. Qed.

Lemma tables_disjoint r r' : r ∈ api_routes -> r' ∈ public_routes -> overlap r.1.1 r'.1.1 = false.
Proof.
  assert (forallb (fun r => forallb (fun r' : list Seg * string * PublicRoute =>
    negb (overlap r.1.1 r'.1.1)) public_routes) api_routes = true) as Hall by by vm_compute.
  rewrite !list_elem_of_In. intros Hr Hr'. rewrite forallb_forall in Hall. specialize (Hall r Hr).
  rewrite forallb_forall in Hall. specialize (Hall r' Hr'). by apply negb_true_iff in Hall.
Qed.

Lemma answers_eq m m' method : method <> "HEAD" -> answers m method = true -> answers m' method = true -> m = m'.
Proof.
  intros Hh. unfold answers. rewrite (bool_decide_false (method = "HEAD")) by done.
  rewrite !orb_false_r, !bool_decide_eq_true. congruence.
Qed.

(** A route found is a row of the table whose pattern the path fits. *)
Lemma route_Found {R} (table : list (list Seg * string * R)) method path params r :
  route table method path = Found params r ->
  exists row, row ∈ table /\ match_route row.1.1 path = Some params /\
    answers row.1.2 method = true /\ row.2 = r.
Proof.
  unfold route. destruct (omap _ table) as [|row0 rows] eqn:Ho; [done|]. rewrite <- Ho. clear Ho.
  destruct (List.find _ _) as [row|] eqn:Hf; [|done]. intros [= <- <-].
  apply find_some in Hf as [Hin Hm]. apply list_elem_of_In, list_elem_of_omap in Hin as (x & Hx & Hrow).
  destruct (match_route x.1.1 path) as [ps|] eqn:Hp; [|done]. simplify_eq/=. by exists x.
Qed.

(** The routing table is unambiguous: the rows a path and a method fit are
    one row, so the handler does not depend on the order of registration, and no
    path is both below [/api] and public.  In particular whatever reaches a
    handler of the first table passes the authentication layer. *)
Theorem routing_unambiguous path method :
  (forall r r' params params', r ∈ api_routes -> r' ∈ api_routes -> method <> "HEAD" ->
     match_route r.1.1 path = Some params -> match_route r'.1.1 path = Some params' ->
     answers r.1.2 method = true -> answers r'.1.2 method = true -> r = r') /\
  (forall r r' params, r ∈ api_routes -> r' ∈ public_routes ->
     match_route r.1.1 path = Some params -> match_route r'.1.1 path = None) /\
  (forall params h, route api_routes method path = Found params h ->
     route public_routes method path = NoRoute).
Proof.
  split_and!.
  - intros r r' ps ps' Hr Hr' Hh Hp Hp' Ha Ha'.
    apply (rows_distinct_eq api_routes r r' (proj1 tables_distinct)); eauto using match_overlap, answers_eq.
  - intros r r' ps Hr Hr' Hp. destruct (match_route r'.1.1 path) eqn:Hp'; [|done].
    pose proof (match_overlap _ _ _ _ _ Hp Hp') as Ho. by rewrite tables_disjoint in Ho.
  - intros ps h (row & Hrow & Hp & _)%route_Found. unfold route.
    destruct (omap _ public_routes) as [|x rows] eqn:Ho; [done|].
    assert (x ∈ x :: rows) as Hx by by left. rewrite <- Ho in Hx.
    apply list_elem_of_omap in Hx as (r' & Hr' & Hx).
    destruct (match_route r'.1.1 path) eqn:Hp'; [|done].
    pose proof (match_overlap _ _ _ _ _ Hp Hp') as Hov. by rewrite tables_disjoint in Hov.
Qed.

End table.

(** ** Nothing changes before authentication *)

(** A step that leaves the configuration and the cache as they are. *)
Definition quiet {L : IpNetLib} (w w' : World) : Prop := db w' = db w /\ ip_cache w' = ip_cache w.

Section quietness.
Context {L : IpNetLib} {C : CryptoLib} {Ch : ChronoLib} {U : UuidLib} {J : Vault.JsonLib} {A : AxumLib}.
Context (app : AppConfig).

Lemma quiet_step {T} (f : Tick -> World -> T * World) :
  (forall t w, quiet w (f t w).2) -> always quiet (Step f Ret).
Proof. intros Hf. apply always_step; [done|intros; apply always_ret]. Qed.

Lemma quiet_query {T} (f : Db.Database -> T) : always quiet (query f).
Proof. apply quiet_step. intros t w. by destruct (db_faults t 0). Qed.

Lemma quiet_read {T} (f : Tick -> T) : always quiet (read f).
Proof. by apply quiet_step. Qed.

Lemma quiet_set_and_get id : always quiet (Master.set_and_get id).
Proof. apply quiet_step. intros t w. by destruct (master_pin w). Qed.

Lemma quiet_client_ip peer h : always quiet (Middleware.client_ip_of app peer h).
Proof. apply quiet_step. intros t w. by destruct (Config.resolved _ _ _). Qed.

Lemma quiet_bound_ips entries ip : always quiet (Middleware.check_bound_ips entries ip).
Proof. apply quiet_step. intros t w. by destruct (Dns.is_allowed _ _ _ _). Qed.

Lemma quiet_replay id digest : always quiet (Middleware.check_replay id digest).
Proof. apply quiet_step. intros t w. by destruct (Replay.check_and_record _ _ _ _). Qed.

Lemma quiet_limit ip : always quiet (Feed.limit ip).
Proof. apply quiet_step. intros t w. by destruct (RateLimit.check_and_record _ _ _). Qed.

End quietness.

Create HintDb quiet discriminated.
#[export] Hint Resolve always_ret quiet_query quiet_read quiet_set_and_get quiet_client_ip
  quiet_bound_ips quiet_replay quiet_limit : quiet.

Ltac quiet_tac := walk ltac:(first [solve [auto 2 with quiet] | by apply quiet_step]).

Section authenticated.
Context {L : IpNetLib} {C : CryptoLib} {Ch : ChronoLib} {U : UuidLib} {J : Vault.JsonLib} {A : AxumLib}.
Context (app : AppConfig).

Lemma quiet_auth req : always quiet (Middleware.auth_middleware app req).
Proof.
  unfold Middleware.auth_middleware, Middleware.verify_request, Middleware.check_binding,
    Master.authenticate, Master.resolve, Master.get, Master.resolve_inner. quiet_tac.
Qed.

Lemma quiet_feed token peer h : always quiet (Feed.serve_feed app token peer h).
Proof. unfold Feed.serve_feed, Feed.check_access, Feed.respond. quiet_tac. Qed.

Lemma quiet_public req routed : always quiet (serve_public app req routed).
Proof.
  unfold serve_public, ReadOnly.readiness_check, Master.get. quiet_tac. apply quiet_feed.
Qed.

Lemma handle_api req routed :
  route api_routes (Middleware.rq_method req) (path_of (Middleware.rq_target req)).1 = routed ->
  routed <> NoRoute ->
  handle app req = let* auth := Middleware.auth_middleware app req in
    match auth with Err e => Ret (Failure e) | Ok (ip, key) => serve_api app req routed ip key end.
Proof. intros Hr Hn. unfold handle. rewrite Hr. by destruct routed. Qed.

Lemma handle_public req :
  route api_routes (Middleware.rq_method req) (path_of (Middleware.rq_target req)).1 = NoRoute ->
  handle app req = serve_public app req
    (route public_routes (Middleware.rq_method req) (path_of (Middleware.rq_target req)).1).
Proof. intros Hr. unfold handle. by rewrite Hr. Qed.

Lemma exec_handle_api req tr reply routed :
  route api_routes (Middleware.rq_method req) (path_of (Middleware.rq_target req)).1 = routed ->
  routed <> NoRoute -> exec (handle app req) tr reply ->
  (exists e, exec (Middleware.auth_middleware app req) tr (Err e) /\ reply = Failure e) \/
  exists tr1 tr2 ip key, tr = tr1 ++ tr2 /\
    exec (Middleware.auth_middleware app req) tr1 (Ok (ip, key)) /\
    exec (serve_api app req routed ip key) tr2 reply.
Proof.
  intros Hr Hn He. rewrite (handle_api req routed Hr Hn) in He.
  apply exec_bind in He as (tr1 & [[ip key]|e] & tr2 & -> & Ha & Hs).
  - right. by exists tr1, tr2, ip, key.
  - apply exec_ret in Hs as [-> ->]. left. exists e. by rewrite app_nil_r.
Qed.

(** The handler answered: what it was called with, and its result. *)
Definition handled (req : Middleware.Request) (key : Db.ApiKey) (ip : IpAddr)
    (tr : list (Tick * World * World)) (reply : Reply) : Prop :=
  exists params r call res,
    route api_routes (Middleware.rq_method req) (path_of (Middleware.rq_target req)).1 = Found params r /\
    extract r params (path_of (Middleware.rq_target req)).2 (Middleware.rq_headers req)
      (default "" (Middleware.rq_body req)) = Ok call /\
    exec (dispatch app call key ip) tr res /\
    reply = match res with Ok resp => Success resp | Err e => Failure e end.

Lemma serve_api_exec req routed ip key tr reply :
  route api_routes (Middleware.rq_method req) (path_of (Middleware.rq_target req)).1 = routed ->
  exec (serve_api app req routed ip key) tr reply ->
  (tr = [] /\ (reply = MethodNotAllowed \/ exists e, reply = Failure e)) \/ handled req key ip tr reply.
Proof.
  intros Hr He. unfold serve_api in He. destruct routed as [params r| |].
  2,3: left; apply exec_ret in He as [-> ->]; by eauto.
  destruct (extract r params _ _ _) as [call|e] eqn:Hx; [|apply exec_ret in He as [-> ->]; eauto].
  right. apply exec_bind in He as (tr1 & res & tr2 & -> & Hd & [-> ->]%exec_ret).
  rewrite app_nil_r. by exists params, r, call, res.
Qed.

(** C6. No request, whatever its method, path, headers and body, changes the
    database or the cache before the authentication layer has accepted it: an
    execution either leaves both alone throughout, or it splits into an accepting
    run of the middleware that leaves them alone and the run of the one handler
    the route names, on the arguments extracted, for the authenticated key. *)
Theorem effects_need_authentication req tr reply :
  exec (handle app req) tr reply ->
  Forall (fun s => quiet s.1.2 s.2) tr \/
  exists tr1 tr2 ip key, tr = tr1 ++ tr2 /\ Forall (fun s => quiet s.1.2 s.2) tr1 /\
    exec (Middleware.auth_middleware app req) tr1 (Ok (ip, key)) /\ handled req key ip tr2 reply.
Proof.
  intros He.
  destruct (route api_routes (Middleware.rq_method req) (path_of (Middleware.rq_target req)).1)
    as [ps r| |] eqn:Hr.
  3: left; rewrite (handle_public req Hr) in He; by eapply quiet_public.
  all: edestruct (exec_handle_api req tr reply) as [(e & Ha & _)|(tr1 & tr2 & ip & key & -> & Ha & Hs)];
    [exact Hr|done|done|left; by eapply quiet_auth|];
    assert (Forall (fun s => quiet s.1.2 s.2) tr1) as Hq by (by eapply quiet_auth);
    (apply serve_api_exec in Hs as [[-> _]|Hh]; [|right; by exists tr1, tr2, ip, key|done]);
    left; by rewrite app_nil_r.
Qed.

(** ** Bodies *)

(** The members a handler's body may have. *)
Definition body_fields (r : Route) : option (list string) :=
  match r with
  | create_api_key => Some CreateKeyPayload_fields
  | update_api_key => Some UpdateKeyPayload_fields
  | create_endpoint => Some CreateEndpointPayload_fields
  | update_endpoint => Some UpdateEndpointPayload_fields
  | reassign_endpoint_owner => Some ReassignOwnerPayload_fields
  | grant_key_group => Some GrantGroupPayload_fields
  | _ => None
  end.

Lemma slots_undeclared names ms k : k ∈ ms.*1 -> k ∉ names -> slots names (JObject ms) = None.
Proof.
  intros Hk Hn. cbn [slots]. unfold fields_ok. destruct (forallb _ _) eqn:Hall.
  - rewrite forallb_forall in Hall. apply list_elem_of_In, Hall, bool_decide_eq_true in Hk. done.
  - by rewrite andb_false_r.
Qed.

Context {AL : AxumLaws A}.

Lemma strict_json_misfit {T} (decode : Json -> option T) h b v :
  Z.of_nat (String.length b) <= Middleware.MAX_REQUEST_BODY_BYTES -> json_content_type h = true ->
  json_from_slice b = Some v -> decode v = None -> exists text, StrictJson decode h b = Err (InvalidInput text).
Proof.
  intros Hl Hc Hv Hd. destruct (json_misfit decode h b v Hl Hc Hv Hd) as (text & [Hj|Hj]);
    exists text; unfold StrictJson; by rewrite Hj.
Qed.

Ltac undeclared_tac ms k :=
  unfold CreateKeyPayload_deserialize, UpdateKeyPayload_deserialize, CreateEndpointPayload_deserialize,
    UpdateEndpointPayload_deserialize, ReassignOwnerPayload_deserialize, GrantGroupPayload_deserialize;
  by rewrite (slots_undeclared _ ms k).

Lemma extract_undeclared r params q h b ms k names :
  body_fields r = Some names -> Z.of_nat (String.length b) <= Middleware.MAX_REQUEST_BODY_BYTES ->
  json_content_type h = true -> json_from_slice b = Some (JObject ms) -> k ∈ ms.*1 -> k ∉ names ->
  exists e, extract r params q h b = Err e.
Proof.
  intros Hf Hl Hc Hv Hk Hn.
  assert (forall T (decode : Json -> option T), decode (JObject ms) = None ->
    exists text, StrictJson decode h b = Err (InvalidInput text)) as Hs.
  { intros T decode Hd. by eapply strict_json_misfit. }
  destruct r; try done; injection Hf as <-; cbn [extract];
    match goal with |- context [StrictJson ?dec _ _] => destruct (Hs _ dec) as [text Ht];
      [undeclared_tac ms k|] end.
  all: try (rewrite Ht; eauto; fail).
  all: unfold with_id; destruct params as [|s [|]]; try (eauto; fail); destruct (StrictPath s); [rewrite Ht|]; eauto.
Qed.

(** C34. A field a payload does not declare is never ignored: a request whose
    body is an object with such a member (an [is_master] in the creation of a
    key, an [owner_key_id] in the update of an endpoint) is refused, and no step
    of it changes the database or the cache. *)
Theorem undeclared_field_refused req params r names body ms k tr reply :
  route api_routes (Middleware.rq_method req) (path_of (Middleware.rq_target req)).1 = Found params r ->
  body_fields r = Some names ->
  Middleware.rq_body req = Some body -> json_content_type (Middleware.rq_headers req) = true ->
  json_from_slice body = Some (JObject ms) -> k ∈ ms.*1 -> k ∉ names ->
  exec (handle app req) tr reply ->
  (exists e, reply = Failure e) /\ Forall (fun s => quiet s.1.2 s.2) tr.
Proof.
  intros Hr Hf Hb Hc Hv Hk Hn He.
  edestruct (exec_handle_api req tr reply) as [(e & Ha & ->)|(tr1 & tr2 & ip & key & -> & Ha & Hs)];
    [exact Hr|done|done|split; [eauto|by eapply quiet_auth]|].
  assert (Z.of_nat (String.length body) <= Middleware.MAX_REQUEST_BODY_BYTES) as Hl.
  { by eapply Middleware.accepted_body_bounded. }
  destruct (extract_undeclared r params (path_of (Middleware.rq_target req)).2
    (Middleware.rq_headers req) body ms k names) as [e Hx]; try done.
  unfold serve_api in Hs. rewrite Hb in Hs. change (default "" (Some body)) with body in Hs. rewrite Hx in Hs.
  apply exec_ret in Hs as [-> ->]. rewrite app_nil_r. split; [eauto|by eapply quiet_auth].
Qed.

End authenticated.

(** ** Witnesses *)

Module RouterRef.
Import Ref.

(** A framework that knows one JSON text, and decimal identifiers. *)
Definition w_object : list (string * Json) := [("name", JString "x"); ("is_master", JBool true)].

Definition ref_parse (b : Bytes) : option Json :=
  if String.eqb b "{..}" then Some (JObject w_object) else None.

Definition ref_uuid_parse (s : string) : option Uuid := Z.to_N <$> Str.parse_digits s.

Definition ref_json {T} (decode : Json -> option T) (h : Http.HeaderMap) (b : Bytes)
  : result T JsonRejection :=
  match h "Content-Type" with
  | None => Err (MissingJsonContentType "content type")
  | Some _ =>
      match ref_parse b with
      | None => Err (JsonSyntaxError "syntax")
      | Some v => ok_or (decode v) (JsonDataError "data")
      end
  end.

#[global] Instance ref_axum : AxumLib := {|
  axum_json := @ref_json;
  json_content_type h := bool_decide (is_Some (h "Content-Type"));
  json_from_slice := ref_parse;
  axum_query T decode q := ok_or (decode []) "query";
  query_pairs _ := [];
  path_uuid s := ok_or (ref_uuid_parse s) "path";
  path_uuids s t :=
    match ref_uuid_parse s, ref_uuid_parse t with
    | Some a, Some b => Ok (a, b)
    | _, _ => Err "path"
    end;
  path_string := Ok;
  uuid_parse := ref_uuid_parse;
  match_route pattern path :=
    match Str.strip_prefix "/" path with
    | Some rest => fit pattern (Str.split "/" rest)
    | None => None
    end;
|}.

#[global] Instance ref_axum_laws : AxumLaws ref_axum.
Proof.
  split; cbn [axum_json json_content_type json_from_slice axum_query query_pairs match_route ref_axum];
    unfold ref_json.
  - intros T decode h b t. destruct (h _); [|done]. destruct (ref_parse b) as [v|]; [|done].
    intros Hd. exists v. split; [done|]. by destruct (decode v); simplify_eq/=.
  - intros T decode h b v t _ [x ->]%bool_decide_eq_true -> Hd. by rewrite Hd.
  - intros T decode h b v _ [x ->]%bool_decide_eq_true -> Hd. rewrite Hd. by exists "data"; left.
  - intros T decode q t. destruct (decode []); naive_solver.
  - done.
Qed.

End RouterRef.

Section witnesses.
Import Ref RouterRef.

(** The Daughter asks for a master key. *)
Definition w_req : Middleware.Request := {|
  Middleware.rq_peer := Demo.client;
  Middleware.rq_headers := fun name =>
    if String.eqb name Middleware.API_KEY_HEADER then Some "dkey"
    else if String.eqb name Middleware.TIMESTAMP_HEADER then Some "1001"
    else if String.eqb name Middleware.SIGNATURE_HEADER then
      Crypto.compute_signature "dsecret" (Crypto.canonical_v1_payload "POST" "/api/keys" "1001" "{..}")
    else if String.eqb name "Content-Type" then Some "application/json" else None;
  Middleware.rq_method := "POST"; Middleware.rq_target := "/api/keys";
  Middleware.rq_body := Some "{..}";
|}.

Definition w_run : list (Tick * World * World) := trace Demo.tick 0 (handle Demo.service w_req) Demo.start.
Definition w_reply : Reply := outcome Demo.tick (handle Demo.service w_req) Demo.start.

Lemma undeclared_field_refused_witness :
  (exists e, w_reply = Failure e) /\ Forall (fun s => quiet s.1.2 s.2) w_run.
Proof.
  apply (undeclared_field_refused Demo.service w_req [] create_api_key CreateKeyPayload_fields "{..}"
    w_object "is_master" w_run w_reply);
    [reflexivity|reflexivity|reflexivity|reflexivity|reflexivity| | |by apply outcome_exec].
  - by right; left.
  - by apply (bool_decide_unpack _).
Defined.

(** The request got past the authentication layer and was refused for its body. *)
Example w_reply_data : w_reply = Failure (InvalidInput "data").
Proof. by vm_compute. Qed.

Lemma effects_need_authentication_witness :
  Forall (fun s => quiet s.1.2 s.2) w_run \/
  exists tr1 tr2 ip key, w_run = tr1 ++ tr2 /\ Forall (fun s => quiet s.1.2 s.2) tr1 /\
    exec (Middleware.auth_middleware Demo.service w_req) tr1 (Ok (ip, key)) /\
    handled Demo.service w_req key ip tr2 w_reply.
Proof. apply (effects_need_authentication Demo.service w_req w_run w_reply). by apply outcome_exec. Defined.

Lemma routing_unambiguous_witness : route public_routes "POST" "/api/keys" = NoRoute.
Proof. by apply (proj2 (proj2 (routing_unambiguous "/api/keys" "POST")) [] create_api_key). Defined.

End witnesses.

End Router.
