(* ===== verification/System.v ===== *)
(** * The whole service

    Requests as the router answers them, and the workers of [sync.rs] and
    [groups.rs].  A reachable state of the service is one that any interleaving of
    such tasks leads to. *)

From S2P Require Import Prelude.
From S2P Require Import RustStr.
From S2P Require Import Net.
From S2P Require Import Libs.
From S2P Require Import LibsRef.
From S2P Require Import IpFilter.
From S2P Require Import Cache.
From S2P Require Import Crypto.
From S2P Require Import VaultClient.
From S2P Require Import DnsCache.
From S2P Require Import Http.
From S2P Require Import Config.
From S2P Require Import RateLimit.
From S2P Require Import Replay.
From S2P Require Import Db.
From S2P Require Import App.
From S2P Require Import Demo.
From S2P Require Import Auth.
From S2P Require Import ApiKeys.
From S2P Require Import ApiEndpoints.
From S2P Require Import Extract.
From S2P Require Import Feed.
From S2P Require Import Router.
Import App Router.
#[local] Open Scope Z_scope.
#[local] Open Scope prog_scope.

Module System.

Section system.
Context {L : IpNetLib} {C : CryptoLib} {Ch : ChronoLib} {U : UuidLib} {J : Vault.JsonLib} {Ax : Extract.AxumLib}.
Context (app : AppConfig).

(** A task whose result has been sent. *)
Definition finish {A} (p : prog A) : prog unit := let* _ := p in Ret tt.

(** [TrustedProxies::prime] as a task: one forced resolution at a time. *)
Fixpoint prime_steps (names failed : list string) : prog (list string) :=
  match names with
  | [] => Ret failed
  | name :: rest =>
      let* addrs := Step (fun t w =>
        let '(addrs, d) := Dns.force_resolve (dns t 0) (dns_resolver w) name in (addrs, set_dns w d)) Ret in
      prime_steps rest (if Nat.eqb (length addrs) 0 then failed ++ [name] else failed)
  end.

(** The task [prime_with_grace] spawns: a second pass after the grace period when
    the first one failed on some name.  The answer is what the log reports. *)
Definition prime_with_grace : prog (list string * option (list string)) :=
  let names := Config.hostnames (Config.trusted_proxies (config app)) in
  let* failed := prime_steps names [] in
  if Nat.eqb (length failed) 0 then Ret (failed, None) else
  let* still_failing := prime_steps names [] in
  Ret (failed, Some still_failing).

(** What may be started: requests and the workers. *)
Inductive task : prog unit -> Prop :=
| task_http req : task (finish (handle app req))
| task_prime : task (finish prime_with_grace)
| task_sync n : task (Sync.sync_worker app n)
| task_boot_sync n : task (finish (Sync.run_boot_sync app n))
| task_cleanup n : task (Sync.cleanup_worker app n).

(** The states of a service started in [w]. *)
Definition reachable (w w' : World) : Prop := exists ps, rtc (sched task) (w, []) (w', ps).

(** Alone, the task is [Config.prime] on the ticks it meets. *)
Lemma prime_steps_run env names : forall i failed w,
  run env i (prime_steps names failed) w =
  let '(fs, d) := Config.prime_names (fun j => dns (env j) 0) i names failed (dns_resolver w) in
  (fs, set_dns w d, length names + i)%nat.
Proof.
  induction names as [|n names IH]; intros i failed w; cbn [prime_steps Config.prime_names].
  { by destruct w. }
  cbn [bind run]. destruct (Dns.force_resolve (dns (env i) 0) (dns_resolver w) n) as [addrs d].
  rewrite IH. cbn [dns_resolver set_dns]. destruct (Config.prime_names _ _ _ _ _) as [fs d'].
  destruct w. simpl. f_equal. lia.
Qed.

(** ** The guarantee every task keeps to *)

(** The record of the master as the API may leave it: only the network binding and
    the modification time move. *)
Definition same_identity (k k' : Db.ApiKey) : Prop :=
  k' = Db.set_key_updated_at (Db.k_updated_at k') (Db.set_key_bound_ips (Db.k_bound_ips k') k).

Definition master_rel (d d' : Db.Database) : Prop :=
  (forall id k, Db.api_keys d !! id = Some k -> Db.k_is_master k = true ->
     exists k', Db.api_keys d' !! id = Some k' /\ same_identity k k') /\
  (forall id k', Db.api_keys d' !! id = Some k' -> Db.k_is_master k' = true ->
     exists k, Db.api_keys d !! id = Some k /\ Db.k_is_master k = true).

Definition G (w w' : World) : Prop :=
  Db.db_wf (db w) -> Db.db_wf (db w') /\ master_rel (db w) (db w').

Lemma same_identity_refl k : same_identity k k.
Proof. by destruct k. Qed.

Lemma same_identity_trans k1 k2 k3 :
  same_identity k1 k2 -> same_identity k2 k3 -> same_identity k1 k3.
Proof.
  unfold same_identity. destruct k1, k2, k3. unfold Db.set_key_updated_at, Db.set_key_bound_ips. simpl.
  intros H1 H2. injection H1 as -> -> -> -> -> -> -> -> -> ->.
  by injection H2 as -> -> -> -> -> -> -> -> -> ->.
Qed.

Lemma same_identity_master k k' : same_identity k k' -> Db.k_is_master k' = Db.k_is_master k.
Proof. unfold same_identity. intros ->. done. Qed.

Lemma master_rel_refl d : master_rel d d.
Proof. split; [|by eauto]. intros id k Hk _. exists k. split; [done|apply same_identity_refl]. Qed.

Lemma master_rel_trans d1 d2 d3 : master_rel d1 d2 -> master_rel d2 d3 -> master_rel d1 d3.
Proof.
  intros [A1 B1] [A2 B2]. split.
  - intros id k Hk Hm. destruct (A1 id k Hk Hm) as (k2 & Hk2 & S12).
    destruct (A2 id k2 Hk2) as (k3 & Hk3 & S23); [by rewrite (same_identity_master _ _ S12)|].
    eauto using same_identity_trans.
  - intros id k Hk Hm. destruct (B2 id k Hk Hm) as (k2 & Hk2 & Hm2). by apply (B1 id k2).
Qed.

Lemma G_refl w : G w w.
Proof. intros Hw. split; [done|apply master_rel_refl]. Qed.

Lemma G_same_db w w' : db w' = db w -> G w w'.
Proof. intros Heq Hw. rewrite Heq. split; [done|apply master_rel_refl]. Qed.

Lemma G_star w w' : rtc G w w' -> G w w'.
Proof.
  induction 1 as [w|w w1 w' H1 _ IH]; [apply G_refl|]. intros Hw.
  destruct (H1 Hw) as [Hw1 R1]. destruct (IH Hw1) as [Hw' R2]. eauto using master_rel_trans.
Qed.

(** A key that is not the master never becomes it. *)
Definition not_master (d : Db.Database) (id : Uuid) : Prop :=
  forall k, Db.api_keys d !! id = Some k -> Db.k_is_master k = false.

Lemma not_master_stable w w' id :
  Db.db_wf (db w) -> rtc G w w' -> not_master (db w) id -> not_master (db w') id.
Proof.
  intros Hw Hr Hn k Hk. destruct (G_star _ _ Hr Hw) as [_ [_ B]].
  destruct (Db.k_is_master k) eqn:Hm; [|done].
  destruct (B id k Hk Hm) as (k0 & Hk0 & Hm0). specialize (Hn k0 Hk0). congruence.
Qed.

(** *** The statements *)

Lemma master_rel_keys d d' : Db.api_keys d' = Db.api_keys d -> master_rel d d'.
Proof.
  intros Heq. split; rewrite Heq; [|by eauto].
  intros id k Hk _. exists k. split; [done|apply same_identity_refl].
Qed.

Lemma master_rel_insert k d :
  Db.k_is_master k = false -> master_rel d (Db.insert_key k d).2.
Proof.
  intros Hm. unfold Db.insert_key. destruct (_ || _) eqn:Hc; [apply master_rel_refl|].
  apply orb_false_iff in Hc as [Hc _]. apply bool_decide_eq_false in Hc.
  rewrite <- eq_None_not_Some in Hc. simpl. split; simpl.
  - intros id k' Hk' _. exists k'. split; [|apply same_identity_refl].
    rewrite lookup_insert_ne; [done|]. intros <-. congruence.
  - intros id k' [[<- <-]|[_ Hk']]%lookup_insert_Some Hm'; [congruence|eauto].
Qed.

Lemma master_rel_update id set d :
  (forall k, Db.k_is_master (set k) = Db.k_is_master k) ->
  (forall k, Db.api_keys d !! id = Some k -> Db.k_is_master k = true -> same_identity k (set k)) ->
  master_rel d (Db.update_key id set d).2.
Proof.
  intros Hset Hid. unfold Db.update_key. destruct (Db.api_keys d !! id) as [k|] eqn:Hk;
    [|apply master_rel_refl]. destruct (Db.key_conflicts d (set k)); [apply master_rel_refl|].
  simpl. split; simpl.
  - intros id' k' Hk' Hm. destruct (decide (id = id')) as [<-|Hne].
    + exists (set k'). rewrite lookup_insert_eq. simplify_eq. split; [done|by apply Hid].
    + exists k'. rewrite lookup_insert_ne by done. split; [done|apply same_identity_refl].
  - intros id' k' [[<- <-]|[_ Hk']]%lookup_insert_Some Hm; [|eauto].
    rewrite Hset in Hm. eauto.
Qed.

Lemma master_rel_delete id d : not_master d id -> master_rel d (Db.delete_key id d).2.
Proof.
  intros Hn. unfold Db.delete_key. destruct (Db.api_keys d !! id) as [k|] eqn:Hk;
    [|apply master_rel_refl]. simpl. split; simpl.
  - intros id' k' Hk' Hm. exists k'. split; [|apply same_identity_refl].
    rewrite lookup_delete_ne; [done|]. intros <-. specialize (Hn k' Hk'). congruence.
  - intros id' k' [_ Hk']%lookup_delete_Some Hm. eauto.
Qed.

(** *** Rules for programs *)

Lemma keeps_step {A B} (f : Tick -> World -> B * World) (k : B -> prog A) w :
  (forall t w1, rtc G w w1 -> db (f t w1).2 = db w1) ->
  (forall b w1, rtc G w w1 -> keeps G (k b) w1) -> keeps G (Step f k) w.
Proof.
  intros Hf Hk w1 t Hw1. assert (G w1 (f t w1).2) as HG by by apply G_same_db, Hf.
  split; [done|]. apply Hk. etrans; [done|]. by apply rtc_once.
Qed.

Lemma keeps_stmt {A B} (f : Db.Database -> result A Db.DbErr * Db.Database)
    (k : result A AppError -> prog B) w :
  (forall w1, rtc G w w1 -> G w1 (set_db w1 (f (db w1)).2)) ->
  (forall r w1, rtc G w w1 -> keeps G (k r) w1) -> keeps G (bind (stmt f) k) w.
Proof.
  intros Hf Hk. simpl. intros w1 t Hw1.
  destruct (db_faults t 0); simpl.
  { split; [apply G_refl|]. by apply Hk. }
  pose proof (Hf w1 Hw1) as HG. destruct (f (db w1)) as [r d]. simpl in *. split; [done|].
  apply Hk. etrans; [done|]. by apply rtc_once.
Qed.

Lemma keeps_stmt_ok {A B} (f : Db.Database -> result A Db.DbErr * Db.Database)
    (k : A -> prog (result B AppError)) w :
  (forall w1, rtc G w w1 -> G w1 (set_db w1 (f (db w1)).2)) ->
  (forall a w1, rtc G w w1 -> keeps G (k a) w1) -> keeps G (bind_ok (stmt f) k) w.
Proof. intros Hf Hk. apply keeps_stmt; [done|]. intros [a|e] w1 Hw1; [by apply Hk|done]. Qed.

Lemma keeps_query {A B} (f : Db.Database -> A) (k : result A AppError -> prog B) w :
  (forall r w1, rtc G w w1 -> keeps G (k r) w1) -> keeps G (bind (query f) k) w.
Proof. intros Hk. apply keeps_stmt; [|done]. intros w1 _. by apply G_same_db. Qed.

Lemma keeps_query_ok {A B} (f : Db.Database -> A) (k : A -> prog (result B AppError)) w :
  (forall a w1, rtc G w w1 -> keeps G (k a) w1) -> keeps G (bind_ok (query f) k) w.
Proof. intros Hk. apply keeps_query. intros [a|e] w1 Hw1; [by apply Hk|done]. Qed.

Lemma keeps_lift {A B} (r : result A AppError) (k : A -> prog (result B AppError)) w :
  (forall a, r = Ok a -> keeps G (k a) w) -> keeps G (bind_ok (lift r) k) w.
Proof. intros Hk. unfold bind_ok, lift. simpl. destruct r; [by apply Hk|done]. Qed.

Lemma keeps_read_bind {A B} (f : Tick -> A) (k : A -> prog B) w :
  (forall a w1, rtc G w w1 -> keeps G (k a) w1) -> keeps G (bind (read f) k) w.
Proof. intros Hk. apply (keeps_step (fun t w => (f t, w))); [done|]. apply Hk. Qed.

(** The row is read, and what the guard learns of it stays true. *)
Lemma keeps_find_key {B} id (k : Db.ApiKey -> prog (result B AppError)) w :
  (forall row w1, rtc G w w1 -> Db.api_keys (db w1) !! id = Some row -> keeps G (k row) w1) ->
  keeps G (bind_ok (Keys.find_key id) k) w.
Proof.
  intros Hk w1 t Hw1. simpl. destruct (db_faults t 0); simpl.
  { split; [apply G_refl|done]. }
  destruct w1 as [d1 c1 l1 g1 p1 n1 v1]. simpl in *.
  split; [by apply G_same_db|].
  destruct (Db.api_keys d1 !! id) as [row|] eqn:Hrow; simpl; [|done]. by apply Hk.
Qed.

Lemma keeps_finish {A} (p : prog A) w : keeps G p w -> keeps G (finish p) w.
Proof. intros Hp. by apply keeps_bind. Qed.

Lemma keeps_answer {T} (f : T -> ApiResponse) p w : keeps G p w -> keeps G (answer f p) w.
Proof. intros Hp. by apply keeps_bind_ok. Qed.

(** *** Statements that never reach a master row *)

Definition stmt_ok {A} (f : Db.Database -> result A Db.DbErr * Db.Database) : Prop :=
  forall d, Db.db_wf d -> Db.db_wf (f d).2 /\ master_rel d (f d).2.

Lemma stmt_ok_G {A} (f : Db.Database -> result A Db.DbErr * Db.Database) w :
  stmt_ok f -> G w (set_db w (f (db w)).2).
Proof. intros Hf Hw. by apply Hf. Qed.

Lemma stmt_ok_keys {A} (f : Db.Database -> result A Db.DbErr * Db.Database) :
  (forall d, Db.db_wf d -> Db.db_wf (f d).2) -> (forall d, Db.api_keys (f d).2 = Db.api_keys d) ->
  stmt_ok f.
Proof. intros Hw Hk d Hd. split; [by apply Hw|by apply master_rel_keys]. Qed.

Lemma ok_insert_audit a : stmt_ok (Db.insert_audit a).
Proof.
  apply stmt_ok_keys; [intros; by apply Db.insert_audit_wf|].
  intros d. unfold Db.insert_audit. by repeat case_match.
Qed.

Lemma ok_insert_endpoint e : stmt_ok (Db.insert_endpoint e).
Proof.
  apply stmt_ok_keys; [intros; by apply Db.insert_endpoint_wf|].
  intros d. unfold Db.insert_endpoint. by repeat case_match.
Qed.

Lemma ok_update_endpoint id set :
  (forall e, Db.e_id (set e) = Db.e_id e) -> stmt_ok (Db.update_endpoint id set).
Proof.
  intros Hset. apply stmt_ok_keys; [intros; by apply Db.update_endpoint_wf|].
  intros d. unfold Db.update_endpoint. by repeat case_match.
Qed.

Lemma ok_delete_endpoint id : stmt_ok (Db.delete_endpoint id).
Proof.
  apply stmt_ok_keys; [intros; by apply Db.delete_endpoint_wf|].
  intros d. unfold Db.delete_endpoint. by repeat case_match.
Qed.

Lemma ok_insert_grant g : stmt_ok (Db.insert_grant g).
Proof.
  apply stmt_ok_keys; [intros; by apply Db.insert_grant_wf|].
  intros d. unfold Db.insert_grant. by repeat case_match.
Qed.

Lemma ok_delete_grants ids : stmt_ok (Db.delete_grants ids).
Proof. apply stmt_ok_keys; [intros; by apply Db.delete_grants_wf|done]. Qed.

Lemma ok_insert_key k : Db.k_is_master k = false -> stmt_ok (Db.insert_key k).
Proof. intros Hk d Hd. split; [by apply Db.insert_key_wf|by apply master_rel_insert]. Qed.

Lemma keeps_audit {B} caller ip action res det (k : unit -> prog (result B AppError)) w :
  (forall a w1, rtc G w w1 -> keeps G (k a) w1) ->
  keeps G (bind_ok (Support.create_audit_log caller ip action res det) k) w.
Proof.
  intros Hk. apply keeps_bind_ok; [|done]. unfold Support.create_audit_log.
  apply keeps_read_bind. intros row w1 _. apply keeps_stmt_ok; [|done].
  intros. apply stmt_ok_G, ok_insert_audit.
Qed.

Lemma keeps_seal {B} secret (k : string -> prog (result B AppError)) w :
  (forall a w1, rtc G w w1 -> keeps G (k a) w1) ->
  keeps G (bind_ok (Support.seal_secret app secret) k) w.
Proof.
  intros Hk. apply keeps_bind_ok; [|done]. unfold Support.seal_secret. by apply keeps_read_bind.
Qed.

End system.

Create HintDb stmt discriminated.
#[export] Hint Resolve ok_insert_audit ok_insert_endpoint ok_update_endpoint ok_delete_endpoint
  ok_insert_grant ok_delete_grants ok_insert_key stmt_ok_G : stmt.

(** Walk a program: apply the rule of its next step. *)
Ltac keeps_one :=
  lazymatch goal with
  | |- keeps _ (Ret _) _ => exact I
  | |- keeps _ (lift _) _ => exact I
  | |- keeps _ (bind_ok (lift _) _) _ => apply keeps_lift; intros ? ?
  | |- keeps _ (bind_ok (Support.create_audit_log _ _ _ _ _) _) _ => apply keeps_audit; intros ? ? ?
  | |- keeps _ (bind_ok (Support.seal_secret _ _) _) _ => apply keeps_seal; intros ? ? ?
  | |- keeps _ (bind_ok (query _) _) _ => apply keeps_query_ok; intros ? ? ?
  | |- keeps _ (bind_ok (stmt _) _) _ =>
      apply keeps_stmt_ok; [intros ? ?; apply stmt_ok_G; auto with stmt|intros ? ? ?]
  | |- keeps _ (bind (read _) _) _ => apply keeps_read_bind; intros ? ? ?
  | |- keeps _ (bind (query _) _) _ => apply keeps_query; intros ? ? ?
  | |- keeps _ (bind (stmt _) _) _ =>
      apply keeps_stmt; [intros ? ?; apply stmt_ok_G; auto with stmt|intros ? ? ?]
  | |- keeps _ (if ?b then _ else _) _ => destruct b eqn:?
  | |- keeps _ (match ?b with _ => _ end) _ => destruct b eqn:?
  | |- keeps _ (let _ := _ in _) _ => cbv zeta
  | |- keeps _ ((fun _ => _) _) _ => cbv beta
  end.
Ltac keeps_tac := repeat keeps_one.

(** ** The tasks keep to it *)

Section tasks.
Context {L : IpNetLib} {C : CryptoLib} {Ch : ChronoLib} {U : UuidLib} {J : Vault.JsonLib} {Ax : Extract.AxumLib}.
Context (app : AppConfig).

Lemma keeps_create_key caller ip p w : keeps G (Keys.create_api_key app caller ip p) w.
Proof.
  unfold Keys.create_api_key, Support.generate_random_key, Support.generate_signing_secret,
    Support.now_utc, Support.new_v4. keeps_tac.
Qed.

Lemma set_key_spec changes p :
  Keys.key_changes p = Ok changes ->
  (forall k, Db.k_id (changes.1 k) = Db.k_id k /\ Db.k_is_master (changes.1 k) = Db.k_is_master k) /\
  (Keys.uk_name p = None -> Keys.uk_can_manage_keys p = None ->
   forall now k, same_identity k (Db.set_key_updated_at now (changes.1 k))).
Proof.
  unfold Keys.key_changes. destruct p as [[n|] [b|] [m|]]; simpl; intros Hc;
    repeat (case_match; simplify_eq/=); simplify_eq/=; (split; [by intros []|]);
    intros Hn Hm; try discriminate Hn; try discriminate Hm; by intros now [].
Qed.

Lemma guard_update_spec row p :
  Guards.guard_master_update row (bool_decide (is_Some (Keys.uk_name p)))
    (bool_decide (is_Some (Keys.uk_can_manage_keys p))) = Ok tt ->
  Db.k_is_master row = false \/ (Keys.uk_name p = None /\ Keys.uk_can_manage_keys p = None).
Proof.
  unfold Guards.guard_master_update. destruct (Db.k_is_master row); [|by left].
  destruct (Keys.uk_name p), (Keys.uk_can_manage_keys p); simpl; try done. by right.
Qed.

Lemma keeps_update_key caller ip id p w :
  Db.db_wf (db w) -> keeps G (Keys.update_api_key caller ip id p) w.
Proof.
  intros Hw. unfold Keys.update_api_key, Support.now_utc. apply keeps_lift. intros _ _.
  apply keeps_find_key. intros row w1 Hw1 Hrow.
  assert (Db.db_wf (db w1)) as Hwf1 by by apply (G_star _ _ Hw1).
  apply keeps_lift. intros [] Hg. apply guard_update_spec in Hg.
  apply keeps_lift. intros ch Hch. apply set_key_spec in Hch as [Hset Hsame].
  apply keeps_read_bind. intros now w2 Hw2. apply keeps_stmt_ok; [|intros; keeps_tac].
  intros w3 Hw3. assert (Db.k_id row = id) as -> by exact (Db.wf_keys _ Hwf1 _ _ Hrow).
  intros Hwf3. split; [apply Db.update_key_wf; [|done]; intros k; apply Hset|].
  apply master_rel_update; [intros k; apply Hset|].
  intros k Hk Hm. destruct Hg as [Hn|[H1 H2]]; [|by apply Hsame].
  assert (not_master (db w1) id) as Hnm by (intros k' Hk'; congruence).
  assert (rtc G w1 w3) as H13 by by etrans.
  pose proof (not_master_stable _ _ _ Hwf1 H13 Hnm k Hk). congruence.
Qed.

Lemma guard_delete_spec row op :
  Guards.guard_master_delete_or_rotate row op = Ok tt -> Db.k_is_master row = false.
Proof. unfold Guards.guard_master_delete_or_rotate. by destruct (Db.k_is_master row). Qed.

(** An update that keeps id and flag, of a row that was read and is not the master. *)
Lemma G_update_other w1 w3 id row set :
  Db.db_wf (db w1) -> rtc G w1 w3 -> Db.api_keys (db w1) !! id = Some row ->
  Db.k_is_master row = false ->
  (forall k, Db.k_id (set k) = Db.k_id k) -> (forall k, Db.k_is_master (set k) = Db.k_is_master k) ->
  G w3 (set_db w3 (Db.update_key (Db.k_id row) set (db w3)).2).
Proof.
  intros Hwf1 H13 Hrow Hn Hid Hm Hwf3.
  assert (Db.k_id row = id) as -> by exact (Db.wf_keys _ Hwf1 _ _ Hrow).
  split; [by apply Db.update_key_wf|]. apply master_rel_update; [done|].
  intros k Hk Hmk. assert (not_master (db w1) id) as Hnm by (intros k' Hk'; congruence).
  pose proof (not_master_stable _ _ _ Hwf1 H13 Hnm k Hk). congruence.
Qed.

Lemma keeps_rotate_key caller ip id w :
  Db.db_wf (db w) -> keeps G (Keys.rotate_api_key app caller ip id) w.
Proof.
  intros Hw. unfold Keys.rotate_api_key, Support.generate_random_key,
    Support.generate_signing_secret, Support.now_utc. apply keeps_lift. intros _ _.
  apply keeps_find_key. intros row w1 Hw1 Hrow.
  assert (Db.db_wf (db w1)) as Hwf1 by by apply (G_star _ _ Hw1).
  apply keeps_lift. intros [] Hg%guard_delete_spec.
  apply keeps_read_bind. intros key w2 Hw2. apply keeps_read_bind. intros sec w3 Hw3.
  apply keeps_seal. intros sealed w4 Hw4. apply keeps_read_bind. intros now w5 Hw5.
  apply keeps_stmt_ok; [|intros; keeps_tac]. intros w6 Hw6.
  apply (G_update_other w1 w6 id); [done| |done..]. by repeat (etrans; [eassumption|]).
Qed.

Lemma keeps_rotate_secret caller ip id w :
  Db.db_wf (db w) -> keeps G (Keys.rotate_signing_secret app caller ip id) w.
Proof.
  intros Hw. unfold Keys.rotate_signing_secret, Support.generate_signing_secret, Support.now_utc.
  apply keeps_lift. intros _ _.
  apply keeps_find_key. intros row w1 Hw1 Hrow.
  assert (Db.db_wf (db w1)) as Hwf1 by by apply (G_star _ _ Hw1).
  apply keeps_lift. intros [] Hg%guard_delete_spec.
  apply keeps_read_bind. intros sec w3 Hw3.
  apply keeps_seal. intros sealed w4 Hw4. apply keeps_read_bind. intros now w5 Hw5.
  apply keeps_stmt_ok; [|intros; keeps_tac]. intros w6 Hw6.
  apply (G_update_other w1 w6 id); [done| |done..]. by repeat (etrans; [eassumption|]).
Qed.

(** *** The deletion of a key *)

Lemma tstmt_Ok {A} t i (f : Db.Database -> result A Db.DbErr * Db.Database) d a d' :
  tstmt t i f d = (Ok a, d') -> f d = (Ok a, d').
Proof.
  unfold tstmt. destruct (db_faults t i); [done|]. destruct (f d) as [[b|e] d1]; simpl; naive_solver.
Qed.

(** What a committed deletion did: read the owned endpoints, move them to an
    existing key or find none, delete the row, write the entry. *)
Lemma delete_key_txn_Ok caller ip id q res now t d d' :
  Keys.delete_key_txn caller ip id q res now t d = (Ok tt, d') ->
  let owned := Db.find_all (fun e => bool_decide (Db.e_owner_key_id e = Some id)) (Db.endpoints d) in
  exists d1 d2 details,
    ((exists to target n, Keys.reassign_to q = Some to /\ Db.api_keys d !! to = Some target /\
        Db.reassign_endpoints id (Db.k_id target) now d = (Ok n, d1)) \/
     (Keys.reassign_to q = None /\ owned = [] /\ d1 = d)) /\
    Db.delete_key id d1 = (Ok 1%nat, d2) /\
    Db.insert_audit (Support.audit_row caller ip "KEY_DELETE" (Some res) details t) d2
      = (Ok (Support.audit_row caller ip "KEY_DELETE" (Some res) details t), d').
Proof.
  unfold Keys.delete_key_txn.
  destruct (tstmt t 2 _ d) as [[owned|e] d0] eqn:H2; [|done]. apply tstmt_Ok in H2 as [= <- <-].
  set (owned := Db.find_all _ _).
  destruct (match Keys.reassign_to q with Some _ => _ | None => _ end) as [target|e] eqn:Ht; [|done].
  destruct (match target with Some _ => _ | None => _ end) as [[n|e] d1] eqn:H4; [|done].
  destruct (tstmt t 5 _ d1) as [[rows|e] d2] eqn:H5; [|done].
  destruct (Nat.eqb_spec rows 0) as [|Hrows]; [done|].
  destruct (tstmt t 6 _ d2) as [[row|e] d3] eqn:H6; [|done]. intros [= <-].
  apply tstmt_Ok in H5. apply tstmt_Ok in H6. exists d1, d2. eexists. split_and!.
  - destruct (Keys.reassign_to q) as [to|].
    + left. destruct (tstmt t 3 _ d) as [[[tg|]|e] d3'] eqn:H3; simplify_eq.
      apply tstmt_Ok in H3 as [= Htg <-]. apply tstmt_Ok in H4. eauto 10.
    + right. destruct (Nat.eqb_spec (length owned) 0); simplify_eq/=.
      split_and!; [done| |done]. by apply nil_length_inv.
  - unfold Db.delete_key in *. by destruct (Db.api_keys d1 !! id); simplify_eq.
  - rewrite H6. f_equal. f_equal. unfold Db.insert_audit in H6. by repeat case_match; simplify_eq.
Qed.

Lemma reassign_keys from to now d : Db.api_keys (Db.reassign_endpoints from to now d).2 = Db.api_keys d.
Proof. unfold Db.reassign_endpoints. by case_match. Qed.

Lemma delete_key_txn_G caller ip id q res now t d d' :
  Keys.delete_key_txn caller ip id q res now t d = (Ok tt, d') ->
  Db.db_wf d -> not_master d id -> Db.db_wf d' /\ master_rel d d'.
Proof.
  intros Hd Hwf Hn. destruct (delete_key_txn_Ok _ _ _ _ _ _ _ _ _ Hd) as (d1 & d2 & det & H1 & H2 & H3).
  assert (Db.db_wf d1 /\ Db.api_keys d1 = Db.api_keys d) as [Hwf1 Hk1].
  { destruct H1 as [(to & tg & n & _ & _ & Hr)|(_ & _ & ->)]; [|done].
    pose proof (Db.reassign_endpoints_wf id (Db.k_id tg) now d Hwf) as Hw.
    pose proof (reassign_keys id (Db.k_id tg) now d) as Hk. by rewrite Hr in Hw, Hk. }
  assert (not_master d1 id) as Hn1 by (unfold not_master; by rewrite Hk1).
  pose proof (Db.delete_key_wf id d1 Hwf1) as Hw2. pose proof (master_rel_delete id d1 Hn1) as R2.
  rewrite H2 in Hw2, R2.
  destruct (ok_insert_audit (Support.audit_row caller ip "KEY_DELETE" (Some res) det t) d2 Hw2)
    as [Hw3 R3]. rewrite H3 in Hw3, R3. split; [done|].
  eapply master_rel_trans; [by apply master_rel_keys|]. by eapply master_rel_trans.
Qed.

Lemma keeps_delete_key caller ip id q w :
  Db.db_wf (db w) -> keeps G (Keys.delete_api_key caller ip id q) w.
Proof.
  intros Hw. unfold Keys.delete_api_key, Support.now_utc. apply keeps_lift. intros _ _.
  apply keeps_find_key. intros row w1 Hw1 Hrow.
  assert (Db.db_wf (db w1)) as Hwf1 by by apply (G_star _ _ Hw1).
  apply keeps_lift. intros [] Hg%guard_delete_spec. case_bool_decide; [done|].
  apply keeps_read_bind. intros now w2 Hw2. intros w3 t Hw3. simpl.
  destruct (db_faults t 0); [split; [apply G_refl|done]|].
  destruct (Keys.delete_key_txn _ _ _ _ _ _ _ _) as [[[]|e] d'] eqn:Hd; [|split; [apply G_refl|done]].
  destruct (db_faults t 1); [split; [apply G_refl|done]|]. split; [|done]. intros Hwf3.
  eapply delete_key_txn_G; [exact Hd|done|].
  apply (not_master_stable w1); [done|by etrans|]. intros k Hk. congruence.
Qed.

(** *** The other routes *)

Lemma keeps_find_endpoint {B} id (k : Db.Endpoint -> prog (result B AppError)) w :
  (forall e w1, rtc G w w1 -> keeps G (k e) w1) -> keeps G (bind_ok (Endpoints.find_endpoint id) k) w.
Proof. intros Hk. apply keeps_bind_ok; [|done]. unfold Endpoints.find_endpoint. keeps_tac. Qed.

Lemma keeps_group_access {B} caller groups (k : unit -> prog (result B AppError)) w :
  (forall a w1, rtc G w w1 -> keeps G (k a) w1) ->
  keeps G (bind_ok (Endpoints.validate_group_access caller groups) k) w.
Proof.
  intros Hk. apply keeps_bind_ok; [|done].
  unfold Endpoints.validate_group_access, Groups.granted_group_names. keeps_tac.
Qed.

Lemma keeps_create_endpoint caller ip p w : keeps G (Endpoints.create_endpoint caller ip p) w.
Proof.
  unfold Endpoints.create_endpoint, Support.now_utc, Support.new_v4, Endpoints.generate_token_secret.
  destruct (Str.is_empty _); [done|]. apply keeps_lift. intros _ _.
  apply keeps_group_access. intros _ w1 _. keeps_tac.
Qed.

Lemma change_ids ch p : Endpoints.text_changes p = Ok ch -> forall e, Db.e_id (ch.1 e) = Db.e_id e.
Proof.
  unfold Endpoints.text_changes. intros Hc e. repeat (case_match; simplify_eq/=); done.
Qed.

Lemma policy_ids ch p : Endpoints.policy_changes p = Ok ch -> forall e, Db.e_id (ch.1 e) = Db.e_id e.
Proof.
  unfold Endpoints.policy_changes. intros Hc e. repeat (case_match; simplify_eq/=); done.
Qed.

Definition keeps_id (r : result Endpoints.Change AppError) : Prop :=
  forall ch, r = Ok ch -> forall e, Db.e_id (ch.1 e) = Db.e_id e.

Lemma group_ids caller p : returns keeps_id (Endpoints.group_changes caller p).
Proof.
  unfold Endpoints.group_changes, Endpoints.validate_group_access.
  assert (forall e : AppError, keeps_id (Err e)) as He by (intros er ch; discriminate).
  assert (forall s n, keeps_id (Ok (Db.set_ep_vault_groups s, n))) as Hs
    by (intros s n ch [= <-] e; done).
  destruct (Endpoints.ue_vault_groups p) as [g|]; [|by intros ch [= <-] e].
  unfold bind_ok. simpl. destruct (Endpoints.validate_groups g) as [[]|er]; [|apply He].
  destruct (Db.k_is_master caller); [apply Hs|]. simpl. intros [l|er]; [|apply He].
  destruct (Nat.eqb _ _); [apply Hs|apply He].
Qed.

Lemma keeps_group_changes caller p w : keeps G (Endpoints.group_changes caller p) w.
Proof.
  unfold Endpoints.group_changes. destruct (Endpoints.ue_vault_groups p); [|done].
  apply keeps_lift. intros _ _. apply keeps_group_access. done.
Qed.

Lemma keeps_update_endpoint caller ip id p w : keeps G (Endpoints.update_endpoint caller ip id p) w.
Proof.
  unfold Endpoints.update_endpoint, Support.now_utc. apply keeps_find_endpoint. intros e w1 _.
  destruct (negb _); [done|]. apply keeps_lift. intros text Htext.
  apply (keeps_bind_returns _ keeps_id); [apply keeps_group_changes|apply group_ids|].
  intros [ch|er] w2 Hch _; [|done]. specialize (Hch ch eq_refl).
  apply keeps_lift. intros policy Hpol. apply keeps_read_bind. intros now w3 _.
  apply keeps_stmt_ok; [|intros; keeps_tac]. intros w4 _. apply stmt_ok_G, ok_update_endpoint.
  intros e'. simpl. by rewrite (policy_ids _ _ Hpol), Hch, (change_ids _ _ Htext).
Qed.

Lemma keeps_delete_endpoint caller ip id w : keeps G (Endpoints.delete_endpoint caller ip id) w.
Proof.
  unfold Endpoints.delete_endpoint. apply keeps_find_endpoint. intros e w1 _. keeps_tac.
  unfold Endpoints.evict_cache. apply keeps_bind; [by apply keeps_step|]. intros _ w2 _. keeps_tac.
Qed.

Lemma keeps_reassign caller ip id p w : keeps G (Endpoints.reassign_endpoint_owner caller ip id p) w.
Proof.
  unfold Endpoints.reassign_endpoint_owner, Support.now_utc. destruct (negb _); [done|].
  apply keeps_find_endpoint. intros e w1 _. apply keeps_bind_ok; [destruct (Endpoints.ro_owner_key_id p); keeps_tac|].
  intros _ w2 _. keeps_tac.
Qed.

Lemma keeps_live_groups {B} client (k : list Vault.VaultGroup -> prog (result B AppError)) w :
  (forall a w1, rtc G w w1 -> keeps G (k a) w1) -> keeps G (bind_ok (Groups.live_groups client) k) w.
Proof.
  intros Hk. apply keeps_bind_ok; [|done]. unfold Groups.live_groups, Groups.vault_list_groups.
  apply keeps_step; [|done]. intros t w1 _. by destruct (Vault.list_groups _ _ _).
Qed.

Lemma keeps_find_key' {B} id (k : Db.ApiKey -> prog (result B AppError)) w :
  (forall e w1, rtc G w w1 -> keeps G (k e) w1) -> keeps G (bind_ok (Keys.find_key id) k) w.
Proof. intros Hk. apply keeps_find_key. eauto. Qed.

Lemma keeps_groups caller ip w :
  keeps G (Groups.list_vault_groups app caller) w /\
  (forall id, keeps G (Groups.list_key_groups caller id) w) /\
  (forall id g, keeps G (Groups.grant_key_group app caller ip id g) w) /\
  (forall path, keeps G (Groups.revoke_key_group caller ip path) w).
Proof.
  split_and!; intros; unfold Groups.list_vault_groups, Groups.list_key_groups,
    Groups.grant_key_group, Groups.revoke_key_group, Support.now_utc, Support.new_v4.
  - keeps_tac. apply keeps_live_groups. done.
  - keeps_tac.
  - keeps_tac. apply keeps_find_key'. intros row w1 _. keeps_tac. apply keeps_live_groups.
    intros gs w2 _. keeps_tac.
  - keeps_tac. apply keeps_find_key'. intros row w1 _. keeps_tac.
Qed.

(** *** Authentication, feed and workers *)

Lemma keeps_authenticate key w : keeps G (Master.authenticate key) w.
Proof.
  unfold Master.authenticate. destruct (negb _); [done|]. apply keeps_bind; [|done].
  unfold Master.resolve, Master.get. apply keeps_bind; [by apply keeps_step|].
  intros [p|] w1 _; [done|]. apply keeps_bind; [by apply keeps_query|].
  intros [id|e] w2 _; [|done]. apply keeps_step; [|done]. intros t w3 _. by destruct (master_pin w3).
Qed.

Lemma keeps_client_ip peer hdrs w : keeps G (Middleware.client_ip_of app peer hdrs) w.
Proof. apply keeps_step; [|done]. intros t w1 _. by destruct (Config.resolved _ _ _). Qed.

Lemma keeps_bound_ips entries ip w : keeps G (Middleware.check_bound_ips entries ip) w.
Proof. apply keeps_step; [|done]. intros t w1 _. by destruct (Dns.is_allowed _ _ _ _). Qed.

Lemma keeps_verify req w : keeps G (Middleware.verify_request app req) w.
Proof.
  unfold Middleware.verify_request. apply keeps_bind; [apply keeps_client_ip|]. intros ip w1 _.
  keeps_tac. apply keeps_bind; [apply keeps_authenticate|]. intros key ? _. keeps_tac.
  apply keeps_bind; [apply keeps_step; [|done]; intros t ? _; by destruct (Replay.check_and_record _ _ _ _)|].
  intros fresh ? _. keeps_tac.
Qed.

Lemma keeps_auth req w : keeps G (Middleware.auth_middleware app req) w.
Proof.
  apply keeps_bind_ok; [apply keeps_verify|]. intros [ip key] w1 _. unfold Middleware.check_binding.
  keeps_tac. apply keeps_bind; [|intros; keeps_tac].
  destruct (Nat.eqb _ _); [done|apply keeps_bound_ips].
Qed.

Lemma keeps_feed token peer hdrs w : keeps G (Feed.serve_feed app token peer hdrs) w.
Proof.
  unfold Feed.serve_feed. apply keeps_bind; [apply keeps_client_ip|]. intros ip w1 _.
  keeps_tac. apply keeps_bind.
  { unfold Feed.check_access. keeps_tac. apply keeps_bind; [apply keeps_bound_ips|]. intros; keeps_tac. }
  intros acc ? _. keeps_tac. apply keeps_bind; [by apply keeps_step|]. intros bl ? _. keeps_tac.
  apply keeps_bind; [|done]. unfold Feed.respond. keeps_tac. apply keeps_bind; [|intros; keeps_tac].
  apply keeps_step; [|done]. intros t ? _. by destruct (RateLimit.check_and_record _ _ _).
Qed.

Lemma keeps_sync_endpoint client ep w : keeps G (Sync.sync_endpoint client ep) w.
Proof.
  assert (forall w, keeps G (Sync.mark_synced ep) w) as Hmark.
  { intros. unfold Sync.mark_synced, Support.now_utc. keeps_tac. }
  assert (forall g s w, keeps G (Sync.fetch client g s) w) as Hfetch.
  { intros. apply keeps_step; [|done]. intros t w1 _. by destruct (Vault.fetch_ips _ _ _ _ _). }
  unfold Sync.sync_endpoint, Support.now_utc. apply keeps_bind; [by apply keeps_step|].
  intros due w1 _. destruct due.
  - apply keeps_bind; [done|]. intros [[rs|e]|] w2 _; [|done..].
    apply keeps_bind; [by apply keeps_step|]. intros; by apply keeps_bind.
  - keeps_tac. apply keeps_bind; [done|]. intros [[rs|e]|] ? _; [|done..].
    apply keeps_bind; [by apply keeps_step|]. intros; by apply keeps_bind.
Qed.

Lemma keeps_sync_all w : keeps G (Sync.sync_all_endpoints app) w.
Proof.
  unfold Sync.sync_all_endpoints. keeps_tac. clear. revert w1.
  induction a as [|ep eps IH]; intros w1; cbn [Sync.sync_each]; [done|].
  apply keeps_bind; [apply keeps_sync_endpoint|by intros [[]|]].
Qed.

Lemma keeps_cut {A} (GG : World -> World -> Prop) n (p : prog A) w :
  keeps GG p w -> keeps GG (Sync.cut n p) w.
Proof.
  revert p w. induction n as [|n IH]; intros [a|B f k] w Hp; simpl; try done.
  intros w1 t Hw1. destruct (Hp w1 t Hw1). split; [done|]. by apply IH.
Qed.

Lemma keeps_cleanup w : keeps G (Sync.cleanup_stale_group_permissions app) w.
Proof.
  unfold Sync.cleanup_stale_group_permissions, Groups.vault_list_groups. keeps_tac.
  apply keeps_bind; [|intros; keeps_tac].
  apply keeps_step; [|done]. intros t w1 _. by destruct (Vault.list_groups _ _ _).
Qed.

Lemma keeps_dispatch call caller ip w :
  Db.db_wf (db w) -> keeps G (dispatch app call caller ip) w.
Proof.
  intros Hw. destruct (keeps_groups caller ip w) as (K1 & K2 & K3 & K4).
  destruct call; cbn [dispatch]; try exact I; apply keeps_answer;
    auto using keeps_create_key, keeps_update_key, keeps_delete_key, keeps_rotate_key,
      keeps_rotate_secret, keeps_create_endpoint, keeps_update_endpoint, keeps_delete_endpoint,
      keeps_reassign.
  - unfold Keys.list_api_keys. keeps_tac.
  - unfold Endpoints.list_endpoints. apply keeps_bind_ok; [|done].
    destruct (Db.k_is_master caller); intros w1 t Hw1; simpl;
      destruct (db_faults t 0); simpl; (split; [by apply G_same_db|done]).
  - unfold ReadOnly.list_audit_logs. destruct (negb _); [done|].
    intros w1 t Hw1; simpl. destruct (db_faults t 0); simpl; (split; [by apply G_same_db|done]).
Qed.

Lemma keeps_public req routed w : keeps G (serve_public app req routed) w.
Proof.
  unfold serve_public. destruct routed as [params [| |]| |]; try done.
  - unfold ReadOnly.readiness_check, Master.get. apply keeps_bind; [|done].
    apply keeps_bind; [by apply keeps_query|]. intros r w1 _. apply keeps_bind; [by apply keeps_step|done].
  - destruct params as [|s [|]]; try done. destruct (Extract.path_string s); [|done].
    apply keeps_bind; [apply keeps_feed|done].
Qed.

Lemma keeps_api req routed w :
  Db.db_wf (db w) ->
  keeps G (let* auth := Middleware.auth_middleware app req in
    match auth with Err e => Ret (Failure e) | Ok (ip, key) => serve_api app req routed ip key end) w.
Proof.
  intros Hw. apply keeps_bind; [apply keeps_auth|]. intros [[ip key]|e] w1 Hw1; [|done].
  unfold serve_api. destruct routed as [params r| |]; [|done..].
  destruct (extract r params _ _ _); [|done]. apply keeps_bind; [|done].
  apply keeps_dispatch. by apply (G_star _ _ Hw1).
Qed.

Lemma keeps_handle req w : Db.db_wf (db w) -> keeps G (handle app req) w.
Proof.
  intros Hw.
  destruct (route api_routes (Middleware.rq_method req) (path_of (Middleware.rq_target req)).1)
    as [params r| |] eqn:Hr.
  3: rewrite (handle_public app req Hr); apply keeps_public.
  all: rewrite (handle_api app req _ Hr) by done; by apply keeps_api.
Qed.

Lemma keeps_prime names failed w : keeps G (prime_steps names failed) w.
Proof.
  revert failed w. induction names as [|n names IH]; intros failed w; [done|]. cbn [prime_steps].
  apply keeps_bind; [|intros; apply IH]. apply keeps_step; [|done]. intros t w1 _.
  by destruct (Dns.force_resolve _ _ _).
Qed.

Lemma keeps_task p w : task app p -> Db.db_wf (db w) -> keeps G p w.
Proof.
  intros Hp Hw. destruct Hp as [req| |n|n|n].
  - by apply keeps_finish, keeps_handle.
  - apply keeps_finish. unfold prime_with_grace. apply keeps_bind; [apply keeps_prime|].
    intros failed w1 _. destruct (Nat.eqb _ _); [done|]. apply keeps_bind; [apply keeps_prime|done].
  - clear Hw. revert w. induction n as [|n IH]; intros w; cbn [Sync.sync_worker]; [done|].
    apply keeps_bind; [apply keeps_sync_all|by intros [[]|]].
  - apply keeps_finish. unfold Sync.run_boot_sync. destruct (vault_client app); [|done].
    apply keeps_bind; [apply keeps_cut, keeps_sync_all|done].
  - clear Hw. revert w. induction n as [|n IH]; intros w; cbn [Sync.cleanup_worker]; [done|].
    apply keeps_bind; [apply keeps_cleanup|done].
Qed.

Lemma reachable_G w w' : Db.db_wf (db w) -> reachable app w w' -> rtc G w w'.
Proof.
  intros Hw [ps Hr].
  edestruct (sched_keeps G (task app) w) as [HG _]; [|exact Hr|done|constructor|done].
  intros p w1 Hp Hw1. apply keeps_task; [done|]. by apply (G_star _ _ Hw1).
Qed.

(** C2. Whatever requests, worker passes and feed reads run concurrently, in
    whatever order their statements interleave and whichever of them fail, the
    database keeps every integrity constraint: at most one master, unique key
    hashes and feed tokens, no dangling owner, audit reference or grant. *)
Theorem integrity_invariant w w' :
  Db.db_wf (db w) -> reachable app w w' -> Db.db_wf (db w').
Proof. intros Hw Hr. by apply (G_star _ _ (reachable_G _ _ Hw Hr)). Qed.

Lemma reachable_master w w' id k :
  Db.db_wf (db w) -> reachable app w w' ->
  Db.api_keys (db w) !! id = Some k -> Db.k_is_master k = true ->
  (exists k', Db.api_keys (db w') !! id = Some k' /\ same_identity k k') /\
  (forall id' k', Db.api_keys (db w') !! id' = Some k' -> Db.k_is_master k' = true -> id' = id).
Proof.
  intros Hw Hr Hk Hm. destruct (G_star _ _ (reachable_G _ _ Hw Hr) Hw) as [Hw' [A B]].
  split; [by apply A|]. intros id' k' Hk' Hm'. destruct (B id' k' Hk' Hm') as (k0 & Hk0 & Hm0).
  by eapply (Db.wf_master _ Hw).
Qed.

Lemma reachable_wf w w' : Db.db_wf (db w) -> reachable app w w' -> Db.db_wf (db w').
Proof. intros Hw Hr. by apply (G_star _ _ (reachable_G _ _ Hw Hr)). Qed.

(** C1. The master cannot be taken over through the service: in every reachable
    state the master of the starting state is still there with the same id, name,
    credentials and rights (its network binding aside), and no other key is a
    master. *)
Theorem master_immutable w w' id k :
  Db.db_wf (db w) -> reachable app w w' ->
  Db.api_keys (db w) !! id = Some k -> Db.k_is_master k = true ->
  (exists k', Db.api_keys (db w') !! id = Some k' /\ same_identity k k') /\
  (forall id' k', Db.api_keys (db w') !! id' = Some k' -> Db.k_is_master k' = true -> id' = id).
Proof. apply reachable_master. Qed.

(** Along a run of a program that keeps to [G], every state is sound. *)
Lemma trace_wf {A} env (p : prog A) : forall i w,
  keeps G p w -> Db.db_wf (db w) -> Forall (fun s => Db.db_wf (db s.1.2)) (trace env i p w).
Proof.
  induction p as [a|B f k IH]; intros i w Hk Hw; cbn [trace]; [constructor|].
  destruct (Hk w (env i) (rtc_refl _ _)) as [HG Hk']. destruct (f (env i) w) as [b w'].
  cbn [fst snd] in *. constructor; [done|]. apply IH; [done|]. by apply HG.
Qed.

(** A task that runs alone is one of the interleavings. *)
Lemma run_reachable env (p : prog unit) w : task app p -> reachable app w (after env p w).
Proof.
  intros Hp. unfold reachable, after.
  assert (forall (q : prog unit) i w, exists ps,
    rtc (sched (task app)) (w, [q]) ((run env i q w).1.2, ps)) as Hrun.
  { clear. induction q as [a|B f k IH]; intros i w; simpl; [by exists [Ret a]|].
    destruct (f (env i) w) as [b w'] eqn:Hf. destruct (IH b (S i) w') as [ps Hr]. exists ps.
    eapply rtc_l; [|exact Hr].
    pose proof (sched_step (task app) w [] [] B f k (env i)) as Hs. by rewrite Hf in Hs. }
  destruct (Hrun p 0%nat w) as [ps Hr]. exists ps. eapply rtc_l; [|exact Hr]. by constructor.
Qed.

End tasks.

(** ** Witnesses *)

Section witnesses.
Import Ref.

(** The state after the cleanup worker has run against the demonstration. *)
Definition w_after : World :=
  after Demo.tick (Sync.cleanup_worker Demo.service 1) Demo.start.

Lemma w_after_reachable : reachable Demo.service Demo.start w_after.
Proof. apply run_reachable. constructor. Qed.

Lemma integrity_invariant_witness : Db.db_wf (db w_after).
Proof.
  apply (integrity_invariant Demo.service Demo.start w_after);
    [apply Demo.database_wf|apply w_after_reachable].
Defined.

Lemma master_immutable_witness :
  exists k', Db.api_keys (db w_after) !! 1%N = Some k' /\ same_identity Demo.master k'.
Proof.
  refine (proj1 (master_immutable Demo.service Demo.start w_after 1%N Demo.master _ _ _ _));
    [apply Demo.database_wf|apply w_after_reachable|by vm_compute|done].
Defined.

End witnesses.

End System.
