(* ===== verification/Frame.v ===== *)
(** * The rate limiter, the replay guard and the pin under interleaving

    Every step of every task of the service leaves the pin as it is once set,
    presents at most one signature to the replay guard, and charges at most one
    client.  The lemmas about the guards alone thereby hold of the running service,
    whatever requests and workers run at the same time.  Theorems: a signature is
    accepted once within the window of the guard, and a client is sent at most one
    body per window of the limiter. *)

From S2P Require Import Prelude.
From S2P Require Import RustStr.
From S2P Require Import Net.
From S2P Require Import Libs.
From S2P Require Import LibsRef.
From S2P Require Import IpFilter.
From S2P Require Import Cache.
From S2P Require Import Crypto.
From S2P Require Import VaultClient.
From S2P Require Import DnsCache.
From S2P Require Import Http.
From S2P Require Import Config.
From S2P Require Import RateLimit.
From S2P Require Import Replay.
From S2P Require Import Db.
From S2P Require Import App.
From S2P Require Import Demo.
From S2P Require Import Auth.
From S2P Require Import ApiKeys.
From S2P Require Import ApiEndpoints.
From S2P Require Import Extract.
From S2P Require Import Feed.
From S2P Require Import FeedProps.
From S2P Require Import Router.
From S2P Require Import System.
Import App Router System.
#[local] Open Scope Z_scope.
#[local] Open Scope prog_scope.

Module Frame.

(** What one step may do to the three. *)
Record frame {L : IpNetLib} (t : Tick) (w w' : World) : Prop := {
  fr_pin : forall p, master_pin w = Some p -> master_pin w' = Some p;
  fr_replay : replay_guard w' = replay_guard w \/
    exists k d, replay_guard w' = (Replay.check_and_record (replay_guard w) (mono t) k d).2;
  fr_limiter : rate_limiter w' = rate_limiter w \/
    exists ip, rate_limiter w' = (RateLimit.check_and_record (rate_limiter w) (mono t) ip).2;
}.

(** A step that reaches none of them. *)
Definition elsewhere {L : IpNetLib} (w w' : World) : Prop :=
  master_pin w' = master_pin w /\ replay_guard w' = replay_guard w /\ rate_limiter w' = rate_limiter w.

Section steps.
Context {L : IpNetLib}.

Lemma elsewhere_frame t w w' : elsewhere w w' -> frame t w w'.
Proof. intros (H1 & H2 & H3). split; [intros p; by rewrite H1|by left|by left]. Qed.

Lemma frame_step {T} (f : Tick -> World -> T * World) :
  (forall t w, frame t w (f t w).2) -> always_at frame (Step f Ret).
Proof. intros Hf. apply always_at_step; [done|intros; apply always_at_ret]. Qed.

Lemma frame_elsewhere {T} (f : Tick -> World -> T * World) :
  (forall t w, elsewhere w (f t w).2) -> always_at frame (Step f Ret).
Proof. intros Hf. apply frame_step. intros t w. apply elsewhere_frame, Hf. Qed.

Lemma frame_stmt {T} (f : Db.Database -> result T Db.DbErr * Db.Database) : always_at frame (stmt f).
Proof. apply frame_elsewhere. intros t w. destruct (db_faults t 0); [done|]. by destruct (f (db w)). Qed.

Lemma frame_txn {T} (body : Tick -> Db.Database -> result T AppError * Db.Database) :
  always_at frame (txn body).
Proof.
  apply frame_elsewhere. intros t w. destruct (db_faults t 0); [done|].
  destruct (body t (db w)) as [[] ?]; by repeat case_match.
Qed.

Lemma frame_set_and_get id : always_at frame (Master.set_and_get id).
Proof.
  apply frame_step. intros t w. split; [|by destruct (master_pin w); left|by destruct (master_pin w); left].
  intros p Hp. by rewrite Hp.
Qed.

Lemma frame_check_replay k d : always_at frame (Middleware.check_replay k d).
Proof.
  apply frame_step. intros t w. destruct (Replay.check_and_record _ _ _ _) as [b g] eqn:Hc.
  split; [done| |by left]. right. exists k, d. by rewrite Hc.
Qed.

Lemma frame_limit ip : always_at frame (Feed.limit ip).
Proof.
  apply frame_step. intros t w. destruct (RateLimit.check_and_record _ _ _) as [b l] eqn:Hc.
  split; [done|by left|]. right. exists ip. by rewrite Hc.
Qed.

End steps.

Create HintDb frame discriminated.
#[export] Hint Resolve frame_stmt frame_txn frame_set_and_get frame_check_replay frame_limit : frame.

Ltac frame_tac := walk ltac:(first
  [ solve [auto 2 with frame]
  | unfold query; apply frame_stmt
  | apply frame_elsewhere; intros ?t ?w; repeat case_match; simplify_eq/=; done ]).

Section framed.
Context {L : IpNetLib} {C : CryptoLib} {Ch : ChronoLib} {U : UuidLib} {J : Vault.JsonLib} {Ax : Extract.AxumLib}.
Context (app : AppConfig).

Lemma frame_audit caller ip action res det :
  always_at frame (Support.create_audit_log caller ip action res det).
Proof. unfold Support.create_audit_log, read. frame_tac. Qed.

Lemma frame_seal secret : always_at frame (Support.seal_secret app secret).
Proof. unfold Support.seal_secret, read. frame_tac. Qed.

Lemma frame_keys call key ip :
  always_at frame match call with
    | CreateKey _ | ListKeys | UpdateKey _ _ | DeleteKey _ _ | RotateKey _ | RotateSecret _ =>
        dispatch app call key ip
    | _ => Ret (Err NotFound)
    end.
Proof.
  destruct call; try apply always_at_ret; cbn [dispatch]; unfold answer, Keys.create_api_key,
    Keys.list_api_keys, Keys.update_api_key, Keys.delete_api_key, Keys.rotate_api_key,
    Keys.rotate_signing_secret, Keys.find_key, Support.generate_random_key,
    Support.generate_signing_secret, Support.now_utc, Support.new_v4, read; frame_tac;
    first [apply frame_audit | apply frame_seal].
Qed.

Lemma frame_live_groups client : always_at frame (Groups.live_groups client).
Proof. unfold Groups.live_groups, Groups.vault_list_groups. frame_tac. Qed.

Lemma frame_group_access caller groups : always_at frame (Endpoints.validate_group_access caller groups).
Proof. unfold Endpoints.validate_group_access, Groups.granted_group_names. frame_tac. Qed.

Lemma frame_dispatch call key ip : always_at frame (dispatch app call key ip).
Proof.
  pose proof (frame_keys call key ip) as Hk. destruct call; try exact Hk; clear Hk; cbn [dispatch];
    unfold answer, Endpoints.create_endpoint, Endpoints.list_endpoints, Endpoints.update_endpoint,
      Endpoints.delete_endpoint, Endpoints.reassign_endpoint_owner, Endpoints.find_endpoint,
      Endpoints.group_changes, Endpoints.evict_cache, Endpoints.generate_token_secret,
      ReadOnly.list_audit_logs, Groups.list_vault_groups, Groups.list_key_groups,
      Groups.grant_key_group, Groups.revoke_key_group, Keys.find_key, Support.now_utc,
      Support.new_v4, read; frame_tac; first [apply frame_audit | apply frame_live_groups | apply frame_group_access].
Qed.

Lemma frame_auth req : always_at frame (Middleware.auth_middleware app req).
Proof.
  unfold Middleware.auth_middleware, Middleware.verify_request, Middleware.check_binding,
    Middleware.client_ip_of, Middleware.check_bound_ips,
    Master.authenticate, Master.resolve, Master.get, Master.resolve_inner, read. frame_tac.
Qed.

Lemma frame_handle req : always_at frame (handle app req).
Proof.
  destruct (route api_routes (Middleware.rq_method req) (path_of (Middleware.rq_target req)).1)
    as [params r| |] eqn:Hr.
  3:{ rewrite (handle_public app req Hr). unfold serve_public, ReadOnly.readiness_check, Master.get,
      Feed.serve_feed, Feed.check_access, Feed.respond, Middleware.client_ip_of,
      Middleware.check_bound_ips. frame_tac. }
  all: rewrite (handle_api app req _ Hr) by done; apply always_at_bind; [apply frame_auth|];
    intros [[ip key]|e]; [|apply always_at_ret]; unfold serve_api; frame_tac; apply frame_dispatch.
Qed.

Lemma frame_sync client ep : always_at frame (Sync.sync_endpoint client ep).
Proof.
  unfold Sync.sync_endpoint, Sync.mark_synced, Sync.full_sync_due, Sync.fetch, Sync.apply_full,
    Sync.apply_diff, Support.now_utc, read. frame_tac.
Qed.

Lemma frame_sync_each client eps : always_at frame (Sync.sync_each client eps).
Proof.
  induction eps as [|ep eps IH]; cbn [Sync.sync_each]; [apply always_at_ret|].
  apply always_at_bind; [apply frame_sync|]. intros [[]|]; [done|apply always_at_ret].
Qed.

Lemma frame_sync_all : always_at frame (Sync.sync_all_endpoints app).
Proof. unfold Sync.sync_all_endpoints. frame_tac. apply frame_sync_each. Qed.

Lemma always_at_cut {T} R n (p : prog T) : always_at R p -> always_at R (Sync.cut n p).
Proof.
  revert p. induction n as [|n IH]; intros [a|B f k] Hp; simpl; try apply always_at_ret.
  intros [|[[t w] w'] tr] x He; [done|]. destruct He as [-> He].
  destruct (always_at_inv R f k t w Hp) as [HR Hk]. constructor; [done|]. by eapply IH.
Qed.

Lemma always_at_boot_sync R n :
  always_at R (Sync.sync_all_endpoints app) -> always_at R (finish (Sync.run_boot_sync app n)).
Proof.
  intros Hp. unfold finish, Sync.run_boot_sync. destruct (vault_client app);
    (apply always_at_bind; [|intros; apply always_at_ret]); [|apply always_at_ret].
  apply always_at_bind; [by apply always_at_cut|intros; apply always_at_ret].
Qed.

Lemma frame_task p : task app p -> always_at frame p.
Proof.
  intros [req| |n|n|n].
  - apply always_at_bind; [apply frame_handle|intros; apply always_at_ret].
  - assert (forall names failed, always_at frame (prime_steps names failed)) as Hprime.
    { induction names as [|x names IH]; intros failed; cbn [prime_steps]; [apply always_at_ret|].
      apply always_at_bind; [frame_tac|intros; apply IH]. }
    unfold finish, prime_with_grace. frame_tac; apply Hprime.
  - induction n as [|n IH]; cbn [Sync.sync_worker]; [apply always_at_ret|].
    apply always_at_bind; [apply frame_sync_all|]. intros [[]|]; [done|apply always_at_ret].
  - apply always_at_boot_sync, frame_sync_all.
  - induction n as [|n IH]; cbn [Sync.cleanup_worker]; [apply always_at_ret|]. apply always_at_bind; [|done].
    unfold Sync.cleanup_stale_group_permissions, Groups.vault_list_groups. frame_tac.
Qed.

(** What a history of the service consists of. *)
Lemma history_frames w h w' ps :
  history (task app) (w, []) h (w', ps) -> linked w h w' /\ Forall (fun s => frame s.1.1 s.1.2 s.2) h.
Proof. intros Hh. by apply (history_always frame) in Hh; [|apply frame_task|constructor]. Qed.

Lemma reachable_history w w' :
  reachable app w w' -> exists h ps, history (task app) (w, []) h (w', ps).
Proof. intros [ps [h Hh]%sched_history]. eauto. Qed.

(** A pinned identity is never replaced. *)
Lemma reachable_pin w w' p : reachable app w w' -> master_pin w = Some p -> master_pin w' = Some p.
Proof.
  intros (h & ps & [Hl HF]%history_frames)%reachable_history.
  apply (linked_inv (fun w => master_pin w = Some p) w h w' Hl). eapply Forall_impl; [exact HF|].
  intros s Hs. by apply Hs.
Qed.

(** ** Deadlines along a history *)

(** [Instant]s do not go backwards. *)
Definition clock_monotone (h : list (Tick * World * World)) : Prop :=
  forall i j s s', (i <= j)%nat -> h !! i = Some s -> h !! j = Some s' -> mono s.1.1 <= mono s'.1.1.

(** The steps of a task, by their places in the history. *)
Definition drawn (h : list (Tick * World * World)) (places : list nat)
  (tr : list (Tick * World * World)) : Prop :=
  Forall2 (fun i s => h !! i = Some s) places tr.

Lemma drawn_at h places tr s : drawn h places tr -> s ∈ tr -> exists i, i ∈ places /\ h !! i = Some s.
Proof.
  intros Hd (n & Hn)%list_elem_of_lookup.
  destruct (Forall2_lookup_r _ _ _ _ _ Hd Hn) as (i & Hi & Hs). exists i.
  split; [by eapply list_elem_of_lookup_2|done].
Qed.

Lemma drawn_mid (a tr b : list (Tick * World * World)) :
  drawn (a ++ tr ++ b) (seq (length a) (length tr)) tr.
Proof.
  apply Forall2_same_length_lookup. rewrite length_seq. split; [done|]. intros n i s Hi Hs.
  apply lookup_seq in Hi as [-> Hlt]. rewrite lookup_app_r by lia. rewrite lookup_app_l by lia.
  rewrite <- Hs. f_equal. lia.
Qed.

Lemma linked_app w h1 h2 w' :
  linked w (h1 ++ h2) w' <-> exists wm, linked w h1 wm /\ linked wm h2 w'.
Proof.
  revert w. induction h1 as [|[[t w1] w2] h1 IH]; intros w; simpl.
  - split; [by eauto|by intros (wm & -> & H)].
  - rewrite IH. split; [intros (-> & wm & H1 & H2); by eauto|intros (wm & [-> H1] & H2); by eauto].
Qed.

(** The steps strictly between two places lead from one to the other. *)
Lemma linked_between w h w' i j s1 s2 :
  linked w h w' -> (i < j)%nat -> h !! i = Some s1 -> h !! j = Some s2 ->
  exists hm, linked s1.2 hm s2.1.2 /\
    forall s, s ∈ hm -> s ∈ h /\ exists n, (n < j)%nat /\ h !! n = Some s.
Proof.
  intros Hl Hij Hi Hj.
  assert (h = take j h ++ s2 :: drop (S j) h) as Hsplit by (symmetry; by apply take_drop_middle).
  assert (take j h = take i h ++ s1 :: drop (S i) (take j h)) as Hsplit1.
  { assert (take j h !! i = Some s1) as Hi' by (by rewrite lookup_take_lt).
    rewrite <- (take_drop_middle _ _ _ Hi') at 1. by rewrite take_take, Nat.min_l by lia. }
  rewrite Hsplit, Hsplit1, <- app_assoc in Hl. apply linked_app in Hl as (wa & _ & Hl).
  destruct s1 as [[t1 w1] w1'], s2 as [[t2 w2] w2']. destruct Hl as [_ Hl].
  apply linked_app in Hl as (wb & Hm & [<- _]). exists (drop (S i) (take j h)). split; [done|].
  intros s Hs. apply list_elem_of_lookup in Hs as [n Hn]. rewrite lookup_drop in Hn.
  apply lookup_take_Some in Hn as [Hn Hlt]. split; [by eapply list_elem_of_lookup_2|by eauto].
Qed.

(** A deadline that no earlier step can lift is respected at every later place. *)
Lemma deadline_holds (entry : World -> option Z) w h w' i j s1 s2 d :
  linked w h w' -> clock_monotone h ->
  Forall (fun s => forall e, entry s.1.2 = Some e -> mono s.1.1 < e -> entry s.2 = Some e) h ->
  (i < j)%nat -> h !! i = Some s1 -> h !! j = Some s2 ->
  entry s1.2 = Some d -> (forall e, entry s2.1.2 = Some e -> e <= mono s2.1.1) ->
  d <= mono s2.1.1.
Proof.
  intros Hl Hc Hk Hij Hi Hj Hd Hfree. destruct (Z.le_gt_cases d (mono s2.1.1)) as [|Hlt]; [done|].
  apply Hfree. destruct (linked_between w h w' i j s1 s2 Hl Hij Hi Hj) as (hm & Hm & Hin).
  apply (linked_inv (fun w => entry w = Some d) _ _ _ Hm); [|done].
  apply Forall_forall. intros s Hs He. destruct (Hin s Hs) as (Hsh & n & Hn & Hns).
  rewrite Forall_forall in Hk. apply (Hk s Hsh); [done|].
  pose proof (Hc n j s s2 ltac:(lia) Hns Hj). lia.
Qed.

(** Two admissions at different places are a window apart. *)
Lemma admissions_apart (entry : World -> option Z) (W : Z) w h w' i j s1 s2 :
  linked w h w' -> clock_monotone h ->
  Forall (fun s => forall e, entry s.1.2 = Some e -> mono s.1.1 < e -> entry s.2 = Some e) h ->
  i <> j -> h !! i = Some s1 -> h !! j = Some s2 ->
  entry s1.2 = Some (mono s1.1.1 + W) -> (forall e, entry s1.1.2 = Some e -> e <= mono s1.1.1) ->
  entry s2.2 = Some (mono s2.1.1 + W) -> (forall e, entry s2.1.2 = Some e -> e <= mono s2.1.1) ->
  W <= Z.abs (mono s1.1.1 - mono s2.1.1).
Proof.
  intros Hl Hc Hk Hij Hi Hj H1 H1' H2 H2'. destruct (Nat.lt_total i j) as [Hlt|[Heq|Hlt]]; [|done|].
  - pose proof (deadline_holds entry w h w' i j s1 s2 _ Hl Hc Hk Hlt Hi Hj H1 H2'). lia.
  - pose proof (deadline_holds entry w h w' j i s2 s1 _ Hl Hc Hk Hlt Hj Hi H2 H1'). lia.
Qed.

(** ** The two guards in the running service *)

Lemma frame_replay_keeps t w w' id e :
  frame t w w' -> Replay.seen (replay_guard w) !! id = Some e -> mono t < e ->
  Replay.seen (replay_guard w') !! id = Some e.
Proof. intros [_ [->|(k & d & ->)] _] He Hlt; [done|]. by apply Replay.check_keeps. Qed.

Lemma history_window w h w' ps :
  history (task app) (w, []) h (w', ps) ->
  Forall (fun s => Replay.window (replay_guard s.1.2) = Replay.window (replay_guard w)) h.
Proof.
  intros [Hl HF]%history_frames.
  apply (linked_inv (fun w1 => Replay.window (replay_guard w1) = Replay.window (replay_guard w)) _ _ _ Hl);
    [|done].
  eapply Forall_impl; [exact HF|]. intros s [_ [->|(k & d & ->)] _] Hs; [done|].
  by rewrite Replay.check_window.
Qed.

(** The digest of the signature a request carries, however its header spells it. *)
Definition presented (req : Middleware.Request) : option Bytes :=
  Http.get_str (Middleware.rq_headers req) Middleware.SIGNATURE_HEADER ≫= Crypto.digest_of.

(** The replay guard accepts the digest for the key at this step. *)
Definition accepts (s : Tick * World * World) (id : Uuid) (digest : Bytes) : Prop :=
  Replay.check_and_record (replay_guard s.1.2) (mono s.1.1) id digest = (true, replay_guard s.2).

(** A request that is let in was accepted at one of its steps. *)
Lemma auth_presented req tr ip key :
  exec (Middleware.auth_middleware app req) tr (Ok (ip, key)) ->
  exists digest s, presented req = Some digest /\ s ∈ tr /\ accepts s (Db.k_id key) digest.
Proof.
  intros (tr1 & tr2 & -> & (row & digest & Hs)%Middleware.verify_sound & _)%Middleware.auth_verified.
  destruct (Middleware.sg_signature _ _ _ _ _ _ Hs)
    as (ts & t & w & w' & sig & secret & body & _ & _ & _ & Hsig & _ & _ & _ & Hv).
  destruct (Middleware.sg_unused _ _ _ _ _ _ Hs) as (t' & w1 & w1' & Hin & Hc).
  exists digest, (t', w1, w1'). unfold presented. rewrite Hsig. split_and!; [|in_trace|done].
  by apply Crypto.verify_digest in Hv as [? _].
Qed.

(** Two steps of a history that accept the same digest for the same key. *)
Lemma accepted_apart w h w' ps id digest i j s1 s2 :
  history (task app) (w, []) h (w', ps) -> clock_monotone h -> i <> j ->
  h !! i = Some s1 -> h !! j = Some s2 -> accepts s1 id digest -> accepts s2 id digest ->
  Replay.window (replay_guard w) <= Z.abs (mono s1.1.1 - mono s2.1.1).
Proof.
  intros Hh Hc Hij Hhi Hhj Ha1 Ha2.
  pose proof (history_window _ _ _ _ Hh) as Hwin. rewrite Forall_lookup in Hwin.
  pose proof (Hwin _ _ Hhi) as Hw1. pose proof (Hwin _ _ Hhj) as Hw2. apply history_frames in Hh as [Hl HF].
  apply Replay.check_accepts in Ha1 as [Hf1 Hr1]. apply Replay.check_accepts in Ha2 as [Hf2 Hr2].
  rewrite Hw1 in Hr1. rewrite Hw2 in Hr2.
  apply (admissions_apart (fun w1 => Replay.seen (replay_guard w1) !! (id, digest)) _ w h w' i j); try done.
  eapply Forall_impl; [exact HF|]. intros s Hs e. by apply frame_replay_keeps.
Qed.

(** C32. Whatever else the service does at the same time, one signature of a key is
    accepted at most once within the window of the replay guard: two requests that
    are let in and carry it each have a step at which the guard accepts it, and
    any such step of the one is a window away from any such step of the other. *)
Theorem signature_single_use w h w' ps req1 req2 tr1 tr2 ip1 ip2 key1 key2 places1 places2 :
  history (task app) (w, []) h (w', ps) -> clock_monotone h ->
  exec (Middleware.auth_middleware app req1) tr1 (Ok (ip1, key1)) -> drawn h places1 tr1 ->
  exec (Middleware.auth_middleware app req2) tr2 (Ok (ip2, key2)) -> drawn h places2 tr2 ->
  places1 ## places2 -> Db.k_id key1 = Db.k_id key2 -> presented req1 = presented req2 ->
  exists digest, presented req1 = Some digest /\
    (exists s1, s1 ∈ tr1 /\ accepts s1 (Db.k_id key1) digest) /\
    (exists s2, s2 ∈ tr2 /\ accepts s2 (Db.k_id key1) digest) /\
    forall s1 s2, s1 ∈ tr1 -> s2 ∈ tr2 ->
      accepts s1 (Db.k_id key1) digest -> accepts s2 (Db.k_id key1) digest ->
      Replay.window (replay_guard w) <= Z.abs (mono s1.1.1 - mono s2.1.1).
Proof.
  intros Hh Hc He1 Hd1 He2 Hd2 Hdis Hkey Hsig.
  destruct (auth_presented _ _ _ _ He1) as (digest & s1 & Hs1 & Hin1 & Ha1).
  destruct (auth_presented _ _ _ _ He2) as (digest' & s2 & Hs2 & Hin2 & Ha2).
  rewrite <- Hsig, Hs1 in Hs2. injection Hs2 as <-. rewrite <- Hkey in Ha2.
  exists digest. split_and!; [done|by exists s1|by exists s2|]. clear dependent s1 s2. intros s1 s2 Hin1 Hin2 Ha1 Ha2.
  destruct (drawn_at _ _ _ _ Hd1 Hin1) as (i & Hi & Hhi). destruct (drawn_at _ _ _ _ Hd2 Hin2) as (j & Hj & Hhj).
  eapply (accepted_apart w h w' ps _ _ i j); try done. intros <-. by apply (Hdis i).
Qed.

(** C37. Whatever else the service does at the same time, a client is sent at most one
    body per window while the limiter is below its ceiling: the step after which
    a body is sent, the last of its request, is the one at which the limiter
    admits the client, and for two bodies sent to the same client these steps are
    a window apart. *)
Theorem feed_bodies_spaced w h w' ps token1 token2 peer1 peer2 hdrs1 hdrs2 tr1 tr2 r1 r2 ip places1 places2 :
  history (task app) (w, []) h (w', ps) -> clock_monotone h ->
  Forall (fun s => RateLimit.tracked (rate_limiter s.1.2) < RateLimit.MAX_TRACKED_IPS) h ->
  exec (Feed.serve_feed app token1 peer1 hdrs1) tr1 (Some (Ok r1)) -> drawn h places1 tr1 ->
  exec (Feed.serve_feed app token2 peer2 hdrs2) tr2 (Some (Ok r2)) -> drawn h places2 tr2 ->
  places1 ## places2 -> Feed.status r1 = 200 -> Feed.status r2 = 200 ->
  FeedProps.client_seen app peer1 hdrs1 tr1 ip -> FeedProps.client_seen app peer2 hdrs2 tr2 ip ->
  exists s1 s2, last tr1 = Some s1 /\ last tr2 = Some s2 /\ FeedProps.admits s1 ip /\ FeedProps.admits s2 ip /\
    RateLimit.RATE_LIMIT_WINDOW <= Z.abs (mono s1.1.1 - mono s2.1.1).
Proof.
  intros Hh Hc Hfew He1 Hd1 He2 Hd2 Hdis Hr1 Hr2 Hip1 Hip2.
  destruct (FeedProps.feed_body_charged _ _ _ _ _ _ He1 Hr1) as (ip1 & s1 & Hc1 & Hin1 & Ha1).
  destruct (FeedProps.feed_body_charged _ _ _ _ _ _ He2 Hr2) as (ip2 & s2 & Hc2 & Hin2 & Ha2).
  pose proof (FeedProps.client_seen_det _ _ _ _ _ _ Hip1 Hc1) as ->.
  pose proof (FeedProps.client_seen_det _ _ _ _ _ _ Hip2 Hc2) as ->.
  destruct (drawn_at _ _ _ _ Hd1 (last_Some_elem_of _ _ Hin1)) as (i & Hi & Hhi).
  destruct (drawn_at _ _ _ _ Hd2 (last_Some_elem_of _ _ Hin2)) as (j & Hj & Hhj).
  exists s1, s2. split_and!; [done..|]. apply history_frames in Hh as [Hl HF].
  apply RateLimit.check_ip_accepts in Ha1 as [Hf1 Hs1]. apply RateLimit.check_ip_accepts in Ha2 as [Hf2 Hs2].
  apply (admissions_apart (fun w1 => RateLimit.next_allowed (RateLimit.state (rate_limiter w1)) !! ip)
    _ w h w' i j); try done.
  - apply Forall_forall. intros s Hs e He Hlt. rewrite Forall_forall in HF, Hfew.
    destruct (HF s Hs) as [_ _ [->|(ip' & ->)]]; [done|]. apply RateLimit.check_ip_keeps; [by apply Hfew|done..].
  - intros <-. by apply (Hdis i).
Qed.

End framed.

(** ** Witnesses *)

Section witnesses.
Import Ref RouterRef.

(** The wall clock stands at second 1001, and a step takes a thousand seconds. *)
Definition w_tick (j : nat) : Tick := {|
  wall := from_secs 1001;
  mono := from_secs (1000 * Z.of_nat j);
  db_faults _ := false;
  fresh_uuid := 1000 + N.of_nat j;
  random := Demo.filler;
  dns _ := Dns.mkDnsTick 0 0 0 (fun _ => None);
  vault := Vault.w_env;
|}.

(** A request is answered, and then another. *)
Definition w_first (req : Middleware.Request) : prog unit := finish (handle Demo.service req).
Definition w_middle (req : Middleware.Request) : World := (run w_tick 0 (w_first req) Demo.start).1.2.
Definition w_place (req : Middleware.Request) : nat := (run w_tick 0 (w_first req) Demo.start).2.
Definition w_history (req1 req2 : Middleware.Request) : list (Tick * World * World) :=
  trace w_tick 0 (w_first req1) Demo.start ++ trace w_tick (w_place req1) (w_first req2) (w_middle req1).

Lemma w_history_ok req1 req2 :
  exists w' ps, history (task Demo.service) (Demo.start, []) (w_history req1 req2) (w', ps).
Proof.
  destruct (history_alone (task Demo.service) w_tick (w_first req1) 0 Demo.start []) as [a Ha]; [constructor|].
  fold (w_middle req1) in Ha.
  destruct (history_alone (task Demo.service) w_tick (w_first req2) (w_place req1) (w_middle req1)
    [Ret a]) as [b Hb]; [constructor|].
  eexists _, _. exact (history_app _ _ _ _ _ _ Ha Hb).
Qed.

Lemma w_history_ticks req1 req2 n s : w_history req1 req2 !! n = Some s -> s.1.1 = w_tick n.
Proof.
  unfold w_history. rewrite lookup_app. destruct (trace _ _ _ _ !! n) as [s'|] eqn:Hn.
  - intros [= <-]. by rewrite (trace_ticks _ _ _ _ _ _ Hn).
  - apply lookup_ge_None in Hn. intros Hs. rewrite (trace_ticks _ _ _ _ _ _ Hs). unfold w_place.
    rewrite run_length. f_equal. lia.
Qed.

Lemma w_history_monotone req1 req2 : clock_monotone (w_history req1 req2).
Proof.
  intros i j s s' Hij Hi Hj. rewrite (w_history_ticks _ _ _ _ Hi), (w_history_ticks _ _ _ _ Hj).
  unfold w_tick, mono, from_secs, nanos_per_sec. lia.
Qed.

(** A prefix of each of the two, at its places. *)
Lemma w_drawn req1 req2 tr1 rest1 tr2 rest2 :
  trace w_tick 0 (w_first req1) Demo.start = tr1 ++ rest1 ->
  trace w_tick (w_place req1) (w_first req2) (w_middle req1) = tr2 ++ rest2 ->
  exists places1 places2, drawn (w_history req1 req2) places1 tr1 /\
    drawn (w_history req1 req2) places2 tr2 /\ places1 ## places2.
Proof.
  intros H1 H2. unfold w_history. rewrite H1, H2.
  exists (seq 0 (length tr1)), (seq (length (tr1 ++ rest1)) (length tr2)). split_and!.
  - rewrite <- app_assoc. apply (drawn_mid []).
  - apply drawn_mid.
  - intros i Hi%elem_of_seq Hj%elem_of_seq. rewrite length_app in Hj. lia.
Qed.

Definition w_req : Middleware.Request := Middleware.w_request Demo.client.

Definition w_auth : prog (result (IpAddr * Db.ApiKey) AppError) := Middleware.auth_middleware Demo.service w_req.

Lemma w_first_auth i w : exists rest, trace w_tick i (w_first w_req) w = trace w_tick i w_auth w ++ rest.
Proof.
  unfold w_first, finish. rewrite (handle_api _ _ _ eq_refl) by by vm_compute. rewrite !trace_bind, <- app_assoc.
  by eexists.
Qed.

Definition w_trace1 : list (Tick * World * World) := trace w_tick 0 w_auth Demo.start.
Definition w_trace2 : list (Tick * World * World) := trace w_tick (w_place w_req) w_auth (w_middle w_req).

Lemma w_accepted1 : exec w_auth w_trace1 (Ok (Demo.client, Demo.daughter)).
Proof. apply outcome_exec. by vm_compute. Qed.

Lemma w_accepted2 : exec w_auth w_trace2 (Ok (Demo.client, Demo.daughter)).
Proof.
  assert ((run w_tick (w_place w_req) w_auth (w_middle w_req)).1.1 = Ok (Demo.client, Demo.daughter)) as <-
    by by vm_compute. apply trace_exec.
Qed.

Lemma signature_single_use_witness :
  exists digest, presented w_req = Some digest /\
    (exists s1, s1 ∈ w_trace1 /\ accepts s1 2%N digest) /\ (exists s2, s2 ∈ w_trace2 /\ accepts s2 2%N digest) /\
    forall s1 s2, s1 ∈ w_trace1 -> s2 ∈ w_trace2 -> accepts s1 2%N digest -> accepts s2 2%N digest ->
      Replay.window (replay_guard Demo.start) <= Z.abs (mono s1.1.1 - mono s2.1.1).
Proof.
  destruct (w_history_ok w_req w_req) as (w' & ps & Hh).
  destruct (w_first_auth 0 Demo.start) as [r1 H1].
  destruct (w_first_auth (w_place w_req) (w_middle w_req)) as [r2 H2].
  destruct (w_drawn _ _ _ _ _ _ H1 H2) as (p1 & p2 & Hd1 & Hd2 & Hdis).
  exact (signature_single_use Demo.service Demo.start _ w' ps w_req w_req _ _ Demo.client Demo.client
    Demo.daughter Demo.daughter p1 p2 Hh (w_history_monotone _ _) w_accepted1 Hd1 w_accepted2 Hd2 Hdis
    eq_refl eq_refl).
Defined.

(** A client fetches the feed twice. *)
Definition w_feed_req : Middleware.Request := {|
  Middleware.rq_peer := Demo.client; Middleware.rq_headers := FeedProps.no_headers;
  Middleware.rq_method := "GET"; Middleware.rq_target := "/feed/v1/tok/list.txt"; Middleware.rq_body := None;
|}.

Definition w_feed : prog (option (result Feed.Response AppError)) :=
  Feed.serve_feed Demo.service "tok" Demo.client FeedProps.no_headers.

Lemma w_first_feed i w : exists rest, trace w_tick i (w_first w_feed_req) w = trace w_tick i w_feed w ++ rest.
Proof.
  unfold w_first, finish. rewrite handle_public by by vm_compute.
  assert (route public_routes (Middleware.rq_method w_feed_req) (path_of (Middleware.rq_target w_feed_req)).1
    = Found ["tok"] serve_feed) as -> by by vm_compute.
  cbn [serve_public]. change (Extract.path_string "tok") with (Ok "tok" : result string string). cbv iota.
  rewrite !trace_bind, <- app_assoc. by eexists.
Qed.

Definition w_feed_trace1 : list (Tick * World * World) := trace w_tick 0 w_feed Demo.start.
Definition w_feed_trace2 : list (Tick * World * World) :=
  trace w_tick (w_place w_feed_req) w_feed (w_middle w_feed_req).

Lemma w_served1 : exec w_feed w_feed_trace1 (Some (Ok FeedProps.w_response)).
Proof. apply outcome_exec. by vm_compute. Qed.

Lemma w_served2 : exec w_feed w_feed_trace2 (Some (Ok FeedProps.w_response)).
Proof.
  assert ((run w_tick (w_place w_feed_req) w_feed (w_middle w_feed_req)).1.1 = Some (Ok FeedProps.w_response))
    as <- by by vm_compute. apply trace_exec.
Qed.

Lemma w_client_seen i w :
  FeedProps.client_seen Demo.service Demo.client FeedProps.no_headers (trace w_tick i w_feed w) Demo.client.
Proof.
  unfold w_feed, Feed.serve_feed. rewrite trace_bind. apply FeedProps.client_ip_seen.
  assert ((run w_tick i (Middleware.client_ip_of Demo.service Demo.client FeedProps.no_headers) w).1.1
    = Demo.client) as Hc by reflexivity. rewrite <- Hc at 2. apply trace_exec.
Qed.

Lemma w_few :
  Forall (fun s => RateLimit.tracked (rate_limiter s.1.2) < RateLimit.MAX_TRACKED_IPS)
    (w_history w_feed_req w_feed_req).
Proof.
  assert (forallb (fun s => RateLimit.tracked (rate_limiter s.1.2) <? RateLimit.MAX_TRACKED_IPS)
    (w_history w_feed_req w_feed_req) = true) as Hf by by vm_compute.
  rewrite forallb_forall in Hf. apply Forall_forall. intros s Hs%list_elem_of_In.
  by apply Z.ltb_lt, Hf.
Qed.

Lemma feed_bodies_spaced_witness :
  exists s1 s2, last w_feed_trace1 = Some s1 /\ last w_feed_trace2 = Some s2 /\
    FeedProps.admits s1 Demo.client /\ FeedProps.admits s2 Demo.client /\
    RateLimit.RATE_LIMIT_WINDOW <= Z.abs (mono s1.1.1 - mono s2.1.1).
Proof.
  destruct (w_history_ok w_feed_req w_feed_req) as (w' & ps & Hh).
  destruct (w_first_feed 0 Demo.start) as [r1 H1].
  destruct (w_first_feed (w_place w_feed_req) (w_middle w_feed_req)) as [r2 H2].
  destruct (w_drawn _ _ _ _ _ _ H1 H2) as (p1 & p2 & Hd1 & Hd2 & Hdis).
  exact (feed_bodies_spaced Demo.service Demo.start _ w' ps "tok" "tok" Demo.client Demo.client
    FeedProps.no_headers FeedProps.no_headers _ _ FeedProps.w_response FeedProps.w_response Demo.client p1 p2
    Hh (w_history_monotone _ _) w_few w_served1 Hd1 w_served2 Hd2 Hdis eq_refl eq_refl
    (w_client_seen _ _) (w_client_seen _ _)).
Defined.

End witnesses.

End Frame.
