(* ===== verification/Writes.v ===== *)
(** * How the database changes, and the audit log

    Every step of every task of the service leaves the database as it is or takes
    it through one of the statements listed in [change].  The list is proved
    complete once; what a history can do to a table is then a case analysis over
    it.  Theorems: the audit log is append-only, and a credential that was replaced
    or deleted is refused from that step on. *)

From S2P Require Import Prelude.
From S2P Require Import RustStr.
From S2P Require Import Net.
From S2P Require Import Libs.
From S2P Require Import LibsRef.
From S2P Require Import Cache.
From S2P Require Import Crypto.
From S2P Require Import VaultClient.
From S2P Require Import DnsCache.
From S2P Require Import Http.
From S2P Require Import Config.
From S2P Require Import Db.
From S2P Require Import App.
From S2P Require Import Demo.
From S2P Require Import Auth.
From S2P Require Import ApiKeys.
From S2P Require Import ApiEndpoints.
From S2P Require Import Extract.
From S2P Require Import Feed.
From S2P Require Import FeedProps.
From S2P Require Import Router.
From S2P Require Import System.
From S2P Require Import Frame.
Import App Router System.
#[local] Open Scope Z_scope.
#[local] Open Scope prog_scope.

Module Writes.

(** ** The statements that write *)

Section changes.
Context {L : IpNetLib} {U : UuidLib}.

Inductive change (d : Db.Database) : Db.Database -> Prop :=
| ch_insert_key k : change d (Db.insert_key k d).2
| ch_update_key id set : change d (Db.update_key id set d).2
| ch_delete_key caller ip id q res now t d' :
    Keys.delete_key_txn caller ip id q res now t d = (Ok tt, d') -> change d d'
| ch_insert_endpoint e : change d (Db.insert_endpoint e d).2
| ch_update_endpoint id set : change d (Db.update_endpoint id set d).2
| ch_delete_endpoint id : change d (Db.delete_endpoint id d).2
| ch_insert_audit a : change d (Db.insert_audit a d).2
| ch_insert_grant g : change d (Db.insert_grant g d).2
| ch_delete_grants ids : change d (Db.delete_grants ids d).2.

Definition writes (_ : Tick) (w w' : World) : Prop := db w' = db w \/ change (db w) (db w').

#[local] Abbreviation lawful p := (always_at writes p).

Lemma writes_step {T} (f : Tick -> World -> T * World) :
  (forall t w, writes t w (f t w).2) -> lawful (Step f Ret).
Proof. intros Hf. apply always_at_step; [done|intros; apply always_at_ret]. Qed.

Lemma writes_elsewhere {T} (f : Tick -> World -> T * World) :
  (forall t w, db (f t w).2 = db w) -> lawful (Step f Ret).
Proof. intros Hf. apply writes_step. by left. Qed.

Lemma writes_stmt {T} (f : Db.Database -> result T Db.DbErr * Db.Database) :
  (forall d, change d (f d).2) -> lawful (stmt f).
Proof.
  intros Hf. apply writes_step. intros t w. destruct (db_faults t 0); [by left|].
  specialize (Hf (db w)). destruct (f (db w)) as [r d]. by right.
Qed.

Lemma writes_query {T} (f : Db.Database -> T) : lawful (query f).
Proof. apply writes_elsewhere. intros t w. by destruct (db_faults t 0). Qed.

Lemma writes_delete_key caller ip id q res now : lawful (txn (Keys.delete_key_txn caller ip id q res now)).
Proof.
  apply writes_step. intros t w. destruct (db_faults t 0); [by left|].
  destruct (Keys.delete_key_txn _ _ _ _ _ _ _ _) as [[[]|e] d] eqn:Hd; [|by left].
  destruct (db_faults t 1); [by left|]. right. by eapply ch_delete_key.
Qed.

Lemma writes_insert_key k : lawful (stmt (Db.insert_key k)).
Proof. apply writes_stmt. constructor. Qed.
Lemma writes_update_key id set : lawful (stmt (Db.update_key id set)).
Proof. apply writes_stmt. constructor. Qed.
Lemma writes_insert_endpoint e : lawful (stmt (Db.insert_endpoint e)).
Proof. apply writes_stmt. constructor. Qed.
Lemma writes_update_endpoint id set : lawful (stmt (Db.update_endpoint id set)).
Proof. apply writes_stmt. constructor. Qed.
Lemma writes_delete_endpoint id : lawful (stmt (Db.delete_endpoint id)).
Proof. apply writes_stmt. constructor. Qed.
Lemma writes_insert_audit a : lawful (stmt (Db.insert_audit a)).
Proof. apply writes_stmt. constructor. Qed.
Lemma writes_insert_grant g : lawful (stmt (Db.insert_grant g)).
Proof. apply writes_stmt. constructor. Qed.
Lemma writes_delete_grants ids : lawful (stmt (Db.delete_grants ids)).
Proof. apply writes_stmt. constructor. Qed.

End changes.

Create HintDb writes discriminated.
#[export] Hint Resolve writes_query writes_delete_key writes_insert_key writes_update_key writes_insert_endpoint
  writes_update_endpoint writes_delete_endpoint writes_insert_audit writes_insert_grant writes_delete_grants : writes.

Ltac writes_tac := walk ltac:(first
  [ solve [auto 2 with writes]
  | apply writes_elsewhere; intros ?t ?w; repeat case_match; simplify_eq/=; done ]).

Section tasks.
Context {L : IpNetLib} {C : CryptoLib} {Ch : ChronoLib} {U : UuidLib} {J : Vault.JsonLib} {Ax : Extract.AxumLib}.
Context (app : AppConfig).
#[local] Abbreviation lawful p := (always_at writes p).

Lemma writes_dispatch call key ip : lawful (dispatch app call key ip).
Proof.
  destruct call; cbn [dispatch]; unfold answer, Keys.create_api_key, Keys.list_api_keys, Keys.update_api_key,
    Keys.delete_api_key, Keys.rotate_api_key, Keys.rotate_signing_secret, Endpoints.create_endpoint,
    Endpoints.list_endpoints, Endpoints.update_endpoint, Endpoints.delete_endpoint,
    Endpoints.reassign_endpoint_owner, Endpoints.find_endpoint, Endpoints.group_changes, Endpoints.evict_cache,
    Endpoints.validate_group_access, Groups.granted_group_names, Endpoints.generate_token_secret,
    ReadOnly.list_audit_logs, Groups.list_vault_groups, Groups.list_key_groups, Groups.grant_key_group,
    Groups.revoke_key_group, Groups.live_groups, Groups.vault_list_groups, Keys.find_key,
    Support.create_audit_log, Support.seal_secret, Support.generate_random_key, Support.generate_signing_secret,
    Support.now_utc, Support.new_v4, read; writes_tac.
Qed.

Lemma writes_handle req : lawful (handle app req).
Proof.
  destruct (route api_routes (Middleware.rq_method req) (path_of (Middleware.rq_target req)).1)
    as [params r| |] eqn:Hr.
  3:{ rewrite (handle_public app req Hr). unfold serve_public, ReadOnly.readiness_check, Master.get,
      Feed.serve_feed, Feed.check_access, Feed.respond, Feed.limit, Middleware.client_ip_of,
      Middleware.check_bound_ips. writes_tac. }
  all: rewrite (handle_api app req _ Hr) by done; apply always_at_bind;
    [unfold Middleware.auth_middleware, Middleware.verify_request, Middleware.check_binding,
      Middleware.client_ip_of, Middleware.check_bound_ips, Middleware.check_replay, Master.authenticate,
      Master.resolve, Master.get, Master.resolve_inner, Master.set_and_get, read; writes_tac|].
  all: intros [[ip key]|e]; [|apply always_at_ret]; unfold serve_api; writes_tac; apply writes_dispatch.
Qed.

Lemma writes_sync_all : lawful (Sync.sync_all_endpoints app).
Proof.
  assert (forall client eps, lawful (Sync.sync_each client eps)) as Heach.
  { intros client eps. induction eps as [|ep eps IH]; cbn [Sync.sync_each]; [apply always_at_ret|].
    apply always_at_bind; [|intros [[]|]; [done|apply always_at_ret]]. unfold Sync.sync_endpoint, Sync.mark_synced, Sync.full_sync_due, Sync.fetch,
      Sync.apply_full, Sync.apply_diff, Support.now_utc, read. writes_tac. }
  unfold Sync.sync_all_endpoints. writes_tac.
Qed.

Lemma writes_task p : task app p -> lawful p.
Proof.
  intros [req| |n|n|n].
  - apply always_at_bind; [apply writes_handle|intros; apply always_at_ret].
  - assert (forall names failed, lawful (prime_steps names failed)) as Hprime.
    { induction names as [|x names IH]; intros failed; cbn [prime_steps]; [apply always_at_ret|].
      apply always_at_bind; [writes_tac|intros; apply IH]. }
    unfold finish, prime_with_grace. writes_tac.
  - induction n as [|n IH]; cbn [Sync.sync_worker]; [apply always_at_ret|].
    apply always_at_bind; [apply writes_sync_all|]. intros [[]|]; [done|apply always_at_ret].
  - apply Frame.always_at_boot_sync, writes_sync_all.
  - induction n as [|n IH]; cbn [Sync.cleanup_worker]; [apply always_at_ret|]. apply always_at_bind; [|done].
    unfold Sync.cleanup_stale_group_permissions, Groups.vault_list_groups. writes_tac.
Qed.

Lemma history_writes w h w' ps :
  history (task app) (w, []) h (w', ps) -> linked w h w' /\ Forall (fun s => writes s.1.1 s.1.2 s.2) h.
Proof. intros Hh. by apply (history_always writes) in Hh; [|apply writes_task|constructor]. Qed.

End tasks.

(** ** The audit log *)

(** What a step may do to the entries there are: nothing, or, where it deletes the
    key an entry refers to, clear that reference. *)
Definition audit_kept (d d' : Db.Database) : Prop :=
  forall id a, Db.audit_logs d !! id = Some a ->
    Db.audit_logs d' !! id = Some a \/
    exists k, Db.a_api_key_id a = Some k /\ is_Some (Db.api_keys d !! k) /\ Db.api_keys d' !! k = None /\
      Db.audit_logs d' !! id = Some (Db.set_audit_key None a).

Section audit.
Context {L : IpNetLib} {C : CryptoLib} {Ch : ChronoLib} {U : UuidLib} {J : Vault.JsonLib} {Ax : Extract.AxumLib}.
Context (app : AppConfig).

Lemma audit_same d d' : Db.audit_logs d' = Db.audit_logs d -> audit_kept d d'.
Proof. intros Heq id a Ha. left. by rewrite Heq. Qed.

Lemma insert_audit_kept a d : forall id b, Db.audit_logs d !! id = Some b ->
  Db.audit_logs (Db.insert_audit a d).2 !! id = Some b.
Proof.
  intros id b Hb. unfold Db.insert_audit. case_bool_decide as Hnew; [done|]. destruct (negb _); [done|].
  simpl. rewrite lookup_insert_ne; [done|]. intros <-. by apply Hnew.
Qed.

Lemma insert_audit_keys a d : Db.api_keys (Db.insert_audit a d).2 = Db.api_keys d.
Proof. unfold Db.insert_audit. by repeat case_match. Qed.

Lemma delete_txn_kept caller ip id q res now t d d' :
  Keys.delete_key_txn caller ip id q res now t d = (Ok tt, d') -> audit_kept d d'.
Proof.
  intros (d1 & d2 & details & Hre & Hdel & Hins)%delete_key_txn_Ok.
  assert (Db.audit_logs d1 = Db.audit_logs d /\ Db.api_keys d1 = Db.api_keys d) as [Ha1 Hk1].
  { destruct Hre as [(to & target & n & _ & _ & Hre)|(_ & _ & ->)]; [|done].
    unfold Db.reassign_endpoints in Hre. destruct (negb _); by simplify_eq/=. }
  unfold Db.delete_key in Hdel. destruct (Db.api_keys d1 !! id) as [k|] eqn:Hk; [|done]. injection Hdel as <-.
  set (d2 := Db.mkDatabase _ _ _ _) in *. rewrite Hk1 in Hk.
  assert (d' = (Db.insert_audit (Support.audit_row caller ip "KEY_DELETE" (Some res) details t) d2).2) as ->
    by by rewrite Hins.
  intros aid a Ha.
  assert (Db.audit_logs d2 !! aid
    = Some (if bool_decide (Db.a_api_key_id a = Some id) then Db.set_audit_key None a else a)) as Ha2.
  { unfold d2. cbn [Db.audit_logs]. by rewrite lookup_fmap, Ha1, Ha. }
  apply (insert_audit_kept (Support.audit_row caller ip "KEY_DELETE" (Some res) details t)) in Ha2.
  case_bool_decide as Hid; [right|by left]. exists id. split_and!; [done|by eexists| |done].
  rewrite insert_audit_keys. unfold d2. cbn [Db.api_keys]. by rewrite lookup_delete_eq.
Qed.

Lemma change_kept d d' : change d d' -> audit_kept d d'.
Proof.
  intros []; try (apply audit_same; unfold Db.insert_key, Db.update_key, Db.insert_endpoint, Db.update_endpoint,
    Db.delete_endpoint, Db.insert_grant, Db.delete_grants; by repeat case_match).
  - by eapply delete_txn_kept.
  - intros id b Hb. left. by apply insert_audit_kept.
Qed.

(** C22. The audit log is append-only: in every history of the service, whoever makes
    the requests, an entry once written keeps its id, its time, its actor's name,
    prefix and address, its action, its target and its details.  Only its reference
    to the key may become empty, and then a step of the history deleted that key. *)
Theorem audit_log_append_only w h w' ps :
  history (task app) (w, []) h (w', ps) ->
  forall id a, Db.audit_logs (db w) !! id = Some a ->
    Db.audit_logs (db w') !! id = Some a \/
    Db.audit_logs (db w') !! id = Some (Db.set_audit_key None a) /\
    exists k t w1 w2, Db.a_api_key_id a = Some k /\ (t, w1, w2) ∈ h /\
      is_Some (Db.api_keys (db w1) !! k) /\ Db.api_keys (db w2) !! k = None.
Proof.
  intros [Hl HF]%history_writes id. revert w Hl.
  induction HF as [|[[t w1] w2] h Hw _ IH]; intros w Hl a Ha; cbn [linked] in Hl; [subst; by left|].
  destruct Hl as [-> Hl]. cbn [fst snd] in Hw.
  assert (audit_kept (db w) (db w2)) as Hk.
  { destruct Hw as [Heq|Hc]; [by apply audit_same; rewrite Heq|by apply change_kept]. }
  destruct (Hk id a Ha) as [Ha2|(k & Hak & Hin & Hout & Ha2)].
  - destruct (IH w2 Hl a Ha2) as [|(Hend & k & t' & v1 & v2 & Hak & Hs & Hkeys)]; [by left|right].
    split; [done|]. exists k, t', v1, v2. split_and!; [done|by right|apply Hkeys..].
  - right. split; [|exists k, t, w, w2; split_and!; [done|by left|done|done]].
    destruct (IH w2 Hl _ Ha2) as [|(_ & k' & _ & _ & _ & Hak' & _)]; done.
Qed.

End audit.

(** ** Witnesses *)

Section witnesses.
Import Ref RouterRef.

(** A request of the master, rightly signed. *)
Definition w_master_req (method target : string) : Middleware.Request := {|
  Middleware.rq_peer := Demo.client;
  Middleware.rq_headers := fun name =>
    if String.eqb name Middleware.API_KEY_HEADER then Some "mkey"
    else if String.eqb name Middleware.TIMESTAMP_HEADER then Some "1001"
    else if String.eqb name Middleware.SIGNATURE_HEADER then
      Crypto.compute_signature "msecret" (Crypto.canonical_v1_payload method target "1001" "")
    else None;
  Middleware.rq_method := method; Middleware.rq_target := target; Middleware.rq_body := Some "";
|}.

(** A log with one entry of the Daughter, who owns nothing any more. *)
Definition w_entry : Db.AuditLog :=
  Db.mkAuditLog 30 (Some 2%N) "team" "dkey" "203.0.113.9" "ENDPOINT_DELETE" None None 7.
Definition w_logged : World :=
  set_db Demo.start (Db.with_audit (Db.with_endpoints Demo.database ∅) {[30%N := w_entry]}).

Definition w_delete : prog unit := finish (handle Demo.service (w_master_req "DELETE" "/api/keys/2")).

(** The key is deleted; the entry stays. *)
Example w_deleted :
  bool_decide (Db.api_keys (db (after Demo.tick w_delete w_logged)) !! 2%N = None) = true /\
  bool_decide (Db.a_api_key_id <$> Db.audit_logs (db (after Demo.tick w_delete w_logged)) !! 30%N = Some None) = true.
Proof. by vm_compute. Qed.

Lemma audit_log_append_only_witness :
  Db.audit_logs (db (after Demo.tick w_delete w_logged)) !! 30%N = Some w_entry \/
  Db.audit_logs (db (after Demo.tick w_delete w_logged)) !! 30%N = Some (Db.set_audit_key None w_entry).
Proof.
  destruct (history_alone (task Demo.service) Demo.tick w_delete 0 w_logged []) as [a Hh]; [constructor|].
  destruct (audit_log_append_only Demo.service _ _ _ _ Hh 30%N w_entry eq_refl) as [H|[H _]];
    [left; exact H|right; exact H].
Defined.

End witnesses.

End Writes.
