(* ===== verification/Stored.v ===== *)
(** * What the stored rows look like

    The handlers validate what they write and later code relies on it: bindings are
    parsed again at every request, secrets are opened again, a [ttl_seconds] is
    added to a clock.  [db_valid] is what the validations promise of every row, at
    the width of its column.  Theorems: every history of the service keeps it, from
    the bytes of a request to the row; so the [500]s that stand for an unreadable
    row are never answered; and the one row that is written without validation,
    the bootstrap master, breaks it for ever when [BOOTSTRAP_SUBNET] does not
    parse. *)

From S2P Require Import Prelude.
From S2P Require Import RustStr.
From S2P Require Import Net.
From S2P Require Import Libs.
From S2P Require Import LibsRef.
From S2P Require Import Cache.
From S2P Require Import Crypto.
From S2P Require Import VaultClient.
From S2P Require Import DnsCache.
From S2P Require Import Http.
From S2P Require Import Config.
From S2P Require Import Db.
From S2P Require Import App.
From S2P Require Import Logic.
From S2P Require Import Demo.
From S2P Require Import Auth.
From S2P Require Import ApiKeys.
From S2P Require Import ApiEndpoints.
From S2P Require Import Extract.
From S2P Require Import Feed.
From S2P Require Import Router.
From S2P Require Import System.
From S2P Require Import Frame.
Import App Logic Router System.
#[local] Open Scope Z_scope.
#[local] Open Scope rust_scope.
#[local] Open Scope prog_scope.

Module Stored.

(** ** Rows *)

Section rows.
Context {L : IpNetLib} {C : CryptoLib}.

Definition i32_max : Z := 2 ^ 31 - 1.

Definition named (s : string) : bool := negb (Str.is_empty (Str.trim s)).

(** A [bound_ips] column that can be read back. *)
Definition binding_ok (o : option string) : bool :=
  match o with Some raw => is_ok (Dns.parse_bound_ips raw) | None => true end.

(** A [signing_secret] column that can be opened. *)
Definition secret_ok (c : Crypto.SecretCipher) (o : option string) : bool :=
  match o with Some stored => is_ok (Crypto.open c stored) | None => true end.

Definition key_ok (c : Crypto.SecretCipher) (k : Db.ApiKey) : bool :=
  named (Db.k_name k) && binding_ok (Db.k_bound_ips k) && secret_ok c (Db.k_signing_secret k).

Definition endpoint_ok (e : Db.Endpoint) : bool :=
  named (Db.e_name e) && is_ok (Endpoints.validate_groups (Db.e_vault_groups e)) &&
  binding_ok (Db.e_bound_ips e) &&
  (0 <? Db.e_ttl_seconds e) && (Db.e_ttl_seconds e <=? i32_max) &&
  (0 <=? Db.e_max_age_seconds e) && (Db.e_max_age_seconds e <=? i64_max).

Definition db_valid (c : Crypto.SecretCipher) (d : Db.Database) : Prop :=
  map_Forall (fun _ k => key_ok c k = true) (Db.api_keys d) /\
  map_Forall (fun _ e => endpoint_ok e = true) (Db.endpoints d).

(** ** Statements *)

Definition keeps_valid {A} (c : Crypto.SecretCipher) (f : Db.Database -> result A Db.DbErr * Db.Database)
  : Prop := forall d, db_valid c d -> db_valid c (f d).2.

Lemma valid_insert_key c k : key_ok c k = true -> keeps_valid c (Db.insert_key k).
Proof.
  intros Hk d [H1 H2]. unfold Db.insert_key. case_match; [done|]. split; [|done].
  by apply map_Forall_insert_2.
Qed.

Lemma valid_update_key c id set :
  (forall k, key_ok c k = true -> key_ok c (set k) = true) -> keeps_valid c (Db.update_key id set).
Proof.
  intros Hs d [H1 H2]. unfold Db.update_key. destruct (Db.api_keys d !! id) as [k|] eqn:Hk; [|done].
  case_match; [done|]. split; [|done]. apply map_Forall_insert_2; [|done]. apply Hs, (H1 _ _ Hk).
Qed.

Lemma valid_insert_endpoint c e : endpoint_ok e = true -> keeps_valid c (Db.insert_endpoint e).
Proof.
  intros He d [H1 H2]. unfold Db.insert_endpoint. case_match; [done|]. case_match; [done|].
  split; [done|]. by apply map_Forall_insert_2.
Qed.

Lemma valid_update_endpoint c id set :
  (forall e, endpoint_ok e = true -> endpoint_ok (set e) = true) -> keeps_valid c (Db.update_endpoint id set).
Proof.
  intros Hs d [H1 H2]. unfold Db.update_endpoint. destruct (Db.endpoints d !! id) as [e|] eqn:He; [|done].
  case_match; [done|]. case_match; [done|]. split; [done|]. apply map_Forall_insert_2; [|done].
  apply Hs, (H2 _ _ He).
Qed.

Lemma valid_delete_endpoint c id : keeps_valid c (Db.delete_endpoint id).
Proof.
  intros d [H1 H2]. unfold Db.delete_endpoint. case_match; [|done]. split; [done|].
  by apply map_Forall_delete.
Qed.

Lemma valid_endpoints_fmap (f : Db.Endpoint -> Db.Endpoint) (m : gmap Uuid Db.Endpoint) :
  (forall e, endpoint_ok e = true -> endpoint_ok (f e) = true) ->
  map_Forall (fun _ e => endpoint_ok e = true) m -> map_Forall (fun _ e => endpoint_ok e = true) (f <$> m).
Proof. intros Hf Hm. apply map_Forall_fmap. intros i e He. apply Hf, (Hm _ _ He). Qed.

Lemma valid_reassign c from to now : keeps_valid c (Db.reassign_endpoints from to now).
Proof.
  intros d [H1 H2]. unfold Db.reassign_endpoints. case_match; [done|]. split; [done|].
  apply valid_endpoints_fmap; [|done]. intros e He. by case_bool_decide.
Qed.

Lemma valid_delete_key c id : keeps_valid c (Db.delete_key id).
Proof.
  intros d [H1 H2]. unfold Db.delete_key. case_match; [|done]. split; [by apply map_Forall_delete|].
  apply valid_endpoints_fmap; [|done]. intros e He. by case_bool_decide.
Qed.

Lemma valid_insert_audit c a : keeps_valid c (Db.insert_audit a).
Proof. intros d Hd. unfold Db.insert_audit. case_match; [done|]. by case_match. Qed.

Lemma valid_insert_grant c g : keeps_valid c (Db.insert_grant g).
Proof. intros d Hd. unfold Db.insert_grant. case_match; [done|]. by case_match. Qed.

Lemma valid_delete_grants c ids : keeps_valid c (Db.delete_grants ids).
Proof. by intros d Hd. Qed.

End rows.

Create HintDb valid discriminated.
#[export] Hint Resolve valid_insert_audit valid_insert_grant valid_delete_grants valid_delete_endpoint : valid.

(** ** Programs *)

Section programs.
Context {L : IpNetLib} {C : CryptoLib} {U : UuidLib} {J : Vault.JsonLib} {Ax : Extract.AxumLib}.
Context {CL : CryptoLaws C} (app : AppConfig).

(** The random source fills the nonce it is asked for. *)
Definition tick_ok (t : Tick) : Prop := String.length (random t Crypto.NONCE_LEN) = Crypto.NONCE_LEN.

Definition valid (w : World) : Prop := db_valid (cipher app) (db w).

Lemma valid_stmt {A} (f : Db.Database -> result A Db.DbErr * Db.Database) :
  keeps_valid (cipher app) f -> inv tick_ok valid (stmt f) any.
Proof.
  intros Hf. apply inv_step_any. intros t w _ Hw. destruct (db_faults t 0); [done|].
  specialize (Hf (db w) Hw). by destruct (f (db w)).
Qed.

Lemma valid_query {A} (f : Db.Database -> A) : inv tick_ok valid (query f) any.
Proof. apply valid_stmt. by intros d. Qed.

Lemma valid_read {A} (f : Tick -> A) : inv tick_ok valid (read f) any.
Proof. by apply inv_read. Qed.

Lemma valid_txn {A} (body : Tick -> Db.Database -> result A AppError * Db.Database) :
  (forall t d a d', db_valid (cipher app) d -> body t d = (Ok a, d') -> db_valid (cipher app) d') ->
  inv tick_ok valid (txn body) any.
Proof.
  intros Hb. apply inv_step_any. intros t w _ Hw. destruct (db_faults t 0); [done|].
  destruct (body t (db w)) as [[a|e] d] eqn:Hd; [|done]. destruct (db_faults t 1); [done|].
  exact (Hb _ _ _ _ Hw Hd).
Qed.

Lemma valid_audit caller ip action res det :
  inv tick_ok valid (Support.create_audit_log caller ip action res det) any.
Proof.
  apply inv_bind_any; [apply valid_read|]. intros row. apply inv_bind_ok_any; [|done].
  apply valid_stmt, valid_insert_audit.
Qed.

Lemma spec_cut {A} W R n (p : prog A) : spec W R p any -> spec W R (Sync.cut n p) any.
Proof.
  revert p. induction n as [|n IH]; intros [a|B f k] Hp; simpl; try done.
  intros t w Hw. destruct (Hp t w Hw). eauto.
Qed.

Lemma spec_boot_sync W R n :
  spec W R (Sync.sync_all_endpoints app) any -> spec W R (finish (Sync.run_boot_sync app n)) any.
Proof.
  intros Hp. unfold finish, Sync.run_boot_sync. destruct (vault_client app); [|done].
  apply (spec_bind _ _ _ _ any); [|done]. eapply spec_bind; [by apply spec_cut|done].
Qed.

(** A secret that was sealed can be opened. *)
Lemma valid_seal secret :
  Str.is_utf8 secret = true ->
  inv tick_ok valid (Support.seal_secret app secret)
    (fun r => forall s, r = Ok s -> secret_ok (cipher app) (Some s) = true).
Proof.
  intros Hu. eapply spec_bind; [apply (inv_read tick_ok valid _ (fun n => String.length n = Crypto.NONCE_LEN)); done|].
  intros nonce Hn s Hs. destruct (Crypto.seal (cipher app) nonce secret) as [x|] eqn:Hx; simplify_eq/=.
  destruct (Crypto.seal_open _ _ _ _ Hu Hn Hx) as [-> _]. done.
Qed.

End programs.

#[export] Hint Resolve valid_query valid_read valid_audit : valid.

(** The steps that leave the database alone, and the ones with a hint. *)
Ltac valid_tac := inv_walk ltac:(first
  [ solve [auto 2 with valid]
  | apply valid_stmt; solve [auto 3 with valid]
  | apply inv_step_any; intros ?t ?w _ ?Hw; unfold valid in *; repeat case_match; simplify_eq/=; done ]).

Section handlers.
Context {L : IpNetLib} {C : CryptoLib} {U : UuidLib} {J : Vault.JsonLib} {Ax : Extract.AxumLib}.
Context {CL : CryptoLaws C} {AL : Extract.AxumLaws Ax} (app : AppConfig).
#[local] Abbreviation ok p := (inv tick_ok (valid app) p any).

(** *** Keys *)

Lemma validate_opt_ok o : Keys.validate_opt o = Ok tt -> binding_ok o = true.
Proof.
  destruct o as [raw|]; [|done]. simpl. unfold Dns.validate_bound_ips.
  by destruct (Dns.parse_bound_ips raw).
Qed.

Lemma trimmed_ok trimmed :
  (if Str.is_empty trimmed then Ok tt
   else map_err Keys.bound_ips_error (Dns.validate_bound_ips trimmed)) = Ok tt ->
  binding_ok (if Str.is_empty trimmed then None else Some trimmed) = true.
Proof. destruct (Str.is_empty trimmed); [done|]. apply (validate_opt_ok (Some trimmed)). Qed.

Lemma valid_create_key caller ip p : ok (Keys.create_api_key app caller ip p).
Proof.
  unfold Keys.create_api_key. apply spec_lift; [intros _ _|done].
  destruct (Str.is_empty (Str.trim (Keys.ck_name p))) eqn:Hname; [done|]. cbv zeta.
  apply spec_lift; [intros [] Hb%validate_opt_ok|done].
  apply inv_bind_any; [apply valid_read|]. intros key.
  eapply spec_bind; [apply (inv_read tick_ok (valid app) _ (fun s => Str.is_utf8 s = true));
    intros; apply Crypto.hex_utf8|]. intros secret Hu. cbv beta.
  apply inv_bind_any; [apply valid_read|]. intros now.
  apply inv_bind_any; [apply valid_read|]. intros id.
  eapply spec_bind_ok; [by apply valid_seal| |done]. intros sealed Hs. cbv beta.
  apply inv_bind_ok_any; [|intros; valid_tac]. apply valid_stmt, valid_insert_key.
  unfold key_ok, named. simpl. rewrite Hname, Hb. by apply Hs.
Qed.

(** What [bound] of an update assigns. *)
Lemma bound_change_ok {K} (set : option string -> K -> K) o (ch : (K -> K) * list string) :
  match o with
  | Some raw =>
      let trimmed := Str.trim raw in
      let? _ := (if Str.is_empty trimmed then Ok tt
                 else map_err Keys.bound_ips_error (Dns.validate_bound_ips trimmed)) in
      Ok (set (if Str.is_empty trimmed then None else Some trimmed), ["bound_ips"])
  | None => Ok (fun k => k, [])
  end = Ok ch ->
  ch.1 = (fun k => k) \/ exists b, ch.1 = set b /\ binding_ok b = true.
Proof.
  destruct o as [raw|]; cbv zeta; [|intros [= <-]; by left].
  destruct (if Str.is_empty (Str.trim raw) then _ else _) as [[]|e] eqn:Ht; [|done].
  intros [= <-]. right. eexists. split; [done|by apply trimmed_ok].
Qed.

Lemma key_changes_ok p ch k :
  Keys.key_changes p = Ok ch -> key_ok (cipher app) k = true -> key_ok (cipher app) (ch.1 k) = true.
Proof.
  unfold Keys.key_changes. intros Hc Hk.
  destruct (match Keys.uk_name p with Some _ => _ | None => _ end) as [f|] eqn:Hf; [|done].
  destruct (match Keys.uk_bound_ips p with Some _ => _ | None => _ end) as [g|] eqn:Hg; [|done].
  apply bound_change_ok in Hg. simplify_eq/=.
  assert (key_ok (cipher app) (f.1 k) = true) as Hfk.
  { destruct (Keys.uk_name p) as [n|]; [|by simplify_eq]. destruct (Str.is_empty (Str.trim n)) eqn:Hn; simplify_eq/=.
    unfold key_ok, named in *. simpl. rewrite Hn. apply andb_true_iff in Hk as [[_ Hb]%andb_true_iff Hs].
    simpl. by rewrite Hb. }
  assert (key_ok (cipher app) (g.1 (f.1 k)) = true) as Hgk.
  { destruct Hg as [->|(b & -> & Hb)]; [done|]. unfold key_ok in *. simpl. rewrite Hb.
    apply andb_true_iff in Hfk as [[Hn _]%andb_true_iff Hs]. simpl. by rewrite Hn. }
  by destruct (Keys.uk_can_manage_keys p).
Qed.

Lemma valid_update_api_key caller ip id p : ok (Keys.update_api_key caller ip id p).
Proof.
  unfold Keys.update_api_key, Keys.find_key, Support.now_utc. valid_tac.
  apply valid_stmt, valid_update_key. intros k Hk. by eapply (key_changes_ok p).
Qed.

Lemma valid_delete_api_key caller ip id q : ok (Keys.delete_api_key caller ip id q).
Proof.
  unfold Keys.delete_api_key, Keys.find_key, Support.now_utc. valid_tac.
  apply valid_txn. intros t d [] d' Hd (d1 & d2 & det & H1 & H2 & H3)%delete_key_txn_Ok.
  assert (db_valid (cipher app) d1) as Hd1.
  { destruct H1 as [(to & target & n & _ & _ & Hr)|(_ & _ & ->)]; [|done].
    replace d1 with (Db.reassign_endpoints id (Db.k_id target) a2 d).2 by (by rewrite Hr). by apply valid_reassign. }
  replace d' with (Db.insert_audit (Support.audit_row caller ip "KEY_DELETE"
    (Some (Support.describe_resource "api_key" (Db.k_id a0) (Db.k_name a0))) det t) d2).2 by (by rewrite H3).
  apply valid_insert_audit. replace d2 with (Db.delete_key id d1).2 by (by rewrite H2). by apply valid_delete_key.
Qed.

(** A freshly generated secret, sealed, in an update that touches no other checked column. *)
Lemma valid_fresh_secret {B} (k : string -> string -> prog (result B AppError)) :
  (forall secret sealed, secret_ok (cipher app) (Some sealed) = true -> ok (k secret sealed)) ->
  ok (let* secret := Support.generate_signing_secret in
      let! sealed := Support.seal_secret app secret in k secret sealed).
Proof.
  intros Hk. eapply spec_bind; [apply (inv_read tick_ok (valid app) _ (fun s => Str.is_utf8 s = true));
    intros; apply Crypto.hex_utf8|]. intros secret Hu. cbv beta.
  eapply spec_bind_ok; [by apply valid_seal| |done]. intros sealed Hs. by apply Hk, Hs.
Qed.

Lemma valid_set_secret k sealed :
  secret_ok (cipher app) (Some sealed) = true -> key_ok (cipher app) k = true ->
  key_ok (cipher app) (Db.set_key_signing_secret (Some sealed) k) = true.
Proof.
  intros Hs Hk. unfold key_ok in *. apply andb_true_iff in Hk as [Hk _].
  apply andb_true_iff. by split.
Qed.

Lemma valid_rotate_key caller ip id : ok (Keys.rotate_api_key app caller ip id).
Proof.
  unfold Keys.rotate_api_key, Keys.find_key, Support.now_utc.
  apply spec_lift; [intros _ _|done]. apply inv_bind_ok_any; [valid_tac|intros existing].
  apply spec_lift; [intros _ _|done]. apply inv_bind_any; [apply valid_read|intros key].
  apply valid_fresh_secret. intros secret sealed Hs. valid_tac.
  apply valid_stmt, valid_update_key. intros k Hk. by apply (valid_set_secret k sealed Hs).
Qed.

Lemma valid_rotate_secret caller ip id : ok (Keys.rotate_signing_secret app caller ip id).
Proof.
  unfold Keys.rotate_signing_secret, Keys.find_key, Support.now_utc.
  apply spec_lift; [intros _ _|done]. apply inv_bind_ok_any; [valid_tac|intros existing].
  apply spec_lift; [intros _ _|done]. apply valid_fresh_secret. intros secret sealed Hs. valid_tac.
  apply valid_stmt, valid_update_key. intros k Hk. by apply (valid_set_secret k sealed Hs).
Qed.

(** *** Endpoints *)

(** What the decoders promise of the numbers in a request. *)
Definition in_i32 (o : option Z) : Prop := forall z, o = Some z -> z <= i32_max.
Definition in_i64 (o : option Z) : Prop := forall z, o = Some z -> z <= i64_max.

Definition call_typed (call : ApiCall) : Prop :=
  match call with
  | CreateEndpoint p => in_i32 (Endpoints.ce_ttl_seconds p) /\ in_i64 (Endpoints.ce_max_age_seconds p)
  | UpdateEndpoint _ p => in_i32 (Endpoints.ue_ttl_seconds p) /\ in_i64 (Endpoints.ue_max_age_seconds p)
  | _ => True
  end.

Lemma as_int_bound lo hi v z : Extract.as_int lo hi v = Some z -> lo <= z <= hi.
Proof.
  destruct v; simpl; try done. destruct (_ && _) eqn:Hb; [|done]. intros [= <-].
  apply andb_true_iff in Hb as [?%Z.leb_le ?%Z.leb_le]. done.
Qed.

Lemma optional_bound lo hi s o z :
  Extract.optional (Extract.as_int lo hi) s = Some o -> o = Some z -> z <= hi.
Proof.
  intros Ho ->. unfold Extract.optional in Ho.
  destruct s as [v| |]; try done. destruct v; try done. cbn in Ho.
  destruct (_ && _) eqn:Hb in Ho; simplify_eq/=. apply andb_true_iff in Hb as [_ ?%Z.leb_le]. done.
Qed.

Lemma decoded_create v p :
  Extract.CreateEndpointPayload_deserialize v = Some p -> call_typed (CreateEndpoint p).
Proof.
  unfold Extract.CreateEndpointPayload_deserialize.
  destruct (Extract.slots _ v) as [[|s1 [|s2 [|s3 [|s4 [|s5 [|s6 [|s7 [|s8 [|s9 [|]]]]]]]]]]|]; try done.
  intros Hp. repeat (apply bind_Some in Hp as (? & ? & Hp)). simplify_eq/=.
  split; intros z; by eapply optional_bound.
Qed.

Lemma decoded_update v p id :
  Extract.UpdateEndpointPayload_deserialize v = Some p -> call_typed (UpdateEndpoint id p).
Proof.
  unfold Extract.UpdateEndpointPayload_deserialize.
  destruct (Extract.slots _ v) as [[|s1 [|s2 [|s3 [|s4 [|s5 [|s6 [|s7 [|s8 [|s9 [|]]]]]]]]]]|]; try done.
  intros Hp. repeat (apply bind_Some in Hp as (? & ? & Hp)). simplify_eq/=.
  split; intros z; by eapply optional_bound.
Qed.

Lemma strict_json_decoded {T} (decode : Extract.Json -> option T) h b t :
  Extract.StrictJson decode h b = Ok t -> exists v, decode v = Some t.
Proof.
  unfold Extract.StrictJson. destruct (Extract.axum_json decode h b) as [x|[]] eqn:Hx; try done.
  intros [= <-]. apply Extract.json_accepts in Hx as (v & _ & Hv). eauto.
Qed.

Lemma with_id_Ok params (f : Uuid -> result ApiCall AppError) call : with_id params f = Ok call -> exists id, f id = Ok call.
Proof. unfold with_id. destruct params as [|s [|]]; try done. destruct (Extract.StrictPath s); [eauto|done]. Qed.

Lemma let_ok {A E B} (r : result A E) (f : A -> B) b : (let? x := r in Ok (f x)) = Ok b -> exists x, r = Ok x /\ b = f x.
Proof. destruct r; [|done]. intros [= <-]. eauto. Qed.

Lemma extract_typed r params query h body call :
  extract r params query h body = Ok call -> call_typed call.
Proof.
  destruct r; cbn [extract]; intros Hx;
    try (apply with_id_Ok in Hx as [id Hx]); try (apply let_ok in Hx as (p & Hp & ->)); simplify_eq; try exact I.
  - apply strict_json_decoded in Hp as [v Hv]. by eapply decoded_create.
  - apply strict_json_decoded in Hp as [v Hv]. by eapply (decoded_update v).
  - by destruct params as [|? [|? []]]; simplify_eq.
Qed.

Lemma endpoint_ok_iff e :
  endpoint_ok e = true <->
  named (Db.e_name e) = true /\ is_ok (Endpoints.validate_groups (Db.e_vault_groups e)) = true /\
  binding_ok (Db.e_bound_ips e) = true /\ 0 < Db.e_ttl_seconds e <= i32_max /\
  0 <= Db.e_max_age_seconds e <= i64_max.
Proof. unfold endpoint_ok. rewrite !andb_true_iff, Z.ltb_lt, !Z.leb_le. tauto. Qed.

Lemma validate_max_age_ok z : Endpoints.validate_max_age z = Ok tt -> 0 <= z.
Proof. unfold Endpoints.validate_max_age. destruct (Z.ltb_spec z 0); [done|lia]. Qed.

Lemma valid_group_access caller groups : ok (Endpoints.validate_group_access caller groups).
Proof. unfold Endpoints.validate_group_access, Groups.granted_group_names. valid_tac. Qed.

Lemma valid_create_endpoint caller ip p :
  call_typed (CreateEndpoint p) -> ok (Endpoints.create_endpoint caller ip p).
Proof.
  intros [Ht Ha]. unfold Endpoints.create_endpoint.
  destruct (Str.is_empty (Str.trim (Endpoints.ce_name p))) eqn:Hname; [done|].
  apply spec_lift; [intros [] Hg|done]. apply inv_bind_ok_any; [apply valid_group_access|intros _]. cbv zeta.
  apply spec_lift; [intros [] Hb%validate_opt_ok|done].
  destruct (Z.leb_spec (default 3600 (Endpoints.ce_ttl_seconds p)) 0) as [|Httl]; [done|].
  apply spec_lift; [intros [] Hage%validate_max_age_ok|done].
  unfold Support.now_utc, Support.new_v4, Endpoints.generate_token_secret.
  apply inv_bind_any; [apply valid_read|intros now]. apply inv_bind_any; [apply valid_read|intros id].
  apply inv_bind_any; [apply valid_read|intros token]. apply inv_bind_ok_any; [|intros; valid_tac].
  apply valid_stmt, valid_insert_endpoint, endpoint_ok_iff. cbn. unfold named. rewrite Hname, Hg, Hb.
  split_and!; try done.
  - destruct (Endpoints.ce_ttl_seconds p) as [z|]; [by apply Ht|done].
  - destruct (Endpoints.ce_max_age_seconds p) as [z|]; [by apply Ha|done].
Qed.

Lemma text_changes_ok p ch e :
  Endpoints.text_changes p = Ok ch -> endpoint_ok e = true -> endpoint_ok (ch.1 e) = true.
Proof.
  unfold Endpoints.text_changes. intros Hc He.
  destruct (match Endpoints.ue_name p with Some _ => _ | None => _ end) as [f|] eqn:Hf; [|done]. simplify_eq/=.
  assert (endpoint_ok (f.1 e) = true) as Hfe; [|by destruct (Endpoints.ue_description p)].
  destruct (Endpoints.ue_name p) as [n|]; [|by simplify_eq].
  destruct (Str.is_empty (Str.trim n)) eqn:Hn; simplify_eq/=. rewrite endpoint_ok_iff in *. cbn.
  unfold named at 1. by rewrite Hn; destruct_and!.
Qed.

Lemma group_changes_ok caller p :
  inv tick_ok (valid app) (Endpoints.group_changes caller p)
    (fun r => forall ch, r = Ok ch -> forall e, endpoint_ok e = true -> endpoint_ok (ch.1 e) = true).
Proof.
  unfold Endpoints.group_changes. destruct (Endpoints.ue_vault_groups p) as [g|]; [|by intros ch [= <-]].
  apply spec_lift; [intros [] Hg|done].
  eapply spec_bind_ok; [apply valid_group_access|intros _ _|done].
  intros ch [= <-] e. rewrite !endpoint_ok_iff. cbn. rewrite Hg. tauto.
Qed.

Lemma policy_changes_ok p ch e id :
  call_typed (UpdateEndpoint id p) -> Endpoints.policy_changes p = Ok ch ->
  endpoint_ok e = true -> endpoint_ok (ch.1 e) = true.
Proof.
  intros [Ht Ha] Hc He. unfold Endpoints.policy_changes in Hc.
  destruct (match Endpoints.ue_ttl_seconds p with Some _ => _ | None => _ end) as [f|] eqn:Hf; [|done].
  destruct (match Endpoints.ue_max_age_seconds p with Some _ => _ | None => _ end) as [g|] eqn:Hg; [|done].
  destruct (match Endpoints.ue_bound_ips p with Some _ => _ | None => _ end) as [b|] eqn:Hb; [|done].
  simplify_eq/=. apply bound_change_ok in Hb.
  assert (endpoint_ok (f.1 e) = true) as Hfe.
  { destruct (Endpoints.ue_ttl_seconds p) as [z|]; [|by simplify_eq].
    destruct (Z.leb_spec z 0); simplify_eq/=. rewrite endpoint_ok_iff in *. cbn. specialize (Ht z eq_refl). tauto. }
  assert (endpoint_ok (g.1 (f.1 e)) = true) as Hge.
  { destruct (Endpoints.ue_max_age_seconds p) as [z|]; [|by simplify_eq].
    destruct (Endpoints.validate_max_age z) as [[]|] eqn:Hz; simplify_eq/=. apply validate_max_age_ok in Hz.
    specialize (Ha z eq_refl). revert Hfe. rewrite !endpoint_ok_iff. cbn. tauto. }
  assert (endpoint_ok (b.1 (g.1 (f.1 e))) = true) as Hbe; [|exact Hbe].
  destruct Hb as [->|(o & -> & Ho)]; [done|]. revert Hge. rewrite !endpoint_ok_iff. cbn. tauto.
Qed.

Lemma valid_update_ep caller ip id p :
  call_typed (UpdateEndpoint id p) -> ok (Endpoints.update_endpoint caller ip id p).
Proof.
  intros Ht. unfold Endpoints.update_endpoint, Endpoints.find_endpoint, Support.now_utc.
  apply inv_bind_ok_any; [valid_tac|intros existing]. destruct (negb _); [done|].
  apply spec_lift; [intros text Htext|done].
  eapply spec_bind_ok; [apply group_changes_ok|intros groups Hgroups|done].
  apply spec_lift; [intros policy Hpolicy|done].
  apply inv_bind_any; [apply valid_read|intros now]. apply inv_bind_ok_any; [|intros; valid_tac].
  apply valid_stmt, valid_update_endpoint. intros e He.
  assert (endpoint_ok (policy.1 (groups.1 (text.1 e))) = true) as Hok; [|exact Hok].
  eapply policy_changes_ok; [done..|]. eapply Hgroups; [done|]. by eapply text_changes_ok.
Qed.

Lemma valid_reassign_owner caller ip id p : ok (Endpoints.reassign_endpoint_owner caller ip id p).
Proof.
  unfold Endpoints.reassign_endpoint_owner, Endpoints.find_endpoint, Support.now_utc. valid_tac.
  all: apply valid_stmt, valid_update_endpoint; by intros e He.
Qed.

Lemma valid_dispatch call caller ip : call_typed call -> ok (dispatch app call caller ip).
Proof.
  intros Ht. destruct call; cbn [dispatch]; unfold answer; try done; (apply inv_bind_ok_any; [|done]).
  - apply valid_create_key.
  - unfold Keys.list_api_keys. valid_tac.
  - apply valid_update_api_key.
  - apply valid_delete_api_key.
  - apply valid_rotate_key.
  - apply valid_rotate_secret.
  - by apply valid_create_endpoint.
  - unfold Endpoints.list_endpoints. valid_tac.
  - by apply valid_update_ep.
  - unfold Endpoints.delete_endpoint, Endpoints.find_endpoint, Endpoints.evict_cache. valid_tac.
  - apply valid_reassign_owner.
  - unfold ReadOnly.list_audit_logs. valid_tac.
  - unfold Groups.list_vault_groups, Groups.live_groups, Groups.vault_list_groups. valid_tac.
  - unfold Groups.list_key_groups. valid_tac.
  - unfold Groups.grant_key_group, Keys.find_key, Groups.live_groups, Groups.vault_list_groups,
      Support.now_utc, Support.new_v4. valid_tac.
  - unfold Groups.revoke_key_group, Keys.find_key. valid_tac.
Qed.

Lemma valid_auth req : ok (Middleware.auth_middleware app req).
Proof.
  unfold Middleware.auth_middleware, Middleware.verify_request, Middleware.check_binding,
    Middleware.client_ip_of, Middleware.check_replay, Middleware.check_bound_ips, Master.authenticate,
    Master.resolve, Master.get, Master.resolve_inner, Master.set_and_get. valid_tac.
Qed.

Lemma valid_serve_api req routed ip key : ok (serve_api app req routed ip key).
Proof.
  unfold serve_api. destruct routed as [params r| |]; [|done..].
  destruct (extract _ _ _ _ _) as [call|e] eqn:Hx; [|done].
  apply inv_bind_any; [|intros []; done]. apply valid_dispatch. by eapply extract_typed.
Qed.

Lemma valid_handle req : ok (handle app req).
Proof.
  destruct (route api_routes (Middleware.rq_method req) (path_of (Middleware.rq_target req)).1)
    as [params r| |] eqn:Hr.
  3:{ rewrite (handle_public app req Hr). unfold serve_public, ReadOnly.readiness_check, Master.get,
      Feed.serve_feed, Feed.check_access, Feed.respond, Feed.limit, Middleware.client_ip_of,
      Middleware.check_bound_ips. valid_tac. }
  all: rewrite (handle_api app req _ Hr) by done; apply inv_bind_any; [apply valid_auth|];
    intros [[ip key]|e]; [apply valid_serve_api|done].
Qed.

Lemma valid_mark_synced ep : ok (Sync.mark_synced ep).
Proof.
  unfold Sync.mark_synced, Support.now_utc. valid_tac. apply valid_stmt, valid_update_endpoint. by intros e He.
Qed.

Lemma valid_sync_endpoint client ep : ok (Sync.sync_endpoint client ep).
Proof.
  unfold Sync.sync_endpoint, Sync.full_sync_due, Sync.fetch, Sync.apply_full, Sync.apply_diff, Support.now_utc.
  valid_tac; apply valid_mark_synced.
Qed.

Lemma valid_sync_each client eps : ok (Sync.sync_each client eps).
Proof.
  induction eps as [|ep eps IH]; cbn [Sync.sync_each]; [done|].
  apply inv_bind_any; [apply valid_sync_endpoint|by intros [[]|]].
Qed.

Lemma valid_sync_all : ok (Sync.sync_all_endpoints app).
Proof. unfold Sync.sync_all_endpoints. valid_tac. apply valid_sync_each. Qed.

Lemma valid_prime names : forall failed, ok (prime_steps names failed).
Proof.
  induction names as [|x names IH]; intros failed; cbn [prime_steps]; [done|].
  apply inv_bind_any; [valid_tac|intros; apply IH].
Qed.

Lemma valid_task p : task app p -> ok p.
Proof.
  intros [req| |n|n|n].
  - apply inv_bind_any; [apply valid_handle|done].
  - unfold finish, prime_with_grace. valid_tac; apply valid_prime.
  - induction n as [|n IH]; cbn [Sync.sync_worker]; [done|]. apply inv_bind_any; [apply valid_sync_all|by intros [[]|]].
  - apply spec_boot_sync, valid_sync_all.
  - induction n as [|n IH]; cbn [Sync.cleanup_worker]; [done|]. apply inv_bind_any; [|done].
    unfold Sync.cleanup_stale_group_permissions, Groups.vault_list_groups. valid_tac.
Qed.

(** C3. Stored values keep their types and the promises of their validation: in every
    history of the service, from a database whose rows satisfy them, every key has
    a name, a binding that parses and a secret that opens, and every endpoint a
    name, a group, a binding that parses, [ttl_seconds] in [1, 2^31) and
    [max_age_seconds] in [0, 2^63), whatever bytes the requests carry. *)
Theorem stored_values_valid w h w' ps :
  history (task app) (w, []) h (w', ps) -> Forall (fun s => tick_ok s.1.1) h ->
  db_valid (cipher app) (db w) ->
  db_valid (cipher app) (db w') /\ Forall (fun s => db_valid (cipher app) (db s.1.2)) h.
Proof. intros Hh HT Hw. by apply (history_invariant tick_ok (valid app) _ _ _ _ _ valid_task Hh). Qed.

(** ** What the readers of the rows rely on *)

(** A program that only meets valid rows. *)
#[local] Abbreviation meets p Q := (spec (fun _ w => valid app w) (fun _ _ => True) p Q).

Lemma meets_step {A} (f : Tick -> World -> A * World) : meets (Step f Ret) any.
Proof. by apply spec_step. Qed.

Lemma meets_query {A} (f : Db.Database -> A) (P : A -> Prop) :
  (forall d, db_valid (cipher app) d -> P (f d)) ->
  meets (query f) (fun r => match r with Ok a => P a | Err e => e = DbError Db.Fault end).
Proof.
  intros Hf. apply spec_step. intros t w Hw. split; [done|]. destruct (db_faults t 0); [done|]. by apply Hf.
Qed.

Lemma meets_authenticate key :
  key_ok (cipher app) key = true -> meets (Master.authenticate key) (fun k => key_ok (cipher app) k = true).
Proof.
  intros Hk. unfold Master.authenticate. destruct (negb _); [done|].
  apply (spec_bind _ _ _ _ any); [|intros [p|] _; [by case_bool_decide|done]].
  unfold Master.resolve, Master.get, Master.resolve_inner, Master.set_and_get.
  eapply spec_bind; [apply meets_step|]. intros [id|] _; [done|].
  apply (spec_bind _ _ _ _ any); [|intros [id|e] _; [apply meets_step|done]].
  eapply spec_bind; [apply meets_step|]. intros [[|? []]|] _; done.
Qed.

Lemma key_ok_binding k : key_ok (cipher app) k = true -> is_ok (Dns.parse_bound_ips (default "" (Db.k_bound_ips k))) = true.
Proof.
  unfold key_ok. rewrite !andb_true_iff. intros [[_ Hb] _]. by destruct (Db.k_bound_ips k).
Qed.

Lemma key_ok_secret k e : key_ok (cipher app) k = true -> Middleware.recover_signing_secret app k = Err e -> e <> Internal.
Proof.
  unfold key_ok. rewrite !andb_true_iff. intros [_ Hs]. unfold Middleware.recover_signing_secret.
  destruct (Db.k_signing_secret k) as [stored|]; [|by intros [= <-]]. simpl in *.
  by destruct (Crypto.open (cipher app) stored).
Qed.

Context (hmac_total : forall secret payload, is_Some (hmac_sha256 secret payload)).

Lemma verify_not_internal secret payload sig e :
  map_err Middleware.reject_signature (Crypto.verify_signature secret payload sig) = Err e -> e <> Internal.
Proof.
  unfold Crypto.verify_signature. destruct (hmac_total secret payload) as [mac Hmac].
  destruct (Str.strip_prefix _ _); [|by intros [= <-]]. simpl.
  destruct (hex_decode _); [|by intros [= <-]]. simpl. rewrite Hmac. simpl.
  case_bool_decide; [done|by intros [= <-]].
Qed.

Lemma ok_or_err {A} (o : option A) (e0 e : AppError) : ok_or o e0 = Err e -> e = e0.
Proof. by destruct o; simplify_eq/=; intros [= <-]. Qed.

Lemma meets_verify req :
  meets (Middleware.verify_request app req)
    (fun r => match r with Ok who => key_ok (cipher app) who.2 = true | Err e => e <> Internal end).
Proof.
  unfold Middleware.verify_request. eapply spec_bind; [apply meets_step|]. intros ip _.
  apply spec_lift; [intros pk _|by intros e ->%ok_or_err]. apply spec_lift; [intros ts _|by intros e ->%ok_or_err].
  eapply spec_bind; [apply meets_step|]. intros now _.
  apply spec_lift; [intros _ _|intros e; unfold Middleware.validate_timestamp; repeat case_match; by intros [= <-]].
  apply spec_lift; [intros sig _|by intros e ->%ok_or_err]. cbv zeta.
  eapply spec_bind_ok; [apply (meets_query _ (fun o => forall k, o = Some k -> key_ok (cipher app) k = true))| |by intros e ->].
  { intros d [Hk _] k (_ & id & Hid)%Db.find_one_Some. apply (Hk _ _ Hid). }
  intros found Hfound. apply spec_lift; [intros row Hrow|by intros e ->%ok_or_err].
  eapply spec_bind; [apply meets_authenticate; by destruct found; simplify_eq/=; apply Hfound|].
  intros key Hkey. apply spec_lift; [intros secret _|by intros e; apply key_ok_secret].
  destruct (Middleware.declared_too_large _); [done|].
  apply spec_lift; [intros body _|intros e; unfold Middleware.to_bytes; repeat case_match; by intros [= <-]].
  apply spec_lift; [intros digest _|intros e; apply verify_not_internal].
  eapply spec_bind; [apply meets_step|]. by intros [] _.
Qed.

Lemma meets_auth req :
  meets (Middleware.auth_middleware app req) (fun r => r <> Err Internal).
Proof.
  unfold Middleware.auth_middleware. eapply spec_bind_ok; [apply meets_verify| |by intros e He [= ->]].
  intros [ip key] Hk. apply key_ok_binding in Hk. unfold Middleware.check_binding. cbn [fst snd] in *.
  apply spec_lift; [intros entries _|intros e He; by destruct (Dns.parse_bound_ips _)].
  apply (spec_bind _ _ _ _ any); [destruct (Nat.eqb _ _); [done|apply meets_step]|]. by intros [] _.
Qed.

Lemma meets_feed token peer hdrs :
  meets (Feed.serve_feed app token peer hdrs) (fun r => r <> Some (Err Internal)).
Proof.
  unfold Feed.serve_feed. eapply spec_bind; [apply meets_step|]. intros ip _.
  eapply spec_bind; [apply (meets_query _ (fun o => forall e, o = Some e -> endpoint_ok e = true))|].
  { intros d [_ He] e (_ & id & Hid)%Db.find_one_Some. apply (He _ _ Hid). }
  intros [[ep|]|e] Hf; [|done|by intros [= ->]]. specialize (Hf ep eq_refl).
  apply (spec_bind _ _ _ _ (fun r => r <> Err Internal)).
  { unfold Feed.check_access. destruct (Keys.non_blank (Db.e_bound_ips ep)) as [raw|] eqn:Hn; [|done].
    assert (Db.e_bound_ips ep = Some raw) as Hraw.
    { unfold Keys.non_blank in Hn. destruct (Db.e_bound_ips ep); [|done]. by case_match; simplify_eq. }
    rewrite endpoint_ok_iff, Hraw in Hf. destruct Hf as (_ & _ & Hb & _). simpl in Hb.
    apply spec_lift; [intros entries _|intros e He; by destruct (Dns.parse_bound_ips raw)].
    eapply spec_bind; [apply meets_step|]. by intros [] _. }
  intros [[]|e] Ha; [|naive_solver]. eapply spec_bind; [apply meets_step|]. intros [blocks|] _; [|done].
  eapply spec_bind; [|intros r Hr; exact Hr]. unfold Feed.respond, Feed.limit. cbv zeta.
  destruct (match Http.get_str _ _ with Some _ => _ | None => _ end); [done|].
  eapply spec_bind; [apply meets_step|]. by intros [] _.
Qed.

(** C13. No request is answered [500] because of what the database holds: with rows
    that satisfied the validations at the start, no authentication and no feed, at
    any point of any history, ends in [Internal], the error of a binding that does
    not parse and of a secret that does not open. *)
Theorem stored_rows_never_fail w h w' ps tr places :
  history (task app) (w, []) h (w', ps) -> Forall (fun s => tick_ok s.1.1) h ->
  db_valid (cipher app) (db w) -> Frame.drawn h places tr ->
  (forall req r, exec (Middleware.auth_middleware app req) tr r -> r <> Err Internal) /\
  (forall token peer hdrs r, exec (Feed.serve_feed app token peer hdrs) tr r -> r <> Some (Err Internal)).
Proof.
  intros Hh HT Hw Hd.
  destruct (history_invariant tick_ok (valid app) _ _ _ _ _ valid_task Hh HT Hw) as [_ HF].
  assert (Forall (fun s => valid app s.1.2) tr) as Htr.
  { apply Forall_forall. intros s (i & _ & Hi)%(Frame.drawn_at _ _ _ _ Hd). rewrite Forall_lookup in HF. by eapply HF. }
  split; intros * He; [eapply spec_exec in He as [_ He]; [exact He|apply meets_auth|done]|].
  eapply spec_exec in He as [_ He]; [exact He|apply meets_feed|done].
Qed.

End handlers.

(** ** Witnesses *)

Section witnesses.
Import Ref RouterRef.

Lemma w_valid : db_valid (cipher Demo.service) (db Demo.start).
Proof.
  split; apply map_Forall_to_list; apply Forall_forall; intros [i x] Hx.
  - change (db Demo.start) with Demo.database in Hx.
    assert (forallb (fun kv => key_ok (cipher Demo.service) kv.2) (map_to_list (Db.api_keys Demo.database)) = true)
      as Hall by by vm_compute. rewrite forallb_forall in Hall. apply (Hall (i, x)). by apply list_elem_of_In.
  - assert (forallb (fun kv => endpoint_ok kv.2) (map_to_list (Db.endpoints Demo.database)) = true)
      as Hall by by vm_compute. rewrite forallb_forall in Hall. apply (Hall (i, x)). by apply list_elem_of_In.
Qed.

Lemma w_ticks_ok req1 req2 : Forall (fun s => tick_ok s.1.1) (Frame.w_history req1 req2).
Proof.
  apply Forall_lookup. intros n s Hs. by rewrite (Frame.w_history_ticks _ _ _ _ Hs).
Qed.

Lemma stored_values_valid_witness :
  exists w' ps, history (task Demo.service) (Demo.start, []) (Frame.w_history Frame.w_req Frame.w_feed_req) (w', ps) /\
    db_valid (cipher Demo.service) (db w').
Proof.
  destruct (Frame.w_history_ok Frame.w_req Frame.w_feed_req) as (w' & ps & Hh). exists w', ps. split; [done|].
  exact (proj1 (stored_values_valid Demo.service Demo.start _ w' ps Hh (w_ticks_ok _ _) w_valid)).
Defined.

Lemma stored_rows_never_fail_witness :
  (Ok (Demo.client, Demo.daughter) : result (IpAddr * Db.ApiKey) AppError) <> Err Internal.
Proof.
  destruct (Frame.w_history_ok Frame.w_req Frame.w_req) as (w' & ps & Hh).
  destruct (Frame.w_first_auth 0 Demo.start) as [r1 H1].
  destruct (Frame.w_first_auth (Frame.w_place Frame.w_req) (Frame.w_middle Frame.w_req)) as [r2 H2].
  destruct (Frame.w_drawn _ _ _ _ _ _ H1 H2) as (p1 & p2 & Hd1 & _ & _).
  refine (proj1 (stored_rows_never_fail Demo.service _ Demo.start _ w' ps _ p1 Hh (w_ticks_ok _ _) w_valid Hd1)
    Frame.w_req _ Frame.w_accepted1).
  intros secret payload. by eexists.
Defined.

End witnesses.

End Stored.
