(* ===== verification/Revoke.v ===== *)
(** * Revocation

    A request is matched with its key by the hash of the key it presents.  The
    hashes the database holds come from keys the service has drawn at random, so a
    hash that a rotation or a deletion takes out of the table does not come back,
    unless a later draw collides with it; and a request is let in only while the
    hash of its key is there. *)

From S2P Require Import Prelude.
From S2P Require Import RustStr.
From S2P Require Import Net.
From S2P Require Import Libs.
From S2P Require Import LibsRef.
From S2P Require Import Cache.
From S2P Require Import Crypto.
From S2P Require Import VaultClient.
From S2P Require Import DnsCache.
From S2P Require Import Http.
From S2P Require Import Config.
From S2P Require Import Db.
From S2P Require Import App.
From S2P Require Import Logic.
From S2P Require Import Demo.
From S2P Require Import Auth.
From S2P Require Import ApiKeys.
From S2P Require Import ApiEndpoints.
From S2P Require Import Extract.
From S2P Require Import Feed.
From S2P Require Import FeedProps.
From S2P Require Import Router.
From S2P Require Import System.
From S2P Require Import Frame.
From S2P Require Import Writes.
From S2P Require Import Stored.
Import App Logic Router System.
#[local] Open Scope Z_scope.
#[local] Open Scope rust_scope.
#[local] Open Scope prog_scope.

Module Revoke.

Section revoke.
Context {L : IpNetLib} {C : CryptoLib} (H : string).

(** The key [id] has this hash. *)
Definition stored (id : Uuid) (w : World) : Prop :=
  exists k, Db.api_keys (db w) !! id = Some k /\ Db.k_key_hash k = H.

(** What is drawn at [t] as a new key hashes to something else. *)
Definition no_collision (t : Tick) : Prop := Support.hash_key (hex_encode (random t 32)) <> H.

(** The step gives the hash to no key that did not have it. *)
Definition not_introduced (w w' : World) : Prop := forall id, stored id w' -> stored id w.

#[local] Abbreviation clean p := (obeys no_collision not_introduced p (fun _ => True)).

Lemma clean_step {A} (f : Tick -> World -> A * World) :
  (forall t w, Db.api_keys (db (f t w).2) = Db.api_keys (db w)) -> clean (Step f Ret).
Proof. intros Hf. apply obeys_step. intros t w id (k & Hk & Hh). rewrite Hf in Hk. by exists k. Qed.

Lemma clean_stmt {A} (f : Db.Database -> result A Db.DbErr * Db.Database) :
  (forall d id k, Db.api_keys (f d).2 !! id = Some k -> Db.k_key_hash k = H ->
     exists k', Db.api_keys d !! id = Some k' /\ Db.k_key_hash k' = H) -> clean (stmt f).
Proof.
  intros Hf. apply obeys_step. intros t w. destruct (db_faults t 0); [by intros ? ?|].
  intros id (k & Hk & Hh). specialize (Hf (db w) id k). destruct (f (db w)) as [r d]. by apply Hf.
Qed.

Lemma clean_same {A} (f : Db.Database -> result A Db.DbErr * Db.Database) :
  (forall d, Db.api_keys (f d).2 = Db.api_keys d) -> clean (stmt f).
Proof. intros Hf. apply clean_stmt. intros d id k. rewrite Hf. eauto. Qed.

Lemma clean_query {A} (f : Db.Database -> A) : clean (query f).
Proof. by apply clean_same. Qed.

Lemma clean_insert_key k : Db.k_key_hash k <> H -> clean (stmt (Db.insert_key k)).
Proof.
  intros Hk. apply clean_stmt. intros d id k'. unfold Db.insert_key. destruct (_ || _); [by eauto|].
  simpl. rewrite lookup_insert_Some. intros [[_ <-]|[_ ?]]; [done|by eauto].
Qed.

Lemma clean_update_key id set :
  (forall k, Db.k_key_hash (set k) = H -> Db.k_key_hash k = H) -> clean (stmt (Db.update_key id set)).
Proof.
  intros Hset. apply clean_stmt. intros d id' k'. unfold Db.update_key.
  destruct (Db.api_keys d !! id) as [k|] eqn:Hk; [|by eauto]. destruct (Db.key_conflicts _ _); [by eauto|].
  simpl. rewrite lookup_insert_Some. intros [[<- <-]|[_ ?]]; [|by eauto]. intros Hh%Hset. eauto.
Qed.

Lemma clean_update_endpoint id set : clean (stmt (Db.update_endpoint id set)).
Proof. apply clean_same. intros d. unfold Db.update_endpoint. by repeat case_match. Qed.
Lemma clean_insert_endpoint e : clean (stmt (Db.insert_endpoint e)).
Proof. apply clean_same. intros d. unfold Db.insert_endpoint. by repeat case_match. Qed.
Lemma clean_delete_endpoint id : clean (stmt (Db.delete_endpoint id)).
Proof. apply clean_same. intros d. unfold Db.delete_endpoint. by repeat case_match. Qed.
Lemma clean_insert_audit a : clean (stmt (Db.insert_audit a)).
Proof. apply clean_same. intros d. apply Writes.insert_audit_keys. Qed.
Lemma clean_insert_grant g : clean (stmt (Db.insert_grant g)).
Proof. apply clean_same. intros d. unfold Db.insert_grant. by repeat case_match. Qed.
Lemma clean_delete_grants ids : clean (stmt (Db.delete_grants ids)).
Proof. by apply clean_same. Qed.

Lemma clean_delete_key {U : UuidLib} caller ip id q res now :
  clean (txn (Keys.delete_key_txn caller ip id q res now)).
Proof.
  apply obeys_step. intros t w. destruct (db_faults t 0); [by intros ? ?|].
  destruct (Keys.delete_key_txn _ _ _ _ _ _ _ _) as [[[]|e] d] eqn:Hd; [|by intros ? ?].
  destruct (db_faults t 1); [by intros ? ?|]. intros i (k & Hk & Hh). exists k. split; [|done].
  cbn [snd db set_db] in Hk. apply delete_key_txn_Ok in Hd as (d1 & d2 & details & Hre & Hdel & Hins).
  assert (Db.api_keys d = Db.api_keys d2) as Hd2.
  { pose proof (Writes.insert_audit_keys (Support.audit_row caller ip "KEY_DELETE" (Some res) details t) d2) as Hi.
    by rewrite Hins in Hi. }
  assert (Db.api_keys d1 = Db.api_keys (db w)) as <-.
  { destruct Hre as [(to & target & n & _ & _ & Hre)|(_ & _ & ->)]; [|done].
    unfold Db.reassign_endpoints in Hre. destruct (negb _); by simplify_eq/=. }
  rewrite Hd2 in Hk. unfold Db.delete_key in Hdel. destruct (Db.api_keys d1 !! id); [|done].
  injection Hdel as <-. cbn [Db.api_keys] in Hk. by apply lookup_delete_Some in Hk as [_ ?].
Qed.

(** A new key is one of the draws. *)
Lemma clean_random :
  obeys no_collision not_introduced Support.generate_random_key (fun key => Support.hash_key key <> H).
Proof. apply spec_step. intros t w Ht. split; [by intros ? ?|done]. Qed.

End revoke.

Create HintDb revoke discriminated.
#[export] Hint Resolve clean_query clean_update_endpoint clean_insert_endpoint clean_delete_endpoint
  clean_insert_audit clean_insert_grant clean_delete_grants clean_delete_key : revoke.

Ltac clean_tac := obeys_walk ltac:(first
  [ solve [auto 2 with revoke]
  | apply clean_step; intros ?t ?w; repeat case_match; simplify_eq/=; done ]).

Section tasks.
Context {L : IpNetLib} {C : CryptoLib} {Ch : ChronoLib} {U : UuidLib} {J : Vault.JsonLib} {Ax : Extract.AxumLib}.
Context (app : AppConfig) (H : string).
#[local] Abbreviation clean p := (obeys (no_collision H) (not_introduced H) p (fun _ => True)).

Lemma clean_audit caller ip action res det : clean (Support.create_audit_log caller ip action res det).
Proof. unfold Support.create_audit_log, read. clean_tac. Qed.

Lemma clean_seal secret : clean (Support.seal_secret app secret).
Proof. unfold Support.seal_secret, read. clean_tac. Qed.

Lemma clean_minted {A} (rest : string -> prog (result A AppError)) :
  (forall key, Support.hash_key key <> H -> clean (rest key)) ->
  clean (bind Support.generate_random_key rest).
Proof. intros Hrest. eapply spec_bind; [apply clean_random|exact Hrest]. Qed.

Lemma clean_create_key caller ip p : clean (Keys.create_api_key app caller ip p).
Proof.
  unfold Keys.create_api_key. apply spec_lift; [intros _ _|done]. destruct (Str.is_empty _); [done|]. cbv zeta.
  apply spec_lift; [intros _ _|done]. apply clean_minted. intros key Hkey.
  unfold Support.generate_signing_secret, Support.now_utc, Support.new_v4, read. clean_tac;
    first [apply clean_audit|apply clean_seal|by apply clean_insert_key].
Qed.

Lemma clean_rotate_key caller ip id : clean (Keys.rotate_api_key app caller ip id).
Proof.
  unfold Keys.rotate_api_key, Keys.find_key. apply spec_lift; [intros _ _|done].
  apply obeys_bind_ok_any; [clean_tac|intros existing]. apply spec_lift; [intros _ _|done].
  apply clean_minted. intros key Hkey. unfold Support.generate_signing_secret, Support.now_utc, read. clean_tac;
    first [apply clean_audit|apply clean_seal|apply clean_update_key; by intros k].
Qed.

(** An update of a key has no field for its hash. *)
Lemma key_changes_hash p changes k : Keys.key_changes p = Ok changes -> Db.k_key_hash (changes.1 k) = Db.k_key_hash k.
Proof.
  unfold Keys.key_changes. destruct p as [[n|] [b|] [m|]]; simpl; intros Hc;
    repeat (case_match; simplify_eq/=); by simplify_eq/=.
Qed.

Lemma clean_update_api_key caller ip id p : clean (Keys.update_api_key caller ip id p).
Proof.
  unfold Keys.update_api_key, Keys.find_key, Support.now_utc, read. clean_tac; try apply clean_audit.
  apply clean_update_key. intros k <-. symmetry. by eapply (key_changes_hash p).
Qed.

Lemma clean_rotate_secret caller ip id : clean (Keys.rotate_signing_secret app caller ip id).
Proof.
  unfold Keys.rotate_signing_secret, Keys.find_key, Support.generate_signing_secret, Support.now_utc, read.
  clean_tac; first [apply clean_audit|apply clean_seal|apply clean_update_key; by intros k].
Qed.

Lemma clean_dispatch call key ip : clean (dispatch app call key ip).
Proof.
  destruct call; cbn [dispatch]; unfold answer, Keys.list_api_keys, Keys.delete_api_key,
    Endpoints.create_endpoint, Endpoints.list_endpoints, Endpoints.update_endpoint, Endpoints.delete_endpoint,
    Endpoints.reassign_endpoint_owner, Endpoints.find_endpoint, Endpoints.group_changes, Endpoints.evict_cache,
    Endpoints.validate_group_access, Groups.granted_group_names, Endpoints.generate_token_secret,
    ReadOnly.list_audit_logs, Groups.list_vault_groups, Groups.list_key_groups, Groups.grant_key_group,
    Groups.revoke_key_group, Groups.live_groups, Groups.vault_list_groups, Keys.find_key,
    Support.now_utc, Support.new_v4, read; clean_tac;
    first [apply clean_audit|apply clean_create_key|apply clean_rotate_key|apply clean_update_api_key
          |apply clean_rotate_secret].
Qed.

Lemma clean_handle req : clean (handle app req).
Proof.
  destruct (route api_routes (Middleware.rq_method req) (path_of (Middleware.rq_target req)).1)
    as [params r| |] eqn:Hr.
  3:{ rewrite (handle_public app req Hr). unfold serve_public, ReadOnly.readiness_check, Master.get,
      Feed.serve_feed, Feed.check_access, Feed.respond, Feed.limit, Middleware.client_ip_of,
      Middleware.check_bound_ips. clean_tac. }
  all: rewrite (handle_api app req _ Hr) by done; apply obeys_bind_any;
    [unfold Middleware.auth_middleware, Middleware.verify_request, Middleware.check_binding,
      Middleware.client_ip_of, Middleware.check_bound_ips, Middleware.check_replay, Master.authenticate,
      Master.resolve, Master.get, Master.resolve_inner, Master.set_and_get, read; clean_tac|].
  all: intros [[ip key]|e]; [|done]; unfold serve_api; clean_tac; apply clean_dispatch.
Qed.

Lemma clean_sync_all : clean (Sync.sync_all_endpoints app).
Proof.
  assert (forall client eps, clean (Sync.sync_each client eps)) as Heach.
  { intros client eps. induction eps as [|ep eps IH]; cbn [Sync.sync_each]; [done|].
    apply obeys_bind_any; [|by intros [[]|]]. unfold Sync.sync_endpoint, Sync.mark_synced, Sync.full_sync_due, Sync.fetch,
      Sync.apply_full, Sync.apply_diff, Support.now_utc, read. clean_tac. }
  unfold Sync.sync_all_endpoints. clean_tac.
Qed.

Lemma clean_task p : task app p -> clean p.
Proof.
  intros [req| |n|n|n].
  - apply obeys_bind_any; [apply clean_handle|done].
  - assert (forall names failed, clean (prime_steps names failed)) as Hprime.
    { induction names as [|x names IH]; intros failed; cbn [prime_steps]; [done|].
      apply obeys_bind_any; [clean_tac|intros; apply IH]. }
    unfold finish, prime_with_grace. clean_tac.
  - induction n as [|n IH]; cbn [Sync.sync_worker]; [done|]. apply obeys_bind_any; [apply clean_sync_all|by intros [[]|]].
  - apply Stored.spec_boot_sync, clean_sync_all.
  - induction n as [|n IH]; cbn [Sync.cleanup_worker]; [done|]. apply obeys_bind_any; [|done].
    unfold Sync.cleanup_stale_group_permissions, Groups.vault_list_groups. clean_tac.
Qed.

(** A hash that a key does not have it does not have at any later place. *)
Lemma stays_out w h w' ps i j s s' id :
  history (task app) (w, []) h (w', ps) -> Forall (fun s => no_collision H s.1.1) h ->
  (i < j)%nat -> h !! i = Some s -> h !! j = Some s' -> ~ stored H id s.2 -> ~ stored H id s'.1.2.
Proof.
  intros Hh HT Hij Hi Hj Hout. destruct (history_obeys _ _ _ _ _ _ _ clean_task Hh HT) as [Hl HF].
  destruct (Frame.linked_between w h w' i j s s' Hl Hij Hi Hj) as (hm & Hm & Hin).
  apply (linked_inv (fun w => ~ stored H id w) _ _ _ Hm); [|done]. apply Forall_forall. intros s1 Hs1 Hno Hyes.
  rewrite Forall_forall in HF. apply Hno, (HF s1); [by apply Hin|done].
Qed.

(** C5. Revocation is immediate and lasts: when a step of any history takes a hash
    away from the key that had it, as rotation and deletion do, then no request
    that presents a key with that hash is let in from the next step on, as long as
    no newly drawn key collides with it. *)
Theorem revoked_key_refused w h w' ps i s id k places tr req presented r :
  history (task app) (w, []) h (w', ps) -> Forall (fun s => no_collision H s.1.1) h -> Db.db_wf (db w) ->
  h !! i = Some s -> Db.api_keys (db s.1.2) !! id = Some k -> Db.k_key_hash k = H ->
  (forall k', Db.api_keys (db s.2) !! id = Some k' -> Db.k_key_hash k' <> H) ->
  Http.get_str (Middleware.rq_headers req) Middleware.API_KEY_HEADER = Some presented ->
  Support.hash_key presented = H ->
  Frame.drawn h places tr -> Forall (fun j => (i < j)%nat) places ->
  exec (Middleware.auth_middleware app req) tr r -> exists e, r = Err e.
Proof.
  intros Hh HT Hwf Hi Hk HkH Hgone Hpk HpH Hd Hlater He. destruct r as [[ip key]|e]; [exfalso|by eauto].
  assert (forall j, ~ stored H j s.2) as Hout.
  { intros j Hj. destruct (history_obeys _ _ _ _ _ _ _ clean_task Hh HT) as [_ HF].
    rewrite Forall_lookup in HF. destruct (HF i s Hi j Hj) as (k0 & Hk0 & Hk0H).
    destruct (history_at _ _ _ _ _ _ Hh Hi) as [qs Hr].
    assert (Db.db_wf (db s.1.2)) as Hwf' by (eapply (reachable_wf app w); [done|by exists qs]).
    assert (j = id) as -> by (eapply (Db.wf_hash _ Hwf'); [exact Hk0|exact Hk|done|done|by rewrite HkH]).
    destruct Hj as (k' & Hk' & Hk'H). by apply (Hgone k'). }
  apply Middleware.auth_verified in He as (tr1 & tr2 & -> & (row & digest & Hs)%Middleware.verify_sound & _).
  destruct (Middleware.sg_secret _ _ _ _ _ _ Hs) as (pk & t & w1 & w1' & Hpk' & Hin & [Hrow [j Hj]]%Db.find_one_Some).
  rewrite Hpk in Hpk'. injection Hpk' as <-. apply bool_decide_eq_true in Hrow.
  destruct (Frame.drawn_at _ _ _ (t, w1, w1') Hd) as (n & Hn & Hhn); [in_trace|].
  rewrite Forall_forall in Hlater.
  apply (stays_out _ _ _ _ i n s (t, w1, w1') j Hh HT (Hlater n Hn) Hi Hhn (Hout j)). exists row. by rewrite <- HpH.
Qed.

End tasks.

(** ** Witness *)

Section witnesses.
Import Ref RouterRef.

(** The master rotates the Daughter's key; then the Daughter uses the old one. *)
Definition w_rotate : Middleware.Request := Writes.w_master_req "POST" "/api/keys/2/rotate".

Definition w_step : Tick * World * World :=
  default (Demo.tick 0, Demo.start, Demo.start) (trace Frame.w_tick 0 (Frame.w_first w_rotate) Demo.start !! 12%nat).

Lemma w_at : Frame.w_history w_rotate Frame.w_req !! 12%nat = Some w_step.
Proof.
  unfold Frame.w_history, w_step. apply lookup_app_l_Some, default_lookup. by vm_compute.
Qed.

Lemma revoked_key_refused_witness :
  exists e, (run Frame.w_tick (Frame.w_place w_rotate) Frame.w_auth (Frame.w_middle w_rotate)).1.1 = Err e.
Proof.
  destruct (Frame.w_history_ok w_rotate Frame.w_req) as (w' & ps & Hh).
  destruct (Frame.w_first_auth (Frame.w_place w_rotate) (Frame.w_middle w_rotate)) as [rest Hrest].
  assert (Db.k_key_hash <$> Db.api_keys (db w_step.1.2) !! 2%N = Some (Support.hash_key "dkey")) as Hbefore
    by by vm_compute.
  assert (bool_decide (Db.k_key_hash <$> Db.api_keys (db w_step.2) !! 2%N = Some (Support.hash_key "dkey")) = false)
    as Hafter by by vm_compute.
  destruct (Db.api_keys (db w_step.1.2) !! 2%N) as [k|] eqn:Hk; [|discriminate Hbefore].
  injection Hbefore as HkH. apply bool_decide_eq_false in Hafter.
  eapply (revoked_key_refused Demo.service (Support.hash_key "dkey") Demo.start _ w' ps 12 w_step 2%N k
    (seq (length (trace Frame.w_tick 0 (Frame.w_first w_rotate) Demo.start))
       (length (trace Frame.w_tick (Frame.w_place w_rotate) Frame.w_auth (Frame.w_middle w_rotate))))
    _ Frame.w_req "dkey" _ Hh); [| |exact w_at|exact Hk|exact HkH| |reflexivity|reflexivity| | |apply trace_exec].
  - apply Forall_lookup. intros n s Hs. unfold no_collision. rewrite (Frame.w_history_ticks _ _ _ _ Hs).
    by apply (bool_decide_unpack _); vm_compute.
  - apply Demo.database_wf.
  - intros k' Hk' Hh'. apply Hafter. rewrite Hk'. simpl. by rewrite Hh'.
  - unfold Frame.w_history. rewrite Hrest. apply Frame.drawn_mid.
  - apply Forall_forall. intros j [Hj _]%elem_of_seq.
    assert (length (trace Frame.w_tick 0 (Frame.w_first w_rotate) Demo.start) = 15)%nat as Hlen by by vm_compute.
    rewrite Hlen in Hj. lia.
Defined.

End witnesses.

End Revoke.
