(* ===== verification/ApiProps.v ===== *)
(** * What the API handlers guarantee

    Theorems about the handlers of [ApiKeys] and [ApiEndpoints], stated over their
    execution traces: the steps of one handler, with the other tasks free to change
    the world between any two of them. *)

From S2P Require Import Prelude.
From S2P Require Import RustStr.
From S2P Require Import Net.
From S2P Require Import Libs.
From S2P Require Import LibsRef.
From S2P Require Import Cache.
From S2P Require Import Crypto.
From S2P Require Import VaultClient.
From S2P Require Import DnsCache.
From S2P Require Import Http.
From S2P Require Import Config.
From S2P Require Import Db.
From S2P Require Import App.
From S2P Require Import Demo.
From S2P Require Import Auth.
From S2P Require Import ApiKeys.
From S2P Require Import ApiEndpoints.
From S2P Require Import Feed.
From S2P Require Import Router.
From S2P Require Import System.
Import App Router System.
#[local] Open Scope Z_scope.
#[local] Open Scope prog_scope.

Module ApiProps.

(** ** Confinement of a Daughter key *)

Section confinement.
Context {L : IpNetLib} {C : CryptoLib} {Ch : ChronoLib} {U : UuidLib} {J : Vault.JsonLib}.
Context (app : AppConfig).

(** The tables a Daughter may never touch. *)
Definition admin_same (w w' : World) : Prop :=
  Db.api_keys (db w') = Db.api_keys (db w) /\
  Db.vault_group_permissions (db w') = Db.vault_group_permissions (db w) /\
  master_pin w' = master_pin w.

Definition admin_stmt {A} (f : Db.Database -> result A Db.DbErr * Db.Database) : Prop :=
  forall d, Db.api_keys (f d).2 = Db.api_keys d /\
    Db.vault_group_permissions (f d).2 = Db.vault_group_permissions d.

Lemma always_read {A} (f : Tick -> A) : always admin_same (read f).
Proof. apply always_step; [|intros; apply always_ret]. done. Qed.

Lemma always_stmt {A} (f : Db.Database -> result A Db.DbErr * Db.Database) :
  admin_stmt f -> always admin_same (stmt f).
Proof.
  intros Hf. apply always_step; [|intros; apply always_ret]. intros t w.
  destruct (db_faults t 0); [done|]. pose proof (Hf (db w)) as [H1 H2].
  by destruct (f (db w)) as [r d].
Qed.

Lemma always_query {A} (f : Db.Database -> A) : always admin_same (query f).
Proof. by apply always_stmt. Qed.

Lemma admin_insert_audit a : admin_stmt (Db.insert_audit a).
Proof. intros d. unfold Db.insert_audit. by repeat case_match. Qed.
Lemma admin_insert_endpoint e : admin_stmt (Db.insert_endpoint e).
Proof. intros d. unfold Db.insert_endpoint. by repeat case_match. Qed.
Lemma admin_update_endpoint id set : admin_stmt (Db.update_endpoint id set).
Proof. intros d. unfold Db.update_endpoint. by repeat case_match. Qed.
Lemma admin_delete_endpoint id : admin_stmt (Db.delete_endpoint id).
Proof. intros d. unfold Db.delete_endpoint. by repeat case_match. Qed.

Lemma always_audit caller ip action res det :
  always admin_same (Support.create_audit_log caller ip action res det).
Proof.
  apply always_bind; [apply always_read|]. intros row.
  apply always_bind_ok; [apply always_stmt, admin_insert_audit|]. intros; apply always_ret.
Qed.

Lemma always_group_access caller groups :
  always admin_same (Endpoints.validate_group_access caller groups).
Proof.
  unfold Endpoints.validate_group_access. case_match; [apply always_ret|].
  apply always_bind_ok; [apply always_query|]. intros g. cbv zeta. case_match; apply always_ret.
Qed.

Lemma always_answer {T} (R : World -> World -> Prop) (f : T -> ApiResponse) p :
  always R p -> always R (answer f p).
Proof. intros Hp. apply always_bind_ok; [done|]. intros; apply always_ret. Qed.

End confinement.

Create HintDb admin discriminated.
#[export] Hint Resolve admin_insert_audit admin_insert_endpoint admin_update_endpoint
  admin_delete_endpoint always_ret always_read always_query always_stmt always_audit
  always_group_access : admin.

Ltac always_tac := walk ltac:(auto 2 with admin).

Section daughters.
Context {L : IpNetLib} {C : CryptoLib} {Ch : ChronoLib} {U : UuidLib} {J : Vault.JsonLib}.
Context (app : AppConfig).

Lemma always_group_changes caller p : always admin_same (Endpoints.group_changes caller p).
Proof. unfold Endpoints.group_changes. always_tac. Qed.

Lemma require_master_stops {B} caller (k : unit -> prog (result B AppError)) R :
  Db.k_is_master caller = false -> always R (bind_ok (lift (Guards.require_master caller)) k).
Proof. intros Hm. unfold Guards.require_master. rewrite Hm. apply always_ret. Qed.

(** C7. A Daughter key is confined: whichever route it calls, with whatever
    payload and under any interleaving, no step of its request changes a key, a
    group grant or the pinned master. *)
Theorem daughter_confined call caller ip :
  Db.k_is_master caller = false -> always admin_same (dispatch app call caller ip).
Proof.
  intros Hm. destruct call; cbn [dispatch]; try apply always_ret; apply always_answer;
    try by apply require_master_stops.
  - unfold Endpoints.create_endpoint, Support.now_utc, Support.new_v4,
      Endpoints.generate_token_secret. always_tac.
  - unfold Endpoints.list_endpoints. always_tac.
  - unfold Endpoints.update_endpoint, Endpoints.find_endpoint, Support.now_utc.
    always_tac. apply always_group_changes.
  - unfold Endpoints.delete_endpoint, Endpoints.find_endpoint. always_tac.
    apply always_step; [done|intros; apply always_ret].
  - unfold Endpoints.reassign_endpoint_owner. rewrite Hm. apply always_ret.
  - unfold ReadOnly.list_audit_logs. rewrite Hm. apply always_ret.
  - unfold Groups.list_key_groups. always_tac.
  - unfold Groups.revoke_key_group. apply always_bind_ok; [apply always_ret|].
    intros [i j]. by apply require_master_stops.
Qed.

End daughters.

(** ** Ownership of endpoints *)

Section ownership.
Context {L : IpNetLib} {C : CryptoLib} {Ch : ChronoLib} {U : UuidLib} {J : Vault.JsonLib}.
Context (app : AppConfig).

(** No endpoint that exists is changed, the one named [o] aside. *)
Definition ep_keep (o : option Uuid) (w w' : World) : Prop :=
  forall id e, o <> Some id -> Db.endpoints (db w) !! id = Some e -> Db.endpoints (db w') !! id = Some e.

Lemma keep_same o w w' : Db.endpoints (db w') = Db.endpoints (db w) -> ep_keep o w w'.
Proof. intros Heq id e _. by rewrite Heq. Qed.

Lemma keep_step {A} o (f : Tick -> World -> A * World) :
  (forall t w, Db.endpoints (db (f t w).2) = Db.endpoints (db w)) -> always (ep_keep o) (Step f Ret).
Proof. intros Hf. apply always_step; [|intros; apply always_ret]. intros t w. by apply keep_same. Qed.

Lemma keep_stmt {A} o (f : Db.Database -> result A Db.DbErr * Db.Database) :
  (forall d id e, o <> Some id -> Db.endpoints d !! id = Some e -> Db.endpoints (f d).2 !! id = Some e) ->
  always (ep_keep o) (stmt f).
Proof.
  intros Hf. apply always_step; [|intros; apply always_ret]. intros t w.
  destruct (db_faults t 0); [by apply keep_same|]. intros id e Hid He.
  pose proof (Hf (db w) id e Hid He) as Hf'. by destruct (f (db w)) as [r d].
Qed.

Lemma keep_query {A} o (f : Db.Database -> A) : always (ep_keep o) (query f).
Proof. apply keep_stmt. by intros d id e _ He. Qed.

Lemma keep_audit o caller ip action res det :
  always (ep_keep o) (Support.create_audit_log caller ip action res det).
Proof.
  apply always_bind; [by apply keep_step|]. intros row. apply always_bind_ok; [|intros; apply always_ret].
  apply keep_stmt. intros d id e _. unfold Db.insert_audit. by repeat case_match.
Qed.

Lemma keep_group_access o caller groups : always (ep_keep o) (Endpoints.validate_group_access caller groups).
Proof.
  unfold Endpoints.validate_group_access. case_match; [apply always_ret|].
  apply always_bind_ok; [apply keep_query|]. intros g. cbv zeta. case_match; apply always_ret.
Qed.

Lemma keep_group_changes o caller p : always (ep_keep o) (Endpoints.group_changes caller p).
Proof.
  unfold Endpoints.group_changes. case_match; [|apply always_ret].
  apply always_bind_ok; [apply always_ret|]. intros _.
  apply always_bind_ok; [apply keep_group_access|]. intros; apply always_ret.
Qed.

Lemma keep_insert o ep : always (ep_keep o) (stmt (Db.insert_endpoint ep)).
Proof.
  apply keep_stmt. intros d id e _ He. unfold Db.insert_endpoint.
  destruct (_ || _) eqn:Hc; [done|]. destruct (negb _); [done|]. simpl.
  apply orb_false_iff in Hc as [Hc%bool_decide_eq_false _].
  rewrite lookup_insert_ne; [done|]. intros <-. apply Hc. eauto.
Qed.

Lemma keep_update id set : always (ep_keep (Some id)) (stmt (Db.update_endpoint id set)).
Proof.
  apply keep_stmt. intros d id' e Hid He. unfold Db.update_endpoint.
  destruct (Db.endpoints d !! id); [|done]. destruct (Db.token_conflicts _ _); [done|].
  destruct (negb _); [done|]. simpl. rewrite lookup_insert_ne; [done|congruence].
Qed.

Lemma keep_delete id : always (ep_keep (Some id)) (stmt (Db.delete_endpoint id)).
Proof.
  apply keep_stmt. intros d id' e Hid He. unfold Db.delete_endpoint.
  destruct (Db.endpoints d !! id); [|done]. simpl. rewrite lookup_delete_ne; [done|congruence].
Qed.

Lemma keep_update_rest caller ip existing p :
  always (ep_keep (Some (Db.e_id existing)))
    (let! text := lift (Endpoints.text_changes p) in
     let! groups := Endpoints.group_changes caller p in
     let! policy := lift (Endpoints.policy_changes p) in
     let* now := Support.now_utc in
     let! updated := stmt (Db.update_endpoint (Db.e_id existing)
       (fun e => Db.set_ep_updated_at now (policy.1 (groups.1 (text.1 e))))) in
     let! _ := Support.create_audit_log caller ip "ENDPOINT_UPDATE"
       (Some (Support.describe_resource "endpoint" (Db.e_id updated) (Db.e_name updated)))
       (Some (Support.changed_detail (text.2 ++ groups.2 ++ policy.2))) in
     Ret (Ok (Endpoints.endpoint_response updated))).
Proof.
  apply always_bind_ok; [apply always_ret|]. intros text.
  apply always_bind_ok; [apply keep_group_changes|]. intros groups.
  apply always_bind_ok; [apply always_ret|]. intros policy.
  apply always_bind; [by apply keep_step|]. intros now.
  apply always_bind_ok; [apply keep_update|]. intros updated.
  apply always_bind_ok; [apply keep_audit|]. intros; apply always_ret.
Qed.

Lemma keep_delete_rest caller ip id res :
  always (ep_keep (Some id))
    (let! rows_affected := stmt (Db.delete_endpoint id) in
     if Nat.eqb rows_affected 0 then Ret (Err NotFound) else
     let* _ := Endpoints.evict_cache id in
     let! _ := Support.create_audit_log caller ip "ENDPOINT_DELETE" (Some res) None in
     Ret (Ok tt)).
Proof.
  apply always_bind_ok; [apply keep_delete|]. intros n. destruct (Nat.eqb n 0); [apply always_ret|].
  apply always_bind; [by apply keep_step|]. intros _.
  apply always_bind_ok; [apply keep_audit|]. intros; apply always_ret.
Qed.

(** The request read the endpoint and found the caller to be its owner. *)
Definition found_owned (tr : list (Tick * World * World)) (id : Uuid) (caller : Db.ApiKey) : Prop :=
  exists t w w' e, (t, w, w') ∈ tr /\ Db.endpoints (db w) !! id = Some e /\
    Db.e_owner_key_id e = Some (Db.k_id caller).

(** A step of a kept trace that changes an endpoint changes the excepted one. *)
Lemma keep_changed o (tr : list (Tick * World * World)) t w w' id e :
  Forall (fun s => ep_keep o s.1.2 s.2) tr -> (t, w, w') ∈ tr ->
  Db.endpoints (db w) !! id = Some e -> Db.endpoints (db w') !! id <> Some e -> o = Some id.
Proof.
  intros Hall Hin He Hne. rewrite Forall_forall in Hall. specialize (Hall _ Hin). simpl in Hall.
  destruct (decide (o = Some id)) as [|Ho]; [done|]. by specialize (Hall id e Ho He).
Qed.

(** The two handlers that change an endpoint by id: they read it, check the right
    to manage it, and leave every other row alone. *)
Lemma managed_exec {A} caller id (rest : Db.Endpoint -> prog (result A AppError)) tr r :
  Db.k_is_master caller = false ->
  (forall e, Db.e_id e = id -> always (ep_keep (Some id)) (rest e)) ->
  exec (let! existing := Endpoints.find_endpoint id in
        if negb (Endpoints.may_manage caller existing) then Ret (Err Endpoints.no_rights)
        else rest existing) tr r ->
  Forall (fun s => Db.db_wf (db s.1.2)) tr ->
  Forall (fun s => ep_keep None s.1.2 s.2) tr \/
  (found_owned tr id caller /\ Forall (fun s => ep_keep (Some id) s.1.2 s.2) tr).
Proof.
  intros Hm Hrest He Hwf. unfold Endpoints.find_endpoint in He.
  apply exec_bind in He as (tr1 & found & tr2 & -> & Hf & He).
  apply exec_bind in Hf as (tra & row & trb & -> & Hq & Hf).
  assert (forall o, Forall (fun s => ep_keep o s.1.2 s.2) tra) as Ha.
  { intros o. by eapply (keep_query o). }
  assert (trb = [] /\ found = match row with Ok x => ok_or x NotFound | Err e => Err e end) as [-> ->].
  { destruct row; by apply exec_ret in Hf. }
  rewrite app_nil_r in *.
  destruct row as [[existing|]|e]; cbn [ok_or] in He.
  2,3: apply exec_ret in He as [-> ->]; left; by rewrite app_nil_r.
  destruct (Endpoints.may_manage caller existing) eqn:Hmay; cbn [negb] in He.
  2: apply exec_ret in He as [-> ->]; left; by rewrite app_nil_r.
  apply exec_query_ok in Hq as (t & w & -> & Hrow). symmetry in Hrow. right.
  assert (Db.e_id existing = id) as Hid.
  { apply Forall_app in Hwf as [[Hw _]%Forall_cons _]. exact (Db.wf_endpoints _ Hw _ _ Hrow). }
  split.
  - exists t, w, (set_db w (db w)), existing. split_and!; [in_trace|done|].
    unfold Endpoints.may_manage in Hmay. rewrite Hm in Hmay. by apply bool_decide_eq_true in Hmay.
  - apply Forall_app. split; [apply Ha|]. by eapply (Hrest existing).
Qed.

(** The endpoint a call changes by its id. *)
Definition changes_by_id (call : ApiCall) : option Uuid :=
  match call with
  | UpdateEndpoint id _ | DeleteEndpoint id => Some id
  | _ => None
  end.

Lemma keep_create caller ip p : always (ep_keep None) (Endpoints.create_endpoint caller ip p).
Proof.
  unfold Endpoints.create_endpoint, Support.now_utc, Support.new_v4, Endpoints.generate_token_secret.
  destruct (Str.is_empty _); [apply always_ret|].
  apply always_bind_ok; [apply always_ret|]. intros _.
  apply always_bind_ok; [apply keep_group_access|]. intros _. cbv zeta.
  apply always_bind_ok; [apply always_ret|]. intros _. destruct (_ <=? _); [apply always_ret|].
  apply always_bind_ok; [apply always_ret|]. intros _.
  do 3 (apply always_bind; [by apply keep_step|]; intros ?).
  apply always_bind_ok; [apply keep_insert|]. intros ?.
  apply always_bind_ok; [apply keep_audit|]. intros; apply always_ret.
Qed.

(** The other routes, called by a Daughter, change no existing endpoint. *)
Lemma keep_others call caller ip :
  Db.k_is_master caller = false -> changes_by_id call = None ->
  always (ep_keep None) (dispatch app call caller ip).
Proof.
  intros Hm Hc. destruct call; cbn [dispatch] in *; try done; try apply always_ret;
    apply always_answer; try by apply require_master_stops.
  - apply keep_create.
  - unfold Endpoints.list_endpoints.
    apply always_bind_ok; [case_match; apply keep_query|]. intros; apply always_ret.
  - unfold Endpoints.reassign_endpoint_owner. rewrite Hm. apply always_ret.
  - unfold ReadOnly.list_audit_logs. rewrite Hm. apply always_ret.
  - unfold Groups.list_key_groups. case_match; [apply always_ret|].
    apply always_bind_ok; [apply keep_query|]. intros; apply always_ret.
  - unfold Groups.revoke_key_group. apply always_bind_ok; [apply always_ret|].
    intros [i j]. by apply require_master_stops.
Qed.

Lemma exec_answer {T} (f : T -> ApiResponse) p tr r :
  exec (answer f p) tr r -> exists r1, exec p tr r1.
Proof.
  intros (tr1 & [a|e] & tr2 & -> & He & [-> _]%exec_ret)%exec_bind; rewrite app_nil_r; eauto.
Qed.

(** C8. A Daughter key changes only endpoints it owns: if a step of its request,
    on any route and under any interleaving, changes or removes an endpoint, then
    the same request has read that endpoint and found the caller to be its
    owner. *)
Theorem endpoint_changes_are_owned call caller ip tr r :
  Db.k_is_master caller = false -> exec (dispatch app call caller ip) tr r ->
  Forall (fun s => Db.db_wf (db s.1.2)) tr ->
  forall t w w' id e, (t, w, w') ∈ tr -> Db.endpoints (db w) !! id = Some e ->
  Db.endpoints (db w') !! id <> Some e -> found_owned tr id caller.
Proof.
  intros Hm He Hwf t w w' id e Hin Hid Hne.
  assert (Forall (fun s => ep_keep None s.1.2 s.2) tr \/
    exists i, found_owned tr i caller /\ Forall (fun s => ep_keep (Some i) s.1.2 s.2) tr) as [Hk|(i & Ho & Hk)].
  2:{ by pose proof (keep_changed _ _ _ _ _ _ _ Hk Hin Hid Hne). }
  2:{ pose proof (keep_changed _ _ _ _ _ _ _ Hk Hin Hid Hne) as [= ->]. done. }
  clear Hin Hid Hne.
  destruct (changes_by_id call) as [i|] eqn:Hc; [|left; by eapply (keep_others call caller ip)].
  destruct call; cbn [changes_by_id] in Hc; try done; injection Hc as ->; cbn [dispatch] in He;
    apply exec_answer in He as [r1 He];
    (apply managed_exec in He as [Hk|Hk]; [by left|right; by exists i|done| |done]).
  - intros ex <-. apply keep_update_rest.
  - intros ex <-. apply keep_delete_rest.
Qed.

End ownership.

(** ** Group grants *)

Section grants.
Context {L : IpNetLib} {C : CryptoLib} {Ch : ChronoLib} {U : UuidLib} {J : Vault.JsonLib}.
Context (app : AppConfig).

(** Some read of the request found a grant for every group the list names. *)
Definition groups_granted (tr : list (Tick * World * World)) (caller : Db.ApiKey) (groups : string) : Prop :=
  exists t w w', (t, w, w') ∈ tr /\
    forall g, g ∈ Str.comma_entries groups ->
      exists id p, Db.vault_group_permissions (db w) !! id = Some p /\
        Db.g_api_key_id p = Db.k_id caller /\ Db.g_vault_group_name p = g.

Lemma elem_of_granted d key g :
  g ∈ Groups.granted_names d key ->
  exists id p, Db.vault_group_permissions d !! id = Some p /\
    Db.g_api_key_id p = key /\ Db.g_vault_group_name p = g.
Proof.
  intros (p & -> & [Hk%bool_decide_eq_true [id Hp]]%Db.elem_of_find_all)%list_elem_of_fmap. eauto.
Qed.

Lemma group_access_exec caller groups tr :
  Db.k_is_master caller = false ->
  exec (Endpoints.validate_group_access caller groups) tr (Ok tt) -> groups_granted tr caller groups.
Proof.
  unfold Endpoints.validate_group_access. intros ->.
  intros (tr1 & granted & tr2 & -> & (t & w & -> & ->)%exec_query_ok & He)%exec_bind_ok. cbv zeta in He.
  destruct (Nat.eqb_spec (length (Endpoints.ungranted
    (Groups.granted_names (db w) (Db.k_id caller)) groups)) 0) as [H0|];
    [|by apply exec_ret in He as [_ ?]].
  exists t, w, (set_db w (db w)). split; [in_trace|]. intros g Hg. apply elem_of_granted.
  apply nil_length_inv in H0. unfold Endpoints.ungranted in H0.
  destruct (decide (g ∈ Groups.granted_names (db w) (Db.k_id caller))) as [|Hn]; [done|].
  assert (g ∈ filter (fun g => g ∉ Groups.granted_names (db w) (Db.k_id caller))
            (Str.comma_entries groups)) as Hf by by apply list_elem_of_filter.
  rewrite H0 in Hf. by apply elem_of_nil in Hf.
Qed.

Lemma granted_mono tr1 tr tr2 caller groups :
  groups_granted tr caller groups -> groups_granted (tr1 ++ tr ++ tr2) caller groups.
Proof. intros (t & w & w' & Hin & Hg). exists t, w, w'. split; [in_trace|done]. Qed.

(** A row that is there afterwards has the groups it had before, or groups in [G]. *)
Definition ep_groups (G : string -> Prop) (w w' : World) : Prop :=
  forall id e', Db.endpoints (db w') !! id = Some e' ->
    (exists e, Db.endpoints (db w) !! id = Some e /\ Db.e_vault_groups e = Db.e_vault_groups e') \/
    G (Db.e_vault_groups e').

Lemma groups_same G w w' : Db.endpoints (db w') = Db.endpoints (db w) -> ep_groups G w w'.
Proof. intros Heq id e' He. left. exists e'. by rewrite <- Heq. Qed.

Lemma groups_mono (G G' : string -> Prop) w w' :
  (forall g, G g -> G' g) -> ep_groups G w w' -> ep_groups G' w w'.
Proof. intros HG Hw id e' He. destruct (Hw id e' He); [by left|right; by apply HG]. Qed.

Lemma groups_step {A} G (f : Tick -> World -> A * World) :
  (forall t w, Db.endpoints (db (f t w).2) = Db.endpoints (db w)) -> always (ep_groups G) (Step f Ret).
Proof. intros Hf. apply always_step; [|intros; apply always_ret]. intros t w. by apply groups_same. Qed.

Lemma groups_stmt {A} G (f : Db.Database -> result A Db.DbErr * Db.Database) :
  (forall w, ep_groups G w (set_db w (f (db w)).2)) -> always (ep_groups G) (stmt f).
Proof.
  intros Hf. apply always_step; [|intros; apply always_ret]. intros t w.
  destruct (db_faults t 0); [by apply groups_same|]. specialize (Hf w). by destruct (f (db w)) as [r d].
Qed.

Lemma groups_read {A} G (f : Tick -> A) : always (ep_groups G) (read f).
Proof. by apply groups_step. Qed.

Lemma groups_query {A} G (f : Db.Database -> A) : always (ep_groups G) (query f).
Proof. apply groups_stmt. intros w. by apply groups_same. Qed.

Lemma groups_audit G caller ip action res det :
  always (ep_groups G) (Support.create_audit_log caller ip action res det).
Proof.
  apply always_bind; [apply groups_read|]. intros row. apply always_bind_ok; [|intros; apply always_ret].
  apply groups_stmt. intros w. apply groups_same. unfold Db.insert_audit. by repeat case_match.
Qed.

Lemma groups_delete G id : always (ep_groups G) (stmt (Db.delete_endpoint id)).
Proof.
  apply groups_stmt. intros w i e'. unfold Db.delete_endpoint. destruct (Db.endpoints (db w) !! id) eqn:He; [|by eauto].
  cbn [snd db set_db Db.with_endpoints Db.endpoints]. intros [_ Hi]%lookup_delete_Some. by eauto.
Qed.

Lemma groups_insert (G : string -> Prop) ep :
  G (Db.e_vault_groups ep) -> always (ep_groups G) (stmt (Db.insert_endpoint ep)).
Proof.
  intros HG. apply groups_stmt. intros w id e'. unfold Db.insert_endpoint. destruct (_ || _); [by eauto|].
  destruct (negb _); [by eauto|]. cbn [snd db set_db Db.with_endpoints Db.endpoints].
  intros [[_ <-]|[_ Hi]]%lookup_insert_Some; by eauto.
Qed.

Lemma groups_update (G : string -> Prop) id set :
  (forall e, Db.e_vault_groups (set e) = Db.e_vault_groups e \/ G (Db.e_vault_groups (set e))) ->
  always (ep_groups G) (stmt (Db.update_endpoint id set)).
Proof.
  intros HG. apply groups_stmt. intros w i e'. unfold Db.update_endpoint.
  destruct (Db.endpoints (db w) !! id) as [old|] eqn:Hold; [|by eauto].
  destruct (Db.token_conflicts _ _); [by eauto|]. destruct (negb _); [by eauto|].
  cbn [snd db set_db Db.with_endpoints Db.endpoints]. intros [[<- <-]|[_ Hi]]%lookup_insert_Some; [|by eauto].
  destruct (HG old) as [Heq|]; [left; by exists old|by right].
Qed.

Lemma groups_access G caller groups : always (ep_groups G) (Endpoints.validate_group_access caller groups).
Proof. unfold Endpoints.validate_group_access, Groups.granted_group_names. walk ltac:(apply groups_query). Qed.

(** [p], run after the steps [pre]: whatever it answers, a group list it stores was
    granted before the step that stores it. *)
Definition stores_granted {A} caller (pre : list (Tick * World * World)) (p : prog A) : Prop :=
  forall tr r, exec p tr r -> forall tr1 s tr2, tr = tr1 ++ s :: tr2 ->
    ep_groups (groups_granted (pre ++ tr1) caller) s.1.2 s.2.

Lemma stores_always {A} caller pre (G : string -> Prop) (p : prog A) :
  (forall g, G g -> groups_granted pre caller g) -> always (ep_groups G) p -> stores_granted caller pre p.
Proof.
  intros HG Hp tr r He tr1 s tr2 ->. apply Hp in He as [_ [Hs _]%Forall_cons]%Forall_app.
  eapply groups_mono; [|exact Hs]. intros g Hg%HG. by apply (granted_mono [] pre tr1).
Qed.

(** A program that stores no new group list. *)
Lemma stores_none {A} caller pre (p : prog A) : always (ep_groups (fun _ => False)) p -> stores_granted caller pre p.
Proof. by apply stores_always. Qed.

Lemma stores_bind {A B} caller pre (p : prog A) (f : A -> prog B) :
  stores_granted caller pre p -> (forall tr a, exec p tr a -> stores_granted caller (pre ++ tr) (f a)) ->
  stores_granted caller pre (bind p f).
Proof.
  intros Hp Hf tr r (tra & a & trb & -> & Ha & Hb)%exec_bind tr1 s tr2 Heq.
  apply app_eq_inv in Heq as [(l & -> & Hl)|(l & -> & ->)].
  - destruct l as [|s' l]; [|injection Hl as <- ->].
    + rewrite app_nil_r in *. pose proof (Hf _ _ Ha _ _ Hb [] s tr2 (eq_sym Hl)) as Hs. by rewrite app_nil_r in Hs.
    + by eapply Hp.
  - pose proof (Hf _ _ Ha _ _ Hb l s tr2 eq_refl) as Hs. by rewrite <- app_assoc in Hs.
Qed.

Lemma stores_bind_ok {A B} caller pre (p : prog (result A AppError)) (f : A -> prog (result B AppError)) :
  stores_granted caller pre p -> (forall tr a, exec p tr (Ok a) -> stores_granted caller (pre ++ tr) (f a)) ->
  stores_granted caller pre (bind_ok p f).
Proof.
  intros Hp Hf. apply stores_bind; [done|]. intros tr [a|e] He; [by apply Hf|]. apply stores_none, always_ret.
Qed.

Lemma stores_lift {A B} caller pre (r : result A AppError) (f : A -> prog (result B AppError)) :
  (forall a, r = Ok a -> stores_granted caller pre (f a)) -> stores_granted caller pre (bind_ok (lift r) f).
Proof.
  intros Hf. apply stores_bind_ok; [apply stores_none, always_ret|]. intros tr a [-> Ha]%exec_ret.
  rewrite app_nil_r. by apply Hf.
Qed.

Lemma stores_create caller ip p :
  Db.k_is_master caller = false -> stores_granted caller [] (Endpoints.create_endpoint caller ip p).
Proof.
  intros Hm. unfold Endpoints.create_endpoint. destruct (Str.is_empty _); [apply stores_none, always_ret|].
  apply stores_lift. intros _ _. apply stores_bind_ok; [apply stores_none, groups_access|].
  intros tr [] Hg%group_access_exec; [|done]. rewrite ?app_nil_l. apply (stores_always _ _ (eq (Endpoints.ce_vault_groups p)));
    [by intros g <-|].
  unfold Support.now_utc, Support.new_v4, Endpoints.generate_token_secret.
  walk ltac:(first [apply groups_read|by apply groups_step|by apply groups_insert|apply groups_audit]).
Qed.

(** Only the change of groups changes the groups. *)
Lemma text_keeps_groups p text e :
  Endpoints.text_changes p = Ok text -> Db.e_vault_groups (text.1 e) = Db.e_vault_groups e.
Proof. unfold Endpoints.text_changes. intros H. repeat (case_match; simplify_eq/=); done. Qed.

Lemma policy_keeps_groups p policy e :
  Endpoints.policy_changes p = Ok policy -> Db.e_vault_groups (policy.1 e) = Db.e_vault_groups e.
Proof. unfold Endpoints.policy_changes. intros H. repeat (case_match; simplify_eq/=); done. Qed.

Lemma group_changes_exec caller p tr ch :
  Db.k_is_master caller = false -> exec (Endpoints.group_changes caller p) tr (Ok ch) ->
  forall e, Db.e_vault_groups (ch.1 e) = Db.e_vault_groups e \/
    groups_granted tr caller (Db.e_vault_groups (ch.1 e)).
Proof.
  intros Hm He e. unfold Endpoints.group_changes in He.
  destruct (Endpoints.ue_vault_groups p) as [groups|]; [|apply exec_ret in He as [_ [= ->]]; by left].
  apply exec_bind_ok in He as (? & [] & tr1 & -> & [-> _]%exec_ret & He).
  apply exec_bind_ok in He as (tr2 & [] & tr3 & -> & Hg%group_access_exec & [-> [= ->]]%exec_ret); [|done].
  right. rewrite ?app_nil_l. by rewrite app_nil_r.
Qed.

Lemma stores_update caller ip id p :
  Db.k_is_master caller = false -> stores_granted caller [] (Endpoints.update_endpoint caller ip id p).
Proof.
  intros Hm. unfold Endpoints.update_endpoint, Endpoints.find_endpoint.
  apply stores_bind_ok; [apply stores_none; walk ltac:(apply groups_query)|]. intros tr0 existing _. rewrite ?app_nil_l.
  destruct (negb _); [apply stores_none, always_ret|]. apply stores_lift. intros text Htext.
  apply stores_bind_ok.
  { apply stores_none. unfold Endpoints.group_changes. walk ltac:(apply groups_access). }
  intros tr1 ch Hch. apply stores_lift. intros policy Hpol.
  apply (stores_always _ _ (groups_granted (tr0 ++ tr1) caller)); [done|].
  unfold Support.now_utc.
  walk ltac:(first [apply groups_read|by apply groups_step|apply groups_audit]).
  apply groups_update. intros e. change (Db.e_vault_groups (Db.set_ep_updated_at ?n ?x)) with (Db.e_vault_groups x).
  rewrite (policy_keeps_groups _ _ _ Hpol), <- (text_keeps_groups _ _ e Htext).
  destruct (group_changes_exec _ _ _ _ Hm Hch (text.1 e)) as [Heq|Hg]; [by left|right].
  rewrite <- (app_nil_r tr1). by apply granted_mono.
Qed.

(** What the other routes do for a Daughter stores no group list. *)
Lemma stores_others call caller ip :
  Db.k_is_master caller = false ->
  match call with CreateEndpoint _ | UpdateEndpoint _ _ => False | _ => True end ->
  always (ep_groups (fun _ => False)) (dispatch app call caller ip).
Proof.
  intros Hm Hc. destruct call; cbn [dispatch] in *; try done; try apply always_ret;
    apply always_answer; try by apply require_master_stops.
  - unfold Endpoints.list_endpoints. walk ltac:(apply groups_query).
  - unfold Endpoints.delete_endpoint, Endpoints.find_endpoint, Endpoints.evict_cache.
    walk ltac:(first [apply groups_query|apply groups_delete|apply groups_audit|by apply groups_step]).
  - unfold Endpoints.reassign_endpoint_owner. rewrite Hm. apply always_ret.
  - unfold ReadOnly.list_audit_logs. rewrite Hm. apply always_ret.
  - unfold Groups.list_key_groups. walk ltac:(apply groups_query).
  - unfold Groups.revoke_key_group. apply always_bind_ok; [apply always_ret|].
    intros [i j]. by apply require_master_stops.
Qed.

(** C9. A Daughter key can only publish groups the Master granted it: whichever route
    it calls and whatever the answer, if a step of the request leaves an endpoint
    with a group list it did not have, then a step of the same request before that
    one found a grant of that very key for every group the list names. *)
Theorem daughter_groups_are_granted call caller ip tr1 t w w' tr2 r :
  Db.k_is_master caller = false ->
  exec (dispatch app call caller ip) (tr1 ++ (t, w, w') :: tr2) r ->
  forall id e', Db.endpoints (db w') !! id = Some e' ->
    (exists e, Db.endpoints (db w) !! id = Some e /\ Db.e_vault_groups e = Db.e_vault_groups e') \/
    groups_granted tr1 caller (Db.e_vault_groups e').
Proof.
  intros Hm He id e' Hid.
  enough (stores_granted caller [] (dispatch app call caller ip)) as Hs by exact (Hs _ _ He tr1 _ tr2 eq_refl id e' Hid).
  destruct (match call with CreateEndpoint _ | UpdateEndpoint _ _ => true | _ => false end) eqn:Hc.
  2:{ apply stores_none, stores_others; [done|]. by destruct call. }
  destruct call; try done; cbn [dispatch]; (apply stores_bind_ok; [|intros; apply stores_none, always_ret]).
  - by apply stores_create.
  - by apply stores_update.
Qed.

End grants.

(** ** Deletion of a key *)

Section deletion.
Context {L : IpNetLib} {C : CryptoLib} {Ch : ChronoLib} {U : UuidLib} {J : Vault.JsonLib}.

(** What becomes of an endpoint when the key [from] is deleted in favour of [to]:
    only its owner and its modification time move. *)
Definition moved (from : Uuid) (to : option Uuid) (e e' : Db.Endpoint) : Prop :=
  if decide (Db.e_owner_key_id e = Some from)
  then exists now, e' = Db.set_ep_updated_at now (Db.set_ep_owner to e) else e' = e.

(** The one step of a successful deletion. *)
Record deletion (id : Uuid) (to : option Uuid) (caller : Db.ApiKey) (d d' : Db.Database) : Prop := {
  del_key : Db.api_keys d' = delete id (Db.api_keys d);
  del_target : forall k, to = Some k -> k <> id /\ is_Some (Db.api_keys d !! k);
  del_endpoints : forall i e, Db.endpoints d !! i = Some e ->
    exists e', Db.endpoints d' !! i = Some e' /\ moved id to e e';
  del_orphans : to = None -> forall i e, Db.endpoints d !! i = Some e -> Db.e_owner_key_id e <> Some id;
  del_grants : forall i g, Db.vault_group_permissions d' !! i = Some g <->
    Db.vault_group_permissions d !! i = Some g /\ Db.g_api_key_id g <> id;
  del_audit : exists a, Db.audit_logs d' !! Db.a_id a = Some a /\ Db.audit_logs d !! Db.a_id a = None /\
    Db.a_action a = "KEY_DELETE" /\ Db.a_api_key_id a = Some (Db.k_id caller);
}.

Lemma insert_audit_Ok a b d d' :
  Db.insert_audit a d = (Ok b, d') ->
  Db.audit_logs d !! Db.a_id a = None /\ d' = Db.with_audit d (<[Db.a_id a := a]> (Db.audit_logs d)).
Proof.
  unfold Db.insert_audit. intros Hi. repeat case_match; simplify_eq. split; [|done].
  apply eq_None_not_Some. by eapply bool_decide_eq_false_1.
Qed.

Lemma owned_nil d id :
  Db.find_all (fun e => bool_decide (Db.e_owner_key_id e = Some id)) (Db.endpoints d) = [] ->
  forall i e, Db.endpoints d !! i = Some e -> Db.e_owner_key_id e <> Some id.
Proof.
  intros Hown i e He Ho.
  assert (e ∈ Db.find_all (fun e => bool_decide (Db.e_owner_key_id e = Some id)) (Db.endpoints d)) as Hin.
  { apply Db.elem_of_find_all. split; [by apply bool_decide_eq_true|eauto]. }
  rewrite Hown in Hin. by apply elem_of_nil in Hin.
Qed.

Lemma delete_txn_deletion caller ip id q res now t d d' :
  Db.db_wf d -> Keys.reassign_to q <> Some id ->
  Keys.delete_key_txn caller ip id q res now t d = (Ok tt, d') ->
  deletion id (Keys.reassign_to q) caller d d'.
Proof.
  intros Hwf Hto Hd.
  destruct (delete_key_txn_Ok _ _ _ _ _ _ _ _ _ Hd) as (d1 & d2 & det & H1 & H2 & H3).
  apply insert_audit_Ok in H3 as [Hfresh ->].
  unfold Db.delete_key in H2. destruct (Db.api_keys d1 !! id) as [k|] eqn:Hk; [|done].
  injection H2 as <-. simpl in Hfresh.
  assert (Db.api_keys d1 = Db.api_keys d /\ Db.audit_logs d1 = Db.audit_logs d /\
    Db.vault_group_permissions d1 = Db.vault_group_permissions d) as (K1 & K2 & K3).
  { destruct H1 as [(to & tg & n & _ & _ & Hr)|(_ & _ & ->)]; [|done].
    unfold Db.reassign_endpoints in Hr. case_match; [done|]. by injection Hr as _ <-. }
  split; simpl.
  - by rewrite K1.
  - intros k' Hk'. split; [congruence|]. destruct H1 as [(to & tg & n & Hq & Htg & _)|(Hq & _)]; [|congruence].
    assert (to = k') as <- by congruence. eauto.
  - intros i e He. rewrite lookup_fmap. destruct H1 as [(to & tg & n & Hq & Htg & Hr)|(Hq & Hown & ->)].
    + assert (Db.k_id tg = to) as Hid by exact (Db.wf_keys _ Hwf _ _ Htg).
      unfold Db.reassign_endpoints in Hr. case_match; [done|]. injection Hr as _ <-. simpl.
      rewrite lookup_fmap, He. simpl. eexists. split; [done|]. unfold moved. rewrite Hq.
      destruct (decide (Db.e_owner_key_id e = Some id)) as [Ho|Ho].
      * exists now. rewrite (bool_decide_true (Db.e_owner_key_id e = Some id)) by done.
        rewrite bool_decide_false; [by rewrite Hid|simpl; congruence].
      * by rewrite !(bool_decide_false (Db.e_owner_key_id e = Some id)).
    + rewrite He. simpl. eexists. split; [done|]. unfold moved.
      destruct (decide (Db.e_owner_key_id e = Some id)) as [Ho|Ho]; [|by rewrite bool_decide_false].
      exfalso. by apply (owned_nil _ _ Hown i e).
  - intros Hn i e He Ho. destruct H1 as [(to & tg & n & Hq & _)|(_ & Hown & ->)]; [congruence|].
    by apply (owned_nil _ _ Hown i e).
  - intros i g. rewrite map_lookup_filter_Some, K3. done.
  - eexists. split_and!; [apply lookup_insert_eq| |done|done].
    rewrite K2, lookup_fmap in Hfresh. by destruct (Db.audit_logs d !! _).
Qed.

(** C18. Deleting a key is all or nothing: a request that fails, at whatever
    statement, has changed no row; one that succeeds has, in one atomic step,
    removed the key and its grants, handed every endpoint it owned to the key
    named by [reassign_to] (there being none if no key was named), and written the
    audit entry. *)
Theorem delete_key_all_or_nothing caller ip id q tr r :
  exec (Keys.delete_api_key caller ip id q) tr r ->
  Forall (fun s => Db.db_wf (db s.1.2)) tr ->
  match r with
  | Err _ => Forall (fun s => db s.2 = db s.1.2) tr
  | Ok _ => exists tr0 t w w', tr = tr0 ++ [(t, w, w')] /\
      Forall (fun s => db s.2 = db s.1.2) tr0 /\
      deletion id (Keys.reassign_to q) caller (db w) (db w')
  end.
Proof.
  unfold Keys.delete_api_key. intros He Hwf.
  assert (forall A (f : Tick -> World -> A * World), (forall t w, db (f t w).2 = db w) ->
    always (fun w w' => db w' = db w) (Step f Ret)) as Hstep.
  { intros A f Hf. apply always_step; [intros; apply Hf|]. intros; apply always_ret. }
  unfold Guards.require_master in He. destruct (Db.k_is_master caller);
    [|by apply exec_ret in He as [-> ->]].
  apply exec_bind in He as (? & u & tr' & -> & [-> ->]%exec_ret & He). cbn [app] in *.
  apply exec_bind in He as (trf & row & tr1 & -> & Hf & He).
  assert (always (fun w w' => db w' = db w) (Keys.find_key id)) as Hfind.
  { apply always_bind_ok; [apply Hstep; intros t w; by destruct (db_faults t 0)|]. intros; apply always_ret. }
  apply Hfind in Hf. clear Hfind. destruct row as [row|e]; [|apply exec_ret in He as [-> ->]; by rewrite app_nil_r].
  apply exec_bind in He as (? & g & tr2 & -> & [-> ->]%exec_ret & He).
  destruct (Guards.guard_master_delete_or_rotate row "deleted") as [[]|e];
    [|apply exec_ret in He as [-> ->]; by rewrite app_nil_r].
  case_bool_decide as Hto; [apply exec_ret in He as [-> ->]; by rewrite app_nil_r|]. cbv zeta in He.
  apply exec_bind in He as (trn & now & tr3 & -> & Hn & He). apply Hstep in Hn; [|done].
  apply exec_step1 in He as (t & w & -> & ->). simpl in Hwf.
  assert (Forall (fun s => db s.2 = db s.1.2) (trf ++ trn)) as Hpre by by apply Forall_app.
  assert (Db.db_wf (db w)) as Hw.
  { rewrite !Forall_app in Hwf. by destruct Hwf as (_ & _ & [? _]%Forall_cons). }
  destruct (db_faults t 0) eqn:F0; cbn [fst snd].
  { simpl. rewrite app_assoc. apply Forall_app. split; [done|]. by repeat constructor. }
  destruct (Keys.delete_key_txn _ _ _ _ _ _ _ _) as [[[]|e] d'] eqn:Hd; cbn [fst snd].
  2:{ simpl. rewrite app_assoc. apply Forall_app. split; [done|]. by repeat constructor. }
  destruct (db_faults t 1); cbn [fst snd].
  { simpl. rewrite app_assoc. apply Forall_app. split; [done|]. by repeat constructor. }
  exists (trf ++ trn), t, w. eexists. split_and!; [simpl; by rewrite app_assoc|done|].
  simpl. by eapply delete_txn_deletion.
Qed.

End deletion.

(** ** Minted credentials *)

Section minting.
Context {L : IpNetLib} {C : CryptoLib} {CL : CryptoLaws C} {U : UuidLib}.
Context (app : AppConfig).

(** The row stands for the credentials: it is found by the hash of the key, its
    prefix is the key's, and its stored secret opens to the signing secret. *)
Definition stands_for (row : Db.ApiKey) (api_key signing_secret : string) : Prop :=
  Db.k_key_hash row = Support.hash_key api_key /\ Db.k_prefix row = Str.take 8 api_key /\
  Middleware.recover_signing_secret app row = Ok signing_secret.

(** Every nonce drawn has the length asked for. *)
Definition nonces_ok (tr : list (Tick * World * World)) : Prop :=
  Forall (fun s => String.length (random s.1.1 Crypto.NONCE_LEN) = Crypto.NONCE_LEN) tr.

Lemma seal_exec secret tr sealed :
  exec (Support.seal_secret app secret) tr (Ok sealed) -> nonces_ok tr ->
  Str.is_utf8 secret = true -> Crypto.open (cipher app) sealed = Ok secret.
Proof.
  intros (tr1 & nonce & tr2 & -> & (t & w & -> & ->)%exec_read & [-> Hs]%exec_ret)%exec_bind Hn Hu.
  apply Forall_cons in Hn as [Hn _]. simpl in Hn.
  destruct (Crypto.seal _ _ _) as [stored|e] eqn:Hseal; simplify_eq/=.
  by destruct (Crypto.seal_open (cipher app) (random t Crypto.NONCE_LEN) secret stored).
Qed.

Lemma generate_exec tr secret :
  exec Support.generate_signing_secret tr secret -> Str.is_utf8 secret = true.
Proof. intros (t & w & _ & ->)%exec_read. apply Crypto.hex_utf8. Qed.

(** C20. Credentials handed out are the ones that work: after a key is created or
    rotated, the row the database holds is found by the returned key, and its
    stored secret opens to the returned signing secret under the running cipher;
    a created key is never a master. *)
Theorem minted_credentials_work caller ip :
  (forall p tr resp, exec (Keys.create_api_key app caller ip p) tr (Ok resp) -> nonces_ok tr ->
     exists t w w' row, (t, w, w') ∈ tr /\ Db.api_keys (db w') !! Db.k_id row = Some row /\
       Keys.mk_key resp = Keys.key_response row /\ Db.k_is_master row = false /\
       stands_for row (Keys.mk_api_key resp) (Keys.mk_signing_secret resp)) /\
  (forall id tr resp, exec (Keys.rotate_api_key app caller ip id) tr (Ok resp) -> nonces_ok tr ->
     exists t w w' id' row, (t, w, w') ∈ tr /\ Db.api_keys (db w') !! id' = Some row /\
       Keys.mk_key resp = Keys.key_response row /\
       stands_for row (Keys.mk_api_key resp) (Keys.mk_signing_secret resp)).
Proof.
  split.
  - intros p tr resp He Hn. unfold Keys.create_api_key in He.
    apply exec_bind_ok in He as (? & [] & tr1 & -> & [-> _]%exec_ret & He).
    destruct (Str.is_empty _); [by apply exec_ret in He as [_ ?]|]. cbv zeta in He.
    apply exec_bind_ok in He as (? & [] & tr2 & -> & [-> _]%exec_ret & He). rewrite ?app_nil_l in Hn |- *.
    apply exec_bind in He as (trk & key & tr3 & -> & _ & He).
    apply exec_bind in He as (trs & sec & tr4 & -> & Hsec%generate_exec & He).
    apply exec_bind in He as (trn & now & tr5 & -> & _ & He).
    apply exec_bind in He as (tri & id & tr6 & -> & _ & He).
    apply exec_bind_ok in He as (trz & sealed & tr7 & -> & Hseal & He).
    apply exec_bind_ok in He as (tru & row & tr8 & -> & (t & w & d & -> & Hins)%exec_stmt_ok & He).
    apply exec_bind_ok in He as (tra & [] & tr9 & -> & _ & [-> [= ->]]%exec_ret).
    apply seal_exec in Hseal; [|unfold nonces_ok in *; rewrite !Forall_app in Hn; tauto|done].
    unfold Db.insert_key in Hins. destruct (_ || _); [done|]. injection Hins as <- <-.
    exists t, w. do 2 eexists. split_and!; [in_trace|apply lookup_insert_eq|done|done|].
    split_and!; try done. unfold Middleware.recover_signing_secret. simpl. by rewrite Hseal.
  - intros id tr resp He Hn. unfold Keys.rotate_api_key in He.
    apply exec_bind_ok in He as (? & [] & tr1 & -> & [-> _]%exec_ret & He).
    apply exec_bind_ok in He as (trf & ex & tr2 & -> & _ & He).
    apply exec_bind_ok in He as (? & [] & tr3 & -> & [-> _]%exec_ret & He). rewrite ?app_nil_l in Hn |- *.
    apply exec_bind in He as (trk & key & tr4 & -> & _ & He).
    apply exec_bind in He as (trs & sec & tr5 & -> & Hsec%generate_exec & He).
    apply exec_bind_ok in He as (trz & sealed & tr6 & -> & Hseal & He).
    apply exec_bind in He as (trn & now & tr7 & -> & _ & He).
    apply exec_bind_ok in He as (tru & row & tr8 & -> & (t & w & d & -> & Hupd)%exec_stmt_ok & He).
    apply exec_bind_ok in He as (tra & [] & tr9 & -> & _ & [-> [= ->]]%exec_ret).
    apply seal_exec in Hseal; [|unfold nonces_ok in *; rewrite !Forall_app in Hn; tauto|done].
    unfold Db.update_key in Hupd. destruct (Db.api_keys (db w) !! _) as [old|]; [|done].
    destruct (Db.key_conflicts _ _); [done|]. injection Hupd as <- <-.
    exists t, w. do 3 eexists. split_and!; [in_trace|apply lookup_insert_eq|done|].
    split_and!; try done. unfold Middleware.recover_signing_secret. simpl. by rewrite Hseal.
Qed.

End minting.

(** ** The audit trail *)

Section audit.
Context {L : IpNetLib} {C : CryptoLib} {Ch : ChronoLib} {U : UuidLib} {J : Vault.JsonLib}.
Context (app : AppConfig).

(** A step of the trace wrote an entry for the action, in the caller's name and
    address. *)
Definition audited (caller : Db.ApiKey) (ip : IpAddr) (action : string)
    (tr : list (Tick * World * World)) : Prop :=
  exists t w w' a, (t, w, w') ∈ tr /\ Db.audit_logs (db w') !! Db.a_id a = Some a /\
    Db.audit_logs (db w) !! Db.a_id a = None /\
    Db.a_action a = action /\ Db.a_api_key_id a = Some (Db.k_id caller) /\
    Db.a_api_key_name a = Db.k_name caller /\ Db.a_client_ip a = ip_show ip.

(** Every success of the program is audited. *)
Definition audits {A} caller ip action (p : prog (result A AppError)) : Prop :=
  forall tr b, exec p tr (Ok b) -> audited caller ip action tr.

Lemma audited_app caller ip action tr1 tr tr2 :
  audited caller ip action tr -> audited caller ip action (tr1 ++ tr ++ tr2).
Proof. intros (t & w & w' & a & Hin & Ha). exists t, w, w', a. split; [in_trace|done]. Qed.

Lemma audits_err {A} caller ip action e : audits (A:=A) caller ip action (Ret (Err e)).
Proof. by intros tr b [_ ?]%exec_ret. Qed.

Lemma audits_bind {A B} caller ip action (p : prog A) (f : A -> prog (result B AppError)) :
  (forall a, audits caller ip action (f a)) -> audits caller ip action (bind p f).
Proof.
  intros Hf tr b (tr1 & a & tr2 & -> & _ & He%Hf)%exec_bind. rewrite <- (app_nil_r tr2).
  by apply audited_app.
Qed.

Lemma audits_bind_ok {A B} caller ip action (p : prog (result A AppError))
    (f : A -> prog (result B AppError)) :
  (forall a, audits caller ip action (f a)) -> audits caller ip action (bind_ok p f).
Proof. intros Hf. apply audits_bind. intros [a|e]; [apply Hf|apply audits_err]. Qed.

Lemma audits_here {B} caller ip action res det (f : unit -> prog (result B AppError)) :
  audits caller ip action (bind_ok (Support.create_audit_log caller ip action res det) f).
Proof.
  intros tr b (tr1 & a & tr2 & -> & He & _)%exec_bind_ok. apply (audited_app _ _ _ []).
  unfold Support.create_audit_log in He.
  apply exec_bind in He as (tra & row & trb & -> & (t0 & w0 & -> & ->)%exec_read & He).
  apply exec_bind_ok in He as (trc & x & trd & -> & (t & w & d & -> & Hi)%exec_stmt_ok & _).
  apply insert_audit_Ok in Hi as [Hf ->]. exists t, w. do 2 eexists.
  split_and!; [in_trace|apply lookup_insert_eq|done..].
Qed.

Lemma audits_delete_txn caller ip id q res now :
  audits caller ip "KEY_DELETE" (txn (Keys.delete_key_txn caller ip id q res now)).
Proof.
  intros tr [] (t & w & -> & He)%exec_step1.
  destruct (db_faults t 0); [done|].
  destruct (Keys.delete_key_txn _ _ _ _ _ _ _ _) as [[[]|e] d'] eqn:Hd; [|done].
  destruct (db_faults t 1); [done|]. cbn [snd] in *.
  destruct (delete_key_txn_Ok _ _ _ _ _ _ _ _ _ Hd) as (d1 & d2 & det & H1 & H2 & H3).
  apply insert_audit_Ok in H3 as [Hf ->]. exists t, w. do 2 eexists.
  split_and!; [by apply list_elem_of_singleton|apply lookup_insert_eq| |done..].
  assert (Db.audit_logs d1 = Db.audit_logs (db w)) as Ha.
  { destruct H1 as [(to & tg & n & _ & _ & Hr)|(_ & _ & ->)]; [|done].
    unfold Db.reassign_endpoints in Hr. case_match; [done|]. by injection Hr as _ <-. }
  unfold Db.delete_key in H2. destruct (Db.api_keys d1 !! id); [|done]. injection H2 as <-.
  simpl in Hf. rewrite Ha, lookup_fmap in Hf. by destruct (Db.audit_logs (db w) !! _).
Qed.

End audit.

Ltac audits_tac :=
  repeat lazymatch goal with
  | |- audits _ _ _ (bind_ok (Support.create_audit_log _ _ _ _ _) _) => apply audits_here
  | |- audits _ _ _ (txn _) => apply audits_delete_txn
  | |- audits _ _ _ (Ret (Err _)) => apply audits_err
  | |- audits _ _ _ (bind_ok _ _) => apply audits_bind_ok; intros ?
  | |- audits _ _ _ (bind _ _) => apply audits_bind; intros ?
  | |- audits _ _ _ (if ?b then _ else _) => destruct b
  | |- audits _ _ _ (let _ := _ in _) => cbv zeta
  end.

Section audited.
Context {L : IpNetLib} {C : CryptoLib} {Ch : ChronoLib} {U : UuidLib} {J : Vault.JsonLib}.
Context (app : AppConfig).

Lemma quiet_prefix {T} (p : prog T) tr a :
  always quiet p -> exec p tr a -> Forall (fun s => db s.2 = db s.1.2) tr.
Proof. intros Hq He. eapply Forall_impl; [by eapply Hq|]. by intros [[t w] w'] [? _]. Qed.

(** The key holds a grant for the group. *)
Definition holds_grant (w : World) (id group : Uuid) : Prop :=
  exists gid p, Db.vault_group_permissions (db w) !! gid = Some p /\
    Db.g_api_key_id p = id /\ Db.g_vault_group_id p = group.

(** The lookup that decides between a grant that exists and one to insert. *)
Lemma find_grant_exec id group tr existing :
  exec (query (fun d => Db.find_one (fun g => bool_decide (Db.g_api_key_id g = id)
          && bool_decide (Db.g_vault_group_id g = group)) (Db.vault_group_permissions d))) tr (Ok existing) ->
  exists t w, tr = [(t, w, set_db w (db w))] /\ (holds_grant w id group <-> is_Some existing).
Proof.
  intros (t & w & -> & ->)%exec_query_ok. exists t, w. split; [done|]. split.
  - intros (gid & p & Hp & <- & <-). destruct (Db.find_one _ _) as [x|] eqn:Hf; [by eexists|].
    pose proof (Db.find_one_None _ _ Hf gid p Hp) as Hn. cbv beta in Hn. by rewrite !bool_decide_eq_true_2 in Hn.
  - intros [x Hx]. apply Db.find_one_Some in Hx as [Hb [gid Hg]].
    apply andb_true_iff in Hb as [H1%bool_decide_eq_true H2%bool_decide_eq_true]. by exists gid, x.
Qed.

(** A grant that succeeds writes nothing up to a step that looks whether there is
    one; it stops there if there is, and otherwise it is audited. *)
Lemma grant_audited caller ip id g tr b :
  exec (Groups.grant_key_group app caller ip id g) tr (Ok b) ->
  exists tr1 s tr2, tr = tr1 ++ s :: tr2 /\ Forall (fun s => db s.2 = db s.1.2) (tr1 ++ [s]) /\
    (holds_grant s.1.2 id g -> tr2 = []) /\
    (~ holds_grant s.1.2 id g -> audited caller ip "KEY_GROUP_GRANT" tr2).
Proof.
  unfold Groups.grant_key_group.
  intros (tr1 & [] & tr2 & -> & [-> _]%exec_ret & He)%exec_bind_ok.
  apply exec_bind_ok in He as (tr3 & target & tr4 & -> & H1 & He).
  apply exec_bind_ok in He as (tr5 & client & tr6 & -> & [-> _]%exec_ret & He).
  apply exec_bind_ok in He as (tr7 & groups & tr8 & -> & H2 & He).
  apply exec_bind_ok in He as (tr9 & group & tr10 & -> & [-> Hgr]%exec_ret & He).
  assert (Vault.vg_id group = g) as Hg.
  { destruct (List.find _ groups) as [x|] eqn:Hx; [|done]. injection Hgr as ->.
    by apply List.find_some in Hx as [_ ?%bool_decide_eq_true]. }
  rewrite Hg in *. apply exec_bind_ok in He as (tr11 & existing & tr12 & -> & H3 & He).
  apply find_grant_exec in H3 as (t & w & -> & Hx).
  exists (tr3 ++ tr7), (t, w, set_db w (db w)), tr12. rewrite !app_nil_l. split_and!.
  - by rewrite <- app_assoc.
  - repeat apply Forall_app_2; [..|by repeat constructor].
    + eapply quiet_prefix; [|exact H1]. unfold Keys.find_key. quiet_tac.
    + eapply quiet_prefix; [|exact H2]. unfold Groups.live_groups, Groups.vault_list_groups.
      apply always_bind; [|intros; apply always_ret]. apply quiet_step. intros t' w'.
      by destruct (Vault.list_groups _ _ _).
  - intros [x ->]%Hx. by apply exec_ret in He as [-> _].
  - intros Hno. destruct existing as [x|]; [by destruct Hno; apply Hx|]. revert He.
    match goal with |- exec ?p _ _ -> _ =>
      enough (audits caller ip "KEY_GROUP_GRANT" p) as H by (intros He; by eapply H) end.
    audits_tac.
Qed.

(** C21. Nothing succeeds unrecorded: whenever a route that changes keys,
    endpoints or grants reports success, the request has written a fresh audit
    entry for that action in the caller's name and address.  Granting a group is
    audited unless the key holds the grant at the step that looks for one: up to
    that step nothing is written, and if the grant is there the request ends with
    it, so that a repeated grant writes no entry and changes nothing. *)
Theorem mutations_are_audited caller ip :
  (forall p, audits caller ip "KEY_CREATE" (Keys.create_api_key app caller ip p)) /\
  (forall id p, audits caller ip "KEY_UPDATE" (Keys.update_api_key caller ip id p)) /\
  (forall id q, audits caller ip "KEY_DELETE" (Keys.delete_api_key caller ip id q)) /\
  (forall id, audits caller ip "KEY_ROTATE" (Keys.rotate_api_key app caller ip id)) /\
  (forall id, audits caller ip "KEY_SECRET_ROTATE" (Keys.rotate_signing_secret app caller ip id)) /\
  (forall p, audits caller ip "ENDPOINT_CREATE" (Endpoints.create_endpoint caller ip p)) /\
  (forall id p, audits caller ip "ENDPOINT_UPDATE" (Endpoints.update_endpoint caller ip id p)) /\
  (forall id, audits caller ip "ENDPOINT_DELETE" (Endpoints.delete_endpoint caller ip id)) /\
  (forall id p, audits caller ip "ENDPOINT_OWNER_REASSIGN"
     (Endpoints.reassign_endpoint_owner caller ip id p)) /\
  (forall path, audits caller ip "KEY_GROUP_REVOKE" (Groups.revoke_key_group caller ip path)) /\
  (forall id g tr b, exec (Groups.grant_key_group app caller ip id g) tr (Ok b) ->
     exists tr1 s tr2, tr = tr1 ++ s :: tr2 /\ Forall (fun s => db s.2 = db s.1.2) (tr1 ++ [s]) /\
       (holds_grant s.1.2 id g -> tr2 = []) /\
       (~ holds_grant s.1.2 id g -> audited caller ip "KEY_GROUP_GRANT" tr2)).
Proof.
  split_and!; intros; [..|by eapply grant_audited]; unfold Keys.create_api_key, Keys.update_api_key, Keys.delete_api_key,
    Keys.rotate_api_key, Keys.rotate_signing_secret, Endpoints.create_endpoint,
    Endpoints.update_endpoint, Endpoints.delete_endpoint, Endpoints.reassign_endpoint_owner,
    Groups.revoke_key_group; audits_tac.
Qed.

End audited.

(** ** Witnesses *)

Section witnesses.
Import Ref.

(** The Daughter updates its own feed. *)
Definition w_update : Endpoints.UpdateEndpointPayload :=
  Endpoints.mkUpdateEndpointPayload None None (Some "malware") (Some 120) None None None None None.

Definition w_call : prog (result ApiResponse AppError) :=
  dispatch Demo.service (UpdateEndpoint 10%N w_update) Demo.daughter Demo.client.
Definition w_trace : list (Tick * World * World) := trace Demo.tick 0 w_call Demo.start.

Definition w_result : result ApiResponse AppError := outcome Demo.tick w_call Demo.start.

Lemma w_call_exec : exec w_call w_trace w_result.
Proof. by apply outcome_exec. Qed.

Lemma daughter_confined_witness :
  always admin_same (dispatch Demo.service (UpdateEndpoint 10%N w_update) Demo.daughter Demo.client).
Proof. by apply (daughter_confined Demo.service). Defined.

Lemma w_trace_wf : Forall (fun s => Db.db_wf (db s.1.2)) w_trace.
Proof. apply trace_wf; [apply keeps_dispatch|]; apply Demo.database_wf. Qed.

(** The step of the [UPDATE] statement. *)
Definition w_change : Tick * World * World :=
  default (Demo.tick 0, Demo.start, Demo.start) (w_trace !! 3%nat).

Lemma endpoint_changes_are_owned_witness : found_owned w_trace 10%N Demo.daughter.
Proof.
  apply (endpoint_changes_are_owned Demo.service (UpdateEndpoint 10%N w_update) Demo.daughter
    Demo.client w_trace w_result eq_refl w_call_exec w_trace_wf w_change.1.1 w_change.1.2 w_change.2
    10%N Demo.feed).
  - apply (list_elem_of_lookup_2 w_trace 3). reflexivity.
  - by vm_compute.
  - intros H. apply (f_equal (fun o => Db.e_vault_groups <$> o)) in H. by vm_compute in H.
Defined.

(** The step writes "malware" where "malware,scanners" was. *)
Lemma w_change_row :
  exists e', Db.endpoints (db w_change.2) !! 10%N = Some e' /\ Db.e_vault_groups e' = "malware".
Proof.
  assert (Db.e_vault_groups <$> Db.endpoints (db w_change.2) !! 10%N = Some "malware") as Hg by by vm_compute.
  apply fmap_Some in Hg as (e' & He & ->). eauto.
Qed.

Lemma w_trace_split : w_trace = take 3 w_trace ++ (w_change.1.1, w_change.1.2, w_change.2) :: drop 4 w_trace.
Proof.
  rewrite <- !surjective_pairing. symmetry. apply take_drop_middle. unfold w_change.
  apply default_lookup. by vm_compute.
Qed.

Lemma daughter_groups_are_granted_witness : groups_granted (take 3 w_trace) Demo.daughter "malware".
Proof.
  destruct w_change_row as (e' & He & Hg). rewrite <- Hg.
  pose proof w_call_exec as Hx. rewrite w_trace_split in Hx.
  destruct (daughter_groups_are_granted Demo.service (UpdateEndpoint 10%N w_update) Demo.daughter Demo.client
    (take 3 w_trace) w_change.1.1 w_change.1.2 w_change.2 (drop 4 w_trace) w_result eq_refl Hx 10%N e' He)
    as [(e & Hold & Hsame)|]; [|done].
  assert (Db.endpoints (db w_change.1.2) !! 10%N = Some Demo.feed) as Hfeed by by vm_compute.
  rewrite Hfeed in Hold. injection Hold as <-. by rewrite Hg in Hsame.
Defined.

(** The master deletes the Daughter in favour of itself. *)
Definition w_delete : prog (result unit AppError) :=
  Keys.delete_api_key Demo.master Demo.client 2%N (Keys.mkDeleteKeyQuery (Some 1%N)).
Definition w_delete_trace : list (Tick * World * World) := trace Demo.tick 0 w_delete Demo.start.

Lemma delete_key_all_or_nothing_witness :
  exists tr0 t w w', w_delete_trace = tr0 ++ [(t, w, w')] /\
    Forall (fun s => db s.2 = db s.1.2) tr0 /\ deletion 2%N (Some 1%N) Demo.master (db w) (db w').
Proof.
  apply (delete_key_all_or_nothing Demo.master Demo.client 2%N (Keys.mkDeleteKeyQuery (Some 1%N))
    w_delete_trace (Ok tt)).
  - apply outcome_exec. by vm_compute.
  - apply trace_wf; [apply keeps_delete_key|]; apply Demo.database_wf.
Defined.

(** The master grants the Daughter a group it holds. *)
Definition w_grant : prog (result Db.VaultGroupPermission AppError) :=
  Groups.grant_key_group Demo.service Demo.master Demo.client 2%N 100%N.
Definition w_grant_trace : list (Tick * World * World) := trace Demo.tick 0 w_grant Demo.start.

Lemma w_grant_ok : outcome Demo.tick w_grant Demo.start = Ok Demo.grant1.
Proof. by vm_compute. Qed.

Lemma w_grant_held : Forall (fun s => holds_grant s.1.2 2%N 100%N) w_grant_trace.
Proof.
  assert (forallb (fun s => bool_decide
    ((fun p => (Db.g_api_key_id p, Db.g_vault_group_id p)) <$> Db.vault_group_permissions (db s.1.2) !! 20%N
     = Some (2%N, 100%N))) w_grant_trace = true) as Hf by by vm_compute.
  rewrite forallb_forall in Hf. apply Forall_forall. intros s Hs%list_elem_of_In.
  specialize (Hf s Hs). apply bool_decide_eq_true, fmap_Some in Hf as (p & Hp & [= H1 H2]). by exists 20%N, p.
Qed.

(** It changes nothing. *)
Lemma mutations_are_audited_witness : Forall (fun s => db s.2 = db s.1.2) w_grant_trace.
Proof.
  pose proof (mutations_are_audited Demo.service Demo.master Demo.client) as (_ & _ & _ & _ & _ & _ & _ & _ & _ & _ & Hg).
  destruct (Hg 2%N 100%N w_grant_trace _ (outcome_exec _ _ _ _ w_grant_ok)) as (tr1 & s & tr2 & Htr & Hq & Hheld & _).
  pose proof w_grant_held as Hh. rewrite Htr in *. apply Forall_app in Hh as [_ [Hs _]%Forall_cons].
  by rewrite (Hheld Hs).
Defined.

(** The master mints a key. *)
Definition w_mint : prog (result Keys.MintedKeyResponse AppError) :=
  Keys.create_api_key Demo.service Demo.master Demo.client (Keys.mkCreateKeyPayload "new" None false).
Definition w_mint_trace : list (Tick * World * World) := trace Demo.tick 0 w_mint Demo.start.

Lemma w_mint_ok : is_ok (outcome Demo.tick w_mint Demo.start) = true.
Proof. by vm_compute. Qed.

Lemma minted_credentials_work_witness :
  exists resp t w w' row, (t, w, w') ∈ w_mint_trace /\
    Db.api_keys (db w') !! Db.k_id row = Some row /\
    stands_for Demo.service row (Keys.mk_api_key resp) (Keys.mk_signing_secret resp).
Proof.
  pose proof w_mint_ok as Hok. destruct (outcome Demo.tick w_mint Demo.start) as [resp|e] eqn:Ho; [|done].
  apply outcome_exec in Ho. exists resp.
  destruct (proj1 (minted_credentials_work Demo.service Demo.master Demo.client)
      (Keys.mkCreateKeyPayload "new" None false) _ resp Ho)
    as (t & w & w' & row & Hin & Hrow & _ & _ & Hst); [|by exists t, w, w', row].
  clear. unfold nonces_ok. generalize 0%nat Demo.start. induction w_mint as [a|B f k IH]; intros i w;
    cbn [trace]; [constructor|]. destruct (f (Demo.tick i) w) as [b w']. constructor; [done|apply IH].
Defined.

End witnesses.

End ApiProps.
