(* ===== verification/ApiExact.v ===== *)
(** * What the API answers and stores, exactly

    The answer to a Daughter key shows nothing but its own: its identity, its
    endpoints and its grants.  An update is a patch: the fields it names take the
    value given, normalised as the code does, every other column and every other
    row stay as they were. *)

From S2P Require Import Prelude.
From S2P Require Import RustStr.
From S2P Require Import Net.
From S2P Require Import Libs.
From S2P Require Import LibsRef.
From S2P Require Import Cache.
From S2P Require Import Crypto.
From S2P Require Import VaultClient.
From S2P Require Import DnsCache.
From S2P Require Import Config.
From S2P Require Import Db.
From S2P Require Import App.
From S2P Require Import Demo.
From S2P Require Import Auth.
From S2P Require Import ApiKeys.
From S2P Require Import ApiEndpoints.
From S2P Require Import Extract.
From S2P Require Import Feed.
From S2P Require Import Router.
From S2P Require Import System.
Import App Router.
#[local] Open Scope Z_scope.
#[local] Open Scope rust_scope.
#[local] Open Scope prog_scope.

Module ApiExact.

(** ** What a Daughter sees *)

Section visible.
Context {L : IpNetLib} {C : CryptoLib} {Ch : ChronoLib} {U : UuidLib} {J : Vault.JsonLib}.
Context (app : AppConfig).

(** The request found the endpoint in the hands of the caller. *)
Definition found_owned (caller : Db.ApiKey) (tr : list (Tick * World * World)) (id : Uuid) : Prop :=
  exists t w w' e, (t, w, w') ∈ tr /\ Db.endpoints (db w) !! id = Some e /\
    Db.e_owner_key_id e = Some (Db.k_id caller).

(** An endpoint shown is a row the database held, and the caller's: by the row
    itself, or as the request found it when its owner changed underneath. *)
Definition endpoint_shown (caller : Db.ApiKey) (tr : list (Tick * World * World))
  (r : Endpoints.EndpointResponse) : Prop :=
  exists t w w' e, (t, w, w') ∈ tr /\ Db.endpoints (db w') !! Db.e_id e = Some e /\
    r = Endpoints.endpoint_response e /\
    (Db.e_owner_key_id e = Some (Db.k_id caller) \/ found_owned caller tr (Db.e_id e)).

Definition shows_own (caller : Db.ApiKey) (tr : list (Tick * World * World)) (resp : ApiResponse) : Prop :=
  match resp with
  | Me r => r = ReadOnly.get_me caller
  | EndpointBody r => endpoint_shown caller tr r
  | EndpointList rs => Forall (endpoint_shown caller tr) rs
  | Grants rs => Forall (fun g => Db.g_api_key_id g = Db.k_id caller /\
      exists t w w', (t, w, w') ∈ tr /\ Db.vault_group_permissions (db w) !! Db.g_id g = Some g) rs
  | NoContent => True
  | _ => False
  end.

Lemma exec_guard {A B} (g : result A AppError) (k : A -> prog (result B AppError)) tr b :
  exec (bind_ok (lift g) k) tr (Ok b) -> exists a, g = Ok a /\ exec (k a) tr (Ok b).
Proof. intros (? & a & tr2 & -> & [-> Hg]%exec_ret & He)%exec_bind_ok. by exists a. Qed.

Lemma daughter_refused {A B} caller (k : unit -> prog (result A AppError)) (f : A -> B) tr b :
  Db.k_is_master caller = false ->
  ~ exec (bind_ok (bind_ok (lift (Guards.require_master caller)) k) (fun a => Ret (Ok (f a)))) tr (Ok b).
Proof.
  intros Hm (tr1 & a & tr2 & -> & (? & Hg & _)%exec_guard & _)%exec_bind_ok.
  unfold Guards.require_master in Hg. by rewrite Hm in Hg.
Qed.

Lemma exec_find_endpoint id tr e :
  exec (Endpoints.find_endpoint id) tr (Ok e) ->
  exists t w, tr = [(t, w, set_db w (db w))] /\ Db.endpoints (db w) !! id = Some e.
Proof.
  unfold Endpoints.find_endpoint.
  intros (tr1 & o & tr2 & -> & (t & w & -> & ->)%exec_query_ok & [-> He]%exec_ret)%exec_bind_ok.
  exists t, w. split; [done|]. by destruct (Db.endpoints (db w) !! id); simplify_eq/=.
Qed.

Lemma may_manage_daughter caller e :
  Db.k_is_master caller = false -> negb (Endpoints.may_manage caller e) = false ->
  Db.e_owner_key_id e = Some (Db.k_id caller).
Proof.
  unfold Endpoints.may_manage. intros ->. simpl. rewrite negb_false_iff. apply bool_decide_eq_true.
Qed.

(** The row an insertion or an update answers with is the one it stored. *)
Lemma insert_endpoint_stored e d e' d' :
  Db.insert_endpoint e d = (Ok e', d') -> e' = e /\ Db.endpoints d' = <[Db.e_id e := e]> (Db.endpoints d).
Proof. unfold Db.insert_endpoint. repeat case_match; intros; simplify_eq/=; done. Qed.

Lemma update_endpoint_stored id set d e' d' :
  Db.update_endpoint id set d = (Ok e', d') ->
  exists e, Db.endpoints d !! id = Some e /\ e' = set e /\
    d' = Db.with_endpoints d (<[id := set e]> (Db.endpoints d)).
Proof. unfold Db.update_endpoint. repeat case_match; intros; simplify_eq/=; eauto. Qed.

Lemma create_endpoint_exec caller ip p tr r :
  exec (Endpoints.create_endpoint caller ip p) tr (Ok r) ->
  exists t w d e, (t, w, set_db w d) ∈ tr /\ Db.insert_endpoint e (db w) = (Ok e, d) /\
    r = Endpoints.endpoint_response e /\ Db.e_owner_key_id e = Some (Db.k_id caller).
Proof.
  unfold Endpoints.create_endpoint. destruct (Str.is_empty _); [by intros [_ ?]%exec_ret|].
  intros ([] & _ & (tra & [] & trb & -> & _ & He)%exec_bind_ok)%exec_guard. cbv zeta in He.
  apply exec_guard in He as ([] & _ & He). destruct (_ <=? 0); [by apply exec_ret in He as [_ ?]|].
  apply exec_guard in He as ([] & _ & He).
  do 3 apply exec_bind in He as (? & ? & ? & -> & _ & He).
  apply exec_bind_ok in He as (? & e & ? & -> & (t & w & d & -> & Hi)%exec_stmt_ok & He).
  apply exec_bind_ok in He as (? & [] & ? & -> & _ & [-> [= ->]]%exec_ret).
  destruct (insert_endpoint_stored _ _ _ _ Hi) as [-> _].
  exists t, w, d. eexists. split_and!; [in_trace|exact Hi|done|done].
Qed.

Lemma update_endpoint_exec caller ip id p tr r :
  exec (Endpoints.update_endpoint caller ip id p) tr (Ok r) ->
  exists t0 w0 existing text groups policy now t w d e trg,
    (t0, w0, set_db w0 (db w0)) ∈ tr /\ Db.endpoints (db w0) !! id = Some existing /\
    negb (Endpoints.may_manage caller existing) = false /\
    Endpoints.text_changes p = Ok text /\ exec (Endpoints.group_changes caller p) trg (Ok groups) /\
    Endpoints.policy_changes p = Ok policy /\
    (exists s, s ∈ tr /\ now = wall s.1.1) /\ (t, w, set_db w d) ∈ tr /\
    Db.update_endpoint (Db.e_id existing)
      (fun e => Db.set_ep_updated_at now (policy.1 (groups.1 (text.1 e)))) (db w) = (Ok e, d) /\
    r = Endpoints.endpoint_response e.
Proof.
  unfold Endpoints.update_endpoint.
  intros (tr1 & existing & tr2 & -> & (t0 & w0 & -> & H0)%exec_find_endpoint & He)%exec_bind_ok.
  destruct (negb _) eqn:Hm; [by apply exec_ret in He as [_ ?]|].
  apply exec_guard in He as (text & Htext & He).
  apply exec_bind_ok in He as (trg & groups & ? & -> & Hg & He).
  apply exec_guard in He as (policy & Hpolicy & He).
  apply exec_bind in He as (? & now & ? & -> & (t1 & w1 & -> & ->)%exec_read & He).
  apply exec_bind_ok in He as (? & e & ? & -> & (t & w & d & -> & Hu)%exec_stmt_ok & He).
  apply exec_bind_ok in He as (? & [] & ? & -> & _ & [-> [= ->]]%exec_ret).
  exists t0, w0, existing, text, groups, policy, (wall t1), t, w, d, e, trg. split_and!; try done; try in_trace.
  exists (t1, w1, w1). split; [in_trace|done].
Qed.

(** ** An update is a patch *)

Definition blank (s : string) : bool := Str.is_empty (Str.trim s).

(** The row after a patch at time [now]. *)
Definition patched (p : Endpoints.UpdateEndpointPayload) (now : Z) (e : Db.Endpoint) : Db.Endpoint := {|
  Db.e_id := Db.e_id e;
  Db.e_owner_key_id := Db.e_owner_key_id e;
  Db.e_name := default (Db.e_name e) (Endpoints.ue_name p);
  Db.e_description :=
    match Endpoints.ue_description p with
    | Some d => if blank d then None else Some d
    | None => Db.e_description e
    end;
  Db.e_token_secret := Db.e_token_secret e;
  Db.e_vault_groups := default (Db.e_vault_groups e) (Endpoints.ue_vault_groups p);
  Db.e_ttl_seconds := default (Db.e_ttl_seconds e) (Endpoints.ue_ttl_seconds p);
  Db.e_max_age_seconds := default (Db.e_max_age_seconds e) (Endpoints.ue_max_age_seconds p);
  Db.e_bound_ips :=
    match Endpoints.ue_bound_ips p with
    | Some b => if blank b then None else Some (Str.trim b)
    | None => Db.e_bound_ips e
    end;
  Db.e_filter_rfc1918 := default (Db.e_filter_rfc1918 e) (Endpoints.ue_filter_rfc1918 p);
  Db.e_filter_bogons := default (Db.e_filter_bogons e) (Endpoints.ue_filter_bogons p);
  Db.e_filter_loopback := default (Db.e_filter_loopback e) (Endpoints.ue_filter_loopback p);
  Db.e_last_synced_at := Db.e_last_synced_at e;
  Db.e_created_at := Db.e_created_at e;
  Db.e_updated_at := now;
|}.

Lemma text_patched p text e :
  Endpoints.text_changes p = Ok text ->
  text.1 e = Db.set_ep_description (Db.e_description (patched p 0 e)) (Db.set_ep_name (Db.e_name (patched p 0 e)) e).
Proof.
  unfold Endpoints.text_changes, patched, blank. destruct (Endpoints.ue_name p) as [n|].
  - destruct (Str.is_empty (Str.trim n)); [done|]. intros [= <-]. by destruct (Endpoints.ue_description p), e.
  - intros [= <-]. by destruct (Endpoints.ue_description p), e.
Qed.

Lemma groups_patched caller p tr groups e :
  exec (Endpoints.group_changes caller p) tr (Ok groups) ->
  groups.1 e = Db.set_ep_vault_groups (default (Db.e_vault_groups e) (Endpoints.ue_vault_groups p)) e.
Proof.
  unfold Endpoints.group_changes. destruct (Endpoints.ue_vault_groups p) as [g|].
  - intros ([] & _ & (? & [] & ? & -> & _ & [-> [= ->]]%exec_ret)%exec_bind_ok)%exec_guard. done.
  - intros [-> [= ->]]%exec_ret. by destruct e.
Qed.

Lemma policy_patched p policy e :
  Endpoints.policy_changes p = Ok policy ->
  policy.1 e = Db.set_ep_filters (Endpoints.ue_filter_rfc1918 p) (Endpoints.ue_filter_bogons p)
    (Endpoints.ue_filter_loopback p) (Db.set_ep_bound_ips (Db.e_bound_ips (patched p 0 e))
    (Db.set_ep_max_age_seconds (Db.e_max_age_seconds (patched p 0 e))
    (Db.set_ep_ttl_seconds (Db.e_ttl_seconds (patched p 0 e)) e))).
Proof.
  unfold Endpoints.policy_changes. intros Hp.
  destruct (match Endpoints.ue_ttl_seconds p with Some _ => _ | None => _ end) as [f|] eqn:Hf; [|done].
  destruct (match Endpoints.ue_max_age_seconds p with Some _ => _ | None => _ end) as [g|] eqn:Hg; [|done].
  destruct (match Endpoints.ue_bound_ips p with Some _ => _ | None => _ end) as [b|] eqn:Hb; [|done].
  injection Hp as <-. cbn [fst]. f_equal.
  assert (forall e, f.1 e = Db.set_ep_ttl_seconds (Db.e_ttl_seconds (patched p 0 e)) e) as ->.
  { intros e'. simpl. destruct (Endpoints.ue_ttl_seconds p) as [z|]; [destruct (z <=? 0)|]; simplify_eq/=; by destruct e'. }
  assert (forall e, g.1 e = Db.set_ep_max_age_seconds (Db.e_max_age_seconds (patched p 0 e)) e) as ->.
  { intros e'. simpl. destruct (Endpoints.ue_max_age_seconds p) as [z|];
      [destruct (Endpoints.validate_max_age z)|]; simplify_eq/=; by destruct e'. }
  assert (forall e, b.1 e = Db.set_ep_bound_ips (Db.e_bound_ips (patched p 0 e)) e) as ->; [|done].
  intros e'. simpl. unfold blank. destruct (Endpoints.ue_bound_ips p) as [r|]; [|simplify_eq/=; by destruct e'].
  cbv zeta in Hb. destruct (if Str.is_empty (Str.trim r) then _ else _); simplify_eq/=. done.
Qed.

Lemma changes_patched caller p text groups policy tr now e :
  Endpoints.text_changes p = Ok text -> exec (Endpoints.group_changes caller p) tr (Ok groups) ->
  Endpoints.policy_changes p = Ok policy ->
  Db.set_ep_updated_at now (policy.1 (groups.1 (text.1 e))) = patched p now e.
Proof.
  intros Ht Hg Hp. rewrite (text_patched _ _ _ Ht), (groups_patched _ _ _ _ _ Hg), (policy_patched _ _ _ Hp).
  destruct e. unfold patched, Db.set_ep_filters. simpl. f_equal; by destruct (Endpoints.ue_filter_rfc1918 p),
    (Endpoints.ue_filter_bogons p), (Endpoints.ue_filter_loopback p).
Qed.

(** No step of an update touches the caches. *)
Lemma update_endpoint_cache caller ip id p :
  always (fun w w' => ip_cache w' = ip_cache w) (Endpoints.update_endpoint caller ip id p).
Proof.
  assert (forall {T} (f : Tick -> World -> T * World), (forall t w, ip_cache (f t w).2 = ip_cache w) ->
    always_at (fun _ w w' => ip_cache w' = ip_cache w) (Step f Ret)) as Hstep.
  { intros T f Hf. apply always_at_step; [done|intros; apply always_at_ret]. }
  unfold always, Endpoints.update_endpoint, Endpoints.find_endpoint, Endpoints.group_changes,
    Endpoints.validate_group_access, Groups.granted_group_names, Support.create_audit_log, Support.now_utc,
    Support.new_v4, read.
  walk ltac:(unfold query, stmt; apply Hstep; intros ?t ?w; repeat case_match; simplify_eq/=; done).
Qed.

(** C19. An update that succeeds patched exactly one row, in one step: the row the
    database then held, changed in the fields the payload names and in its
    modification time, and nothing else in the database; the answer is that row.
    The row keeps its synchronisation cursor and no step touches a cache, also
    when the update names other groups. *)
Theorem update_endpoint_patches caller ip id p tr r :
  exec (Endpoints.update_endpoint caller ip id p) tr (Ok r) ->
  Forall (fun s => Db.db_wf (db s.1.2)) tr ->
  exists t w w' e now, (t, w, w') ∈ tr /\ Db.endpoints (db w) !! id = Some e /\
    (exists s, s ∈ tr /\ now = wall s.1.1) /\
    db w' = Db.with_endpoints (db w) (<[id := patched p now e]> (Db.endpoints (db w))) /\
    r = Endpoints.endpoint_response (patched p now e) /\
    Forall (fun s => ip_cache s.2 = ip_cache s.1.2) tr.
Proof.
  intros He. pose proof (update_endpoint_cache caller ip id p tr _ He) as Hcache. revert He.
  intros (t0 & w0 & existing & text & groups & policy & now & t & w & d & e & trg &
    H0 & Hex & _ & Htext & Hg & Hpolicy & Hnow & Hin & Hu & ->)%update_endpoint_exec Hwf.
  rewrite Forall_forall in Hwf. pose proof (Hwf _ H0) as Hwf0. simpl in Hwf0.
  assert (Db.e_id existing = id) as Hid by exact (Db.wf_endpoints _ Hwf0 _ _ Hex). rewrite Hid in Hu.
  destruct (update_endpoint_stored _ _ _ _ _ Hu) as (e0 & He0 & -> & ->).
  rewrite (changes_patched _ _ _ _ _ _ _ _ Htext Hg Hpolicy) in *.
  by exists t, w, (set_db w (Db.with_endpoints (db w) (<[id := patched p now e0]> (Db.endpoints (db w))))), e0, now.
Qed.

Lemma shown_inserted caller tr t w d e :
  (t, w, set_db w d) ∈ tr -> Db.insert_endpoint e (db w) = (Ok e, d) ->
  Db.e_owner_key_id e = Some (Db.k_id caller) -> endpoint_shown caller tr (Endpoints.endpoint_response e).
Proof.
  intros Hin [_ Hd]%insert_endpoint_stored Ho. exists t, w, (set_db w d), e.
  split_and!; [done| |done|by left]. simpl. by rewrite Hd, lookup_insert_eq.
Qed.

Lemma list_endpoints_exec caller tr rs :
  Db.k_is_master caller = false -> Forall (fun s => Db.db_wf (db s.1.2)) tr ->
  exec (Endpoints.list_endpoints caller) tr (Ok rs) -> Forall (endpoint_shown caller tr) rs.
Proof.
  unfold Endpoints.list_endpoints. intros -> Hwf (tr1 & rows & tr2 & -> & (t & w & -> & ->)%exec_query_ok &
    [-> [= ->]]%exec_ret)%exec_bind_ok.
  rewrite Forall_forall in Hwf. assert (Db.db_wf (db w)) as Hw by (apply (Hwf (t, w, set_db w (db w))); in_trace).
  apply Forall_forall. intros r (e & -> & He)%list_elem_of_fmap.
  apply Db.elem_of_find_all in He as [Ho%bool_decide_eq_true [id Hid]].
  exists t, w, (set_db w (db w)), e. split_and!; [in_trace| |done|by left]. simpl.
  by rewrite (Db.wf_endpoints _ Hw _ _ Hid).
Qed.

Lemma shown_updated caller ip id p tr r :
  Db.k_is_master caller = false -> Forall (fun s => Db.db_wf (db s.1.2)) tr ->
  exec (Endpoints.update_endpoint caller ip id p) tr (Ok r) -> endpoint_shown caller tr r.
Proof.
  intros Hm Hwf (t0 & w0 & existing & text & groups & policy & now & t & w & d & e & trg &
    H0 & Hex & Hown & Htext & Hg & Hpolicy & _ & Hin & Hu & ->)%update_endpoint_exec.
  rewrite Forall_forall in Hwf. pose proof (Hwf _ H0) as Hwf0. simpl in Hwf0.
  assert (Db.e_id existing = id) as Hid by exact (Db.wf_endpoints _ Hwf0 _ _ Hex). rewrite Hid in Hu.
  destruct (update_endpoint_stored _ _ _ _ _ Hu) as (e0 & He0 & -> & ->).
  rewrite (changes_patched _ _ _ _ _ _ _ _ Htext Hg Hpolicy) in *.
  assert (Db.e_id e0 = id) as He0id by exact (Db.wf_endpoints _ (Hwf _ Hin) _ _ He0).
  eexists t, w, _, (patched p now e0). split_and!; [exact Hin| |done|].
  - simpl. by rewrite He0id, lookup_insert_eq.
  - right. exists t0, w0. eexists _, existing. split_and!; [exact H0|simpl; by rewrite He0id|].
    by apply (may_manage_daughter caller).
Qed.

Lemma list_key_groups_exec caller id tr rs :
  Db.k_is_master caller = false -> Forall (fun s => Db.db_wf (db s.1.2)) tr ->
  exec (Groups.list_key_groups caller id) tr (Ok rs) -> shows_own caller tr (Grants rs).
Proof.
  unfold Groups.list_key_groups. intros -> Hwf. simpl. destruct (negb _) eqn:Hid; [by intros [_ ?]%exec_ret|].
  apply negb_false_iff, bool_decide_eq_true in Hid as <-.
  intros (tr1 & rows & tr2 & -> & (t & w & -> & ->)%exec_query_ok & [-> [= ->]]%exec_ret)%exec_bind_ok.
  rewrite Forall_forall in Hwf. assert (Db.db_wf (db w)) as Hw by (apply (Hwf (t, w, set_db w (db w))); in_trace).
  apply Forall_forall. intros g [Hg%bool_decide_eq_true [i Hi]]%Db.elem_of_find_all. split; [done|].
  exists t, w. eexists. split; [in_trace|]. by rewrite (Db.wf_grants _ Hw _ _ Hi).
Qed.

(** C10. A Daughter key sees nothing but its own: whatever route it calls and under any
    interleaving, a successful answer holds no key, credential, audit entry or
    Vault listing, only its own identity, endpoints it owns (or was found to own
    when the request read them) and grants to itself, as the database held them. *)
Theorem daughter_sees_own call caller ip tr resp :
  Db.k_is_master caller = false -> Forall (fun s => Db.db_wf (db s.1.2)) tr ->
  exec (dispatch app call caller ip) tr (Ok resp) -> shows_own caller tr resp.
Proof.
  intros Hm Hwf. destruct call; cbn [dispatch]; unfold answer;
    try (intros He; exfalso; revert He; by apply daughter_refused).
  - by intros [-> [= ->]]%exec_ret.
  - intros (tr1 & r & tr2 & -> & (t & w & d & e & Hin & Hi & -> & Ho)%create_endpoint_exec &
      [-> [= ->]]%exec_ret)%exec_bind_ok. rewrite app_nil_r. simpl. by eapply shown_inserted.
  - intros (tr1 & rs & tr2 & -> & He & [-> [= ->]]%exec_ret)%exec_bind_ok. rewrite app_nil_r in *.
    by apply list_endpoints_exec.
  - intros (tr1 & r & tr2 & -> & He & [-> [= ->]]%exec_ret)%exec_bind_ok. rewrite app_nil_r in *.
    by eapply shown_updated.
  - by intros (tr1 & r & tr2 & -> & He & [-> [= ->]]%exec_ret)%exec_bind_ok.
  - unfold Endpoints.reassign_endpoint_owner. rewrite Hm. by destruct tr.
  - unfold ReadOnly.list_audit_logs. rewrite Hm. by destruct tr.
  - intros (tr1 & rs & tr2 & -> & He & [-> [= ->]]%exec_ret)%exec_bind_ok. rewrite app_nil_r in *.
    by eapply list_key_groups_exec.
  - by intros (tr1 & r & tr2 & -> & He & [-> [= ->]]%exec_ret)%exec_bind_ok.
Qed.

End visible.

(** ** Witnesses *)

Section witnesses.
Import Ref.

Definition w_patch : Endpoints.UpdateEndpointPayload :=
  Endpoints.mkUpdateEndpointPayload None (Some " ") None (Some 30) None (Some " 203.0.113.0/24 ") (Some false) None None.

Definition w_update : prog (result Endpoints.EndpointResponse AppError) :=
  Endpoints.update_endpoint Demo.daughter Demo.client 10%N w_patch.
Definition w_update_trace : list (Tick * World * World) := trace Demo.tick 0 w_update Demo.start.
Definition w_row : Db.Endpoint := patched w_patch (from_secs 1001) Demo.feed.

Lemma w_update_exec : exec w_update w_update_trace (Ok (Endpoints.endpoint_response w_row)).
Proof. apply outcome_exec. reflexivity. Qed.

Lemma w_update_wf : Forall (fun s => Db.db_wf (db s.1.2)) w_update_trace.
Proof.
  apply (System.trace_wf Demo.tick w_update 0 Demo.start); [|apply Demo.database_wf].
  apply System.keeps_update_endpoint.
Qed.

Lemma update_endpoint_patches_witness :
  exists t w w' e now, (t, w, w') ∈ w_update_trace /\ Db.endpoints (db w) !! 10%N = Some e /\
    db w' = Db.with_endpoints (db w) (<[10%N := patched w_patch now e]> (Db.endpoints (db w))).
Proof.
  destruct (update_endpoint_patches Demo.daughter Demo.client 10%N w_patch w_update_trace
    (Endpoints.endpoint_response w_row) w_update_exec w_update_wf)
    as (t & w & w' & e & now & Hin & He & _ & Hd & _). by exists t, w, w', e, now.
Defined.

Definition w_call : prog (result ApiResponse AppError) :=
  dispatch Demo.service (UpdateEndpoint 10%N w_patch) Demo.daughter Demo.client.
Definition w_call_trace : list (Tick * World * World) := trace Demo.tick 0 w_call Demo.start.

Lemma w_shown_exec : exec w_call w_call_trace (Ok (EndpointBody (Endpoints.endpoint_response w_row))).
Proof. apply outcome_exec. reflexivity. Qed.

Lemma daughter_sees_own_witness :
  endpoint_shown Demo.daughter w_call_trace (Endpoints.endpoint_response w_row).
Proof.
  refine (daughter_sees_own Demo.service (UpdateEndpoint 10%N w_patch) Demo.daughter Demo.client w_call_trace
    (EndpointBody (Endpoints.endpoint_response w_row)) eq_refl _ w_shown_exec).
  apply (System.trace_wf Demo.tick w_call 0 Demo.start); [|apply Demo.database_wf].
  apply System.keeps_dispatch, Demo.database_wf.
Defined.

End witnesses.
End ApiExact.
