(* ===== verification/Boot.v ===== *)
(** * [main.rs]: startup

    Reading the settings, opening the database, minting the master key of an empty
    one, checking that the encryption key opens what is stored, and pinning the
    master.  The migration runner is a parameter: startup begins with a database
    whose constraints hold.  What follows is the service of [System]. *)

From S2P Require Import Prelude.
From S2P Require Import RustStr.
From S2P Require Import Net.
From S2P Require Import Libs.
From S2P Require Import LibsRef.
From S2P Require Import Cache.
From S2P Require Import Crypto.
From S2P Require Import VaultClient.
From S2P Require Import DnsCache.
From S2P Require Import Http.
From S2P Require Import Config.
From S2P Require Import DbConn.
From S2P Require Import Db.
From S2P Require Import Extract.
From S2P Require Import App.
From S2P Require Import Demo.
From S2P Require Import Auth.
From S2P Require Import ApiKeys.
From S2P Require Import ApiEndpoints.
From S2P Require Import Feed.
From S2P Require Import System.
From S2P Require Import Frame.
From S2P Require Import ApiProps.
Import App.
#[local] Open Scope Z_scope.
#[local] Open Scope prog_scope.

Module Boot.

(** Why the process ends instead of serving. *)
Inductive BootError :=
| BadProxies (entries : list Config.InvalidProxyEntry)
| BadInitialKey (e : Config.InitialMasterKeyError)
| BadConnection (e : DbConn.DbErr)
| BadMigration (e : DbConn.DbErr)
| BadCipher (e : Crypto.CryptoError)
| BootDb (e : AppError)
| EncryptionKeyMismatch (e : Crypto.CryptoError)
| NotPinned (e : Master.MasterPinError).

Section boot.
Context {L : IpNetLib} {C : CryptoLib} {U : UuidLib} {Sx : DbConn.SqlxLib}.
Context (env : Config.Environ).

(** [Migrator::up], of which the service sees success or failure. *)
Context (migrate : DbConn.DatabaseConnection -> result unit DbConn.DbErr).

Definition find_master : prog (result (option Db.ApiKey) AppError) :=
  query (fun d => Db.find_one Db.k_is_master (Db.api_keys d)).

(** The row of a new master. *)
Definition master_row (id : Uuid) (plaintext_key sealed bound_ip : string) (now : Z) : Db.ApiKey := {|
  Db.k_id := id;
  Db.k_name := "System Master";
  Db.k_prefix := Str.take 8 plaintext_key;
  Db.k_key_hash := Support.hash_key plaintext_key;
  Db.k_signing_secret := Some sealed;
  Db.k_bound_ips := Some bound_ip;
  Db.k_is_master := true;
  Db.k_can_manage_keys := true;
  Db.k_parent_key_id := None;
  Db.k_owner_key_id := None;
  Db.k_created_at := now;
  Db.k_updated_at := now;
|}.

(** The answer is what the log shows once: the key and the signing secret. *)
Definition bootstrap_master_key (cipher : Crypto.SecretCipher) (initial_master_key : option string)
  : prog (result (option (string * string)) BootError) :=
  let* found := find_master in
  match found with
  | Err e => Ret (Err (BootDb e))
  | Ok (Some _) => Ret (Ok None)
  | Ok None =>
      let* plaintext_key :=
        match initial_master_key with
        | Some fixed => Ret fixed
        | None => Support.generate_random_key
        end in
      let bound_ip := default "0.0.0.0/0,::/0" (env "BOOTSTRAP_SUBNET") in
      let* now := Support.now_utc in
      let* signing_secret :=
        match env "INITIAL_MASTER_SIGNING_SECRET" with
        | Some fixed => if Str.is_empty fixed then Support.generate_signing_secret else Ret fixed
        | None => Support.generate_signing_secret
        end in
      let* id := Support.new_v4 in
      let* nonce := read (fun t => random t Crypto.NONCE_LEN) in
      match Crypto.seal cipher nonce signing_secret with
      | Err e => Ret (Err (BadCipher e))
      | Ok sealed =>
          let* r := stmt (Db.insert_key (master_row id plaintext_key sealed bound_ip now)) in
          match r with
          | Err e => Ret (Err (BootDb e))
          | Ok _ => Ret (Ok (Some (plaintext_key, signing_secret)))
          end
      end
  end.

Definition verify_encryption_key (cipher : Crypto.SecretCipher) : prog (result unit BootError) :=
  let* found := find_master in
  Ret match found with
      | Err e => Err (BootDb e)
      | Ok None => Ok tt
      | Ok (Some master) =>
          match Db.k_signing_secret master with
          | None => Ok tt
          | Some stored => match Crypto.open cipher stored with
                           | Ok _ => Ok tt
                           | Err e => Err (EncryptionKeyMismatch e)
                           end
          end
      end.

(** From a migrated database on. *)
Definition establish (conn : DbConn.DatabaseConnection) (cfg : Config.RuntimeConfig)
    (initial : option string) : prog (result AppConfig BootError) :=
  match Crypto.from_env (env "EXPORTER_ENCRYPTION_KEY") with
  | Err e => Ret (Err (BadCipher e))
  | Ok cipher =>
      let* minted := bootstrap_master_key cipher initial in
      match minted with
      | Err e => Ret (Err e)
      | Ok _ =>
          let* verified := verify_encryption_key cipher in
          match verified with
          | Err e => Ret (Err e)
          | Ok _ =>
              let* pinned := Master.pin_at_boot
                (DbConn.has_index conn Master.API_KEYS_TABLE Master.MASTER_MARKER_INDEX) in
              match pinned with
              | Err e => Ret (Err (NotPinned e))
              | Ok _ => Ret (Ok (app_config cfg cipher))
              end
          end
      end
  end.

Definition database_url : string := default "sqlite://simply_ip_exporter.db?mode=rwc" (env "DATABASE_URL").

(** [main] up to the point where the state is complete.  The result of the pragmas
    is only logged. *)
Definition boot : prog (result AppConfig BootError) :=
  match Config.config_from_env env with
  | Err e => Ret (Err (BadProxies e))
  | Ok cfg =>
      match Config.validate_initial_master_key (env "INITIAL_MASTER_KEY") with
      | Err e => Ret (Err (BadInitialKey e))
      | Ok initial =>
          match DbConn.connect database_url with
          | Err e => Ret (Err (BadConnection e))
          | Ok conn =>
              let _pragmas := DbConn.apply_sqlite_pragmas conn in
              match migrate conn with
              | Err e => Ret (Err (BadMigration e))
              | Ok _ => establish conn cfg initial
              end
          end
      end
  end.

(** ** Theorems *)

Lemma set_db_same w : set_db w (db w) = w.
Proof. by destruct w. Qed.

Lemma find_master_run ticks i w :
  run ticks i find_master w =
  (if db_faults (ticks i) 0 then Err (DbError Db.Fault)
   else Ok (Db.find_one Db.k_is_master (Db.api_keys (db w))), w, S i).
Proof. simpl. destruct (db_faults (ticks i) 0); [done|]. by rewrite set_db_same. Qed.

(** The stored secret of a key opens, if it has one. *)
Definition secret_opens (c : Crypto.SecretCipher) (k : Db.ApiKey) : Prop :=
  forall stored, Db.k_signing_secret k = Some stored -> exists s, Crypto.open c stored = Ok s.

(** What bootstrapping did to the database. *)
Definition minted_into (c : Crypto.SecretCipher) (initial : option string) (key secret : string)
    (d d' : Db.Database) : Prop :=
  (forall id k, Db.api_keys d !! id = Some k -> Db.k_is_master k = false) /\
  exists row, Db.insert_key row d = (Ok row, d') /\ Db.k_is_master row = true /\ Db.k_key_hash row = Support.hash_key key /\
    (forall fixed, initial = Some fixed -> key = fixed) /\
    Db.k_bound_ips row = Some (default "0.0.0.0/0,::/0" (env "BOOTSTRAP_SUBNET")) /\
    exists nonce, Crypto.seal c nonce secret = Ok (default "" (Db.k_signing_secret row)).

Lemma bootstrap_run ticks c initial i w r w' i' :
  run ticks i (bootstrap_master_key c initial) w = (r, w', i') ->
  w' = set_db w (db w') /\
  match r with
  | Ok None => db w' = db w /\ is_Some (Db.find_one Db.k_is_master (Db.api_keys (db w)))
  | Ok (Some (key, secret)) => minted_into c initial key secret (db w) (db w')
  | Err _ => db w' = db w
  end.
Proof.
  unfold bootstrap_master_key. rewrite run_bind, find_master_run.
  destruct (db_faults (ticks i) 0) eqn:F; simpl.
  { intros [= <- <- <-]. by rewrite set_db_same. }
  destruct (Db.find_one Db.k_is_master (Db.api_keys (db w))) as [m|] eqn:Hm.
  { intros [= <- <- <-]. rewrite set_db_same. eauto. }
  assert (forall j, exists key j', run ticks j
     (match initial with Some fixed => Ret fixed | None => Support.generate_random_key end) w
     = (key, w, j') /\ forall fixed, initial = Some fixed -> key = fixed) as Hkey.
  { intros j. destruct initial; simpl; do 2 eexists; (split; [done|]); naive_solver. }
  assert (forall j, exists s j', run ticks j
     (match env "INITIAL_MASTER_SIGNING_SECRET" with
      | Some fixed => if Str.is_empty fixed then Support.generate_signing_secret else Ret fixed
      | None => Support.generate_signing_secret end) w = (s, w, j')) as Hsec.
  { intros j. destruct (env "INITIAL_MASTER_SIGNING_SECRET") as [f|]; [destruct (Str.is_empty f)|]; simpl; eauto. }
  rewrite run_bind. destruct (Hkey (S i)) as (key & j & -> & Hfix). cbn [bind run].
  rewrite run_bind. destruct (Hsec (S j)) as (secret & j2 & ->).
  cbn [run].
  destruct (Crypto.seal c _ secret) as [sealed|e] eqn:Hseal; cbn [run].
  2:{ intros [= <- <- <-]. by rewrite set_db_same. }
  set (row := master_row _ _ _ _ _).
  destruct (db_faults (ticks (S (S j2))) 0); cbn [run].
  { intros [= <- <- <-]. by rewrite set_db_same. }
  unfold Db.insert_key. destruct (_ || _) eqn:Hc; cbn [run map_err].
  { intros [= <- <- <-]. by rewrite !set_db_same. }
  intros [= <- <- <-]. split; [done|]. split; [by apply Db.find_one_None|].
  exists row. split_and!; [unfold Db.insert_key; by rewrite Hc|done..|]. eexists. exact Hseal.
Qed.

Lemma bootstrap_wf c initial key secret d d' :
  Db.db_wf d -> minted_into c initial key secret d d' -> Db.db_wf d'.
Proof.
  intros Hd (_ & row & Hi & _). pose proof (Db.insert_key_wf row d Hd) as Hw. by rewrite Hi in Hw.
Qed.

Lemma verify_run ticks c i w r w' i' :
  run ticks i (verify_encryption_key c) w = (r, w', i') ->
  w' = w /\
  match r with
  | Ok _ => forall k, Db.find_one Db.k_is_master (Db.api_keys (db w)) = Some k -> secret_opens c k
  | Err _ => True
  end.
Proof.
  unfold verify_encryption_key. rewrite run_bind, find_master_run.
  destruct (db_faults (ticks i) 0); cbn [run]; [by intros [= <- <- <-]|]. intros [= <- <- <-].
  split; [done|]. destruct (Db.find_one _ _) as [k|]; [|done].
  destruct (Db.k_signing_secret k) as [stored|] eqn:Hs.
  - destruct (Crypto.open c stored) as [s|e] eqn:Ho; [|done]. intros k' [= <-] st Hst. simplify_eq. eauto.
  - intros k' [= <-] st Hst. congruence.
Qed.

(** At most one row carries the marker. *)
Lemma masters_unique d :
  Db.db_wf d -> (length (Db.find_all Db.k_is_master (Db.api_keys d)) <= 1)%nat.
Proof.
  intros Hd. unfold Db.find_all, Db.rows.
  assert (forall l, NoDup l.*1 -> (forall i k, (i, k) ∈ l -> Db.api_keys d !! i = Some k) ->
    (length (List.filter Db.k_is_master l.*2) <= 1)%nat) as Hgen.
  2:{ apply Hgen; [apply NoDup_fst_map_to_list|]. by intros i k ?%elem_of_map_to_list. }
  intros l. induction l as [|[i k] l IH]; intros Hnd Hl; [simpl; lia|]. cbn [fmap list_fmap fst snd] in *.
  apply NoDup_cons in Hnd as [Hi Hnd]. cbn [List.filter].
  assert (forall i k, (i, k) ∈ l -> Db.api_keys d !! i = Some k) as Hl'.
  { intros i' k' Hin. apply Hl. by right. }
  specialize (IH Hnd Hl'). destruct (Db.k_is_master k) eqn:Hm; [|done].
  destruct (List.filter Db.k_is_master l.*2) as [|k' rest] eqn:Hf; [simpl; lia|]. exfalso.
  assert (k' ∈ List.filter Db.k_is_master l.*2) as [Hm' Hin]%elem_of_filter_bool by (rewrite Hf; by left).
  apply list_elem_of_fmap in Hin as ([i' k''] & -> & Hin).
  assert (i = i') as <-.
  { apply (Db.wf_master _ Hd i i' k k''); [apply Hl; by left|by apply Hl'|done..]. }
  apply Hi. apply list_elem_of_fmap. by exists (i, k'').
Qed.

Lemma pin_run ticks has_index i w r w' i' :
  Db.db_wf (db w) -> master_pin w = None ->
  run ticks i (Master.pin_at_boot has_index) w = (r, w', i') ->
  db w' = db w /\
  match r with
  | Ok id => exists k, Db.find_one Db.k_is_master (Db.api_keys (db w)) = Some k /\
      id = Db.k_id k /\ master_pin w' = Some (Db.k_id k)
  | Err _ => master_pin w' = None
  end.
Proof.
  intros Hd Hp. destruct has_index as [[]|]; cbn [Master.pin_at_boot run];
    [|by intros [= <- <- <-]..].
  unfold Master.resolve_inner. rewrite !run_bind. unfold query, stmt at 1. cbn [run].
  destruct (db_faults (ticks i) 0); cbn [run map_err]; [by intros [= <- <- <-]|].
  rewrite set_db_same. pose proof (masters_unique _ Hd) as Hlen. unfold Db.find_one.
  destruct (Db.find_all Db.k_is_master (Db.api_keys (db w))) as [|k [|k' l]]; cbn [Master.the_master run].
  - by intros [= <- <- <-].
  - unfold Master.set_and_get. cbn [bind run]. rewrite Hp. cbn [run]. intros [= <- <- <-].
    split; [done|]. exists k. done.
  - simpl in Hlen. lia.
Qed.

(** The stages of a startup that succeeded. *)
Lemma boot_run ticks w app w' i' :
  run ticks 0 boot w = (Ok app, w', i') ->
  exists cfg c initial minted w1 i1 u w2 i2 has_index id,
    app = app_config cfg c /\
    run ticks 0 (bootstrap_master_key c initial) w = (Ok minted, w1, i1) /\
    run ticks i1 (verify_encryption_key c) w1 = (Ok u, w2, i2) /\
    run ticks i2 (Master.pin_at_boot has_index) w2 = (Ok id, w', i').
Proof.
  unfold boot. destruct (Config.config_from_env env) as [cfg|]; [|done].
  destruct (Config.validate_initial_master_key _) as [initial|]; [|done].
  destruct (DbConn.connect database_url) as [conn|]; [|done]. destruct (migrate conn); [|done].
  unfold establish. destruct (Crypto.from_env _) as [c|]; [|done]. rewrite run_bind.
  destruct (run ticks 0 (bootstrap_master_key c initial) w) as [[[minted|] w1] i1] eqn:H1; [|done].
  rewrite run_bind. destruct (run ticks i1 (verify_encryption_key c) w1) as [[[u|] w2] i2] eqn:H2; [|done].
  rewrite run_bind. destruct (run ticks i2 (Master.pin_at_boot _) w2) as [[[id|] w3] i3] eqn:H3; [|done].
  intros [= <- <- <-]. by repeat eexists.
Qed.

Lemma boot_sound ticks w app w' i' :
  Db.db_wf (db w) -> master_pin w = None ->
  run ticks 0 boot w = (Ok app, w', i') ->
  Db.db_wf (db w') /\
  (exists k, Db.api_keys (db w') !! Db.k_id k = Some k /\ Db.k_is_master k = true /\
     master_pin w' = Some (Db.k_id k) /\ secret_opens (cipher app) k /\
     forall id k', Db.api_keys (db w') !! id = Some k' -> Db.k_is_master k' = true -> id = Db.k_id k) /\
  forall id k, Db.api_keys (db w) !! id = Some k -> Db.api_keys (db w') !! id = Some k.
Proof.
  intros Hd Hp (cfg & c & initial & minted & w1 & i1 & u & w2 & i2 & idx & id0 & -> & H1 & H2 & H3)%boot_run.
  apply bootstrap_run in H1 as [Hw1 H1].
  assert (Db.db_wf (db w1) /\ master_pin w1 = None /\
    forall id k, Db.api_keys (db w) !! id = Some k -> Db.api_keys (db w1) !! id = Some k) as (Hd1 & Hp1 & Hk1).
  { rewrite Hw1. simpl. destruct minted as [[key secret]|]; [|destruct H1 as [-> _]; by split_and!].
    split_and!; [by eapply bootstrap_wf|done|]. intros id k Hk. destruct H1 as (_ & row & Hi & _).
    unfold Db.insert_key in Hi. destruct (_ || _) eqn:Hc; [done|]. injection Hi as <-. simpl.
    apply orb_false_iff in Hc as [Hc%bool_decide_eq_false _].
    rewrite lookup_insert_ne; [done|]. intros <-. apply Hc. eauto. }
  apply verify_run in H2 as [-> H2]. apply pin_run in H3 as [Hdb H3]; [|done..].
  destruct H3 as (k & Hk & -> & Hpin). rewrite Hdb. split_and!; [done| |done].
  exists k. pose proof (Db.find_one_Some _ _ _ Hk) as [Hm [j Hj]].
  assert (Db.k_id k = j) as Hid by exact (Db.wf_keys _ Hd1 _ _ Hj).
  split_and!; [by rewrite Hid|done|done|by apply H2|]. intros id k' Hk' Hm'. rewrite Hid.
  by apply (Db.wf_master _ Hd1 id j k' k).
Qed.

(** On a database without keys the only key afterwards is the bootstrap master,
    bound to [BOOTSTRAP_SUBNET] as it is written. *)
Lemma boot_binding ticks w app w' i' :
  Db.db_wf (db w) -> master_pin w = None -> Db.api_keys (db w) = ∅ ->
  run ticks 0 boot w = (Ok app, w', i') ->
  exists row, Db.api_keys (db w') = {[Db.k_id row := row]} /\ Db.k_is_master row = true /\
    Db.k_bound_ips row = Some (default "0.0.0.0/0,::/0" (env "BOOTSTRAP_SUBNET")).
Proof.
  intros Hd Hp Hk (cfg & c & initial & minted & w1 & i1 & u & w2 & i2 & idx & id0 & -> & H1 & H2 & H3)%boot_run.
  apply bootstrap_run in H1 as [Hw1 H1]. apply verify_run in H2 as [-> _].
  assert (master_pin w1 = None) as Hp1 by (by rewrite Hw1).
  destruct minted as [[key secret]|].
  - pose proof (bootstrap_wf _ _ _ _ _ _ Hd H1) as Hd1. apply pin_run in H3 as [-> _]; [|done..].
    destruct H1 as (_ & row & Hi & Hm & _ & _ & Hb & _). exists row. split_and!; [|done..].
    unfold Db.insert_key in Hi. destruct (_ || _); [done|]. injection Hi as <-. simpl. by rewrite Hk.
  - destruct H1 as [_ [m Hm]]. rewrite Hk in Hm. by apply Db.find_one_Some in Hm as [_ [? ?%lookup_empty_Some]].
Qed.

(** C26. The wrong encryption key stops the process before it serves: if the
    master's stored secret does not open under the configured key then startup
    fails, having pinned nothing and changed no row. *)
Theorem wrong_key_refuses_to_start ticks w c k stored e r w' i' :
  Crypto.from_env (env "EXPORTER_ENCRYPTION_KEY") = Ok c ->
  Db.find_one Db.k_is_master (Db.api_keys (db w)) = Some k ->
  Db.k_signing_secret k = Some stored -> Crypto.open c stored = Err e ->
  run ticks 0 boot w = (r, w', i') ->
  (exists err, r = Err err) /\ db w' = db w /\ master_pin w' = master_pin w.
Proof.
  intros Hc Hk Hs Ho. unfold boot.
  destruct (Config.config_from_env env) as [cfg|]; [|intros [= <- <- <-]; eauto].
  destruct (Config.validate_initial_master_key _) as [initial|]; [|intros [= <- <- <-]; eauto].
  destruct (DbConn.connect database_url) as [conn|]; [|intros [= <- <- <-]; eauto].
  destruct (migrate conn); [|intros [= <- <- <-]; eauto]. unfold establish. rewrite Hc.
  rewrite run_bind. destruct (run ticks 0 (bootstrap_master_key c initial) w) as [[r1 w1] i1] eqn:H1.
  apply bootstrap_run in H1 as [Hw1 H1].
  assert (db w1 = db w) as Hd.
  { destruct r1 as [[[key secret]|]|]; [|by apply H1|done].
    destruct H1 as [Hno _]. destruct (Db.find_one_Some _ _ _ Hk) as [Hm [id Hid]].
    specialize (Hno id k Hid). congruence. }
  assert (w1 = w) as -> by (rewrite Hw1, Hd; apply set_db_same).
  destruct r1 as [m|]; [|intros [= <- <- <-]; eauto]. rewrite run_bind.
  destruct (run ticks i1 (verify_encryption_key c) w) as [[r2 w2] i2] eqn:H2.
  apply verify_run in H2 as [-> H2]. destruct r2 as [[]|]; [|intros [= <- <- <-]; eauto].
  destruct (H2 k Hk stored Hs). congruence.
Qed.

(** *** A fresh database *)

Context {CL : CryptoLaws C}.

(** Nothing fails on the way. *)
Record calm (c : Crypto.SecretCipher) (ticks : nat -> Tick) : Prop := {
  calm_db : forall j n, db_faults (ticks j) n = false;
  calm_nonce : forall j, String.length (random (ticks j) Crypto.NONCE_LEN) = Crypto.NONCE_LEN;
  calm_seal : forall j s, is_ok (Crypto.seal c (random (ticks j) Crypto.NONCE_LEN) s) = true;
}.

Lemma open_sealed_secret c nonce s sealed :
  Crypto.seal c nonce s = Ok sealed -> String.length nonce = Crypto.NONCE_LEN ->
  Str.is_utf8 s = true -> Crypto.open c sealed = Ok s.
Proof. intros Hs Hn Hu. by destruct (Crypto.seal_open c nonce s sealed Hu Hn Hs). Qed.

Lemma bootstrap_fresh ticks c initial i w :
  calm c ticks -> Db.api_keys (db w) = ∅ ->
  (forall s, env "INITIAL_MASTER_SIGNING_SECRET" = Some s -> Str.is_utf8 s = true) ->
  exists i' key secret sealed row, run ticks i (bootstrap_master_key c initial) w
    = (Ok (Some (key, secret)), set_db w (Db.with_keys (db w) {[Db.k_id row := row]}), i') /\
    Db.k_is_master row = true /\ Db.k_key_hash row = Support.hash_key key /\
    (forall fixed, initial = Some fixed -> key = fixed) /\
    Db.k_signing_secret row = Some sealed /\ Crypto.open c sealed = Ok secret /\
    (forall s, env "INITIAL_MASTER_SIGNING_SECRET" = Some s -> Str.is_empty s = false -> secret = s).
Proof.
  intros Hcalm Hd Hutf.
  assert (forall j, exists key j', run ticks j
     (match initial with Some fixed => Ret fixed | None => Support.generate_random_key end) w
     = (key, w, j') /\ forall fixed, initial = Some fixed -> key = fixed) as Hkey.
  { intros j. destruct initial; simpl; do 2 eexists; (split; [done|]); naive_solver. }
  assert (forall j, exists s j', run ticks j
     (match env "INITIAL_MASTER_SIGNING_SECRET" with
      | Some fixed => if Str.is_empty fixed then Support.generate_signing_secret else Ret fixed
      | None => Support.generate_signing_secret end) w = (s, w, j') /\ Str.is_utf8 s = true /\
     forall f, env "INITIAL_MASTER_SIGNING_SECRET" = Some f -> Str.is_empty f = false -> s = f) as Hsec.
  { intros j. destruct (env "INITIAL_MASTER_SIGNING_SECRET") as [f|]; [destruct (Str.is_empty f) eqn:He|];
      do 2 eexists; (split; [reflexivity|split; [try apply Crypto.hex_utf8; by apply Hutf|naive_solver congruence]]). }
  unfold bootstrap_master_key. rewrite run_bind, find_master_run, (calm_db _ _ Hcalm), Hd.
  change (Db.find_one Db.k_is_master (∅ : gmap Uuid Db.ApiKey)) with (@None Db.ApiKey). cbv iota beta.
  rewrite run_bind. destruct (Hkey (S i)) as (key & j & -> & Hfix). cbn [bind run Support.now_utc read].
  rewrite run_bind. destruct (Hsec (S j)) as (secret & j2 & -> & Hu & Hs).
  cbn [bind run Support.new_v4 read].
  pose proof (calm_seal _ _ Hcalm (S j2) secret) as Hok.
  destruct (Crypto.seal c _ secret) as [sealed|e] eqn:Hseal; [|done].
  set (row := master_row _ _ _ _ _). cbn [bind run stmt]. rewrite (calm_db _ _ Hcalm).
  unfold Db.insert_key. rewrite Hd.
  assert (bool_decide (is_Some ((∅ : gmap Uuid Db.ApiKey) !! Db.k_id row)) || Db.key_conflicts (db w) row
    = false) as ->.
  { rewrite bool_decide_false by (rewrite lookup_empty; by intros [? ?]). unfold Db.key_conflicts. by rewrite Hd. }
  cbn [run map_err]. eexists _, key, secret, sealed, row. split_and!; try done.
  eapply open_sealed_secret; [exact Hseal|apply Hcalm|done].
Qed.

(** The run of a first start. *)
Lemma fresh_boot ticks w cfg initial c conn :
  DbConn.connect database_url = Ok conn -> migrate conn = Ok tt ->
  DbConn.has_index conn Master.API_KEYS_TABLE Master.MASTER_MARKER_INDEX = Ok true ->
  Config.config_from_env env = Ok cfg ->
  Config.validate_initial_master_key (env "INITIAL_MASTER_KEY") = Ok initial ->
  Crypto.from_env (env "EXPORTER_ENCRYPTION_KEY") = Ok c ->
  Db.api_keys (db w) = ∅ -> master_pin w = None -> calm c ticks ->
  (forall s, env "INITIAL_MASTER_SIGNING_SECRET" = Some s -> Str.is_utf8 s = true) ->
  exists w' i' key secret row,
    run ticks 0 boot w = (Ok (app_config cfg c), w', i') /\
    Db.api_keys (db w') = {[Db.k_id row := row]} /\ Db.k_is_master row = true /\
    master_pin w' = Some (Db.k_id row) /\ Db.k_key_hash row = Support.hash_key key /\
    (forall fixed, initial = Some fixed -> key = fixed) /\
    Middleware.recover_signing_secret (app_config cfg c) row = Ok secret /\
    (forall s, env "INITIAL_MASTER_SIGNING_SECRET" = Some s -> Str.is_empty s = false -> secret = s).
Proof.
  intros Hconn Hmig Hidx Hcfg Hinit Hc Hd Hp Hcalm Hutf. unfold boot.
  rewrite Hcfg, Hinit, Hconn, Hmig. unfold establish. rewrite Hidx, Hc, run_bind.
  destruct (bootstrap_fresh ticks c initial 0 w Hcalm Hd Hutf)
    as (i1 & key & secret & sealed & row & -> & Hm & Hh & Hfix & Hs & Ho & Hsec).
  assert (Db.find_all Db.k_is_master ({[Db.k_id row := row]} : gmap Uuid Db.ApiKey) = [row]) as Hfind.
  { unfold Db.find_all, Db.rows. rewrite map_to_list_singleton. simpl. by rewrite Hm. }
  rewrite run_bind. unfold verify_encryption_key. rewrite run_bind, find_master_run, (calm_db _ _ Hcalm).
  unfold Db.find_one. cbn [db set_db Db.with_keys Db.api_keys]. rewrite Hfind. cbn [head run].
  rewrite Hs, Ho. rewrite run_bind. unfold Master.pin_at_boot, Master.resolve_inner. rewrite !run_bind.
  unfold query, stmt. cbn [run]. rewrite (calm_db _ _ Hcalm).
  cbn [run map_err db set_db Db.with_keys Db.api_keys]. rewrite Hfind. cbn [Master.the_master run].
  unfold Master.set_and_get. cbn [bind run master_pin set_db]. rewrite Hp. cbn [run bind default].
  eexists _, _, key, secret, row. split_and!; try done.
  unfold Middleware.recover_signing_secret. rewrite Hs. cbn [cipher app_config]. by rewrite Ho.
Qed.

(** C24. A first start works: on a database without keys, with valid settings and
    nothing failing, startup succeeds, leaves exactly one key, the pinned master,
    that answers to [INITIAL_MASTER_KEY] and [INITIAL_MASTER_SIGNING_SECRET] where
    they are set, and whose signing secret the middleware can recover. *)
Theorem fresh_boot_succeeds ticks w cfg initial c conn :
  DbConn.connect database_url = Ok conn -> migrate conn = Ok tt ->
  DbConn.has_index conn Master.API_KEYS_TABLE Master.MASTER_MARKER_INDEX = Ok true ->
  Config.config_from_env env = Ok cfg ->
  Config.validate_initial_master_key (env "INITIAL_MASTER_KEY") = Ok initial ->
  Crypto.from_env (env "EXPORTER_ENCRYPTION_KEY") = Ok c ->
  Db.api_keys (db w) = ∅ -> master_pin w = None -> calm c ticks ->
  (forall s, env "INITIAL_MASTER_SIGNING_SECRET" = Some s -> Str.is_utf8 s = true) ->
  exists w' i' key secret row,
    run ticks 0 boot w = (Ok (app_config cfg c), w', i') /\
    Db.api_keys (db w') = {[Db.k_id row := row]} /\ Db.k_is_master row = true /\
    master_pin w' = Some (Db.k_id row) /\ Db.k_key_hash row = Support.hash_key key /\
    (forall fixed, initial = Some fixed -> key = fixed) /\
    Middleware.recover_signing_secret (app_config cfg c) row = Ok secret /\
    (forall s, env "INITIAL_MASTER_SIGNING_SECRET" = Some s -> Str.is_empty s = false -> secret = s).
Proof. apply fresh_boot. Qed.

End boot.

Section service.
Context {L : IpNetLib} {C : CryptoLib} {Ch : ChronoLib} {U : UuidLib} {J : Vault.JsonLib}.
Context {Ax : Extract.AxumLib} {Sx : DbConn.SqlxLib}.
Context (env : Config.Environ) (migrate : DbConn.DatabaseConnection -> result unit DbConn.DbErr).

(** C23. A process that starts serving has a sound identity, and keeps it for as
    long as it runs: if startup succeeds then no key that existed before was
    touched, and the database holds a master whose stored secret, if it has one,
    opens under the configured encryption key, such that in every state the running service can
    reach, all constraints hold, that key is pinned, unchanged but for its network
    binding, and the only master. *)
Theorem boot_establishes_master ticks w app w' i' :
  Db.db_wf (db w) -> master_pin w = None ->
  run ticks 0 (boot env migrate) w = (Ok app, w', i') ->
  (forall id k, Db.api_keys (db w) !! id = Some k -> Db.api_keys (db w') !! id = Some k) /\
  exists k, Db.api_keys (db w') !! Db.k_id k = Some k /\ Db.k_is_master k = true /\
    secret_opens (cipher app) k /\
    forall w'', System.reachable app w' w'' ->
      Db.db_wf (db w'') /\ master_pin w'' = Some (Db.k_id k) /\
      (exists k', Db.api_keys (db w'') !! Db.k_id k = Some k' /\ System.same_identity k k') /\
      forall id k', Db.api_keys (db w'') !! id = Some k' -> Db.k_is_master k' = true -> id = Db.k_id k.
Proof.
  intros Hd Hp Hrun.
  destruct (boot_sound env migrate ticks w app w' i' Hd Hp Hrun)
    as (Hd' & (k & Hk & Hm & Hpin & Ho & _) & Hkeep).
  split; [done|]. exists k. split_and!; [done..|]. intros w'' Hr.
  destruct (System.reachable_master app w' w'' _ k Hd' Hr Hk Hm) as [Hid Honly].
  split_and!; [by eapply System.reachable_wf|by eapply Frame.reachable_pin|done|done].
Qed.

End service.

(** ** Witnesses *)

Section witnesses.
Import Ref.

(** No setting but the ones that fix the master's credentials. *)
Definition w_env : Config.Environ := fun name =>
  if String.eqb name "INITIAL_MASTER_KEY" then
    Some "0123456789abcdef0123456789abcdef0123456789abcdef0123456789abcdef"
  else if String.eqb name "INITIAL_MASTER_SIGNING_SECRET" then Some "s3cret" else None.

(** A driver with one database, whose catalogue has the marker. *)
#[local] Instance w_sqlx : DbConn.SqlxLib := {|
  DbConn.DatabaseConnection := unit;
  DbConn.orm_connect _ := Ok tt;
  DbConn.options_from_str url := Ok (DbConn.mkSqliteConnectOptions url false false
    DbConn.DefaultJournal DbConn.DefaultSync 0);
  DbConn.pool_connect_with _ _ := Ok tt;
  DbConn.get_database_backend _ := DbConn.Sqlite;
  DbConn.query_one_raw _ _ _ := Ok (Some (DbConn.mkRow (Ok 1) (Err "narrow")));
  DbConn.query_journal_mode _ _ := Ok (Some (Ok "wal"));
  DbConn.execute_raw _ _ := Ok tt;
|}.

Definition w_migrate (c : DbConn.DatabaseConnection) : result unit DbConn.DbErr := Ok tt.

Definition w_settings : Config.RuntimeConfig :=
  Config.mkRuntimeConfig (Config.mkTrustedProxies [] [] []) 300 None None None.

Definition w_empty : World := initial_world Db.empty_db w_settings 0.

Lemma w_calm : calm Crypto.Plaintext Demo.tick.
Proof. split; done. Qed.

Lemma fresh_boot_succeeds_witness :
  exists w' i' row, run Demo.tick 0 (boot w_env w_migrate) w_empty
    = (Ok (app_config w_settings Crypto.Plaintext), w', i') /\
    Db.api_keys (db w') = {[Db.k_id row := row]} /\ master_pin w' = Some (Db.k_id row).
Proof.
  assert (Config.config_from_env w_env = Ok w_settings) as H1 by reflexivity.
  assert (Config.validate_initial_master_key (w_env "INITIAL_MASTER_KEY") = Ok (Some
    "0123456789abcdef0123456789abcdef0123456789abcdef0123456789abcdef")) as H2 by (vm_compute; reflexivity).
  assert (forall s, w_env "INITIAL_MASTER_SIGNING_SECRET" = Some s -> Str.is_utf8 s = true) as H3.
  { intros s Hs. vm_compute in Hs. by injection Hs as <-. }
  destruct (fresh_boot_succeeds w_env w_migrate Demo.tick w_empty w_settings _ Crypto.Plaintext
    tt eq_refl eq_refl eq_refl H1 H2
    eq_refl eq_refl eq_refl w_calm H3)
    as (w' & i' & key & secret & row & Hrun & Hk & _ & Hp & _). exists w', i', row.
  split_and!; assumption.
Defined.

(** A restart on the demonstration's database. *)
Definition w_restart : World := initial_world Demo.database Demo.settings 0.

Lemma boot_establishes_master_witness :
  exists app w' i' k, run Demo.tick 0 (boot w_env w_migrate) w_restart = (Ok app, w', i') /\
    forall w'', System.reachable app w' w'' -> master_pin w'' = Some (Db.k_id k).
Proof.
  destruct (run Demo.tick 0 (boot w_env w_migrate) w_restart) as [[r w'] i'] eqn:Hrun.
  assert (is_ok (run Demo.tick 0 (boot w_env w_migrate) w_restart).1.1 = true) as Hok by by vm_compute.
  rewrite Hrun in Hok. destruct r as [app|e]; [|done]. exists app, w', i'.
  destruct (boot_establishes_master w_env w_migrate Demo.tick w_restart app w' i'
    Demo.database_wf eq_refl Hrun) as [_ (k & _ & _ & _ & Hall)].
  exists k. split; [done|]. intros w'' Hr. apply (Hall w'' Hr).
Defined.

(** The same database after its master was sealed under another key. *)
Definition w_stored : string :=
  "v1.xchacha20poly1305.616161616161616161616161616161616161616161616161.00".
Definition w_master : Db.ApiKey := Db.set_key_signing_secret (Some w_stored) Demo.master.
Definition w_sealed : World :=
  set_db w_restart (Db.with_keys Demo.database {[1%N := w_master]}).

Lemma wrong_key_refuses_to_start_witness :
  exists err, (run Demo.tick 0 (boot w_env w_migrate) w_sealed).1.1 = Err err.
Proof.
  destruct (run Demo.tick 0 (boot w_env w_migrate) w_sealed) as [[r w'] i'] eqn:Hrun.
  assert (Db.find_one Db.k_is_master (Db.api_keys (db w_sealed)) = Some w_master) as H1 by reflexivity.
  assert (Crypto.open Crypto.Plaintext w_stored = Err Crypto.DecryptionFailed) as H2 by by vm_compute.
  exact (proj1 (wrong_key_refuses_to_start w_env w_migrate Demo.tick w_sealed Crypto.Plaintext
    w_master w_stored Crypto.DecryptionFailed r w' i' eq_refl H1 eq_refl H2 Hrun)).
Defined.

End witnesses.

End Boot.
