(* ===== verification/Serve.v ===== *)
(** * [main.rs]: from startup to the open listener

    [Boot] ends where the state is complete.  Here are the rest of [main] and what
    its order is for: the pass over all endpoints comes before the listener, so the
    first request already meets full caches. *)

From S2P Require Import Prelude.
From S2P Require Import RustStr.
From S2P Require Import Net.
From S2P Require Import Libs.
From S2P Require Import LibsRef.
From S2P Require Import Cache.
From S2P Require Import Crypto.
From S2P Require Import VaultClient.
From S2P Require Import DnsCache.
From S2P Require Import Http.
From S2P Require Import Config.
From S2P Require Import DbConn.
From S2P Require Import Db.
From S2P Require Import App.
From S2P Require Import Demo.
From S2P Require Import Auth.
From S2P Require Import Feed.
From S2P Require Import FeedProps.
From S2P Require Import SyncProps.
From S2P Require Import System.
From S2P Require Import Boot.
Import App.
#[local] Open Scope Z_scope.
#[local] Open Scope prog_scope.

Module Serve.

(** Why the process ends before it serves. *)
Inductive MainError :=
| NotStarted (e : Boot.BootError)
| Panicked
| NotBound (addr : IpAddr * Z).

Section main.
Context {L : IpNetLib} {C : CryptoLib} {U : UuidLib} {J : Vault.JsonLib} {Sx : DbConn.SqlxLib}.
Context (env : Config.Environ) (migrate : DbConn.DatabaseConnection -> result unit DbConn.DbErr).

(** [TcpListener::bind], of which the service sees success or failure. *)
Context (binds : IpAddr * Z -> bool).

(** A process that serves: its state, its address, and the tasks it has spawned in
    the order of their spawning, the loops by their first [m] passes.  They are
    aborted when the listener has shut down. *)
Record Service := mkService {
  sv_app : AppConfig;
  sv_addr : IpAddr * Z;
  sv_spawned : nat -> list (prog unit);
}.

Definition spawned (app : AppConfig) (m : nat) : list (prog unit) :=
  [ System.finish (System.prime_with_grace app); Sync.sync_worker app m; Sync.cleanup_worker app m ].

(** [main] up to the open listener; the budget of the first pass is spent after [n]
    steps.  A panic of that pass, which is awaited and not a task of its own, ends
    the process.  The priming task is spawned before that pass and shares only the DNS
    cache with other tasks, which the pass does not read. *)
Definition main (n : nat) : prog (result Service MainError) :=
  let* started := Boot.boot env migrate in
  match started with
  | Err e => Ret (Err (NotStarted e))
  | Ok app =>
      let* synced := Sync.run_boot_sync app n in
      match synced with
      | None => Ret (Err Panicked)
      | Some _ =>
          let addr := Config.resolve_bind_addr env in
          Ret (if binds addr then Ok (mkService app addr (spawned app)) else Err (NotBound addr))
      end
  end.

(** Pinning leaves the caches alone. *)
Lemma pin_cache ticks has_index i w :
  ip_cache (run ticks i (Master.pin_at_boot has_index) w).1.2 = ip_cache w.
Proof.
  destruct has_index as [[]|]; cbn [Master.pin_at_boot run]; [|done..].
  unfold Master.resolve_inner. rewrite !run_bind. unfold query, stmt. cbn [run].
  destruct (db_faults (ticks i) 0); cbn [run map_err]; [done|].
  destruct (Master.the_master _); [|done]. unfold Master.set_and_get. cbn [bind run].
  cbn [master_pin set_db]. by destruct (master_pin w).
Qed.

(** Startup writes keys and nothing else. *)
Lemma boot_frame ticks w app w' i' :
  Db.db_wf (db w) -> master_pin w = None -> run ticks 0 (Boot.boot env migrate) w = (Ok app, w', i') ->
  ip_cache w' = ip_cache w /\ Db.endpoints (db w') = Db.endpoints (db w).
Proof.
  intros Hd Hp (cfg & c & initial & minted & w1 & i1 & u & w2 & i2 & idx & id0 & -> & H1 & H2 & H3)%Boot.boot_run.
  apply Boot.bootstrap_run in H1 as [Hw1 H1]. apply Boot.verify_run in H2 as [-> _].
  pose proof (pin_cache ticks idx i2 w1) as Hc. rewrite H3 in Hc. cbn [fst snd] in Hc.
  assert (Db.db_wf (db w1) /\ Db.endpoints (db w1) = Db.endpoints (db w)) as [Hd1 He].
  { destruct minted as [[key secret]|]; [|by destruct H1 as [-> _]].
    split; [by eapply Boot.bootstrap_wf|]. destruct H1 as (_ & row & Hi & _).
    unfold Db.insert_key in Hi. destruct (_ || _); [done|]. by injection Hi as <-. }
  apply Boot.pin_run in H3 as [-> _]; [|done|by rewrite Hw1]. split; [|done]. rewrite Hc. by rewrite Hw1.
Qed.

(** C25. The first request meets full caches: if the process, started with an empty
    cache, gets as far as the open listener, and Vault serves the live memberships
    of the groups of every endpoint, in any order and an address as often as it has
    groups, then at that moment the cache of every endpoint of the database is right
    about every address: it holds it with the time of one of its live memberships,
    or there is none or it is no address; provided the budget leaves the pass its
    five steps per endpoint and its listing does not fail. *)
Theorem full_before_listening ticks n w sv w' i' client V :
  Db.db_wf (db w) -> master_pin w = None -> ip_cache w = Cache.new ->
  run ticks 0 (main n) w = (Ok sv, w', i') ->
  vault_client (sv_app sv) = Some client -> (forall j, db_faults (ticks j) 0 = false) ->
  (forall id ep, Db.endpoints (db w) !! id = Some ep -> exists R,
     (forall j, Vault.serves client (vault (ticks j)) (Vault.ips_base (Db.e_vault_groups ep) None) R) /\
     Z.of_nat (length R) < Vault.MAX_PAGES * Vault.page_size client /\
     Cache.lists (V id) (fun r => Cache.is_deleted r = false) (Sync.map_records R)) ->
  (1 + 5 * size (Db.endpoints (db w)) <= n)%nat ->
  forall id, is_Some (Db.endpoints (db w) !! id) -> Cache.mirrors (ip_cache w') id (V id).
Proof.
  intros Hd Hp Hnew Hrun Hclient Hdb Hserved Hn id Hid. unfold main in Hrun. rewrite run_bind in Hrun.
  destruct (run ticks 0 (Boot.boot env migrate) w) as [[[app0|e] w1] i1] eqn:Hboot; [|done].
  rewrite run_bind in Hrun. destruct (run ticks i1 (Sync.run_boot_sync app0 n) w1) as [[[[]|] w2] i2] eqn:Hsync; [|done].
  cbn [run] in Hrun. destruct (binds _); [|done]. injection Hrun as <- -> _.
  destruct (boot_frame _ _ _ _ _ Hd Hp Hboot) as [Hc He].
  destruct (Boot.boot_sound env migrate _ _ _ _ _ Hd Hp Hboot) as [Hwf _].
  pose proof (FeedProps.boot_sync_full app0 ticks i1 client n w1 V Hclient Hwf (Hdb i1)) as Hfull.
  rewrite Hsync, He in Hfull. cbn [fst snd] in Hfull. apply Hfull; [|done..].
  intros id' ep Hep. split; [|by apply Hserved]. intros j. by rewrite Hc, Hnew.
Qed.

End main.

(** ** Witness *)

Section witnesses.
Import Ref.
#[local] Existing Instance Boot.w_sqlx.
#[local] Existing Instance SyncProps.w_json.

(** A restart of the demonstration with Vault configured. *)
Definition w_env : Config.Environ := fun name =>
  if String.eqb name "VAULT_BASE_URL" then Some "http://vault/"
  else if String.eqb name "VAULT_API_KEY" then Some "key"
  else if String.eqb name "VAULT_SIGNING_SECRET" then Some "secret" else Boot.w_env name.

Definition w_client : Vault.VaultClient := Vault.mkVaultClient "http://vault" "key" "secret" 1000.

Definition w_ticks (j : nat) : Tick :=
  mkTick (wall (Demo.tick j)) (mono (Demo.tick j)) (fun _ => false) 0 Demo.filler
    (fun _ => Dns.mkDnsTick 0 0 0 (fun _ => None))
    (SyncProps.w_vault_env w_client (Vault.ips_base "malware,scanners" None) "full").

Definition w_vault : Cache.VaultState := {[("1.1.1.1", "malware") := (0, false); ("1.1.1.1", "scanners") := (0, false)]}.

Lemma w_listing_lists :
  Cache.lists w_vault (fun r => Cache.is_deleted r = false) (Sync.map_records (SyncProps.w_recs "full")).
Proof. apply (Cache.lists_concrete w_vault (fun r => Cache.is_deleted r = false)). by vm_compute. Qed.

Lemma w_main :
  exists sv w' i', run w_ticks 0 (main w_env Boot.w_migrate (fun _ => true) 6) Boot.w_restart
    = (Ok sv, w', i') /\ sv_addr sv = (V4 0, 3002) /\ vault_client (sv_app sv) = Some w_client.
Proof.
  set (r := run w_ticks 0 (main w_env Boot.w_migrate (fun _ => true) 6) Boot.w_restart).
  assert ((fun x => match x with Ok a => Some (vault_client (sv_app a), sv_addr a) | Err _ => None end) r.1.1
    = Some (Some w_client, (V4 0, 3002))) as Hr by (vm_compute; reflexivity).
  destruct r as [[[sv|e] w'] i']; [|done]. cbn [fst] in Hr. injection Hr as Hc Ha. by exists sv, w', i'.
Qed.

Lemma full_before_listening_witness :
  exists sv w' i', run w_ticks 0 (main w_env Boot.w_migrate (fun _ => true) 6) Boot.w_restart
    = (Ok sv, w', i') /\ sv_addr sv = (V4 0, 3002) /\ Cache.mirrors (ip_cache w') 10%N w_vault.
Proof.
  destruct w_main as (sv & w' & i' & Hrun & Ha & Hc). exists sv, w', i'. split; [exact Hrun|]. split; [exact Ha|].
  apply (full_before_listening w_env Boot.w_migrate (fun _ => true) w_ticks 6 Boot.w_restart sv w' i'
    w_client (fun _ => w_vault) Demo.database_wf eq_refl eq_refl Hrun Hc (fun _ => eq_refl));
    [|by apply Nat.leb_le|by eexists].
  intros id ep Hep. change (({[10%N := Demo.feed]} : gmap Uuid Db.Endpoint) !! id = Some ep) in Hep.
  apply lookup_singleton_Some in Hep as [<- <-]. exists (SyncProps.w_recs "full").
  split_and!; [intros j; by apply SyncProps.w_one_page_serves|by vm_compute|apply w_listing_lists].
Defined.

End witnesses.

End Serve.
