(* ===== verification/Lockout.v ===== *)
(** * A binding that does not parse

    Every handler validates a binding before it stores it; the bootstrap of the
    master does not.  A key whose binding does not parse is refused at every
    request, after its signature was verified, so when no key has a readable
    binding nobody is ever let in, and no key can be repaired through the API.
    The theorem follows this from a malformed [BOOTSTRAP_SUBNET] to every state of
    the service started with it. *)

From S2P Require Import Prelude.
From S2P Require Import RustStr.
From S2P Require Import Net.
From S2P Require Import Libs.
From S2P Require Import LibsRef.
From S2P Require Import Cache.
From S2P Require Import Crypto.
From S2P Require Import VaultClient.
From S2P Require Import DnsCache.
From S2P Require Import Http.
From S2P Require Import Config.
From S2P Require Import Db.
From S2P Require Import App.
From S2P Require Import Logic.
From S2P Require Import Demo.
From S2P Require Import Auth.
From S2P Require Import ApiKeys.
From S2P Require Import ApiEndpoints.
From S2P Require Import Extract.
From S2P Require Import Feed.
From S2P Require Import Router.
From S2P Require Import System.
From S2P Require Import Frame.
From S2P Require Import Stored.
From S2P Require Import DbConn.
From S2P Require Import Boot.
Import App Logic Router System.
#[local] Open Scope Z_scope.
#[local] Open Scope rust_scope.
#[local] Open Scope prog_scope.

Module Lockout.

Section lockout.
Context {L : IpNetLib} {C : CryptoLib} {Ch : ChronoLib} {U : UuidLib} {J : Vault.JsonLib} {Ax : Extract.AxumLib}.
Context (app : AppConfig) (K : gmap Uuid Db.ApiKey).

(** The keys are these. *)
Definition keys_are (w : World) : Prop := Db.api_keys (db w) = K.

Definition every (_ : Tick) : Prop := True.

#[local] Abbreviation locked p Q := (inv every keys_are p Q).

Lemma locked_step {A} (f : Tick -> World -> A * World) :
  (forall t w, Db.api_keys (db (f t w).2) = Db.api_keys (db w)) -> locked (Step f Ret) any.
Proof. intros Hf. apply inv_step_any. intros t w _ Hw. unfold keys_are. by rewrite Hf. Qed.

Lemma locked_stmt {A} (f : Db.Database -> result A Db.DbErr * Db.Database) :
  (forall d, Db.api_keys (f d).2 = Db.api_keys d) -> locked (stmt f) any.
Proof.
  intros Hf. apply locked_step. intros t w. destruct (db_faults t 0); [done|].
  specialize (Hf (db w)). by destruct (f (db w)).
Qed.

Lemma locked_update_endpoint id set : locked (stmt (Db.update_endpoint id set)) any.
Proof. apply locked_stmt. intros d. unfold Db.update_endpoint. by repeat case_match. Qed.

Lemma locked_delete_grants ids : locked (stmt (Db.delete_grants ids)) any.
Proof. by apply locked_stmt. Qed.

Lemma locked_query {A} (f : Db.Database -> A) : locked (query f) any.
Proof. by apply locked_stmt. Qed.

End lockout.

Create HintDb locked discriminated.
#[export] Hint Resolve locked_query locked_update_endpoint locked_delete_grants : locked.

Ltac locked_tac := inv_walk ltac:(first
  [ solve [auto 2 with locked]
  | apply locked_step; intros ?t ?w; repeat case_match; simplify_eq/=; done ]).

Section tasks.
Context {L : IpNetLib} {C : CryptoLib} {Ch : ChronoLib} {U : UuidLib} {J : Vault.JsonLib} {Ax : Extract.AxumLib}.
Context (app : AppConfig) (K : gmap Uuid Db.ApiKey).
Context (unreadable : forall id k, K !! id = Some k -> Stored.binding_ok (Db.k_bound_ips k) = false).
#[local] Abbreviation locked p Q := (inv every (keys_are K) p Q).

Lemma locked_authenticate key :
  locked (Master.authenticate key) (fun k => Db.k_bound_ips k = Db.k_bound_ips key).
Proof.
  unfold Master.authenticate. destruct (negb _); [done|]. apply inv_bind_any.
  - unfold Master.resolve, Master.get, Master.resolve_inner, Master.set_and_get. locked_tac.
  - intros [p|]; [by case_bool_decide|done].
Qed.

Lemma locked_verify req :
  locked (Middleware.verify_request app req)
    (fun r => forall who, r = Ok who -> Stored.binding_ok (Db.k_bound_ips who.2) = false).
Proof.
  unfold Middleware.verify_request, Middleware.client_ip_of, Middleware.check_replay.
  apply inv_bind_any; [locked_tac|intros ip]. do 2 (apply spec_lift; [intros ? _|done]).
  apply inv_bind_any; [by apply locked_step|intros now]. do 2 (apply spec_lift; [intros ? _|done]). cbv zeta.
  eapply (spec_bind_ok _ _ _ _ (fun r => forall k, r = Ok (Some k) -> Stored.binding_ok (Db.k_bound_ips k) = false));
    [|intros found Hfound|done].
  { apply spec_step. intros t w [_ Hw]. unfold keys_are in *. destruct (db_faults t 0); [done|]. split; [done|].
    intros k [= (_ & id & Hid)%Db.find_one_Some]. rewrite Hw in Hid. by eapply unreadable. }
  apply spec_lift; [intros row Hrow|done]. eapply spec_bind; [apply locked_authenticate|]. intros key Hkey.
  apply spec_lift; [intros secret _|done]. destruct (Middleware.declared_too_large _); [done|].
  do 2 (apply spec_lift; [intros ? _|done]). apply inv_bind_any; [locked_tac|]. intros []; [|done].
  intros who [= <-]. cbn [snd]. rewrite Hkey. apply Hfound. by destruct found; simplify_eq/=.
Qed.

Lemma locked_auth req : locked (Middleware.auth_middleware app req) (fun r => forall who, r <> Ok who).
Proof.
  unfold Middleware.auth_middleware. eapply spec_bind_ok; [apply locked_verify| |done].
  intros [ip key] Hk. specialize (Hk _ eq_refl). cbn [fst snd] in *. unfold Middleware.check_binding.
  apply spec_lift; [intros entries He|done]. exfalso. destruct (Db.k_bound_ips key) as [raw|]; [|done].
  simpl in *. by destruct (Dns.parse_bound_ips raw).
Qed.

Lemma locked_handle req : locked (handle app req) any.
Proof.
  destruct (route api_routes (Middleware.rq_method req) (path_of (Middleware.rq_target req)).1)
    as [params r| |] eqn:Hr.
  3:{ rewrite (handle_public app req Hr). unfold serve_public, ReadOnly.readiness_check, Master.get,
      Feed.serve_feed, Feed.check_access, Feed.respond, Feed.limit, Middleware.client_ip_of,
      Middleware.check_bound_ips. locked_tac. }
  all: rewrite (handle_api app req _ Hr) by done; eapply spec_bind; [apply locked_auth|];
    intros [who|e] Hwho; [by destruct (Hwho who)|done].
Qed.

Lemma locked_sync_each client eps : locked (Sync.sync_each client eps) any.
Proof.
  induction eps as [|ep eps IH]; cbn [Sync.sync_each]; [done|]. apply inv_bind_any; [|by intros [[]|]].
  unfold Sync.sync_endpoint, Sync.mark_synced, Sync.full_sync_due, Sync.fetch, Sync.apply_full,
    Sync.apply_diff, Support.now_utc, read. locked_tac.
Qed.

Lemma locked_sync_all : locked (Sync.sync_all_endpoints app) any.
Proof. unfold Sync.sync_all_endpoints. locked_tac. apply locked_sync_each. Qed.

Lemma locked_prime names : forall failed, locked (prime_steps names failed) any.
Proof.
  induction names as [|x names IH]; intros failed; cbn [prime_steps]; [done|].
  apply inv_bind_any; [locked_tac|intros; apply IH].
Qed.

Lemma locked_task p : task app p -> locked p any.
Proof.
  intros [req| |n|n|n].
  - apply inv_bind_any; [apply locked_handle|done].
  - unfold finish, prime_with_grace. locked_tac; apply locked_prime.
  - induction n as [|n IH]; cbn [Sync.sync_worker]; [done|]. apply inv_bind_any; [apply locked_sync_all|by intros [[]|]].
  - apply Stored.spec_boot_sync, locked_sync_all.
  - induction n as [|n IH]; cbn [Sync.cleanup_worker]; [done|]. apply inv_bind_any; [|done].
    unfold Sync.cleanup_stale_group_permissions, Groups.vault_list_groups. locked_tac.
Qed.

(** While the table holds no readable binding nobody is let in, and so it stays. *)
Lemma nobody_let_in w h w' ps :
  history (task app) (w, []) h (w', ps) -> keys_are K w ->
  keys_are K w' /\
  forall tr places req r, Frame.drawn h places tr -> exec (Middleware.auth_middleware app req) tr r ->
    exists e, r = Err e.
Proof.
  intros Hh Hw.
  destruct (history_invariant every (keys_are K) _ _ _ _ _ locked_task Hh) as [Hw' HF];
    [by apply Forall_forall|done|]. split; [done|]. intros tr places req r Hd He.
  assert (Forall (fun s => every s.1.1 /\ keys_are K s.1.2) tr) as Htr.
  { apply Forall_forall. intros s (i & _ & Hi)%(Frame.drawn_at _ _ _ _ Hd). rewrite Forall_lookup in HF.
    split; [done|by eapply HF]. }
  eapply spec_exec in He as [_ He]; [|apply locked_auth|exact Htr]. destruct r as [who|e]; [by destruct (He who)|eauto].
Qed.

End tasks.

(** ** A malformed [BOOTSTRAP_SUBNET] *)

Section bootstrap.
Context {L : IpNetLib} {C : CryptoLib} {Ch : ChronoLib} {U : UuidLib} {J : Vault.JsonLib}.
Context {Ax : Extract.AxumLib} {Sx : DbConn.SqlxLib} {CL : CryptoLaws C}.
Context (env : Config.Environ) (migrate : DbConn.DatabaseConnection -> result unit DbConn.DbErr).

(** C27. The bootstrap does not validate what it stores: on a database without keys,
    with a [BOOTSTRAP_SUBNET] that does not parse, otherwise valid settings and
    nothing failing, startup succeeds and stores the text as the binding of the
    only key; and then, in every history of the service, no request to the API is
    ever let in and the keys stay as they are, so the binding cannot be repaired
    through it. *)
Theorem bad_subnet_locks_out ticks w cfg initial c conn subnet refusal :
  env "BOOTSTRAP_SUBNET" = Some subnet -> Dns.parse_bound_ips subnet = Err refusal ->
  DbConn.connect (Boot.database_url env) = Ok conn -> migrate conn = Ok tt ->
  DbConn.has_index conn Master.API_KEYS_TABLE Master.MASTER_MARKER_INDEX = Ok true ->
  Config.config_from_env env = Ok cfg ->
  Config.validate_initial_master_key (env "INITIAL_MASTER_KEY") = Ok initial ->
  Crypto.from_env (env "EXPORTER_ENCRYPTION_KEY") = Ok c ->
  Db.db_wf (db w) -> Db.api_keys (db w) = ∅ -> master_pin w = None -> Boot.calm c ticks ->
  (forall s, env "INITIAL_MASTER_SIGNING_SECRET" = Some s -> Str.is_utf8 s = true) ->
  exists w' i', run ticks 0 (Boot.boot env migrate) w = (Ok (app_config cfg c), w', i') /\
    (exists row, Db.api_keys (db w') = {[Db.k_id row := row]} /\ Db.k_bound_ips row = Some subnet) /\
    forall h w'' ps, history (task (app_config cfg c)) (w', []) h (w'', ps) ->
      Db.api_keys (db w'') = Db.api_keys (db w') /\
      forall tr places req r, Frame.drawn h places tr ->
        exec (Middleware.auth_middleware (app_config cfg c) req) tr r -> exists e, r = Err e.
Proof.
  intros Henv Hparse Hconn Hmig Hidx Hcfg Hinit Hc Hd Hk Hp Hcalm Hutf.
  destruct (Boot.fresh_boot env migrate ticks w cfg initial c conn) as (w' & i' & _ & _ & _ & Hrun & _); [done..|].
  exists w', i'. split; [done|].
  destruct (Boot.boot_binding env migrate ticks w _ w' i' Hd Hp Hk Hrun) as (row & Hkeys & _ & Hb).
  rewrite Henv in Hb. split; [by exists row|]. intros h w'' ps Hh.
  apply (nobody_let_in _ (Db.api_keys (db w'))) in Hh; [done| |done].
  intros id k. rewrite Hkeys. intros [<- <-]%lookup_singleton_Some. rewrite Hb. simpl. by rewrite Hparse.
Qed.

End bootstrap.

(** ** Witness *)

Section witnesses.
Import Ref RouterRef.
#[local] Existing Instance Boot.w_sqlx.

(** A slash too many. *)
Definition w_env : Config.Environ := fun name =>
  if String.eqb name "BOOTSTRAP_SUBNET" then Some "10.0.0.0//8" else Boot.w_env name.

(** A request of the bootstrapped master, rightly signed. *)
Definition w_request : Middleware.Request := {|
  Middleware.rq_peer := Demo.client;
  Middleware.rq_headers := fun name =>
    if String.eqb name Middleware.API_KEY_HEADER then w_env "INITIAL_MASTER_KEY"
    else if String.eqb name Middleware.TIMESTAMP_HEADER then Some "1001"
    else if String.eqb name Middleware.SIGNATURE_HEADER then
      Crypto.compute_signature "s3cret" (Crypto.canonical_v1_payload "GET" "/api/keys" "1001" "")
    else None;
  Middleware.rq_method := "GET"; Middleware.rq_target := "/api/keys"; Middleware.rq_body := Some "";
|}.

Lemma w_refused : exists refusal, Dns.parse_bound_ips "10.0.0.0//8" = Err refusal.
Proof.
  assert (is_ok (Dns.parse_bound_ips "10.0.0.0//8") = false) as Hr by by vm_compute.
  destruct (Dns.parse_bound_ips _); [done|eauto].
Qed.

Definition w_app : AppConfig := app_config Boot.w_settings Crypto.Plaintext.

Lemma bad_subnet_locks_out_witness :
  exists w' i' e, run Demo.tick 0 (Boot.boot w_env Boot.w_migrate) Boot.w_empty = (Ok w_app, w', i') /\
    outcome Demo.tick (Middleware.auth_middleware w_app w_request) w' = Err e.
Proof.
  destruct w_refused as [refusal Href].
  assert (Config.config_from_env w_env = Ok Boot.w_settings) as H1 by reflexivity.
  assert (Config.validate_initial_master_key (w_env "INITIAL_MASTER_KEY") = Ok (Some
    "0123456789abcdef0123456789abcdef0123456789abcdef0123456789abcdef")) as H2 by (vm_compute; reflexivity).
  assert (forall s, w_env "INITIAL_MASTER_SIGNING_SECRET" = Some s -> Str.is_utf8 s = true) as H3.
  { intros s Hs. vm_compute in Hs. by injection Hs as <-. }
  destruct (bad_subnet_locks_out w_env Boot.w_migrate Demo.tick Boot.w_empty Boot.w_settings _ Crypto.Plaintext tt
    _ refusal eq_refl Href eq_refl eq_refl eq_refl H1 H2 eq_refl Db.empty_db_wf eq_refl eq_refl Boot.w_calm H3)
    as (w' & i' & Hrun & _ & Hno). exists w', i'.
  destruct (history_alone (task w_app) Demo.tick (finish (handle w_app w_request)) 0 w' []) as [a Hh]; [constructor|].
  destruct (Hno _ _ _ Hh) as [_ Hauth].
  destruct (Hauth (trace Demo.tick 0 (Middleware.auth_middleware w_app w_request) w')
    (seq 0 (length (trace Demo.tick 0 (Middleware.auth_middleware w_app w_request) w'))) w_request
    (outcome Demo.tick (Middleware.auth_middleware w_app w_request) w')) as [e He].
  - unfold finish. rewrite (handle_api _ _ _ eq_refl) by by vm_compute. rewrite !trace_bind, <- app_assoc.
    apply (Frame.drawn_mid []).
  - apply trace_exec.
  - by exists e.
Defined.

End witnesses.

End Lockout.
