(* ===== verification/Tests.v ===== *)
(** * The unit tests of the repository, on the model

    The tests in the sources of the leaf components, each a boolean with the name of
    the test function, evaluated on the instances of [LibsRef].  A test that unwraps
    [None] fails.  They are evidence that the definitions behave as the code its
    authors tested.  Left out are the tests whose outcome is that of a crate
    (merging of blocks in ipnet, the length of a digest, the freshness of a nonce),
    and those that only load a structure with many entries, which [RateLimit] and
    [Cache] prove for any number. *)

From S2P Require Import Prelude.
From S2P Require Import RustStr.
From S2P Require Import Net.
From S2P Require Import Libs.
From S2P Require Import LibsRef.
From S2P Require Import IpFilter.
From S2P Require Import Cache.
From S2P Require Import Crypto.
From S2P Require Import VaultClient.
From S2P Require Import DnsCache.
From S2P Require Import Http.
From S2P Require Import Config.
From S2P Require Import RateLimit.
From S2P Require Import Replay.
From S2P Require Import Db.
From S2P Require Import App.
From S2P Require Import Auth.
From Stdlib Require Import Ascii.
Import Ref.
#[local] Open Scope Z_scope.

Module Tests.

(** ** Asserting *)

(** [unwrap] and [expect]: the test fails on [None]. *)
Definition expect {A} (o : option A) (k : A -> bool) : bool :=
  match o with Some x => k x | None => false end.

Definition expect_ok {A E} (r : result A E) (k : A -> bool) : bool :=
  match r with Ok x => k x | Err _ => false end.

Definition expect_err {A E} (r : result A E) (k : E -> bool) : bool :=
  match r with Ok _ => false | Err e => k e end.

#[local] Infix "==" := (fun x y => bool_decide (x = y)) (at level 70, no associativity).

(** [str::contains]. *)
Definition has_text (needle s : string) : bool :=
  match String.index 0 needle s with Some _ => true | None => false end.

Fixpoint repeat_char (c : ascii) (n : nat) : string :=
  match n with O => EmptyString | S n' => String c (repeat_char c n') end.

Definition nets (ss : list string) (k : list IpNet -> bool) : bool := expect (mapM net_parse ss) k.

Definition addr (s : string) (k : IpAddr -> bool) : bool := expect (ip_parse s) k.

(** ** [ipfilter.rs] *)

Definition every_filter_list_has_no_silently_dropped_entries : bool :=
  (length IpFilter.RFC1918 == length IpFilter.RFC1918_LITERALS)
  && (length IpFilter.LOOPBACK == length IpFilter.LOOPBACK_LITERALS)
  && (length IpFilter.BOGONS == length IpFilter.BOGON_LITERALS).

(** The blocks that pass the filters are the expected ones. *)
Definition passes (input : list string) (rfc1918 bogons loopback : bool) (expected : list string) : bool :=
  nets input (fun ns => nets expected (fun es => IpFilter.filter_and_aggregate ns rfc1918 bogons loopback == es)).

Definition filters_rfc1918 : bool := passes ["10.0.0.5/32"; "8.8.8.8/32"] true false false ["8.8.8.8/32"].

Definition filters_loopback : bool :=
  passes ["127.0.0.1/32"; "::1/128"; "8.8.8.8/32"] false false true ["8.8.8.8/32"].

Definition filters_bogons : bool := passes ["169.254.1.1/32"; "8.8.8.8/32"] false true false ["8.8.8.8/32"].

Definition filters_cgn_at_its_exact_boundaries : bool :=
  passes ["100.64.0.0/32"; "100.127.255.255/32"] false true false []
  && nets ["100.63.255.255/32"; "100.128.0.0/32"] (fun outside =>
       length (IpFilter.filter_and_aggregate outside false true false) == 2%nat).

Definition filters_multicast_at_its_exact_boundaries : bool :=
  passes ["224.0.0.1/32"; "239.255.255.255/32"] false true false []
  && passes ["223.255.255.255/32"] false true false ["223.255.255.255/32"].

Definition filters_apipa_at_its_exact_boundaries : bool :=
  passes ["169.254.0.0/32"; "169.254.255.255/32"] false true false []
  && nets ["169.253.255.255/32"; "169.255.0.0/32"] (fun outside =>
       length (IpFilter.filter_and_aggregate outside false true false) == 2%nat).

Definition cgn_multicast_and_apipa_survive_when_no_filters_are_enabled : bool :=
  nets ["100.64.0.1/32"; "224.0.0.1/32"; "169.254.1.1/32"] (fun networks =>
    length (IpFilter.filter_and_aggregate networks false false false) == 3%nat).

Definition filters_ipv6_link_local_ula_and_multicast_as_bogons : bool :=
  passes ["fe80::1/128"; "fc00::1/128"; "ff02::1/128"; "2001:db8::1/128"; "2001:4860:4860::8888/128"]
    false true false ["2001:4860:4860::8888/128"].

Definition filters_ipv6_loopback_independently_of_ipv4_loopback : bool :=
  passes ["::1/128"; "127.0.0.1/32"; "2001:4860:4860::8888/128"] false false true ["2001:4860:4860::8888/128"].

Definition mixed_family_aggregation_never_merges_across_families : bool :=
  nets ["10.0.0.0/24"; "2001:db8:1::/48"; "2001:db8:2::/48"] (fun networks =>
    let out := IpFilter.filter_and_aggregate networks false false false in
    (length out == 3%nat) && nets ["10.0.0.0/24"] (fun v4 => bool_decide (v4 ⊆ out))).

Definition a_supernet_only_partially_overlapping_a_bogon_is_dropped_entirely : bool :=
  passes ["100.0.0.0/8"] false true false [].

Lemma ipfilter_tests_pass :
  forallb id [every_filter_list_has_no_silently_dropped_entries; filters_rfc1918; filters_loopback; filters_bogons;
    filters_cgn_at_its_exact_boundaries; filters_multicast_at_its_exact_boundaries;
    filters_apipa_at_its_exact_boundaries; cgn_multicast_and_apipa_survive_when_no_filters_are_enabled;
    filters_ipv6_link_local_ula_and_multicast_as_bogons; filters_ipv6_loopback_independently_of_ipv4_loopback;
    mixed_family_aggregation_never_merges_across_families;
    a_supernet_only_partially_overlapping_a_bogon_is_dropped_entirely] = true.
Proof. by vm_compute. Qed.

(** ** [cache.rs] *)

Definition cache_id : Uuid := 1%N.

(** A time of day of 26 August 2026, the 20691st day of the epoch. *)
Definition at_ (h m s : Z) : Z := from_secs (((20691 * 24 + h) * 60 + m) * 60 + s).

(** 1 January 2020, and 11 August 2026 at ten. *)
Definition years_ago : Z := from_secs (18262 * 86400).
Definition some_time : Z := from_secs (20676 * 86400 + 36000).

Definition record (address : string) (deleted : bool) : Cache.VaultRecord :=
  Cache.mkVaultRecord address some_time deleted.

Definition record_at (address : string) (seen : Z) : Cache.VaultRecord := Cache.mkVaultRecord address seen false.

Definition shown (o : option (list IpNet)) : option (list string) := map net_show <$> o.

Definition full_sync_replaces_state_and_drops_orphans : bool :=
  let c := Cache.apply_full 0 Cache.new cache_id [record "10.1.2.3/32" false] in
  expect (Cache.snapshot c cache_id 0) (fun snap => length snap == 1%nat)
  && let c := Cache.apply_full 0 c cache_id [record "10.1.2.4/32" false] in
     shown (Cache.snapshot c cache_id 0) == Some ["10.1.2.4/32"].

Definition diff_sync_upserts_and_removes_soft_deletes : bool :=
  let c := Cache.apply_diff Cache.new cache_id [record "10.1.2.3/32" false; record "10.1.2.4/32" false] in
  expect (Cache.snapshot c cache_id 0) (fun snap => length snap == 2%nat)
  && let c := Cache.apply_diff c cache_id [record "10.1.2.3/32" true] in
     shown (Cache.snapshot c cache_id 0) == Some ["10.1.2.4/32"].

Definition last_synced_at_tracks_the_max_last_seen_at_observed : bool :=
  let c := Cache.apply_diff Cache.new cache_id [record "10.1.2.3/32" false] in
  bool_decide (is_Some (Cache.last_synced_at c cache_id)).

Definition full_sync_due_is_true_until_a_full_sync_has_run : bool :=
  Cache.full_sync_due 0 Cache.new cache_id (from_secs 86400)
  && negb (Cache.full_sync_due 0 (Cache.apply_full 0 Cache.new cache_id []) cache_id (from_secs 86400)).

Definition a_max_age_of_zero_means_unlimited_and_filters_nothing : bool :=
  let c := Cache.apply_full 0 Cache.new cache_id
             [record_at "10.1.2.3/32" (at_ 11 59 0); record_at "10.1.2.4/32" years_ago] in
  expect (Cache.snapshot_within c cache_id 0 (at_ 12 0 0)) (fun kept => length kept == 2%nat).

Definition a_positive_max_age_drops_only_records_older_than_the_cutoff : bool :=
  let c := Cache.apply_full 0 Cache.new cache_id
             [record_at "10.0.0.1/32" (at_ 11 59 30); record_at "10.0.0.2/32" (at_ 11 58 0)] in
  shown (Cache.snapshot_within c cache_id 60 (at_ 12 0 0)) == Some ["10.0.0.1/32"].

Definition a_record_exactly_at_the_cutoff_is_kept : bool :=
  let c := Cache.apply_full 0 Cache.new cache_id [record_at "10.0.0.1/32" (at_ 11 59 0)] in
  expect (Cache.snapshot_within c cache_id 60 (at_ 12 0 0)) (fun kept => length kept == 1%nat)
  && expect (Cache.snapshot_within c cache_id 59 (at_ 12 0 0)) (fun kept => length kept == 0%nat).

Definition narrowing_then_widening_the_window_restores_records_without_a_resync : bool :=
  let c := Cache.apply_full 0 Cache.new cache_id [record_at "10.0.0.9/32" (at_ 11 0 0)] in
  expect (Cache.snapshot_within c cache_id 60 (at_ 12 0 0)) (fun kept => length kept == 0%nat)
  && expect (Cache.snapshot_within c cache_id 7200 (at_ 12 0 0)) (fun kept => length kept == 1%nat).

Definition a_negative_max_age_is_treated_as_unlimited_rather_than_emptying_the_feed : bool :=
  let c := Cache.apply_full 0 Cache.new cache_id [record_at "10.0.0.1/32" years_ago] in
  expect (Cache.snapshot_within c cache_id (-1) (at_ 12 0 0)) (fun kept => length kept == 1%nat).

Definition a_differential_upsert_refreshes_a_records_age : bool :=
  let c := Cache.apply_full 0 Cache.new cache_id [record_at "10.0.0.1/32" (at_ 10 0 0)] in
  expect (Cache.snapshot_within c cache_id 60 (at_ 12 0 0)) (fun kept => length kept == 0%nat)
  && let c := Cache.apply_diff c cache_id [record_at "10.0.0.1/32" (at_ 11 59 45)] in
     expect (Cache.snapshot_within c cache_id 60 (at_ 12 0 0)) (fun kept => length kept == 1%nat).

Definition parses_bare_addresses_and_cidrs : bool :=
  ((net_show <$> Cache.parse_target_address "192.168.1.1") == Some "192.168.1.1/32")
  && ((net_show <$> Cache.parse_target_address "192.168.1.0/24") == Some "192.168.1.0/24")
  && (Cache.parse_target_address "not-an-ip" == None).

Lemma cache_tests_pass :
  forallb id [full_sync_replaces_state_and_drops_orphans; diff_sync_upserts_and_removes_soft_deletes;
    last_synced_at_tracks_the_max_last_seen_at_observed; full_sync_due_is_true_until_a_full_sync_has_run;
    a_max_age_of_zero_means_unlimited_and_filters_nothing;
    a_positive_max_age_drops_only_records_older_than_the_cutoff; a_record_exactly_at_the_cutoff_is_kept;
    narrowing_then_widening_the_window_restores_records_without_a_resync;
    a_negative_max_age_is_treated_as_unlimited_rather_than_emptying_the_feed;
    a_differential_upsert_refreshes_a_records_age; parses_bare_addresses_and_cidrs] = true.
Proof. by vm_compute. Qed.

(** ** [dns_cache.rs] *)

(** A name server that knows localhost only; [t] is the clock. *)
Definition server (t : Z) : Dns.DnsTick :=
  Dns.mkDnsTick t t t (fun h => if String.eqb h "localhost" then Some [V4 2130706433; V6 1] else None).

Definition with_ttls (positive negative : Z) : Dns.DnsResolver := Dns.mkDnsResolver positive negative ∅.

Definition millis (n : Z) : Z := n * 1000000.

Definition no_such_name : string := "this-name-does-not-exist.invalid".

Definition hostname_edge_cases : bool :=
  (Dns.hostname_rejection "" == Some "empty")
  && (Dns.hostname_rejection "-leading-dash" == Some "a hostname must begin and end with a letter or a digit")
  && (Dns.hostname_rejection "trailing-dash-" == Some "a hostname must begin and end with a letter or a digit")
  && (Dns.hostname_rejection "has a space" == Some "contains characters that cannot appear in a DNS name")
  && (Dns.hostname_rejection (repeat_char "a" 254) == Some "longer than the 253-character limit on a DNS name")
  && (Dns.hostname_rejection "traefik_tomidejetsu" == None)
  && (Dns.hostname_rejection "proxy.internal" == None)
  && (Dns.hostname_rejection "traefik-1" == None).

Definition a_resolvable_hostname_is_cached_and_returned : bool :=
  negb (length (Dns.resolve (server 0) Dns.new "localhost").1 == 0%nat).

Definition dns_an_unresolvable_hostname_yields_no_addresses_and_does_not_error : bool :=
  length (Dns.resolve (server 0) Dns.new no_such_name).1 == 0%nat.

Definition dns_a_negative_cache_entry_expires_and_is_retried : bool :=
  let '(first, resolver) := Dns.resolve (server 0) (with_ttls (millis 500) (millis 20)) no_such_name in
  let '(second, _) := Dns.resolve (server (millis 40)) resolver no_such_name in
  (length first == 0%nat) && (length second == 0%nat).

Definition force_resolve_bypasses_a_fresh_cache_entry : bool :=
  let resolver := (Dns.resolve (server 0) (with_ttls (from_secs 300) (from_secs 300)) "localhost").2 in
  negb (length (Dns.force_resolve (server 0) resolver "localhost").1 == 0%nat).

Lemma dns_tests_pass :
  forallb id [hostname_edge_cases; a_resolvable_hostname_is_cached_and_returned;
    dns_an_unresolvable_hostname_yields_no_addresses_and_does_not_error;
    dns_a_negative_cache_entry_expires_and_is_retried; force_resolve_bypasses_a_fresh_cache_entry] = true.
Proof. by vm_compute. Qed.

(** ** [bound_ips.rs] *)

#[local] Instance bound_ip_entry_eq_dec : EqDecision Dns.BoundIpEntry.
Proof. solve_decision. Defined.

Definition accepts_cidrs_bare_addresses_and_hostnames : bool :=
  expect_ok (Dns.parse_bound_ips "10.0.0.0/8, 192.168.1.1, vpn.internal") (fun entries =>
    expect (net_parse "10.0.0.0/8") (fun ten =>
    addr "192.168.1.1" (fun host =>
      entries == [Dns.Network ten; Dns.Network (net_from host); Dns.Hostname "vpn.internal"]))).

Definition empty_and_whitespace_only_entries_are_skipped : bool :=
  expect_ok (Dns.parse_bound_ips "") (fun entries => entries == [])
  && expect_ok (Dns.parse_bound_ips " , ,") (fun entries => entries == []).

Definition a_malformed_entry_is_rejected_with_its_reason : bool :=
  expect_err (Dns.parse_bound_ips "10.0.0.0/99") (fun err => err.1 == "10.0.0.0/99").

Definition digits_and_dots_only_is_rejected_as_a_malformed_address_not_a_hostname : bool :=
  negb (is_ok (Dns.parse_bound_ips "10.0.0.256")).

Definition allowed (entries : list Dns.BoundIpEntry) (client : string) (dns : Dns.DnsResolver) (expected : bool) : bool :=
  addr client (fun ip => (Dns.is_allowed (fun _ => server 0) entries ip dns).1 == expected).

Definition a_client_matching_a_literal_network_is_allowed : bool :=
  expect_ok (Dns.parse_bound_ips "10.0.0.0/8") (fun entries =>
    allowed entries "10.1.2.3" Dns.new true && allowed entries "9.9.9.9" Dns.new false).

Definition a_client_matching_a_resolved_hostname_is_allowed : bool :=
  expect_ok (Dns.parse_bound_ips "localhost") (fun entries =>
    allowed entries "127.0.0.1" Dns.new true && allowed entries "203.0.113.5" Dns.new false).

Definition an_unresolvable_hostname_allows_nobody : bool :=
  expect_ok (Dns.parse_bound_ips no_such_name) (fun entries =>
    allowed entries "203.0.113.5" (with_ttls (from_secs 30) (from_secs 30)) false).

Lemma bound_ips_tests_pass :
  forallb id [accepts_cidrs_bare_addresses_and_hostnames; empty_and_whitespace_only_entries_are_skipped;
    a_malformed_entry_is_rejected_with_its_reason;
    digits_and_dots_only_is_rejected_as_a_malformed_address_not_a_hostname;
    a_client_matching_a_literal_network_is_allowed; a_client_matching_a_resolved_hostname_is_allowed;
    an_unresolvable_hostname_allows_nobody] = true.
Proof. by vm_compute. Qed.

(** ** [config.rs] *)

#[local] Instance proxy_matcher_eq_dec : EqDecision Config.ProxyMatcher.
Proof. solve_decision. Defined.

#[local] Instance master_key_error_eq_dec : EqDecision Config.InitialMasterKeyError.
Proof. solve_decision. Defined.

#[local] Instance result_eq_dec {A E} `{EqDecision A, EqDecision E} : EqDecision (result A E).
Proof. solve_decision. Defined.

Definition is_network (m : Config.ProxyMatcher) : bool :=
  match m with Config.Network _ => true | Config.Hostname _ => false end.

Definition parses_cidrs_and_bare_addresses_as_network_matchers : bool :=
  expect_ok (Config.parse_trusted_proxies "127.0.0.1, 10.0.0.0/8 ,::1") (fun matchers =>
    (length matchers == 3%nat) && forallb is_network matchers).

Definition a_docker_container_name_parses_as_a_hostname_matcher : bool :=
  expect_ok (Config.parse_trusted_proxies "traefik_tomidejetsu") (fun matchers =>
    matchers == [Config.Hostname "traefik_tomidejetsu"]).

Definition a_mixed_list_parses_each_entry_as_its_own_kind : bool :=
  expect_ok (Config.parse_trusted_proxies "10.0.0.0/8, traefik, 127.0.0.1") (fun matchers =>
    expect (net_parse "10.0.0.0/8") (fun ten =>
    addr "127.0.0.1" (fun host =>
      matchers == [Config.Network ten; Config.Hostname "traefik"; Config.Network (net_from host)]))).

Definition a_syntax_error_is_still_fatal : bool :=
  expect_err (Config.parse_trusted_proxies "not/a:valid thing") (fun err =>
    (Config.entry <$> err) == ["not/a:valid thing"]).

Definition digits_and_dots_only_is_rejected_as_a_malformed_address_not_accepted_as_a_hostname : bool :=
  expect_err (Config.parse_trusted_proxies "10.0.0.256") (fun err =>
    expect (head err) (fun e =>
      Config.reason e == "made only of digits and dots, so this is a malformed IPv4 literal")).

Definition a_near_miss_cidr_is_rejected_rather_than_treated_as_a_hostname : bool :=
  expect_err (Config.parse_trusted_proxies "10.0.0.0/99") (fun err =>
    expect (head err) (fun e => has_text "CIDR" (Config.reason e))).

Definition multiple_bad_entries_are_all_reported_not_just_the_first : bool :=
  expect_err (Config.parse_trusted_proxies "not/valid, also:bad") (fun err => length err == 2%nat).

Definition trusted_proxies_from_env_defaults_to_empty_when_unset : bool :=
  expect_ok (Config.proxies_from_env (fun _ => None)) Config.proxies_is_empty.

Definition resolved_set (names : list Config.ProxyMatcher) : list cidr :=
  (Config.resolved (fun _ => server 0) (Config.new names) Dns.new).1.

Definition resolving_a_literal_only_set_returns_the_precomputed_networks : bool :=
  expect_ok (Config.parse_trusted_proxies "10.0.0.0/8, 127.0.0.1") (fun matchers =>
    length (resolved_set matchers) == 2%nat).

Definition a_resolvable_hostname_becomes_trusted : bool :=
  let resolved := resolved_set [Config.Hostname "localhost"] in
  negb (length resolved == 0%nat)
  && existsb (fun n => (net_addr n == V4 2130706433) || (net_addr n == V6 1)) resolved.

Definition an_unresolvable_hostname_yields_no_addresses_and_does_not_error : bool :=
  length (resolved_set [Config.Hostname no_such_name]) == 0%nat.

Definition prime_reports_the_specific_hostnames_that_failed : bool :=
  let proxies := Config.new [Config.Hostname "localhost"; Config.Hostname no_such_name] in
  (Config.prime (fun _ => server 0) proxies Dns.new).1 == [no_such_name].

(** One header, [insert]ed into an empty map. *)
Definition header (name value : string) : Http.HeaderMap :=
  fun n => if String.eqb n name then Some value else None.

Definition a_resolved_hostname_is_honoured_exactly_like_a_literal_cidr_by_resolve_client_ip : bool :=
  addr "203.0.113.7" (fun client =>
    Config.resolve_client_ip (V4 2130706433) (header "X-Forwarded-For" "203.0.113.7")
      (resolved_set [Config.Hostname "localhost"]) == client).

Definition a_negative_cache_entry_expires_and_is_retried : bool :=
  let proxies := Config.new [Config.Hostname no_such_name] in
  let '(first, dns) := Config.resolved (fun _ => server 0) proxies (with_ttls (millis 500) (millis 20)) in
  let '(second, _) := Config.resolved (fun _ => server (millis 40)) proxies dns in
  (length first == 0%nat) && (length second == 0%nat).

Definition forwarding_headers_are_ignored_from_an_untrusted_peer : bool :=
  addr "9.9.9.9" (fun peer => Config.resolve_client_ip peer (header "X-Forwarded-For" "1.2.3.4") [] == peer).

Definition forwarding_headers_are_honoured_from_a_trusted_peer : bool :=
  addr "10.0.0.5" (fun peer => addr "1.2.3.4" (fun client => nets ["10.0.0.0/8"] (fun trusted =>
    Config.resolve_client_ip peer (header "X-Forwarded-For" "1.2.3.4, 10.0.0.5") trusted == client))).

Definition bind_addr_falls_back_on_malformed_input : bool :=
  ((Config.parse_bind_addr (Some "not-an-ip") (Some "abc")).2 == Config.DEFAULT_BIND_PORT)
  && addr "0.0.0.0" (fun any => Config.parse_bind_addr (Some "0.0.0.0") (Some "9999") == (any, 9999)).

Definition initial_master_key_validation : bool :=
  (Config.validate_initial_master_key None == Ok None)
  && (Config.validate_initial_master_key (Some "") == Err Config.Empty)
  && (Config.validate_initial_master_key (Some (repeat_char "a" 64)) == Ok (Some (repeat_char "a" 64)))
  && (Config.validate_initial_master_key (Some (repeat_char "a" 63)) == Err (Config.BadLength 63))
  && (Config.validate_initial_master_key (Some "zzzz") == Err (Config.NonHex "z" 0)).

Lemma config_tests_pass :
  forallb id [parses_cidrs_and_bare_addresses_as_network_matchers;
    a_docker_container_name_parses_as_a_hostname_matcher; a_mixed_list_parses_each_entry_as_its_own_kind;
    a_syntax_error_is_still_fatal;
    digits_and_dots_only_is_rejected_as_a_malformed_address_not_accepted_as_a_hostname;
    a_near_miss_cidr_is_rejected_rather_than_treated_as_a_hostname;
    multiple_bad_entries_are_all_reported_not_just_the_first;
    trusted_proxies_from_env_defaults_to_empty_when_unset;
    resolving_a_literal_only_set_returns_the_precomputed_networks; a_resolvable_hostname_becomes_trusted;
    an_unresolvable_hostname_yields_no_addresses_and_does_not_error;
    prime_reports_the_specific_hostnames_that_failed;
    a_resolved_hostname_is_honoured_exactly_like_a_literal_cidr_by_resolve_client_ip;
    a_negative_cache_entry_expires_and_is_retried; forwarding_headers_are_ignored_from_an_untrusted_peer;
    forwarding_headers_are_honoured_from_a_trusted_peer; bind_addr_falls_back_on_malformed_input;
    initial_master_key_validation] = true.
Proof. by vm_compute. Qed.

(** ** [ratelimit.rs] *)

(** 1.2.3.n. *)
Definition limiter_ip (n : Z) : IpAddr := V4 (16909056 + n).

Definition first_request_is_allowed_second_is_throttled : bool :=
  let '(first, limiter) := RateLimit.check_and_record RateLimit.new 0 (limiter_ip 1) in
  is_ok first && negb (is_ok (RateLimit.check_and_record limiter 0 (limiter_ip 1)).1).

Definition distinct_ips_do_not_interfere : bool :=
  let '(first, limiter) := RateLimit.check_and_record RateLimit.new 0 (limiter_ip 1) in
  is_ok first && is_ok (RateLimit.check_and_record limiter 0 (limiter_ip 2)).1.

Definition allowed_again_after_the_window_elapses : bool :=
  let '(first, limiter) := RateLimit.check_and_record RateLimit.new 0 (limiter_ip 1) in
  is_ok first
  && is_ok (RateLimit.check_and_record limiter (RateLimit.RATE_LIMIT_WINDOW + from_secs 1) (limiter_ip 1)).1.

(** One poll, and the clock advanced past the window. *)
Definition poll (s : bool * Z * RateLimit.RateLimiter) : bool * Z * RateLimit.RateLimiter :=
  let '(ok, now, limiter) := s in
  let '(r, limiter) := RateLimit.check_and_record limiter now (limiter_ip 1) in
  (ok && is_ok r, now + RateLimit.RATE_LIMIT_WINDOW + from_secs 1, limiter).

Definition one_ip_polling_forever_past_its_window_does_not_grow_the_queue_without_bound : bool :=
  let '(ok, _, limiter) := N.iter 10000 poll (true, 0, RateLimit.new) in
  ok && (size (RateLimit.next_allowed (RateLimit.state limiter)) == 1%nat)
  && (length (RateLimit.order (RateLimit.state limiter)) == 1%nat).

Lemma ratelimit_tests_pass :
  forallb id [first_request_is_allowed_second_is_throttled; distinct_ips_do_not_interfere;
    allowed_again_after_the_window_elapses;
    one_ip_polling_forever_past_its_window_does_not_grow_the_queue_without_bound] = true.
Proof. by vm_compute. Qed.

(** ** [replay.rs] *)

Definition digest (byte : ascii) : Bytes := repeat_char byte 32.

Definition guard_accepts_once (window : Z) (d : Bytes) : bool :=
  let '(first, guard) := Replay.check_and_record (Replay.new window 0) 0 1%N d in
  first && negb (Replay.check_and_record guard 0 1%N d).1.

Definition a_signature_is_accepted_once_and_refused_afterwards : bool := guard_accepts_once 300 (digest "001").

Definition distinct_keys_do_not_collide : bool :=
  let '(first, guard) := Replay.check_and_record (Replay.new 300 0) 0 1%N (digest "001") in
  first && (Replay.check_and_record guard 0 2%N (digest "001")).1.

Definition entries_expire_and_are_swept : bool :=
  let '(first, guard) := Replay.check_and_record (Replay.new 300 0) 0 1%N (digest "001") in
  let '(second, guard) := Replay.check_and_record guard (from_secs 301) 1%N (digest "001") in
  first && second && (size (Replay.seen guard) == 1%nat).

Definition a_nonsensical_window_is_clamped_rather_than_disabling_the_guard : bool :=
  forallb (fun window => guard_accepts_once window (digest "007")) [0; -1; i64_min; i64_max].

Lemma replay_tests_pass :
  forallb id [a_signature_is_accepted_once_and_refused_afterwards; distinct_keys_do_not_collide;
    entries_expire_and_are_swept; a_nonsensical_window_is_clamped_rather_than_disabling_the_guard] = true.
Proof. by vm_compute. Qed.

(** ** [middleware.rs] *)

Definition now : Z := 1787745600.

Definition timestamps_inside_the_window_are_accepted : bool :=
  is_ok (Middleware.validate_timestamp now (pretty now) 300)
  && is_ok (Middleware.validate_timestamp now (pretty (now - 299)) 300)
  && is_ok (Middleware.validate_timestamp now (pretty (now + 299)) 300).

Definition timestamps_outside_the_window_are_rejected : bool :=
  negb (is_ok (Middleware.validate_timestamp now (pretty (now - 301)) 300))
  && negb (is_ok (Middleware.validate_timestamp now (pretty (now + 301)) 300))
  && negb (is_ok (Middleware.validate_timestamp now "not-a-number" 300)).

(** ** [api/guards.rs], [api/support.rs] *)

Definition key (is_master : bool) : Db.ApiKey :=
  Db.mkApiKey 1%N "test key" "abcdefgh" "hash" None None is_master is_master None None 0 0.

Definition require_master_accepts_master_and_refuses_daughter : bool :=
  is_ok (Guards.require_master (key true)) && negb (is_ok (Guards.require_master (key false))).

Definition guard_master_delete_or_rotate_refuses_master_only : bool :=
  negb (is_ok (Guards.guard_master_delete_or_rotate (key true) "deleted"))
  && is_ok (Guards.guard_master_delete_or_rotate (key false) "deleted").

Definition guard_master_update_allows_bound_ips_only_but_refuses_name_and_can_manage_keys : bool :=
  is_ok (Guards.guard_master_update (key true) false false)
  && negb (is_ok (Guards.guard_master_update (key true) true false))
  && negb (is_ok (Guards.guard_master_update (key true) false true))
  && is_ok (Guards.guard_master_update (key false) true true).

Definition hash_is_deterministic : bool :=
  (Support.hash_key "abc" == Support.hash_key "abc") && negb (Support.hash_key "abc" == Support.hash_key "abd").

Definition describe_resource_renders_kind_id_and_name : bool :=
  Support.describe_resource "api_key" 0%N "Daughter Key"
  == "api_key:" +:+ uuid_show 0%N +:+ " (Daughter Key)".

Lemma api_tests_pass :
  forallb id [timestamps_inside_the_window_are_accepted; timestamps_outside_the_window_are_rejected;
    require_master_accepts_master_and_refuses_daughter; guard_master_delete_or_rotate_refuses_master_only;
    guard_master_update_allows_bound_ips_only_but_refuses_name_and_can_manage_keys; hash_is_deterministic;
    describe_resource_renders_kind_id_and_name] = true.
Proof. by vm_compute. Qed.

(** ** [crypto.rs] *)

#[local] Instance signature_rejection_eq_dec : EqDecision Crypto.SignatureRejection.
Proof. solve_decision. Defined.

#[local] Instance secret_cipher_eq_dec : EqDecision Crypto.SecretCipher.
Proof. solve_decision. Defined.

#[local] Instance crypto_error_eq_dec : EqDecision Crypto.CryptoError.
Proof. solve_decision. Defined.

Definition TEST_KEY : string := "000102030405060708090a0b0c0d0e0f101112131415161718191a1b1c1d1e1f".

Definition sign (secret : string) (payload : Bytes) (k : string -> bool) : bool :=
  expect (Crypto.compute_signature secret payload) k.

Definition canonical_base_is_newline_delimited : bool :=
  Crypto.canonical_v1_payload "POST" "/api/keys" "1700000000" "{}"
  == Str.join (String "010" "") ["POST"; "/api/keys"; "1700000000"; "{}"].

Definition rejects_tampered_payload_and_wrong_secret : bool :=
  let payload := Crypto.canonical_v1_payload "POST" "/api/endpoints" "1700000000" "{}" in
  let tampered := Crypto.canonical_v1_payload "POST" "/api/endpoints" "1700000001" "{}" in
  sign "secret" payload (fun signature =>
    (Crypto.verify_signature "secret" tampered signature == Err Crypto.Mismatch)
    && (Crypto.verify_signature "other" payload signature == Err Crypto.Mismatch)
    && (Crypto.verify_signature "secret" payload "not-prefixed" == Err Crypto.MissingPrefix)
    && (Crypto.verify_signature "secret" payload "sha256=nothex" == Err Crypto.MalformedHex)).

(** The bytes of [s], with the one at a position inverted, for every position. *)
Fixpoint mutations (s : string) : list string :=
  match s with
  | EmptyString => []
  | String c s' => String (ascii_of_N (N.lxor (N_of_ascii c) 255)) s' :: (String c <$> mutations s')
  end.

Definition every_single_byte_mutation_is_rejected : bool :=
  let payload := Crypto.canonical_v1_payload "POST" "/api/keys" "1700000000" "{}" in
  sign "secret" payload (fun valid =>
  expect (Str.strip_prefix Crypto.SIGNATURE_PREFIX valid) (fun encoded =>
  expect (hex_decode encoded) (fun digest =>
    forallb (fun mutated =>
      negb (is_ok (Crypto.verify_signature "secret" payload (Crypto.SIGNATURE_PREFIX +:+ hex_encode mutated))))
      (mutations digest)
    && is_ok (Crypto.verify_signature "secret" payload valid)))).

Definition plaintext_mode_round_trips_and_hides_the_secret : bool :=
  let cipher := Crypto.Plaintext in
  negb (Crypto.is_encrypting cipher)
  && expect_ok (Crypto.seal cipher "" "s3cr3t") (fun sealed =>
       bool_decide (is_Some (Str.strip_prefix Crypto.PLAINTEXT_PREFIX sealed))
       && negb (has_text "s3cr3t" sealed) && (Crypto.open cipher sealed == Ok "s3cr3t")).

(** The two nonces drawn. *)
Definition sealed_mode_round_trips_with_fresh_nonces : bool :=
  expect_ok (Crypto.from_hex_key TEST_KEY) (fun cipher =>
    Crypto.is_encrypting cipher
    && expect_ok (Crypto.seal cipher (repeat_char "a" 24) "same") (fun a =>
       expect_ok (Crypto.seal cipher (repeat_char "b" 24) "same") (fun b =>
         negb (a == b) && (Crypto.open cipher a == Ok "same") && (Crypto.open cipher b == Ok "same")))).

Definition a_wrong_key_cannot_open_a_sealed_secret : bool :=
  expect_ok (Crypto.from_hex_key TEST_KEY) (fun writer =>
  expect_ok (Crypto.from_hex_key "ffeeddccbbaa99887766554433221100ffeeddccbbaa99887766554433221100") (fun other =>
  expect_ok (Crypto.seal writer (repeat_char "n" 24) "s3cr3t") (fun sealed =>
    Crypto.open other sealed == Err Crypto.DecryptionFailed))).

Definition a_malformed_key_aborts_rather_than_downgrading : bool :=
  forallb (fun bad => Crypto.from_hex_key bad == Err Crypto.InvalidKey) ["not-hex"; "00ff"; repeat_char "a" 63].

Definition malformed_stored_values_are_rejected_as_malformed : bool :=
  expect_ok (Crypto.from_hex_key TEST_KEY) (fun cipher =>
    forallb (fun malformed => Crypto.open cipher malformed == Err Crypto.MalformedCiphertext)
      [""; "garbage"; "v1.xchacha20poly1305.nodot"; "v1.plain.zz"]).

Lemma crypto_tests_pass :
  forallb id [canonical_base_is_newline_delimited; rejects_tampered_payload_and_wrong_secret;
    every_single_byte_mutation_is_rejected; plaintext_mode_round_trips_and_hides_the_secret;
    sealed_mode_round_trips_with_fresh_nonces; a_wrong_key_cannot_open_a_sealed_secret;
    a_malformed_key_aborts_rather_than_downgrading; malformed_stored_values_are_rejected_as_malformed] = true.
Proof. by vm_compute. Qed.

End Tests.
