(* ===== verification/TestsVault.v ===== *)
(** * The tests of the stateful components, on the model

    The tests of [vault_client.rs], [sync.rs] and [groups.rs], and those of
    [main.rs] and [db.rs] at the end.  The first three start an HTTP server
    that plays the Vault, in one of several versions.  Here the server is the
    transport of the environment: it reads the query of the request as the mock
    does, and answers with a body in a notation of its own, which the decoder turns
    into the records the mock would have serialised.  As in [Tests], a test is a
    boolean with the name of the test function.  Left out are the tests that only
    measure time or the number of requests in flight, and the largest data set. *)

From S2P Require Import Prelude.
From S2P Require Import RustStr.
From S2P Require Import Net.
From S2P Require Import Libs.
From S2P Require Import LibsRef.
From S2P Require Import Cache.
From S2P Require Import Crypto.
From S2P Require Import VaultClient.
From S2P Require Import DnsCache.
From S2P Require Import Config.
From S2P Require Import DbConn.
From S2P Require Import Db.
From S2P Require Import App.
From S2P Require Import Feed.
From S2P Require Import Boot.
From S2P Require Import Tests.
From Stdlib Require Import Ascii.
Import Ref App Tests.
#[local] Open Scope Z_scope.

Module TestsVault.

#[local] Infix "==" := (fun x y => bool_decide (x = y)) (at level 70, no associativity).

(** ** The mock Vault *)

(** Record [i] of the data set: a lone host. *)
Definition fixture_address (i : Z) : string :=
  "51." +:+ pretty (i `div` 256) +:+ "." +:+ pretty (i `mod` 256) +:+ ".1".

Definition api_record (address : string) : Vault.VaultApiRecord := Vault.mkVaultApiRecord address some_time false.

(** The words of a body: [array offset count], [envelope offset count pages],
    [records address ...] and [group id name]. *)
Definition number (s : string) : Z := default 0 (Str.parse_u64 s).

Definition slice (offset count : string) : list Vault.VaultApiRecord :=
  (fun i => api_record (fixture_address i)) <$> seqZ (number offset) (number count).

Definition decode_array (words : list string) : option (list Vault.VaultApiRecord) :=
  match words with
  | ["array"; offset; count] => Some (slice offset count)
  | "records" :: addresses => Some (api_record <$> addresses)
  | _ => None
  end.

#[local] Instance mock_json : Vault.JsonLib := {|
  Vault.de_ips body :=
    match Str.split " " body with
    | ["envelope"; offset; count; pages] =>
        Some (Vault.Envelope (Vault.mkIpRecordsEnvelope (slice offset count) (number pages)))
    | words => Vault.Legacy <$> decode_array words
    end;
  Vault.de_records body := decode_array (Str.split " " body);
  Vault.de_groups body :=
    match Str.split " " body with
    | ["group"; id; name] => Some [Vault.mkVaultGroup (Z.to_N (number id)) name]
    | _ => None
    end;
|}.

Inductive VaultFlavour := Envelope | IgnoresIncludeTotal | RejectsIncludeTotal.

Definition query_of (url : string) : string :=
  match Str.split_once "?" url with Some (_, q) => q | None => "" end.

Definition param (name query : string) : option Z :=
  match omap (Str.strip_prefix (name +:+ "=")) (Str.split "&" query) with
  | v :: _ => Str.parse_u64 v
  | [] => None
  end.

Definition has (name query : string) : bool := bool_decide (name +:+ "=true" ∈ Str.split "&" query).

(** How the mock answers a query over [total] records. *)
Definition answer (total : Z) (flavour : VaultFlavour) (query : string) : Vault.HttpOutcome :=
  let wants_total := has "include_total" query in
  let limit := default 50 (param "limit" query) in
  let offset := default 0 (param "offset" query) in
  let page := pretty offset +:+ " " +:+ pretty (Z.max 0 (Z.min total (offset + limit) - offset)) in
  match flavour, wants_total with
  | RejectsIncludeTotal, true => Vault.Responded 400 "error"
  | Envelope, true =>
      let total_pages := if limit =? 0 then 0 else (total + limit - 1) `div` limit in
      Vault.Responded 200 ("envelope " +:+ page +:+ " " +:+ pretty total_pages)
  | _, _ => Vault.Responded 200 ("array " +:+ page)
  end.

Definition world_of (transport : Vault.SignedRequest -> Vault.HttpOutcome) : Vault.VaultEnv :=
  Vault.mkVaultEnv (fun _ => 1000) (fun _ => transport) (fun n => n) (fun _ => true).

Definition spawn_flavoured_mock_vault (total : Z) (flavour : VaultFlavour) : Vault.VaultEnv :=
  world_of (fun rq => answer total flavour (query_of (Vault.rq_url rq))).

(** It pages, and has never heard of [include_total]. *)
Definition spawn_paginating_mock_vault (total : Z) : Vault.VaultEnv :=
  spawn_flavoured_mock_vault total IgnoresIncludeTotal.

Definition spawn_mock_vault (status : Z) (body : string) : Vault.VaultEnv :=
  world_of (fun _ => Vault.Responded status body).

Definition refused : Vault.VaultEnv := world_of (fun _ => Vault.Failed).

(** ** [vault_client.rs] *)

Definition vault_config : Config.RuntimeConfig :=
  Config.mkRuntimeConfig (Config.new []) Config.DEFAULT_SIGNATURE_MAX_AGE_SECONDS
    (Some "http://vault:3000") (Some "key") (Some "secret").

Definition build (cfg : Config.RuntimeConfig) : option Vault.VaultClient :=
  Vault.from_config (Config.vault_base_url cfg) (Config.vault_api_key cfg) (Config.vault_signing_secret cfg).

Definition with_page_size (n : Z) (c : Vault.VaultClient) : Vault.VaultClient :=
  Vault.mkVaultClient (Vault.base_url c) (Vault.api_key c) (Vault.signing_secret c) n.

(** A fetch against the mock, with the queries it has seen; a panic fails the test,
    here and below. *)
Definition fetching (page_size : option Z) (env : Vault.VaultEnv) (groups : string) (since : option Z)
    (k : result (list Vault.VaultApiRecord) Vault.VaultError -> list string -> bool) : bool :=
  expect (build vault_config) (fun client =>
    let client := match page_size with Some n => with_page_size n client | None => client end in
    let '(r, st) := Vault.fetch_ips client env groups since (Vault.mkVaultSt 0 []) in
    expect r (fun r => k r ((fun rq => query_of (Vault.rq_url rq)) <$> Vault.sent st))).

Definition fetched (page_size : option Z) (env : Vault.VaultEnv) (groups : string) (since : option Z)
    (k : list Vault.VaultApiRecord -> list string -> bool) : bool :=
  fetching page_size env groups since (fun r queries => expect_ok r (fun records => k records queries)).

(** The number of different strings in a sorted list. *)
Fixpoint groups_of (sorted : list string) : nat :=
  match sorted with
  | [] => 0
  | s :: rest =>
      match rest with
      | s' :: _ => if String.eqb s s' then groups_of rest else S (groups_of rest)
      | [] => 1
      end
  end.

(** The size of a [HashSet] of the addresses. *)
Definition distinct (records : list Vault.VaultApiRecord) : nat :=
  groups_of (merge_sort String.leb (Vault.api_target_address <$> records)).

Definition offsets_requested (queries : list string) : list Z := merge_sort Z.le (omap (param "offset") queries).

Definition urlencode_passes_through_safe_characters : bool := Vault.urlencode "g1,g2-3_a.b~c" == "g1,g2-3_a.b~c".

Definition urlencode_escapes_unsafe_characters : bool :=
  (Vault.urlencode "a b" == "a%20b") && (Vault.urlencode "a/b" == "a%2Fb").

Definition a_client_with_missing_configuration_is_none : bool :=
  match build Config.RuntimeConfig_default with None => true | Some _ => false end.

Definition a_fully_configured_client_is_built : bool :=
  match build vault_config with None => false | Some _ => true end.

Definition fetch_ips_walks_every_page_instead_of_stopping_at_vaults_default_50 : bool :=
  fetched (Some 50) (spawn_paginating_mock_vault 250) "g1" None (fun records seen =>
    (length records == 250%nat) && (distinct records == 250%nat) && (length seen == 6%nat)).

Definition a_dataset_smaller_than_one_page_costs_a_single_request : bool :=
  fetched (Some 50) (spawn_paginating_mock_vault 10) "g1" None (fun records seen =>
    (length records == 10%nat) && (length seen == 1%nat)).

Definition a_total_that_is_an_exact_multiple_of_the_page_size_terminates_correctly : bool :=
  fetched (Some 50) (spawn_paginating_mock_vault 100) "g1" None (fun records seen =>
    (length records == 100%nat) && (length seen == 3%nat)).

Definition carries (groups query : string) : bool :=
  has_text "since=1700000000" query && has_text "include_deleted=true" query
  && has_text ("groups=" +:+ groups) query.

Definition a_differential_fetch_carries_since_and_include_deleted_onto_every_page : bool :=
  fetched (Some 50) (spawn_paginating_mock_vault 120) "g1" (Some (from_secs 1700000000)) (fun records queries =>
    (length records == 120%nat) && forallb (carries "g1") queries
    && match queries with
       | [q0; q1; q2] => has_text "offset=0" q0 && has_text "offset=50" q1 && has_text "offset=100" q2
       | _ => false
       end).

Definition an_envelope_fetch_pulls_3214_records_across_four_pages_in_parallel : bool :=
  fetched None (spawn_flavoured_mock_vault 3214 Envelope) "g1" None (fun records queries =>
    (length records == 3214%nat) && (distinct records == 3214%nat) && (length queries == 4%nat)
    && (offsets_requested queries == [0; 1000; 2000; 3000])
    && (length (List.filter (has_text "include_total=true") queries) == 1%nat)).

Definition a_single_page_envelope_costs_one_request_and_spawns_no_parallel_work : bool :=
  fetched None (spawn_flavoured_mock_vault 10 Envelope) "g1" None (fun records seen =>
    (length records == 10%nat) && (length seen == 1%nat)).

Definition an_empty_envelope_reporting_zero_pages_issues_no_follow_up_requests : bool :=
  fetched None (spawn_flavoured_mock_vault 0 Envelope) "g1" None (fun records seen =>
    (length records == 0%nat) && (length seen == 1%nat)).

Definition parallel_pages_each_carry_since_include_deleted_and_groups : bool :=
  fetched None (spawn_flavoured_mock_vault 2500 Envelope) "g1,g2" (Some (from_secs 1700000000))
    (fun records queries =>
      (length records == 2500%nat) && (length queries == 3%nat) && forallb (carries "g1,g2") queries).

Definition a_vault_that_rejects_include_total_with_400_falls_back_to_sequential_paging : bool :=
  fetched (Some 50) (spawn_flavoured_mock_vault 120 RejectsIncludeTotal) "g1" None (fun records queries =>
    (length records == 120%nat) && (length queries == 4%nat)
    && match queries with
       | q0 :: rest => has_text "include_total=true" q0 && forallb (fun q => negb (has_text "include_total" q)) rest
       | [] => false
       end
    && (offsets_requested queries == [0; 0; 50; 100])).

Definition a_vault_that_ignores_include_total_reuses_page_one_and_pages_on_sequentially : bool :=
  fetched (Some 50) (spawn_flavoured_mock_vault 120 IgnoresIncludeTotal) "g1" None (fun records queries =>
    (length records == 120%nat) && (distinct records == 120%nat) && (length queries == 3%nat)
    && (offsets_requested queries == [0; 50; 100])).

Definition a_short_legacy_first_page_completes_without_a_second_request : bool :=
  fetched (Some 50) (spawn_flavoured_mock_vault 10 IgnoresIncludeTotal) "g1" None (fun records seen =>
    (length records == 10%nat) && (length seen == 1%nat)).

Definition is_status (code : Z) (e : Vault.VaultError) : bool :=
  match e with Vault.Status s => s == code | _ => false end.

Definition is_request_error (e : Vault.VaultError) : bool :=
  match e with Vault.Request => true | _ => false end.

Definition fetch_fails (env : Vault.VaultEnv) (p : Vault.VaultError -> bool) : bool :=
  fetching None env "g1" None (fun r _ => expect_err r p).

Definition a_401_from_vault_is_reported_as_a_status_error_naming_401 : bool :=
  fetch_fails (spawn_mock_vault 401 "error") (is_status 401).

Definition a_403_from_vault_is_reported_as_a_status_error_naming_403 : bool :=
  fetch_fails (spawn_mock_vault 403 "error") (is_status 403).

Definition a_500_from_vault_is_reported_as_a_status_error : bool :=
  fetch_fails (spawn_mock_vault 500 "error") (is_status 500).

Definition a_malformed_json_body_on_an_otherwise_successful_response_is_a_request_error : bool :=
  fetch_fails (spawn_mock_vault 200 "not a list") is_request_error.

Definition a_successful_response_with_valid_records_is_ok : bool :=
  fetched None (spawn_mock_vault 200 "records 8.8.8.8/32") "g1" None (fun records _ =>
    (Vault.api_target_address <$> records) == ["8.8.8.8/32"]).

Definition list_groups_parses_a_successful_response : bool :=
  expect (build vault_config) (fun client =>
    let env := spawn_mock_vault 200 "group 7 pfBlocker_Blacklist" in
    expect_ok (Vault.list_groups client env (Vault.mkVaultSt 0 [])).1 (fun groups =>
      match groups with
      | [g] => (Vault.vg_id g == 7%N) && (Vault.vg_name g == "pfBlocker_Blacklist")
      | _ => false
      end)).

Definition a_refused_connection_is_a_request_error_not_a_status_error : bool := fetch_fails refused is_request_error.

Lemma vault_client_tests_pass :
  forallb id [urlencode_passes_through_safe_characters; urlencode_escapes_unsafe_characters;
    a_client_with_missing_configuration_is_none; a_fully_configured_client_is_built;
    fetch_ips_walks_every_page_instead_of_stopping_at_vaults_default_50;
    a_dataset_smaller_than_one_page_costs_a_single_request;
    a_total_that_is_an_exact_multiple_of_the_page_size_terminates_correctly;
    a_differential_fetch_carries_since_and_include_deleted_onto_every_page;
    an_envelope_fetch_pulls_3214_records_across_four_pages_in_parallel;
    a_single_page_envelope_costs_one_request_and_spawns_no_parallel_work;
    an_empty_envelope_reporting_zero_pages_issues_no_follow_up_requests;
    parallel_pages_each_carry_since_include_deleted_and_groups;
    a_vault_that_rejects_include_total_with_400_falls_back_to_sequential_paging;
    a_vault_that_ignores_include_total_reuses_page_one_and_pages_on_sequentially;
    a_short_legacy_first_page_completes_without_a_second_request;
    a_401_from_vault_is_reported_as_a_status_error_naming_401;
    a_403_from_vault_is_reported_as_a_status_error_naming_403; a_500_from_vault_is_reported_as_a_status_error;
    a_malformed_json_body_on_an_otherwise_successful_response_is_a_request_error;
    a_successful_response_with_valid_records_is_ok; list_groups_parses_a_successful_response;
    a_refused_connection_is_a_request_error_not_a_status_error] = true.
Proof. by vm_compute. Qed.

(** ** [sync.rs] *)

(** The clocks of a test move by a nanosecond a step. *)
Definition test_tick (env : Vault.VaultEnv) (j : nat) : Tick := {|
  wall := at_ 12 0 0 + Z.of_nat j;
  mono := Z.of_nat j;
  db_faults _ := false;
  fresh_uuid := 1000 + N.of_nat j;
  random n := repeat_char "r" n;
  dns _ := server 0;
  vault := env;
|}.

Definition test_state (cfg : Config.RuntimeConfig) : AppConfig := app_config cfg Crypto.Plaintext.

Definition test_endpoint (last_synced_at : option Z) : Db.Endpoint :=
  Db.mkEndpoint 10 None "Resilience Test" None "token" "g1" 1 0 None false false false last_synced_at
    (at_ 12 0 0) (at_ 12 0 0).

(** A database with the endpoint, and nothing cached yet. *)
Definition test_world (ep : Db.Endpoint) : World :=
  initial_world (Db.insert_endpoint ep Db.empty_db).2 vault_config 0.

Definition seed_record (address : string) : Cache.VaultRecord := Cache.mkVaultRecord address (at_ 12 0 0) false.

Definition with_diff (w : World) (addresses : list string) : World :=
  set_cache w (Cache.apply_diff (ip_cache w) 10%N (seed_record <$> addresses)).

Definition with_full (w : World) (addresses : list string) : World :=
  set_cache w (Cache.apply_full 0 (ip_cache w) 10%N (seed_record <$> addresses)).

Definition cached (w : World) (k : list string -> bool) : bool := expect (shown (Cache.snapshot (ip_cache w) 10%N 0)) k.

Definition hits (w : World) : nat := length (Vault.sent (vault_state w)).

Definition reloaded (w : World) : option Z := Db.endpoints (db w) !! 10%N ≫= Db.e_last_synced_at.

(** [sync_endpoint] with the client of the state. *)
Definition synced (env : Vault.VaultEnv) (ep : Db.Endpoint) (w : World) (k : World -> bool) : bool :=
  expect (vault_client (test_state vault_config)) (fun client =>
    let '(r, w', _) := run (test_tick env) 0 (Sync.sync_endpoint client ep) w in expect r (fun _ => k w')).

(** [run_boot_sync], with a budget it does not exhaust. *)
Definition booted (env : Vault.VaultEnv) (w : World) (k : World -> bool) : bool :=
  let '(r, w', _) := run (test_tick env) 0 (Sync.run_boot_sync (test_state vault_config) 100) w in
  expect r (fun _ => k w').

Definition map_records_preserves_deletion_state : bool :=
  match Sync.map_records [Vault.mkVaultApiRecord "10.0.0.1/32" (at_ 12 0 0) true] with
  | r :: _ => Cache.is_deleted r
  | [] => false
  end.

Definition a_full_sync_replaces_the_cache_and_purges_records_vault_no_longer_lists : bool :=
  let ep := test_endpoint None in
  let w := with_diff (test_world ep) ["203.0.113.10/32"; "198.51.100.99/32"; "192.0.2.50/32"] in
  cached w (fun l => length l == 3%nat)
  && Cache.full_sync_due 0 (ip_cache w) 10%N Sync.FULL_SYNC_INTERVAL
  && synced (spawn_mock_vault 200 "records 203.0.113.10/32 203.0.113.11/32") ep w (fun w' =>
       cached w' (fun l => bool_decide (l ≡ₚ ["203.0.113.10/32"; "203.0.113.11/32"]))
       && negb (Cache.full_sync_due 100 (ip_cache w') 10%N Sync.FULL_SYNC_INTERVAL)).

Definition the_boot_sync_populates_the_cache_for_endpoints_already_in_the_database : bool :=
  let w := test_world (test_endpoint None) in
  cached w (fun l => length l == 0%nat)
  && booted (spawn_mock_vault 200 "records 203.0.113.7/32 198.51.100.9/32") w (fun w' =>
       cached w' (fun l => length l == 2%nat)).

Definition the_boot_sync_returns_normally_when_vault_is_unreachable : bool :=
  booted refused (test_world (test_endpoint None)) (fun w => cached w (fun l => length l == 0%nat)).

(** It returns at once: it takes no step. *)
Definition the_boot_sync_is_a_no_op_without_a_configured_vault : bool :=
  let '(r, w, steps) := run (test_tick refused) 0 (Sync.run_boot_sync (test_state Config.RuntimeConfig_default) 100)
                          (test_world (test_endpoint None)) in
  expect r (fun _ => (steps == 0%nat) && cached w (fun l => length l == 0%nat)).

Definition the_worker_does_not_repeat_the_work_the_boot_sync_just_did : bool :=
  let env := spawn_mock_vault 200 "records 203.0.113.7/32" in
  let '(r, w, i) := run (test_tick env) 0 (Sync.run_boot_sync (test_state vault_config) 100)
                      (test_world (test_endpoint None)) in
  let '(r', w', _) := run (test_tick env) i (Sync.sync_all_endpoints (test_state vault_config)) w in
  expect r (fun _ => expect r' (fun _ => (hits w == 1%nat) && (hits w' == hits w))).

Definition full_sync_against_401_does_not_panic_and_leaves_an_empty_cache_empty : bool :=
  let ep := test_endpoint None in
  synced (spawn_mock_vault 401 "error") ep (test_world ep) (fun w => cached w (fun l => length l == 0%nat)).

Definition an_hour_ago : Z := at_ 11 0 0.

Definition assert_differential_sync_failure_preserves_the_cache (status : option Z) : bool :=
  let env := match status with Some s => spawn_mock_vault s "error" | None => refused end in
  let ep := test_endpoint (Some an_hour_ago) in
  let w := with_full (test_world ep) ["8.8.8.8/32"; "1.1.1.1/32"] in
  cached w (fun before => (length before == 2%nat)
    && synced env ep w (fun w' =>
         cached w' (fun after => bool_decide (after ≡ₚ before)) && (reloaded w' == Some an_hour_ago))).

Definition differential_sync_against_401_preserves_the_cache : bool :=
  assert_differential_sync_failure_preserves_the_cache (Some 401).

Definition differential_sync_against_403_preserves_the_cache : bool :=
  assert_differential_sync_failure_preserves_the_cache (Some 403).

Definition differential_sync_against_500_preserves_the_cache : bool :=
  assert_differential_sync_failure_preserves_the_cache (Some 500).

Definition differential_sync_against_a_total_connection_failure_preserves_the_cache : bool :=
  assert_differential_sync_failure_preserves_the_cache None.

Definition differential_sync_against_a_healthy_vault_actually_updates_the_cache : bool :=
  let ep := test_endpoint (Some an_hour_ago) in
  synced (spawn_mock_vault 200 "records 9.9.9.9/32") ep (with_full (test_world ep) ["8.8.8.8/32"]) (fun w =>
    cached w (fun l => length l == 2%nat) && expect (reloaded w) (fun t => an_hour_ago <? t)).

Lemma sync_tests_pass :
  forallb id [map_records_preserves_deletion_state;
    a_full_sync_replaces_the_cache_and_purges_records_vault_no_longer_lists;
    the_boot_sync_populates_the_cache_for_endpoints_already_in_the_database;
    the_boot_sync_returns_normally_when_vault_is_unreachable;
    the_boot_sync_is_a_no_op_without_a_configured_vault;
    the_worker_does_not_repeat_the_work_the_boot_sync_just_did;
    full_sync_against_401_does_not_panic_and_leaves_an_empty_cache_empty;
    differential_sync_against_401_preserves_the_cache; differential_sync_against_403_preserves_the_cache;
    differential_sync_against_500_preserves_the_cache;
    differential_sync_against_a_total_connection_failure_preserves_the_cache;
    differential_sync_against_a_healthy_vault_actually_updates_the_cache] = true.
Proof. by vm_compute. Qed.

(** ** [groups.rs] *)

(** A key, and a grant to it; [id] numbers both. *)
Definition insert_key (id : Uuid) (d : Db.Database) : Db.Database :=
  (Db.insert_key (Db.mkApiKey id "Cleanup Test Key" "clnup123" (uuid_show id) None None false false None None 0 0) d).2.

Definition insert_grant (id vault_group_id : Uuid) (name : string) (d : Db.Database) : Db.Database :=
  (Db.insert_grant (Db.mkVaultGroupPermission id id vault_group_id name 0) (insert_key id d)).2.

(** What a cleanup leaves of the grants. *)
Definition cleaned (env : Vault.VaultEnv) (cfg : Config.RuntimeConfig) (d : Db.Database)
    (k : list Db.VaultGroupPermission -> bool) : bool :=
  k (Db.rows (Db.vault_group_permissions (db
    (after (test_tick env) (Sync.cleanup_stale_group_permissions (test_state cfg)) (initial_world d cfg 0))))).

Definition one_grant : Db.Database := insert_grant 1 7 "some_group" Db.empty_db.

(** Without the base URL there is no client. *)
Definition no_url : Config.RuntimeConfig :=
  Config.mkRuntimeConfig (Config.new []) Config.DEFAULT_SIGNATURE_MAX_AGE_SECONDS None (Some "key") (Some "secret").

Definition without_a_configured_vault_client_nothing_is_touched : bool :=
  cleaned refused no_url one_grant (fun remaining => length remaining == 1%nat).

Definition an_unreachable_vault_leaves_every_grant_untouched : bool :=
  cleaned (spawn_mock_vault 500 "") vault_config one_grant (fun remaining => length remaining == 1%nat).

Definition a_403_forbidden_from_vault_leaves_every_grant_untouched : bool :=
  cleaned (spawn_mock_vault 403 "") vault_config one_grant (fun remaining => length remaining == 1%nat).

Definition a_grant_for_a_group_vault_still_has_survives : bool :=
  cleaned (spawn_mock_vault 200 "group 7 still_here") vault_config (insert_grant 1 7 "still_here" Db.empty_db)
    (fun remaining => length remaining == 1%nat).

Definition a_grant_for_a_group_vault_no_longer_has_is_removed : bool :=
  let d := insert_grant 2 8 "still_here" (insert_grant 1 7 "deleted_in_vault" Db.empty_db) in
  (length (Db.rows (Db.vault_group_permissions d)) == 2%nat)
  && cleaned (spawn_mock_vault 200 "group 8 still_here") vault_config d
    (fun remaining => (Db.g_vault_group_id <$> remaining) == [8%N]).

Lemma groups_tests_pass :
  forallb id [without_a_configured_vault_client_nothing_is_touched;
    an_unreachable_vault_leaves_every_grant_untouched; a_403_forbidden_from_vault_leaves_every_grant_untouched;
    a_grant_for_a_group_vault_still_has_survives; a_grant_for_a_group_vault_no_longer_has_is_removed] = true.
Proof. by vm_compute. Qed.

(** ** [main.rs] *)

Definition KEY_A : string := "0f1e2d3c4b5a69780f1e2d3c4b5a69780f1e2d3c4b5a69780f1e2d3c4b5a6978".

Definition key_b : string := repeat_char "f" 64.

(** A process on a migrated database without rows; the environment is empty. *)
Definition fresh_db : World := initial_world Db.empty_db Config.RuntimeConfig_default 0.

Definition bootstrapped (cipher : Crypto.SecretCipher) (k : World -> bool) : bool :=
  let '(r, w, _) := run (test_tick refused) 0 (Boot.bootstrap_master_key (fun _ => None) cipher None) fresh_db in
  is_ok r && k w.

Definition canary (cipher : Crypto.SecretCipher) (w : World) : result unit Boot.BootError :=
  outcome (test_tick refused) (Boot.verify_encryption_key cipher) w.

Definition a_freshly_bootstrapped_master_passes_the_canary_check : bool :=
  expect_ok (Crypto.from_hex_key KEY_A) (fun cipher => bootstrapped cipher (fun w => is_ok (canary cipher w))).

Definition a_mismatched_key_is_refused_after_restart_not_silently_accepted : bool :=
  expect_ok (Crypto.from_hex_key KEY_A) (fun sealing_cipher => bootstrapped sealing_cipher (fun w =>
  expect_ok (Crypto.from_hex_key key_b) (fun wrong_cipher =>
    expect_err (canary wrong_cipher w) (fun err =>
      match err with Boot.EncryptionKeyMismatch _ => true | _ => false end)))).

Definition plaintext_mode_is_unaffected_by_the_canary_check : bool :=
  bootstrapped Crypto.Plaintext (fun w => is_ok (canary Crypto.Plaintext w)).

Definition no_master_row_is_not_this_checks_problem_to_report : bool :=
  expect_ok (Crypto.from_hex_key KEY_A) (fun cipher => is_ok (canary cipher fresh_db)).

Lemma main_tests_pass :
  forallb id [a_freshly_bootstrapped_master_passes_the_canary_check;
    a_mismatched_key_is_refused_after_restart_not_silently_accepted;
    plaintext_mode_is_unaffected_by_the_canary_check;
    no_master_row_is_not_this_checks_problem_to_report] = true.
Proof. by vm_compute. Qed.

(** ** [db.rs] *)

Definition foreign_keys_are_enforced : bool :=
  negb (is_ok (Db.insert_endpoint
    (Db.mkEndpoint 1 (Some 2%N) "orphan" None "tok" "g1" 3600 0 None false false false None 0 0) Db.empty_db).1).

Definition index_catalog_query_covers_every_known_backend : bool :=
  forallb (fun backend => is_ok (DbConn.index_catalog_query backend)) [DbConn.Sqlite; DbConn.Postgres; DbConn.MySql].

Lemma db_tests_pass :
  forallb id [foreign_keys_are_enforced; index_catalog_query_covers_every_known_backend] = true.
Proof. by vm_compute. Qed.

End TestsVault.
